(** * TALON: the transcript-identification engine of [talon/talon.py]

    A shallow embedding of the classifier, the gene tie-breaking, the batch
    committer, the output listener and the identifier counters, with the
    properties of the specification settled against them.

    Conventions of the embedding.
    - Python integers are [Z]; the multiprocessing value of typecode "i"
      behind a [Counter] is a signed 32-bit C integer, its wrap-around is
      written out in [c_int].
    - Strands, end types and edge types are the two-valued strings the code
      compares against; they are enumerations here, so the [ValueError]
      branches for other strings have no counterpart.
    - Dictionaries whose iteration order is observable (the transcript dict,
      the per-gene start and end positions) are association lists in
      insertion order; the others are [gmap]s.
    - Python exceptions are the left summand of [result]. *)

From Stdlib Require Import Ascii String.
From stdpp Require Import gmap strings list fin_maps pretty.

Open Scope Z_scope.

(** ** Enumerations *)

Inductive strand := Plus | Minus.
Inductive pos_type := Start | End.
Inductive edge_type := Exon | Intron.

#[global] Instance strand_eq_dec : EqDecision strand.
Proof. solve_decision. Defined.
#[global] Instance pos_type_eq_dec : EqDecision pos_type.
Proof. solve_decision. Defined.
#[global] Instance edge_type_eq_dec : EqDecision edge_type.
Proof. solve_decision. Defined.

#[global] Instance edge_type_countable : Countable edge_type.
Proof.
  refine (inj_countable' (λ t, match t with Exon => true | Intron => false end)
                         (λ b : bool, if b then Exon else Intron) _).
  by intros [].
Defined.

Definition opposite (s : strand) : strand :=
  match s with Plus => Minus | Minus => Plus end.

(** ** Exceptions *)

Inductive exn :=
| IndexError
| KeyError
| TypeError
| AttributeError
| RuntimeError (msg : string)
| OperationalError (table : string)
| SystemExit (code : Z).

Definition result (A : Type) : Type := exn + A.

(** ** Python lists: indexing, slices, sums *)

Module Py.

(** [l[i]] for [i >= 0] and [l[-1]], [l[-2]]. *)
Definition index {A} (l : list A) (i : nat) : result A :=
  match l !! i with Some x => inr x | None => inl IndexError end.

Definition index_back {A} (l : list A) (i : nat) : result A :=
  index (reverse l) i.

(** [l[::2]] and [l[1::2]]. *)
Fixpoint evens {A} (l : list A) : list A :=
  match l with
  | [] => []
  | x :: l' => x :: match l' with [] => [] | _ :: l'' => evens l'' end
  end.

Definition odds {A} (l : list A) : list A := evens (tail l).

(** [l[1:-1]]. *)
Definition interior {A} (l : list A) : list A := removelast (tail l).

Definition sum (l : list Z) : Z := foldr Z.add 0 l.

Definition len {A} (l : list A) : Z := Z.of_nat (length l).

(** [sep.join(parts)]. *)
Fixpoint join (sep : string) (parts : list string) : string :=
  match parts with
  | [] => ""
  | [p] => p
  | p :: rest => p +:+ sep +:+ join sep rest
  end.

Definition str (z : Z) : string := pretty z.

Definition startswith (s p : string) : bool := String.prefix p s.

Definition endswith (s p : string) : bool :=
  let n := String.length s in
  let k := String.length p in
  if (k <=? n)%nat then String.eqb (String.substring (n - k) k s) p else false.

(** Truthiness of the two kinds of values the novelty checks return. *)
Inductive flag := Int (z : Z) | Bool (b : bool).

Definition truthy (f : flag) : bool :=
  match f with Int z => negb (z =? 0) | Bool b => b end.

End Py.

(** ** Novelty predicates over the interior edges (talon.py 531-580) *)

Definition check_all_exons_known (novelty : list Z) : bool :=
  match novelty with
  | [x] => x =? 0
  | _ => if Py.sum (Py.odds novelty) >? 0 then false else true
  end.

Definition check_all_exons_novel (novelty : list Z) : Py.flag :=
  match novelty with
  | [_] => Py.Int 0
  | _ =>
      let exons := Py.odds novelty in
      if negb (Py.sum exons =? Py.len exons) then Py.Bool false else Py.Bool true
  end.

Definition check_all_SJs_known (novelty : list Z) : bool :=
  match novelty with
  | [x] => x =? 0
  | _ => if Py.sum (Py.evens novelty) >? 0 then false else true
  end.

(** The guard of the NNC branch of [identify_transcript] (talon.py 1741). *)
Definition NNC_guard (splice_vertices_known fusion : bool) (e_novelty : list Z) : bool :=
  negb splice_vertices_known && negb fusion
  && negb (Py.truthy (check_all_exons_novel e_novelty)).

(** ** Gene inference from vertex membership (talon.py 1213-1300) *)

Inductive gene_assignment :=
| NoGene
| OneGene (g : Z)
| GeneCandidates (gs : list Z).

#[global] Instance gene_assignment_eq_dec : EqDecision gene_assignment.
Proof. solve_decision. Defined.

(** The same-strand entries of [vertex_2_gene[vertex]]. *)
Definition strand_matches (s : strand) (curr_matches : list (Z * strand)) : list (Z * strand) :=
  filter (λ m, m.2 = s) curr_matches.

(** The loop over [vertex_IDs]: the genes met, with repetition, and for each
    vertex present in the index the number of same-strand genes using it. *)
Fixpoint collect_gene_matches (vertex_IDs : list Z) (s : strand)
    (vertex_2_gene : gmap Z (list (Z * strand))) : list Z * list nat :=
  match vertex_IDs with
  | [] => ([], [])
  | vertex :: rest =>
      let '(gene_matches, n_gene_matches) := collect_gene_matches rest s vertex_2_gene in
      match vertex_2_gene !! vertex with
      | Some curr_matches =>
          let matches := strand_matches s curr_matches in
          ((matches.*1) ++ gene_matches, length matches :: n_gene_matches)
      | None => (gene_matches, n_gene_matches)
      end
  end.

(** [gene_matches.count(x)]. *)
Definition count_occ_Z (l : list Z) (x : Z) : nat := length (filter (λ y, y = x) l).

(** [dict((x, gene_matches.count(x)) for x in set(gene_matches))]. The keys
    are listed here in the order of [elements]; Python lists a set in an
    order of its own, which can depend on the order of insertion. Only the
    list of candidate genes that [find_gene_match_on_vertex_basis] returns
    shows that order, and its callers use that list as a set. *)
Definition gene_tally (gene_matches : list Z) : list (Z * nat) :=
  (λ x, (x, count_occ_Z gene_matches x)) <$> elements (list_to_set gene_matches : gset Z).

(** [max(gene_tally, key=gene_tally.get)]: the first key of greatest count. *)
Fixpoint max_by_count (tally : list (Z * nat)) (best : option (Z * nat)) : option Z :=
  match tally with
  | [] => fst <$> best
  | (g, n) :: rest =>
      match best with
      | Some (_, nb) => if (nb <? n)%nat then max_by_count rest (Some (g, n))
                        else max_by_count rest best
      | None => max_by_count rest (Some (g, n))
      end
  end.

Definition find_gene_match_on_vertex_basis (vertex_IDs : list Z) (s : strand)
    (vertex_2_gene : gmap Z (list (Z * strand))) : gene_assignment * bool :=
  let '(gene_matches, n_gene_matches) := collect_gene_matches vertex_IDs s vertex_2_gene in
  let tally := gene_tally gene_matches in
  if decide (length gene_matches = 0%nat) then (NoGene, false)
  else if decide ((max_list n_gene_matches ≤ 1)%nat ∧ (1 < length tally)%nat)
       then (NoGene, true)
  else if decide (1 < length tally)%nat
       then (GeneCandidates (tally.*1), false)
  else match max_by_count tally None with
       | Some g => (OneGene g, false)
       | None => (NoGene, false)
       end.

(** ** The annotation graph store *)

Record vertex := {
  location_ID : Z;
  genome_build : string;
  v_chromosome : string;
  v_position : Z }.

Record edge := {
  edge_ID : Z;
  v1 : Z;
  v2 : Z;
  e_type : edge_type;
  e_strand : strand }.

Record transcript := {
  transcript_ID : Z;
  gene_ID : Z;
  jn_path : option string;
  start_exon : Z;
  end_exon : Z;
  start_vertex : Z;
  end_vertex : Z;
  n_exons : Z;
  chromosome : string;
  start_pos : Z;
  end_pos : Z }.

(** A row of the temporary transcript table [tmp_t]. *)
Record t_row := {
  r_gene_ID : Z;
  r_transcript_ID : Z;
  r_chromosome : string;
  r_strand : strand;
  min_pos : Z;
  max_pos : Z }.

Record run_info := {
  cutoff_5p : Z;
  cutoff_3p : Z;
  idprefix : string;
  build : string }.

(** An annotation attribute record
    [(ID, annot_name, source, attribute, value)]. *)
Definition annotation : Type := Z * string * string * string * string.

#[global] Instance vertex_eq_dec : EqDecision vertex.
Proof. solve_decision. Defined.
#[global] Instance edge_eq_dec : EqDecision edge.
Proof. solve_decision. Defined.
#[global] Instance transcript_eq_dec : EqDecision transcript.
Proof. solve_decision. Defined.
#[global] Instance t_row_eq_dec : EqDecision t_row.
Proof. solve_decision. Defined.

(** ** Identifier counters, sequential view (talon.py 40-52)

    [mp.Value("i", initval)] holds a C [int]: storing a Python integer keeps
    its low 32 bits, read back as a signed number. *)

Definition c_int (z : Z) : Z := (z + 2 ^ 31) mod 2 ^ 32 - 2 ^ 31.

Module Counter.

(** [increment]: the new stored value, which is also the value returned. *)
Definition increment (val : Z) : Z := c_int (val + 1).

End Counter.

(** ** Vertex search (talon.py 179-187, 2161-2180, 392-450) *)

Definition search_for_vertex_at_pos (chrom : string) (position : Z)
    (location_dict : gmap string (gmap Z vertex)) : option vertex :=
  location_dict !! chrom ≫= (λ by_pos, by_pos !! position).

Definition compute_delta (orig_pos new_pos : Z) (s : strand) : Z :=
  let abs_dist := Z.abs (orig_pos - new_pos) in
  match s with
  | Plus => if new_pos <? orig_pos then -1 * abs_dist else abs_dist
  | Minus => if new_pos <? orig_pos then abs_dist else -1 * abs_dist
  end.

Definition max_dist_of (pt : pos_type) (ri : run_info) : Z :=
  match pt with Start => cutoff_5p ri | End => cutoff_3p ri end.

(** [(direction_priority, search_window_start, search_window_end)]. *)
Definition search_window (position : Z) (s : strand) (sj_pos : Z) (pt : pos_type)
    (max_dist : Z) : Z * Z * Z :=
  match s, pt with
  | Plus, Start | Minus, End => (-1, position - max_dist, sj_pos)
  | _, _ => (1, sj_pos, position + max_dist)
  end.

(** One candidate position of the scan: a vertex there, if the position lies
    strictly inside the window. *)
Definition try_candidate (chrom : string) (position curr_pos : Z) (s : strand)
    (w_start w_end : Z) (locations : gmap string (gmap Z vertex)) : option (Z * Z) :=
  if bool_decide (curr_pos > w_start ∧ curr_pos < w_end) then
    match search_for_vertex_at_pos chrom curr_pos locations with
    | Some m => Some (location_ID m, compute_delta curr_pos position s)
    | None => None
    end
  else None.

(** The body of [for dist in range(1, max_dist)]. *)
Fixpoint scan_offsets (dists : list Z) (chrom : string) (position : Z) (s : strand)
    (direction_priority w_start w_end : Z)
    (locations : gmap string (gmap Z vertex)) : option (Z * Z) :=
  match dists with
  | [] => None
  | dist :: rest =>
      match try_candidate chrom position (position + dist * direction_priority) s
                          w_start w_end locations with
      | Some r => Some r
      | None =>
          match try_candidate chrom position (position - dist * direction_priority) s
                              w_start w_end locations with
          | Some r => Some r
          | None => scan_offsets rest chrom position s direction_priority
                                 w_start w_end locations
          end
      end
  end.

(** [range(a, b)]. *)
Definition range (a b : Z) : list Z := seqZ a (b - a).

Definition permissive_vertex_search (chrom : string) (position : Z) (s : strand)
    (sj_pos : Z) (pt : pos_type) (locations : gmap string (gmap Z vertex))
    (ri : run_info) : option Z * option Z :=
  match search_for_vertex_at_pos chrom position locations with
  | Some m => (Some (location_ID m), Some 0)
  | None =>
      let max_dist := max_dist_of pt ri in
      let '(direction_priority, w_start, w_end) :=
        search_window position s sj_pos pt max_dist in
      match scan_offsets (range 1 max_dist) chrom position s direction_priority
                         w_start w_end locations with
      | Some (m, dist) => (Some m, Some dist)
      | None => (None, None)
      end
  end.

(** ** Gene tie-break by genomic overlap (talon.py 665-765) *)

Definition sys_maxsize : Z := 2 ^ 63 - 1.

Definition end_distance (m : t_row) (min_end max_end : Z) : Z :=
  Z.abs (max_pos m - max_end) + Z.abs (min_pos m - min_end).

(** The loop of [get_best_match], carrying [(min_dist, best_match)]. *)
Fixpoint best_match_loop (matches : list t_row) (min_end max_end : Z)
    (min_dist : Z) (best_match : option t_row) : option t_row :=
  match matches with
  | [] => best_match
  | m :: rest =>
      let dist := end_distance m min_end max_end in
      if dist <? min_dist then best_match_loop rest min_end max_end dist (Some m)
      else best_match_loop rest min_end max_end min_dist best_match
  end.

(** The final [logging.debug] subscripts [best_match]: with no match kept it
    raises [TypeError]. *)
Definition get_best_match (matches : list t_row) (min_end max_end : Z) : result t_row :=
  match best_match_loop matches min_end max_end sys_maxsize None with
  | Some m => inr m
  | None => inl TypeError
  end.

(** The [WHERE] clause of the query without candidate genes. *)
Definition overlap_where (chrom : string) (min_start max_end : Z) (r : t_row) : bool :=
  bool_decide (r_chromosome r = chrom)
  && ((min_pos r <=? min_start) && (max_pos r >=? max_end)
      || (min_pos r >=? min_start) && (max_pos r <=? max_end)
      || (min_pos r >=? min_start) && (min_pos r <=? max_end)
      || (max_pos r >=? min_start) && (max_pos r <=? max_end)).

Section Overlap.

(** [GROUP BY gene_ID] with bare columns: the engine reports each group by one
    of its rows, which one is its own choice. *)
Variable sql_group_by_gene : list t_row → list t_row.

(** The rows fetched by the query, then restricted to the candidates. *)
Definition overlap_query (chrom : string) (min_start max_end : Z)
    (table : list t_row) (gene_IDs : option (list Z)) : list t_row :=
  let fetched :=
    match gene_IDs with
    | Some gs => filter (λ r, r_gene_ID r ∈ gs) table
    | None => sql_group_by_gene (filter (λ r, overlap_where chrom min_start max_end r = true) table)
    end in
  match gene_IDs with
  | Some (g :: gs) => filter (λ r, r_gene_ID r ∈ g :: gs) fetched
  | _ => fetched
  end.

Definition search_for_overlap_with_gene (chrom : string) (start end_ : Z) (s : strand)
    (table : list t_row) (gene_IDs : option (list Z)) : result (option Z * option strand) :=
  let min_start := Z.min start end_ in
  let max_end := Z.max start end_ in
  let matches := overlap_query chrom min_start max_end table gene_IDs in
  if decide (length matches = 0%nat) then inr (None, None)
  else
    let same_strand_matches := length (filter (λ x, r_strand x = s) matches) in
    let kept :=
      if bool_decide (s = Plus ∧ (0 < same_strand_matches)%nat
                      ∨ s = Minus ∧ same_strand_matches = 0%nat)
      then filter (λ x, r_strand x = Plus) matches
      else filter (λ x, r_strand x = Minus) matches in
    match get_best_match kept min_start max_end with
    | inr best_match => inr (Some (r_gene_ID best_match), Some (r_strand best_match))
    | inl e => inl e
    end.

End Overlap.

(** ** The mutable state of one worker, and the monad threading it

    The dictionaries the classifier receives by reference and updates in
    place, the temporary transcript table behind the cursor, and the three
    counters the modelled functions draw from. *)

Record store := {
  location_dict : gmap string (gmap Z vertex);
  edge_dict : gmap (Z * Z * edge_type) edge;
  transcript_dict : list (gset Z * transcript);
  tmp_t : list t_row;
  vertex_counter : Z;
  edge_counter : Z;
  transcript_counter : Z }.

Definition M (A : Type) : Type := store → result (A * store).

Definition ret {A} (a : A) : M A := λ st, inr (a, st).

Definition bind {A B} (m : M A) (k : A → M B) : M B :=
  λ st, match m st with
        | inl e => inl e
        | inr (a, st') => k a st'
        end.

Definition lift {A} (r : result A) : M A :=
  λ st, match r with inl e => inl e | inr a => inr (a, st) end.

Definition gets {A} (f : store → A) : M A := λ st, inr (f st, st).

Notation "'do' x <- m ; k" := (bind m (λ x, k))
  (at level 10, x name, m at level 100, k at level 200).
Notation "'do' ' p <- m ; k" := (bind m (λ x, match x with p => k end))
  (at level 10, p pattern, m at level 100, k at level 200).

(** ** Creating and matching vertices and edges (talon.py 190-196, 453-472, 610-620) *)

Definition search_for_edge (vertex_1 vertex_2 : Z) (et : edge_type)
    (edges : gmap (Z * Z * edge_type) edge) : option edge :=
  edges !! (vertex_1, vertex_2, et).

Definition create_vertex (chrom : string) (position : Z) (ri : run_info) : M vertex :=
  λ st,
    let new_ID := Counter.increment (vertex_counter st) in
    let new_vertex := {| location_ID := new_ID; genome_build := build ri;
                         v_chromosome := chrom; v_position := position |} in
    let by_pos := match location_dict st !! chrom with
                  | Some d => <[position := new_vertex]> d
                  | None => {[position := new_vertex]}
                  end in
    inr (new_vertex,
         {| location_dict := <[chrom := by_pos]> (location_dict st);
            edge_dict := edge_dict st;
            transcript_dict := transcript_dict st;
            tmp_t := tmp_t st;
            vertex_counter := new_ID;
            edge_counter := edge_counter st;
            transcript_counter := transcript_counter st |}).

Definition create_edge (vertex_1 vertex_2 : Z) (et : edge_type) (s : strand) : M edge :=
  λ st,
    let new_ID := Counter.increment (edge_counter st) in
    let new_edge := {| edge_ID := new_ID; v1 := vertex_1; v2 := vertex_2;
                       e_type := et; e_strand := s |} in
    inr (new_edge,
         {| location_dict := location_dict st;
            edge_dict := <[(vertex_1, vertex_2, et) := new_edge]> (edge_dict st);
            transcript_dict := transcript_dict st;
            tmp_t := tmp_t st;
            vertex_counter := vertex_counter st;
            edge_counter := new_ID;
            transcript_counter := transcript_counter st |}).

(** Returns [(edge_ID, novelty)]. *)
Definition match_or_create_edge (vertex_1 vertex_2 : Z) (et : edge_type) (s : strand)
    : M (Z * Z) :=
  do edges <- gets edge_dict;
  match search_for_edge vertex_1 vertex_2 et edges with
  | Some edge_match => ret (edge_ID edge_match, 0)
  | None => do edge_match <- create_edge vertex_1 vertex_2 et s;
            ret (edge_ID edge_match, 1)
  end.

Definition flip_edge_type (et : edge_type) : edge_type :=
  match et with Exon => Intron | Intron => Exon end.

(** The loop of [match_all_splice_edges] from index [index_1] on, where [et]
    is the type for that index. *)
Fixpoint match_edges_from (vertices : list Z) (et : edge_type) (s : strand)
    : M (list Z * list Z) :=
  match vertices with
  | vertex_1 :: (vertex_2 :: _) as rest =>
      do '(edge_match, curr_novelty) <- match_or_create_edge vertex_1 vertex_2 et s;
      do '(edge_matches, novelty) <- match_edges_from rest (flip_edge_type et) s;
      ret (edge_match :: edge_matches, curr_novelty :: novelty)
  | _ => ret ([], [])
  end.

(** talon.py 583-607: interior vertices, the first edge an intron. *)
Definition match_all_splice_edges (vertices : list Z) (s : strand) : M (list Z * list Z) :=
  match_edges_from vertices Intron s.

(** ** End matching with gene priority (talon.py 325-389, 901-934) *)

(** [d[k]] on a dictionary kept in insertion order. *)
Fixpoint alist_lookup {K V} `{EqDecision K} (k : K) (l : list (K * V)) : option V :=
  match l with
  | [] => None
  | (k', v) :: rest => if decide (k' = k) then Some v else alist_lookup k rest
  end.

(** [d[k] = v]: a present key keeps its place, a new one goes last. *)
Fixpoint alist_insert {K V} `{EqDecision K} (k : K) (v : V) (l : list (K * V))
    : list (K * V) :=
  match l with
  | [] => [(k, v)]
  | (k', v') :: rest =>
      if decide (k' = k) then (k, v) :: rest else (k', v') :: alist_insert k v rest
  end.

(** The loop over the known positions of the gene, carrying
    [(min_abs_dist, best_dist, closest_vertex)]. *)
Fixpoint closest_gene_loc (known_locations : list Z) (locs : list (Z * Z))
    (position : Z) (s : strand) (w_start w_end : Z)
    (min_abs_dist : Z) (best_dist closest_vertex : option Z)
    : Z * option Z * option Z :=
  match known_locations with
  | [] => (min_abs_dist, best_dist, closest_vertex)
  | known_location :: rest =>
      if bool_decide (known_location < w_start ∨ known_location > w_end)
      then closest_gene_loc rest locs position s w_start w_end
                            min_abs_dist best_dist closest_vertex
      else
        let curr_dist := compute_delta known_location position s in
        if Z.abs curr_dist <? min_abs_dist
        then closest_gene_loc rest locs position s w_start w_end
                              (Z.abs curr_dist) (Some curr_dist)
                              (alist_lookup known_location locs)
        else closest_gene_loc rest locs position s w_start w_end
                              min_abs_dist best_dist closest_vertex
  end.

(** Returns [(match, dist, known)]. *)
Definition permissive_match_with_gene_priority (chrom : string) (position : Z)
    (s : strand) (sj_pos : Z) (pt : pos_type) (gene : option Z)
    (gene_locs : gmap Z (list (Z * Z))) (locations : gmap string (gmap Z vertex))
    (ri : run_info) : option Z * option Z * Z :=
  let locs_of_gene := gene ≫= (λ g, gene_locs !! g) in
  match search_for_vertex_at_pos chrom position locations with
  | Some m =>
      match locs_of_gene with
      | Some locs =>
          if bool_decide (position ∈ locs.*1)
          then (Some (location_ID m), Some 0, 1)
          else (Some (location_ID m), Some 0, 0)
      | None => (Some (location_ID m), Some 0, 0)
      end
  | None =>
      let fallback :=
        let '(m, dist) := permissive_vertex_search chrom position s sj_pos pt locations ri in
        (m, dist, 0) in
      match locs_of_gene with
      | Some locs =>
          let max_dist := max_dist_of pt ri in
          let '(_, w_start, w_end) := search_window position s sj_pos pt max_dist in
          let '(min_abs_dist, best_dist, closest_vertex) :=
            closest_gene_loc (locs.*1) locs position s w_start w_end
                             (max_dist + 1) None None in
          if min_abs_dist <=? max_dist then (closest_vertex, best_dist, 1)
          else fallback
      | None => fallback
      end
  end.

(** Returns [(start_vertex, start_exon, start_novelty, known_start, diff_5p)]. *)
Definition process_5p (chrom : string) (positions : list Z) (s : strand)
    (vertex_IDs : list Z) (gene : option Z) (gene_starts : gmap Z (list (Z * Z)))
    (ri : run_info) : M (Z * Z * Z * Z * option Z) :=
  do p0 <- lift (Py.index positions 0);
  do p1 <- lift (Py.index positions 1);
  do locations <- gets location_dict;
  let '(found, diff_5p, known_start) :=
    permissive_match_with_gene_priority chrom p0 s p1 Start gene gene_starts locations ri in
  do start_vertex <- match found with
                     | Some v => ret v
                     | None => do v <- create_vertex chrom p0 ri; ret (location_ID v)
                     end;
  do first_vertex <- lift (Py.index vertex_IDs 0);
  do '(start_exon, start_novelty) <- match_or_create_edge start_vertex first_vertex Exon s;
  ret (start_vertex, start_exon, start_novelty, known_start, diff_5p).

(** Returns [(end_vertex, end_exon, end_novelty, known_end, diff_3p)]. *)
Definition process_3p (chrom : string) (positions : list Z) (s : strand)
    (vertex_IDs : list Z) (gene : option Z) (gene_ends : gmap Z (list (Z * Z)))
    (ri : run_info) : M (Z * Z * Z * Z * option Z) :=
  do p_last <- lift (Py.index_back positions 0);
  do p_before <- lift (Py.index_back positions 1);
  do locations <- gets location_dict;
  let '(found, diff_3p, known_end) :=
    permissive_match_with_gene_priority chrom p_last s p_before End gene gene_ends locations ri in
  do end_vertex <- match found with
                   | Some v => ret v
                   | None => do v <- create_vertex chrom p_last ri; ret (location_ID v)
                   end;
  do last_vertex <- lift (Py.index_back vertex_IDs 0);
  do '(end_exon, end_novelty) <- match_or_create_edge last_vertex end_vertex Exon s;
  ret (end_vertex, end_exon, end_novelty, known_end, diff_3p).

(** ** Transcripts: creation and lookup by edge set (talon.py 488-528, 650-662) *)

Definition set_transcripts (st : store) (dict : list (gset Z * transcript))
    (table : list t_row) (counter : Z) : store :=
  {| location_dict := location_dict st;
     edge_dict := edge_dict st;
     transcript_dict := dict;
     tmp_t := table;
     vertex_counter := vertex_counter st;
     edge_counter := edge_counter st;
     transcript_counter := counter |}.

(** [frozenset(edge_IDs)]. *)
Definition frozenset (edge_IDs : list Z) : gset Z := list_to_set edge_IDs.

Definition create_transcript (s : strand) (chrom : string) (start_pos_ end_pos_ : Z)
    (gene : Z) (edge_IDs vertex_IDs : list Z) : M transcript :=
  do new_ID <- (λ st, inr (Counter.increment (transcript_counter st),
                           set_transcripts st (transcript_dict st) (tmp_t st)
                                           (Counter.increment (transcript_counter st))));
  let path := if (1 <? Py.len edge_IDs)
              then Some (Py.join "," (Py.str <$> Py.interior edge_IDs))
              else None in
  do first_edge <- lift (Py.index edge_IDs 0);
  do last_edge <- lift (Py.index_back edge_IDs 0);
  do first_vertex <- lift (Py.index vertex_IDs 0);
  do last_vertex <- lift (Py.index_back vertex_IDs 0);
  let new_transcript :=
    {| transcript_ID := new_ID; gene_ID := gene; jn_path := path;
       start_exon := first_edge; end_exon := last_edge;
       start_vertex := first_vertex; end_vertex := last_vertex;
       n_exons := (Py.len edge_IDs + 1) `div` 2;
       chromosome := chrom; start_pos := start_pos_; end_pos := end_pos_ |} in
  let new_t := {| r_gene_ID := gene; r_transcript_ID := new_ID; r_chromosome := chrom;
                  r_strand := s; min_pos := Z.min start_pos_ end_pos_;
                  max_pos := Z.max start_pos_ end_pos_ |} in
  λ st, inr (new_transcript,
             set_transcripts st
               (alist_insert (frozenset edge_IDs) new_transcript (transcript_dict st))
               (tmp_t st ++ [new_t])
               (transcript_counter st)).

Definition search_for_ISM (edge_IDs : list Z) (dict : list (gset Z * transcript))
    : option (list transcript) :=
  let edges := frozenset edge_IDs in
  let ISM_matches := (filter (λ kv, edges ⊆ kv.1) dict).*2 in
  if decide (0 < length ISM_matches)%nat then Some ISM_matches else None.

(** [transcript_dict[edge_IDs]] under [try]. *)
Definition search_for_transcript (edge_IDs : gset Z) (dict : list (gset Z * transcript))
    : option Z * option transcript :=
  match alist_lookup edge_IDs dict with
  | Some t => (Some (gene_ID t), Some t)
  | None => (None, None)
  end.

(** ** Full splice matches (talon.py 826-898) *)

Record start_end_info := {
  se_start_vertex : Z;
  se_end_vertex : Z;
  se_start_exon : Z;
  se_end_exon : Z;
  se_diff_5p : option Z;
  se_diff_3p : option Z;
  se_start_novelty : Z;
  se_end_novelty : Z;
  se_vertex_IDs : list Z;
  se_edge_IDs : list Z }.

(** What a branch hands back as [start_end_info]: [None], the empty dict, or
    the filled one. *)
Inductive se_result :=
| SeNone
| SeEmpty
| SeInfo (info : start_end_info).

(** Returns [(gene_ID, transcript_ID, novelty, start_end_info)]. *)
Definition process_FSM (chrom : string) (positions : list Z) (s : strand)
    (edge_IDs vertex_IDs : list Z) (all_matches : list transcript)
    (gene_starts gene_ends : gmap Z (list (Z * Z))) (ri : run_info)
    : M (option Z * option Z * list annotation * se_result) :=
  let n := Py.len positions `div` 2 in
  let FSM_matches := filter (λ x, n_exons x = n) all_matches in
  match FSM_matches with
  | [] => ret (None, None, [], SeNone)
  | transcript_match :: _ =>
      let gene := gene_ID transcript_match in
      do p0 <- lift (Py.index positions 0);
      do p_last <- lift (Py.index_back positions 0);
      let curr_5p_diff := compute_delta (start_pos transcript_match) p0 s in
      let curr_3p_diff := compute_delta (end_pos transcript_match) p_last s in
      do '(start_v, start_e, start_novelty, diff_5p) <-
        (if Z.abs curr_5p_diff <=? cutoff_5p ri
         then ret (start_vertex transcript_match, start_exon transcript_match,
                   0, Some curr_5p_diff)
         else do '(v, e, nov, _, d) <-
                process_5p chrom positions s vertex_IDs (Some gene) gene_starts ri;
              ret (v, e, nov, d));
      do '(end_v, end_e, end_novelty, diff_3p) <-
        (if Z.abs curr_3p_diff <=? cutoff_3p ri
         then ret (end_vertex transcript_match, end_exon transcript_match,
                   0, Some curr_3p_diff)
         else do '(v, e, nov, _, d) <-
                process_3p chrom positions s vertex_IDs (Some gene) gene_ends ri;
              ret (v, e, nov, d));
      ret (Some gene, Some (transcript_ID transcript_match), [],
           SeInfo {| se_start_vertex := start_v; se_end_vertex := end_v;
                     se_start_exon := start_e; se_end_exon := end_e;
                     se_diff_5p := diff_5p; se_diff_3p := diff_3p;
                     se_start_novelty := start_novelty; se_end_novelty := end_novelty;
                     se_vertex_IDs := [start_v] ++ vertex_IDs ++ [end_v];
                     se_edge_IDs := [start_e] ++ edge_IDs ++ [end_e] |})
  end.

(** ** Incomplete splice matches (talon.py 937-1072) *)

(** How the loop over the matches ends: by the early [return] of the
    single-exon case, or with the three lists and the gene. *)
Inductive ism_loop :=
| IsmReturn (gene tid : Z)
| IsmDone (ISM prefix suffix : list string) (gene : Z).

Fixpoint characterize_ISMs (matches : list transcript) (n : Z) (edge_IDs : list Z)
    (gene : Z) (ISM prefix suffix : list string) : result ism_loop :=
  match matches with
  | [] => inr (IsmDone ISM prefix suffix gene)
  | m :: rest =>
      let tid := Py.str (transcript_ID m) in
      let ISM := ISM ++ [tid] in
      if n =? 1 then
        if n_exons m =? 1 then inr (IsmReturn (gene_ID m) (transcript_ID m))
        else
          match Py.index edge_IDs 0 with
          | inl e => inl e
          | inr e0 =>
              match jn_path m with
              | None => inl AttributeError
              | Some match_path =>
                  let exon := Py.str e0 in
                  let prefix := if Py.startswith match_path exon
                                then prefix ++ [tid] else prefix in
                  if Py.endswith match_path exon
                  then characterize_ISMs rest n edge_IDs (gene_ID m) ISM prefix
                                         (suffix ++ [tid])
                  else characterize_ISMs rest n edge_IDs gene ISM prefix suffix
              end
          end
      else
        let edge_str := Py.join "," (Py.str <$> Py.interior edge_IDs) in
        match jn_path m with
        | None => inl AttributeError
        | Some match_path =>
            let prefix := if Py.startswith match_path edge_str
                          then prefix ++ [tid] else prefix in
            if Py.endswith match_path edge_str
            then characterize_ISMs rest n edge_IDs (gene_ID m) ISM prefix
                                   (suffix ++ [tid])
            else characterize_ISMs rest n edge_IDs gene ISM prefix suffix
        end
  end.

(** The annotation rows of a transcript labelled ISM. *)
Definition ISM_novelty (tid : Z) (ri : run_info) (ISM prefix suffix : list string)
    : list annotation :=
  [(tid, idprefix ri, "TALON", "ISM_transcript", "TRUE");
   (tid, idprefix ri, "TALON", "ISM_to_IDs", Py.join "," ISM)]
  ++ (if decide (prefix ≠ [])
      then [(tid, idprefix ri, "TALON", "ISM-prefix_transcript", "TRUE");
            (tid, idprefix ri, "TALON", "ISM-prefix_to_IDs", Py.join "," prefix)]
      else [])
  ++ (if decide (suffix ≠ [])
      then [(tid, idprefix ri, "TALON", "ISM-suffix_transcript", "TRUE");
            (tid, idprefix ri, "TALON", "ISM-suffix_to_IDs", Py.join "," suffix)]
      else []).

Section ISM.

Variable sql_group_by_gene : list t_row → list t_row.

(** The gene the read goes to, and the matches kept for it. *)
Definition choose_ISM_gene (chrom : string) (positions : list Z) (s : strand)
    (all_matches : list transcript) : M (option Z * list transcript) :=
  let gene_matches := elements (list_to_set (gene_ID <$> all_matches) : gset Z) in
  if 1 <? Py.len gene_matches then
    do p0 <- lift (Py.index positions 0);
    do p_last <- lift (Py.index_back positions 0);
    do table <- gets tmp_t;
    do '(gene, _) <- lift (search_for_overlap_with_gene sql_group_by_gene chrom p0 p_last s
                                                        table (Some gene_matches));
    ret (gene, filter (λ m, Some (gene_ID m) = gene) all_matches)
  else
    do m0 <- lift (Py.index all_matches 0);
    ret (Some (gene_ID m0), all_matches).

(** Returns [(gene_ID, transcript_ID, novelty, start_end_info)]. *)
Definition process_ISM (chrom : string) (positions : list Z) (s : strand)
    (edge_IDs vertex_IDs : list Z) (all_matches : list transcript)
    (gene_starts gene_ends : gmap Z (list (Z * Z))) (ri : run_info)
    : M (option Z * option Z * list annotation * se_result) :=
  let n := Py.len positions `div` 2 in
  do '(chosen, all_matches) <- choose_ISM_gene chrom positions s all_matches;
  match chosen with
  | None => ret (None, None, [], SeNone)
  | Some gene =>
      do '(edge_IDs, vertex_IDs, info) <-
        (if 1 <? n then
           do '(start_v, start_e, start_novelty, _, diff_5p) <-
             process_5p chrom positions s vertex_IDs (Some gene) gene_starts ri;
           do '(end_v, end_e, end_novelty, _, diff_3p) <-
             process_3p chrom positions s vertex_IDs (Some gene) gene_ends ri;
           let edge_IDs' := [start_e] ++ edge_IDs ++ [end_e] in
           let vertex_IDs' := [start_v] ++ vertex_IDs ++ [end_v] in
           ret (edge_IDs', vertex_IDs',
                SeInfo {| se_start_vertex := start_v; se_end_vertex := end_v;
                          se_start_exon := start_e; se_end_exon := end_e;
                          se_diff_5p := diff_5p; se_diff_3p := diff_3p;
                          se_start_novelty := start_novelty;
                          se_end_novelty := end_novelty;
                          se_vertex_IDs := vertex_IDs'; se_edge_IDs := edge_IDs' |})
         else ret (edge_IDs, vertex_IDs, SeEmpty));
      do looped <- lift (characterize_ISMs all_matches n edge_IDs gene [] [] []);
      match looped with
      | IsmReturn g tid => ret (Some g, Some tid, [], info)
      | IsmDone ISM prefix suffix gene' =>
          do p0 <- lift (Py.index positions 0);
          do p_last <- lift (Py.index_back positions 0);
          do novel_transcript <-
            create_transcript s chrom p0 p_last gene' edge_IDs vertex_IDs;
          let tid := transcript_ID novel_transcript in
          ret (Some gene', Some tid, ISM_novelty tid ri ISM prefix suffix, info)
      end
  end.

End ISM.

(** ** The batch committer (talon.py 2407-2797)

    A connection holds the persistent store and the uncommitted working copy
    the cursor reads and writes; [conn.commit()] alone moves the one onto the
    other. An exception leaves the function with the connection as it is, so
    that what the store holds afterwards can be read off. *)

Definition cell : Type := option string.
Definition row : Type := list cell.

Record database := {
  tables : gmap string (list row);
  counters : list (string * Z) }.

(** What [logging.error] is handed: a message, or the exception caught. *)
Inductive log_entry :=
| Message (text : string)
| Caught (e : exn).

Record conn := {
  committed : database;
  working : database;
  logged : list log_entry }.

Definition T (A : Type) : Type := conn → result A * conn.

Definition retT {A} (a : A) : T A := λ c, (inr a, c).

Definition bindT {A B} (m : T A) (k : A → T B) : T B :=
  λ c, match m c with
       | (inl e, c') => (inl e, c')
       | (inr a, c') => k a c'
       end.

Definition raiseT {A} (e : exn) : T A := λ c, (inl e, c).

Notation "'run' x <- m ; k" := (bindT m (λ x, k))
  (at level 10, x name, m at level 100, k at level 200).
Notation "m ;; k" := (bindT m (λ _, k))
  (at level 100, k at level 200, right associativity).

Definition logging_error (entry : log_entry) : T () :=
  λ c, (inr (), {| committed := committed c; working := working c;
                    logged := logged c ++ [entry] |}).

Definition set_working (w : database) : T () :=
  λ c, (inr (), {| committed := committed c; working := w; logged := logged c |}).

Definition commit : T () :=
  λ c, (inr (), {| committed := working c; working := working c; logged := logged c |}).

(** The six shared counters, read by [update_counter]. *)
Record counter_values := {
  gene_counter : Z;
  transcript_counter_ : Z;
  vertex_counter_ : Z;
  edge_counter_ : Z;
  observed_counter : Z;
  dataset_counter : Z }.

(** The intermediate logs, one list of lines per file. *)
Record outfiles := {
  f_genes : list string;
  f_transcripts : list string;
  f_edges : list string;
  f_location : list string;
  f_v2g : list string;
  f_observed : list string;
  f_gene_annot : list string;
  f_transcript_annot : list string;
  f_exon_annot : list string }.

Inductive insert_kind := Insert | InsertOrIgnore.

Module Str.

(** [c.isspace()], which decides what [strip()] removes, for the characters
    of code point below 256: the blank, tab to carriage return, the four
    separators 28 to 31, NEL (133) and the no-break space (160). *)
Definition is_space (a : ascii) : bool :=
  let n := nat_of_ascii a in
  bool_decide (n = 32 ∨ 9 ≤ n ≤ 13 ∨ 28 ≤ n ≤ 31 ∨ n = 133 ∨ n = 160)%nat.

Fixpoint lstrip (s : string) : string :=
  match s with
  | String a s' => if is_space a then lstrip s' else s
  | EmptyString => EmptyString
  end.

Definition strip (s : string) : string :=
  String.rev (lstrip (String.rev (lstrip s))).

(** [s.split(sep)] for a one-character separator, carrying the field read so
    far, reversed. *)
Fixpoint split_on (sep : ascii) (s : string) (field : string) : list string :=
  match s with
  | EmptyString => [String.rev field]
  | String a s' =>
      if bool_decide (a = sep) then String.rev field :: split_on sep s' EmptyString
      else split_on sep s' (String a field)
  end.

Definition tab : ascii := ascii_of_nat 9.

(** [x.strip().split("\t")]. *)
Definition fields (line : string) : list string := split_on tab (strip line) EmptyString.

End Str.

(** [islice(f, batch_size)] until the file is exhausted. *)
Fixpoint batches_of {A} (fuel : nat) (batch_size : nat) (lines : list A) : list (list A) :=
  match fuel with
  | O => []
  | S fuel' =>
      match take batch_size lines with
      | [] => []
      | batch => batch :: batches_of fuel' batch_size (drop batch_size lines)
      end
  end.

Definition batches {A} (batch_size : nat) (lines : list A) : list (list A) :=
  batches_of (length lines) batch_size lines.

(** [row[i] = None] where the field reads "None". *)
Definition none_at (cols : list nat) (fields : list string) : row :=
  imap (λ i f, if bool_decide (i ∈ cols ∧ f = "None") then None else Some f) fields.

Section Committer.

(** [cursor.executemany("INSERT [OR IGNORE] INTO table ...", batch)] on the
    working copy: which rows a table takes is the schema's affair. *)
Variable executemany : insert_kind → string → list row → database → result database.

(** An insert under [try]: any failure is logged, [logging.error(e)], and
    ends the process, [sys.exit(1)]. *)
Definition try_executemany (kind : insert_kind) (table : string) (batch : list row) : T () :=
  λ c, match executemany kind table batch (working c) with
       | inr w => set_working w c
       | inl e => (logging_error (Caught e) ;; raiseT (SystemExit 1)) c
       end.

Fixpoint insert_batches (kind : insert_kind) (table : string) (bs : list (list row)) : T () :=
  match bs with
  | [] => retT ()
  | b :: rest => try_executemany kind table b ;; insert_batches kind table rest
  end.

Definition plain_rows (lines : list string) : list row :=
  (λ l, Some <$> Str.fields l) <$> lines.

Definition batch_add_genes (lines : list string) (batch_size : nat) : T () :=
  insert_batches InsertOrIgnore "genes" (batches batch_size (plain_rows lines)).

(** A short line fails at [transcript[3]], outside the [try]. *)
Definition transcript_row (line : string) : result row :=
  let fs := Str.fields line in
  match fs !! 3%nat with
  | Some _ => inr (none_at [3%nat] fs)
  | None => inl IndexError
  end.

Fixpoint add_transcript_batches (bs : list (list string)) : T () :=
  match bs with
  | [] => retT ()
  | b :: rest =>
      match mapM (λ l, match transcript_row l with inr r => Some r | inl _ => None end) b with
      | Some rows_ => try_executemany Insert "transcripts" rows_ ;; add_transcript_batches rest
      | None => raiseT IndexError
      end
  end.

Definition batch_add_transcripts (lines : list string) (batch_size : nat) : T () :=
  add_transcript_batches (batches batch_size lines).

Definition batch_add_edges (lines : list string) (batch_size : nat) : T () :=
  insert_batches Insert "edge" (batches batch_size (plain_rows lines)).

Definition batch_add_locations (lines : list string) (batch_size : nat) : T () :=
  insert_batches Insert "location" (batches batch_size (plain_rows lines)).

Definition batch_add_vertex2gene (lines : list string) (batch_size : nat) : T () :=
  insert_batches InsertOrIgnore "vertex" (batches batch_size (plain_rows lines)).

Definition add_datasets (datasets : list row) : T () :=
  try_executemany Insert "dataset" datasets.

Definition batch_add_annotations (lines : list string) (annot_type : string) : T () :=
  insert_batches InsertOrIgnore (annot_type +:+ "_annotations")
                 (batches 1 (plain_rows lines)).

(** An observed line: the optional fields, and the key
    [(dataset, transcript_ID)] counted for the abundance table. *)
Definition observed_row (line : string) : result (row * (string * string)) :=
  let fs := Str.fields line in
  match fs !! 16%nat, fs !! 4%nat, fs !! 2%nat with
  | Some _, Some dataset, Some tid =>
      inr (none_at [9; 10; 12; 13; 14; 15; 16]%nat fs, (dataset, tid))
  | _, _, _ => inl IndexError
  end.

(** [abundance[dataset][transcript_ID] += 1], both levels in insertion order. *)
Definition count_read (abundance : list (string * list (string * Z)))
    (key : string * string) : list (string * list (string * Z)) :=
  let per_dataset := default [] (alist_lookup key.1 abundance) in
  let n := default 0 (alist_lookup key.2 per_dataset) in
  alist_insert key.1 (alist_insert key.2 (n + 1) per_dataset) abundance.

Definition abundance_tuples (abundance : list (string * list (string * Z))) : list row :=
  '(dataset, per_dataset) ← abundance;
  '(tid, count) ← per_dataset;
  [[Some tid; Some dataset; Some (Py.str count)]].

Fixpoint add_observed_batches (bs : list (list string))
    (abundance : list (string * list (string * Z)))
    : T (list (string * list (string * Z))) :=
  match bs with
  | [] => retT abundance
  | b :: rest =>
      match mapM (λ l, match observed_row l with inr r => Some r | inl _ => None end) b with
      | Some parsed =>
          try_executemany Insert "observed" (parsed.*1) ;;
          add_observed_batches rest (foldl count_read abundance (parsed.*2))
      | None => raiseT IndexError
      end
  end.

(** The slices [entries[index : index + batch_size]] while
    [index < len(entries)]. With a batch size of 0 the index of the code never
    moves: with entries to add its loop does not end, which has no value
    here. [batch_add_observed], the only caller, has an empty dictionary, and
    so no entries, when the batch size is 0. *)
Definition batch_add_abundance (entries : list row) (batch_size : nat) : T () :=
  insert_batches Insert "abundance" (batches batch_size entries).

Definition batch_add_observed (lines : list string) (batch_size : nat) : T () :=
  run abundance <- add_observed_batches (batches batch_size lines) [];
  batch_add_abundance (abundance_tuples abundance) batch_size.

(** [UPDATE "counters" SET "count" = ? WHERE "category" = ...]. *)
Definition set_counter (category : string) (value : Z) : T () :=
  λ c, set_working
         {| tables := tables (working c);
            counters := (λ r, if decide (r.1 = category) then (r.1, value) else r)
                          <$> counters (working c) |} c.

Definition update_counter (cv : counter_values) : T () :=
  set_counter "genes" (gene_counter cv) ;;
  set_counter "transcripts" (transcript_counter_ cv) ;;
  set_counter "edge" (edge_counter_ cv) ;;
  set_counter "vertex" (vertex_counter_ cv) ;;
  set_counter "dataset" (dataset_counter cv) ;;
  set_counter "observed" (observed_counter cv).

(** The table a counter category is checked against. *)
Definition table_of (category : string) : string :=
  if decide (category = "vertex") then "location" else category.

Definition mismatch_message (table_name : string) : string :=
  "Database counter for '" +:+ table_name
  +:+ "' does not match the number of entries in the table."
  +:+ " Discarding changes to database and exiting...".

Definition discrepancy_message : string :=
  "Discrepancy found in database. Discarding changes to database and exiting...".

(** The loop of [check_database_integrity], carrying [fail]. *)
Fixpoint integrity_loop (rows_ : list (string * Z)) (fail : bool) : T bool :=
  match rows_ with
  | [] => retT fail
  | (category, curr_counter) :: rest =>
      let table_name := table_of category in
      run w <- (λ c, (inr (working c), c));
      match tables w !! table_name with
      | None => raiseT (OperationalError table_name)
      | Some entries =>
          if decide (Py.len entries ≠ curr_counter)
          then logging_error (Message (mismatch_message table_name)) ;;
               integrity_loop rest true
          else integrity_loop rest fail
      end
  end.

Definition check_database_integrity : T () :=
  run w <- (λ c, (inr (working c), c));
  run fail <- integrity_loop (counters w) false;
  if fail
  then logging_error (Message discrepancy_message) ;;
       raiseT (RuntimeError discrepancy_message)
  else retT ().

(** The calls of [update_database] that load the logs and the counters
    (talon.py 2414-2424). *)
Definition load_logs (batch_size : nat) (files : outfiles)
    (datasets : list row) (cv : counter_values) : T () :=
  batch_add_genes (f_genes files) batch_size ;;
  batch_add_transcripts (f_transcripts files) batch_size ;;
  batch_add_edges (f_edges files) batch_size ;;
  batch_add_locations (f_location files) batch_size ;;
  batch_add_vertex2gene (f_v2g files) batch_size ;;
  add_datasets datasets ;;
  batch_add_observed (f_observed files) batch_size ;;
  update_counter cv ;;
  batch_add_annotations (f_gene_annot files) "gene" ;;
  batch_add_annotations (f_transcript_annot files) "transcript" ;;
  batch_add_annotations (f_exon_annot files) "exon".

Definition update_database_steps (batch_size : nat) (files : outfiles)
    (datasets : list row) (cv : counter_values) : T () :=
  load_logs batch_size files datasets cv ;;
  check_database_integrity ;;
  commit.

(** [sqlite3.connect(database)], the steps, and what is left behind. *)
Definition update_database (db : database) (batch_size : nat) (files : outfiles)
    (datasets : list row) (cv : counter_values) : result () * conn :=
  update_database_steps batch_size files datasets cv
    {| committed := db; working := db; logged := [] |}.

End Committer.

(** ** The output listener and the end of [main] (talon.py 3086-3116, 3211-3233)

    What the listener sees of the queue is the sequence of messages it takes
    from it, each with the reading of the clock at the test that follows
    [queue.get()]. Times are in seconds. *)

Record outfile_paths := {
  p_qc : string;
  p_abundance : string;
  p_genes : string;
  p_transcripts : string;
  p_edges : string;
  p_v2g : string;
  p_location : string;
  p_observed : string;
  p_gene_annot : string;
  p_transcript_annot : string;
  p_exon_annot : string }.

(** [outfiles.values()]. *)
Definition path_values (p : outfile_paths) : list string :=
  [p_qc p; p_abundance p; p_genes p; p_transcripts p; p_edges p; p_v2g p;
   p_location p; p_observed p; p_gene_annot p; p_transcript_annot p; p_exon_annot p].

(** [(msg[0], msg[1])]: the sentinel has no file name. *)
Definition message : Type := option string * string.

Definition newline : ascii := ascii_of_nat 10.

(** [f.write(value + "\n")], the file kept as its lines. *)
Definition write_line (fname : string) (value : string)
    (open_files : gmap string (list string)) : result (gmap string (list string)) :=
  match open_files !! fname with
  | Some lines => inr (<[fname := lines ++ Str.split_on newline value EmptyString]> open_files)
  | None => inl KeyError
  end.

(** How the listener's task ends: it closed the files and returned, it is
    still blocked in [queue.get()], or an exception ended it. *)
Inductive listener_end :=
| Closed
| Blocked
| Crashed (e : exn).

Fixpoint listener_loop (wait_until : Z) (arrivals : list (Z * message))
    (open_files : gmap string (list string))
    : listener_end * gmap string (list string) :=
  match arrivals with
  | [] => (Blocked, open_files)
  | (now, (msg_fname, msg_value)) :: rest =>
      if bool_decide (now > wait_until) || String.eqb msg_value "complete"
      then (Closed, open_files)
      else
        match msg_fname with
        | None => (Crashed KeyError, open_files)
        | Some fname =>
            match write_line fname msg_value open_files with
            | inr files => listener_loop wait_until rest files
            | inl e => (Crashed e, open_files)
            end
        end
  end.

(** [timeout] is in hours, [start] the clock when the deadline is set. *)
Definition listener (paths : outfile_paths) (QC_header : string) (timeout start : Z)
    (arrivals : list (Z * message)) : listener_end * gmap string (list string) :=
  let open_files := foldl (λ files fpath, <[fpath := []]> files) ∅ (path_values paths) in
  match write_line (p_qc paths) QC_header open_files with
  | inl e => (Crashed e, open_files)
  | inr files => listener_loop (start + 3600 * timeout) arrivals files
  end.

(** The intermediate logs as [update_database] reads them back. *)
Definition read_outfiles (paths : outfile_paths) (files : gmap string (list string))
    : outfiles :=
  let content p := default [] (files !! p) in
  {| f_genes := content (p_genes paths);
     f_transcripts := content (p_transcripts paths);
     f_edges := content (p_edges paths);
     f_location := content (p_location paths);
     f_v2g := content (p_v2g paths);
     f_observed := content (p_observed paths);
     f_gene_annot := content (p_gene_annot paths);
     f_transcript_annot := content (p_transcript_annot paths);
     f_exon_annot := content (p_exon_annot paths) |}.

Inductive main_end :=
| Hang
| Done (r : result () * conn).

(** From the launch of the listener to the database update: the listener runs
    with its default timeout, [pool.join()] waits for its task to end, its
    outcome is never looked at, and [update_database] follows. *)
Definition main_after_launch
    (executemany : insert_kind → string → list row → database → result database)
    (paths : outfile_paths) (QC_header : string) (start : Z)
    (arrivals : list (Z * message)) (db : database) (datasets : list row)
    (cv : counter_values) : main_end :=
  match listener paths QC_header 72 start arrivals with
  | (Blocked, _) => Hang
  | (_, files) =>
      Done (update_database executemany db 10000 (read_outfiles paths files) datasets cv)
  end.

(** An engine for concrete runs: every table takes every row. *)
Definition append_rows (kind : insert_kind) (table : string) (batch : list row)
    (db : database) : result database :=
  match tables db !! table with
  | Some entries =>
      inr {| tables := <[table := entries ++ batch]> (tables db); counters := counters db |}
  | None => inl (OperationalError table)
  end.

(** ** Identifier counters, concurrent view (talon.py 40-52)

    Any number of processes call [increment] on one counter. A call takes the
    lock, reads the value, stores the successor, reads the value again to
    return it, and gives the lock back; the scheduler picks which process
    moves next. *)

Module Shared.

Inductive pc :=
| Idle
| Acquire
| Fetch
| Store (tmp : Z)
| Read
| Release (ret : Z).

Record state := {
  val : Z;
  lock : option nat;
  procs : nat → pc;
  returned : list (nat * Z) }.

Definition set_proc (t : nat) (p : pc) (procs : nat → pc) : nat → pc :=
  λ t', if decide (t' = t) then p else procs t'.

Definition init (initval : Z) : state :=
  {| val := c_int initval; lock := None; procs := λ _, Idle; returned := [] |}.

Inductive step : state → state → Prop :=
| step_call s t :
    procs s t = Idle →
    step s {| val := val s; lock := lock s;
              procs := set_proc t Acquire (procs s); returned := returned s |}
| step_acquire s t :
    procs s t = Acquire → lock s = None →
    step s {| val := val s; lock := Some t;
              procs := set_proc t Fetch (procs s); returned := returned s |}
| step_load s t :
    procs s t = Fetch →
    step s {| val := val s; lock := lock s;
              procs := set_proc t (Store (val s)) (procs s); returned := returned s |}
| step_store s t tmp :
    procs s t = Store tmp →
    step s {| val := c_int (tmp + 1); lock := lock s;
              procs := set_proc t Read (procs s); returned := returned s |}
| step_read s t :
    procs s t = Read →
    step s {| val := val s; lock := lock s;
              procs := set_proc t (Release (val s)) (procs s); returned := returned s |}
| step_release s t ret :
    procs s t = Release ret →
    step s {| val := val s; lock := None;
              procs := set_proc t Idle (procs s);
              returned := returned s ++ [(t, ret)] |}.

Definition reachable (initval : Z) (s : state) : Prop := rtc step (init initval) s.

(** The value the [n]-th call on a counter returns when calls follow each
    other. *)
Definition nth_call_value (initval : Z) (n : Z) : Z :=
  Z.iter n Counter.increment (c_int initval).

End Shared.

(** ** Vocabulary of the statements *)

(** The same-strand genes that use a vertex. *)
Definition genes_at (vertex : Z) (s : strand) (vertex_2_gene : gmap Z (list (Z * strand)))
    : list Z :=
  (strand_matches s (default [] (vertex_2_gene !! vertex))).*1.

(** The genes with a same-strand match on some vertex of the query. *)
Definition genes_hit (vertex_IDs : list Z) (s : strand)
    (vertex_2_gene : gmap Z (list (Z * strand))) : gset Z :=
  list_to_set (vertex_IDs ≫= λ v, genes_at v s vertex_2_gene).

(** How many vertices of the query a gene shares. *)
Definition vertices_shared (g : Z) (vertex_IDs : list Z) (s : strand)
    (vertex_2_gene : gmap Z (list (Z * strand))) : nat :=
  length (filter (λ v, g ∈ genes_at v s vertex_2_gene) vertex_IDs).

(** A position strictly inside the search window. *)
Definition in_window (w_start w_end p : Z) : Prop := w_start < p < w_end.

(** A position the scan for [position] reaches: at an offset from 1 up to,
    but not including, [max_dist]. *)
Definition scanned (position max_dist p : Z) : Prop :=
  1 ≤ Z.abs (p - position) < max_dist.

(** Two inclusive intervals meet. *)
Definition spans_overlap (lo1 hi1 lo2 hi2 : Z) : Prop := lo1 ≤ hi2 ∧ lo2 ≤ hi1.

(** An engine's choice for [GROUP BY gene_ID]: the first row of each gene. *)
Fixpoint first_per_gene_from (seen : list Z) (rows : list t_row) : list t_row :=
  match rows with
  | [] => []
  | r :: rest =>
      if bool_decide (r_gene_ID r ∈ seen) then first_per_gene_from seen rest
      else r :: first_per_gene_from (r_gene_ID r :: seen) rest
  end.

Definition first_per_gene (rows : list t_row) : list t_row := first_per_gene_from [] rows.

(** The table of a counter category holds as many rows as the counter says. *)
Definition parity (w : database) (category : string) (n : Z) : Prop :=
  ∃ entries, tables w !! table_of category = Some entries ∧ Py.len entries = n.

(** The tables that fail the check among the counter rows [rows_], against the
    tables of [w], in the order of the rows. *)
Definition failing_among (w : database) (rows_ : list (string * Z)) : list string :=
  omap (λ r : string * Z,
          match tables w !! table_of r.1 with
          | Some entries => if decide (Py.len entries ≠ r.2) then Some (table_of r.1) else None
          | None => None
          end) rows_.

(** The tables whose row count differs from their counter. *)
Definition failing_tables (w : database) : list string := failing_among w (counters w).

(** A step that does not commit, does not raise [RuntimeError], and logs
    nothing unless it fails. *)
Definition quiet {A} (m : T A) : Prop :=
  ∀ c, committed (m c).2 = committed c
       ∧ (∀ a, (m c).1 = inr a → logged (m c).2 = logged c)
       ∧ ∀ msg, (m c).1 ≠ inl (RuntimeError msg).

(** What [update_database] is to leave behind, for a store [db] before the run. *)
Definition committer_contract (db : database) (rc : result () * conn) : Prop :=
  (rc.1 ≠ inr () → committed rc.2 = db)
  ∧ (rc.1 = inr () →
     committed rc.2 = working rc.2
     ∧ ∀ cat n, (cat, n) ∈ counters (committed rc.2) → parity (committed rc.2) cat n)
  ∧ ((∃ cat n, (cat, n) ∈ counters (working rc.2) ∧ ¬ parity (working rc.2) cat n) →
     ∃ e, rc.1 = inl e ∧ committed rc.2 = db)
  ∧ (∀ msg, rc.1 = inl (RuntimeError msg) →
       failing_tables (working rc.2) ≠ []
       ∧ logged rc.2 = (Message ∘ mismatch_message <$> failing_tables (working rc.2))
                       ++ [Message discrepancy_message]).

(** An arrival at which the listener leaves its loop. *)
Definition stops (wait_until : Z) (arrival : Z * message) : Prop :=
  arrival.1 > wait_until ∨ arrival.2.2 = "complete".

Module SharedInv.
Import Shared.

(** A process that does not hold the lock is outside the critical section. *)
Definition outside (p : pc) : Prop := p = Idle ∨ p = Acquire.

(** What holds in every state of every interleaving: the calls completed so
    far returned the values of a sequential run, in order, and the process
    holding the lock is the only one between its first read and its return. *)
Definition invariant (initval : Z) (s : state) : Prop :=
  let n := Z.of_nat (length (returned s)) in
  (returned s).*2 = (λ k, c_int (initval + Z.of_nat k)) <$> seq 1 (length (returned s))
  ∧ match lock s with
    | None => val s = c_int (initval + n) ∧ ∀ t, outside (procs s t)
    | Some t =>
        (∀ t', t' ≠ t → outside (procs s t'))
        ∧ match procs s t with
          | Fetch => val s = c_int (initval + n)
          | Store tmp => tmp = c_int (initval + n) ∧ val s = c_int (initval + n)
          | Read => val s = c_int (initval + n + 1)
          | Release ret => ret = c_int (initval + n + 1) ∧ val s = ret
          | Idle | Acquire => False
          end
    end.

End SharedInv.

(** A step of the classifier that leaves the transcripts alone: none minted,
    none stored, none written to the temporary table. *)
Definition keeps_transcripts (st st' : store) : Prop :=
  transcript_dict st' = transcript_dict st
  ∧ transcript_counter st' = transcript_counter st
  ∧ tmp_t st' = tmp_t st.

(** The matches with as many exons as the read. *)
Definition FSM_candidates (positions : list Z) (all_matches : list transcript)
    : list transcript :=
  filter (λ x, n_exons x = Py.len positions `div` 2) all_matches.

(** The transcript IDs of some matches, as [ISM_to_IDs] lists them. *)
Definition ids_of (ms : list transcript) : list string :=
  (λ m, Py.str (transcript_ID m)) <$> ms.

(** The comma-joined path of the read's interior edges. *)
Definition edge_path (edge_IDs : list Z) : string := Py.join "," (Py.str <$> edge_IDs).

(** The junction path of a match starts, or ends, with the read's path, as
    strings. *)
Definition path_is_prefix (edge_IDs : list Z) (m : transcript) : Prop :=
  ∃ p, jn_path m = Some p ∧ Py.startswith p (edge_path edge_IDs) = true.

Definition path_is_suffix (edge_IDs : list Z) (m : transcript) : Prop :=
  ∃ p, jn_path m = Some p ∧ Py.endswith p (edge_path edge_IDs) = true.

#[global] Instance path_is_prefix_dec edge_IDs m : Decision (path_is_prefix edge_IDs m).
Proof.
  unfold path_is_prefix. destruct (jn_path m) as [p|].
  - destruct (Py.startswith p (edge_path edge_IDs)) eqn:E.
    + left. eauto.
    + right. intros (p' & [= <-] & H). congruence.
  - right. intros (p' & H & _). done.
Defined.

#[global] Instance path_is_suffix_dec edge_IDs m : Decision (path_is_suffix edge_IDs m).
Proof.
  unfold path_is_suffix. destruct (jn_path m) as [p|].
  - destruct (Py.endswith p (edge_path edge_IDs)) eqn:E.
    + left. eauto.
    + right. intros (p' & [= <-] & H). congruence.
  - right. intros (p' & H & _). done.
Defined.

(** ** Example data *)

(** A tab-separated line. *)
Definition tsv (fields : list string) : string :=
  Py.join (String Str.tab EmptyString) fields.

Definition cutoffs_50 : run_info :=
  {| cutoff_5p := 50; cutoff_3p := 50; idprefix := "TALON"; build := "hg38" |}.

Definition chr1_vertex (id position : Z) : vertex :=
  {| location_ID := id; genome_build := "hg38"; v_chromosome := "chr1";
     v_position := position |}.

Definition plus_edge (id a b : Z) (et : edge_type) : edge :=
  {| edge_ID := id; v1 := a; v2 := b; e_type := et; e_strand := Plus |}.

(** Two annotated two-exon transcripts of gene 1 with the same intron
    (edge 102, from 200 to 300) and the same last exon: the first starts at
    100, the second at 10. *)
Definition isoform_from_100 : transcript :=
  {| transcript_ID := 1001; gene_ID := 1; jn_path := Some "102";
     start_exon := 101; end_exon := 103; start_vertex := 1; end_vertex := 4;
     n_exons := 2; chromosome := "chr1"; start_pos := 100; end_pos := 400 |}.

Definition isoform_from_10 : transcript :=
  {| transcript_ID := 1002; gene_ID := 1; jn_path := Some "102";
     start_exon := 104; end_exon := 103; start_vertex := 5; end_vertex := 4;
     n_exons := 2; chromosome := "chr1"; start_pos := 10; end_pos := 400 |}.

Definition two_isoforms : store :=
  {| location_dict :=
       {[ "chr1" := list_to_map [(10, chr1_vertex 5 10); (100, chr1_vertex 1 100);
                                 (200, chr1_vertex 2 200); (300, chr1_vertex 3 300);
                                 (400, chr1_vertex 4 400)] ]};
     edge_dict :=
       list_to_map [((1, 2, Exon), plus_edge 101 1 2 Exon);
                    ((2, 3, Intron), plus_edge 102 2 3 Intron);
                    ((3, 4, Exon), plus_edge 103 3 4 Exon);
                    ((5, 2, Exon), plus_edge 104 5 2 Exon)];
     transcript_dict :=
       [(frozenset [101; 102; 103], isoform_from_100);
        (frozenset [104; 102; 103], isoform_from_10)];
     tmp_t :=
       [{| r_gene_ID := 1; r_transcript_ID := 1001; r_chromosome := "chr1";
           r_strand := Plus; min_pos := 100; max_pos := 400 |};
        {| r_gene_ID := 1; r_transcript_ID := 1002; r_chromosome := "chr1";
           r_strand := Plus; min_pos := 10; max_pos := 400 |}];
     vertex_counter := 5;
     edge_counter := 104;
     transcript_counter := 1002 |}.

(** Two annotated three-exon transcripts of different genes that share their
    first exon, first intron (edge 102) and second exon. *)
Definition gene1_transcript : transcript :=
  {| transcript_ID := 10; gene_ID := 1; jn_path := Some "102,103,104";
     start_exon := 101; end_exon := 105; start_vertex := 1; end_vertex := 6;
     n_exons := 3; chromosome := "chr1"; start_pos := 100; end_pos := 600 |}.

Definition gene2_transcript : transcript :=
  {| transcript_ID := 20; gene_ID := 2; jn_path := Some "102,103,106";
     start_exon := 101; end_exon := 107; start_vertex := 1; end_vertex := 8;
     n_exons := 3; chromosome := "chr1"; start_pos := 100; end_pos := 800 |}.

Definition two_genes : store :=
  {| location_dict :=
       {[ "chr1" := list_to_map [(100, chr1_vertex 1 100); (200, chr1_vertex 2 200);
                                 (300, chr1_vertex 3 300); (400, chr1_vertex 4 400);
                                 (500, chr1_vertex 5 500); (600, chr1_vertex 6 600);
                                 (700, chr1_vertex 7 700); (800, chr1_vertex 8 800)] ]};
     edge_dict :=
       list_to_map [((1, 2, Exon), plus_edge 101 1 2 Exon);
                    ((2, 3, Intron), plus_edge 102 2 3 Intron);
                    ((3, 4, Exon), plus_edge 103 3 4 Exon);
                    ((4, 5, Intron), plus_edge 104 4 5 Intron);
                    ((5, 6, Exon), plus_edge 105 5 6 Exon);
                    ((4, 7, Intron), plus_edge 106 4 7 Intron);
                    ((7, 8, Exon), plus_edge 107 7 8 Exon)];
     transcript_dict :=
       [(frozenset [101; 102; 103; 104; 105], gene1_transcript);
        (frozenset [101; 102; 103; 106; 107], gene2_transcript)];
     tmp_t :=
       [{| r_gene_ID := 1; r_transcript_ID := 10; r_chromosome := "chr1";
           r_strand := Plus; min_pos := 100; max_pos := 600 |};
        {| r_gene_ID := 2; r_transcript_ID := 20; r_chromosome := "chr1";
           r_strand := Plus; min_pos := 100; max_pos := 800 |}];
     vertex_counter := 8;
     edge_counter := 107;
     transcript_counter := 20 |}.

Definition fusion_example_index : gmap Z (list (Z * strand)) :=
  <[1 := [(10, Plus)]]> (<[2 := [(10, Plus)]]> (<[3 := [(20, Plus)]]> ∅)).

Definition shared_vertex_index : gmap Z (list (Z * strand)) :=
  <[1 := [(10, Plus); (20, Plus)]]> ∅.

Definition one_vertex (id position : Z) : gmap string (gmap Z vertex) :=
  {[ "chr1" := {[ position := {| location_ID := id; genome_build := "hg38";
                                 v_chromosome := "chr1"; v_position := position |} ]} ]}.

(** A store whose only vertex is the one given. *)
Definition one_vertex_store (id position : Z) : store :=
  {| location_dict := one_vertex id position; edge_dict := ∅; transcript_dict := [];
     tmp_t := []; vertex_counter := id; edge_counter := 0; transcript_counter := 0 |}.

Definition row_1000_2000 : t_row :=
  {| r_gene_ID := 1; r_transcript_ID := 11; r_chromosome := "chr1"; r_strand := Plus;
     min_pos := 1000; max_pos := 2000 |}.

Definition row_1500_2600 : t_row :=
  {| r_gene_ID := 2; r_transcript_ID := 21; r_chromosome := "chr1"; r_strand := Plus;
     min_pos := 1500; max_pos := 2600 |}.

Definition empty_store : database :=
  {| tables := list_to_map ((λ t, (t, [])) <$>
       ["genes"; "transcripts"; "edge"; "location"; "vertex"; "dataset"; "observed";
        "abundance"; "gene_annotations"; "transcript_annotations"; "exon_annotations"]);
     counters := [("genes", 0); ("transcripts", 0); ("vertex", 0); ("edge", 0);
                  ("dataset", 0); ("observed", 0)] |}.

Definition one_gene_files : outfiles :=
  {| f_genes := [tsv ["1"; "+"]]; f_transcripts := []; f_edges := []; f_location := [];
     f_v2g := []; f_observed := []; f_gene_annot := []; f_transcript_annot := [];
     f_exon_annot := [] |}.

Definition counted (genes : Z) : counter_values :=
  {| gene_counter := genes; transcript_counter_ := 0; vertex_counter_ := 0;
     edge_counter_ := 0; observed_counter := 0; dataset_counter := 0 |}.

Definition tmp_paths : outfile_paths :=
  {| p_qc := "talon_QC.log";
     p_abundance := "talon_tmp/abundance_tuples.tsv";
     p_genes := "talon_tmp/gene_tuples.tsv";
     p_transcripts := "talon_tmp/transcript_tuples.tsv";
     p_edges := "talon_tmp/edge_tuples.tsv";
     p_v2g := "talon_tmp/vertex_2_gene_tuples.tsv";
     p_location := "talon_tmp/location_tuples.tsv";
     p_observed := "talon_tmp/observed_transcript_tuples.tsv";
     p_gene_annot := "talon_tmp/gene_annot_tuples.tsv";
     p_transcript_annot := "talon_tmp/transcript_annot_tuples.tsv";
     p_exon_annot := "talon_tmp/exon_annot_tuples.tsv" |}.

(** A gene row in time, then a vertex-to-gene row one second after the
    72 hours, then the sentinel. *)
Definition late_arrivals : list (Z * message) :=
  [(10, (Some (p_genes tmp_paths), tsv ["1"; "+"]));
   (3600 * 72 + 1, (Some (p_v2g tmp_paths), tsv ["5"; "1"]));
   (3600 * 72 + 2, (None, "complete"))].

(** * Further code of the classifier and the committer *)

(** ** Overlap of two intervals (talon.py 792-809)

    [perc_overlap] is the float [(overlap / ref_len) * 100]; it is kept as
    the pair of its operands, the float arithmetic is not carried out. *)

Definition get_overlap (a b : Z * Z) : Z * option (Z * Z) :=
  let overlap := Z.max 0 (Z.min a.2 b.2 - Z.max a.1 b.1 + 1) in
  let ref_len := Z.abs (b.2 - b.1) in
  (overlap, if decide (ref_len ≠ 0) then Some (overlap, ref_len) else None).

(** ** Vertices of the splice junctions (talon.py 246-272) *)

(** The loop of [match_splice_vertices] over the positions it visits. *)
Fixpoint match_vertices_at (chrom : string) (positions : list Z) (ri : run_info)
    : M (list Z * list Z) :=
  match positions with
  | [] => ret ([], [])
  | position :: rest =>
      do locations <- gets location_dict;
      do '(vertex_match, nov) <-
        match search_for_vertex_at_pos chrom position locations with
        | Some v => ret (v, 0)
        | None => do v <- create_vertex chrom position ri; ret (v, 1)
        end;
      do '(vertex_matches, novelty) <- match_vertices_at chrom rest ri;
      ret (location_ID vertex_match :: vertex_matches, nov :: novelty)
  end.

(** [range(1, len(positions) - 1)]: the ends are left out. *)
Definition match_splice_vertices (chrom : string) (positions : list Z) (s : strand)
    (ri : run_info) : M (list Z * list Z) :=
  match_vertices_at chrom (Py.interior positions) ri.

(** talon.py 623-647: all the vertices, the first edge an exon. *)
Definition match_all_transcript_edges (vertices : list Z) (s : strand)
    : M (list Z * list Z) :=
  match_edges_from vertices Exon s.

(** Every vertex of [l] is found, unchanged, in [l']. *)
Definition vertices_kept (l l' : gmap string (gmap Z vertex)) : Prop :=
  ∀ c p v, search_for_vertex_at_pos c p l = Some v →
           search_for_vertex_at_pos c p l' = Some v.

(** The position holds a vertex of the given ID. *)
Definition vertex_at (chrom : string) (l : gmap string (gmap Z vertex)) (p id : Z) : Prop :=
  ∃ v, search_for_vertex_at_pos chrom p l = Some v ∧ location_ID v = id.

(** A known position of the gene that the search with gene priority accepts:
    inside the window, its bounds included, and at most [max_dist] away. *)
Definition gene_loc_in_reach (position w_start w_end max_dist loc : Z) : Prop :=
  w_start ≤ loc ≤ w_end ∧ Z.abs (loc - position) ≤ max_dist.

(** A gene with a known start 50 bases from position 100. *)
Definition start_at_150 : gmap Z (list (Z * Z)) := {[ 1 := [(150, 7)] ]}.

(** ** Registering the vertices of a transcript with its gene (talon.py 1552-1562)

    The values of [vertex_2_gene] are Python sets of [(gene_ID, strand)]
    pairs. *)

#[global] Instance strand_countable : Countable strand.
Proof.
  refine (inj_countable' (λ s, match s with Plus => true | Minus => false end)
                         (λ b : bool, if b then Plus else Minus) _).
  by intros [].
Defined.

Definition update_vertex_2_gene (gene : Z) (vertex_IDs : list Z) (s : strand)
    (vertex_2_gene : gmap Z (gset (Z * strand))) : gmap Z (gset (Z * strand)) :=
  foldl (λ d vertex,
           match d !! vertex with
           | Some genes => <[vertex := genes ∪ {[(gene, s)]}]> d
           | None => <[vertex := ∅ ∪ {[(gene, s)]}]> d
           end)
        vertex_2_gene vertex_IDs.

(** [list(curr_matches)] for each vertex: the pairs of its set, in the order
    the set yields them. *)
Definition listed (vertex_2_gene : gmap Z (gset (Z * strand)))
    : gmap Z (list (Z * strand)) :=
  elements <$> vertex_2_gene.

(** Two indexes that list the same pairs for each vertex, in any order. *)
Definition same_pairs (d d' : gmap Z (list (Z * strand))) : Prop :=
  ∀ v, match d !! v, d' !! v with
       | Some l, Some l' => l ≡ₚ l'
       | None, None => True
       | _, _ => False
       end.

Definition shared_vertex_index_swapped : gmap Z (list (Z * strand)) :=
  <[1 := [(20, Plus); (10, Plus)]]> ∅.

(** ** Reading the counters back (talon.py 55-89)

    [cursor.fetchone()["count"]] for one category: with no row for it
    [fetchone] gives [None], whose subscript raises [TypeError]. The value
    goes into [mp.Value("i", ...)]. *)

Definition fetch_count (category : string) (db : database) : result Z :=
  match filter (λ r, r.1 = category) (counters db) with
  | r :: _ => inr (c_int r.2)
  | [] => inl TypeError
  end.

Definition get_counters (db : database) : result counter_values :=
  match fetch_count "genes" db with inl e => inl e | inr g =>
  match fetch_count "transcripts" db with inl e => inl e | inr t =>
  match fetch_count "vertex" db with inl e => inl e | inr v =>
  match fetch_count "edge" db with inl e => inl e | inr e_ =>
  match fetch_count "observed" db with inl e => inl e | inr o =>
  match fetch_count "dataset" db with inl e => inl e | inr d =>
    inr {| gene_counter := g; transcript_counter_ := t; vertex_counter_ := v;
           edge_counter_ := e_; observed_counter := o; dataset_counter := d |}
  end end end end end end.

(** The six categories [update_counter] writes. *)
Definition counter_categories : list string :=
  ["genes"; "transcripts"; "edge"; "vertex"; "dataset"; "observed"].

(** The value [update_counter] writes for a category, or the old one. *)
Definition counter_after (cv : counter_values) (r : string * Z) : string * Z :=
  (r.1,
   if decide (r.1 = "genes") then gene_counter cv
   else if decide (r.1 = "transcripts") then transcript_counter_ cv
   else if decide (r.1 = "edge") then edge_counter_ cv
   else if decide (r.1 = "vertex") then vertex_counter_ cv
   else if decide (r.1 = "dataset") then dataset_counter cv
   else if decide (r.1 = "observed") then observed_counter cv
   else r.2).

(** The values a [Counter] can hold. *)
Definition is_c_int (z : Z) : Prop := - 2 ^ 31 ≤ z < 2 ^ 31.

Definition held_by_counters (cv : counter_values) : Prop :=
  is_c_int (gene_counter cv) ∧ is_c_int (transcript_counter_ cv)
  ∧ is_c_int (vertex_counter_ cv) ∧ is_c_int (edge_counter_ cv)
  ∧ is_c_int (observed_counter cv) ∧ is_c_int (dataset_counter cv).

(** A character occurs in a string. *)
Fixpoint has_char (c : ascii) (s : string) : bool :=
  match s with
  | EmptyString => false
  | String a s' => bool_decide (a = c) || has_char c s'
  end.

(** The lines that the messages addressed to a file bring, in order. *)
Definition written_to (f : string) (arrivals : list (Z * message)) : list string :=
  arrivals ≫= λ a,
    match a.2.1 with
    | Some f' => if decide (f' = f) then Str.split_on newline a.2.2 EmptyString else []
    | None => []
    end.

(** A message the listener writes: in time, not the sentinel, and for one of
    the files it opened. *)
Definition writable (wait_until : Z) (open_files : gmap string (list string))
    (a : Z * message) : Prop :=
  ¬ stops wait_until a ∧ ∃ f, a.2.1 = Some f ∧ is_Some (open_files !! f).

(** ** One worker of the classifier

    Beside the store, a call of [identify_transcript] updates the gene
    counter, the temporary gene table and the index from vertices to genes;
    [identify_monoexon_transcript] also the temporary table of single-exon
    transcripts. *)

Record gene_row := {
  g_gene_ID : Z;
  g_chromosome : string;
  g_start : Z;
  g_end : Z;
  g_strand : strand }.

Record mono_row := {
  m_gene_ID : Z;
  m_transcript_ID : Z;
  m_chromosome : string;
  m_start : Z;
  m_end : Z;
  m_strand : strand;
  m_start_vertex : Z;
  m_end_vertex : Z;
  m_exon_ID : Z;
  m_min_pos : Z;
  m_max_pos : Z }.

Record worker := {
  w_store : store;
  w_gene_counter : Z;
  tmp_gene : list gene_row;
  vertex_2_gene : gmap Z (gset (Z * strand));
  tmp_monoexon : list mono_row }.

(** The run information the classifier reads beside the cutoffs. *)
Record options := {
  o_run : run_info;
  create_novel_spliced_genes : bool;
  n_places : Z }.

Definition W (A : Type) : Type := worker → result (A * worker).

Definition retW {A} (a : A) : W A := λ w, inr (a, w).

Definition bindW {A B} (m : W A) (k : A → W B) : W B :=
  λ w, match m w with
       | inl e => inl e
       | inr (a, w') => k a w'
       end.

Definition liftW {A} (r : result A) : W A :=
  λ w, match r with inl e => inl e | inr a => inr (a, w) end.

Definition getsW {A} (f : worker → A) : W A := λ w, inr (f w, w).

Definition with_store (w : worker) (st : store) : worker :=
  {| w_store := st; w_gene_counter := w_gene_counter w; tmp_gene := tmp_gene w;
     vertex_2_gene := vertex_2_gene w; tmp_monoexon := tmp_monoexon w |}.

(** A step on the store, run inside the worker. *)
Definition in_store {A} (m : M A) : W A :=
  λ w, match m (w_store w) with
       | inl e => inl e
       | inr (a, st) => inr (a, with_store w st)
       end.

Notation "'wdo' x <- m ; k" := (bindW m (λ x, k))
  (at level 10, x name, m at level 100, k at level 200).
Notation "'wdo' ' p <- m ; k" := (bindW m (λ x, match x with p => k end))
  (at level 10, p pattern, m at level 100, k at level 200).

(** talon.py 475-485. *)
Definition create_gene (chrom : string) (start end_ : Z) (s : strand) : W Z :=
  λ w,
    let new_ID := Counter.increment (w_gene_counter w) in
    inr (new_ID,
         {| w_store := w_store w;
            w_gene_counter := new_ID;
            tmp_gene := tmp_gene w ++ [{| g_gene_ID := new_ID; g_chromosome := chrom;
                                          g_start := Z.min start end_;
                                          g_end := Z.max start end_; g_strand := s |}];
            vertex_2_gene := vertex_2_gene w;
            tmp_monoexon := tmp_monoexon w |}).

(** The block every branch repeats: match the two ends, then put them around
    the interior edges and vertices. Returns
    [(edge_IDs, vertex_IDs, start_end_info)]. *)
Definition process_ends (chrom : string) (positions : list Z) (s : strand)
    (edge_IDs vertex_IDs : list Z) (gene : option Z)
    (locs_5p locs_3p : gmap Z (list (Z * Z))) (ri : run_info)
    : M (list Z * list Z * start_end_info) :=
  do '(start_v, start_e, start_novelty, _, diff_5p) <-
    process_5p chrom positions s vertex_IDs gene locs_5p ri;
  do '(end_v, end_e, end_novelty, _, diff_3p) <-
    process_3p chrom positions s vertex_IDs gene locs_3p ri;
  let edge_IDs' := [start_e] ++ edge_IDs ++ [end_e] in
  let vertex_IDs' := [start_v] ++ vertex_IDs ++ [end_v] in
  ret (edge_IDs', vertex_IDs',
       {| se_start_vertex := start_v; se_end_vertex := end_v;
          se_start_exon := start_e; se_end_exon := end_e;
          se_diff_5p := diff_5p; se_diff_3p := diff_3p;
          se_start_novelty := start_novelty; se_end_novelty := end_novelty;
          se_vertex_IDs := vertex_IDs'; se_edge_IDs := edge_IDs' |}).

(** What [search_for_overlap_with_gene] hands back as a gene. *)
Definition gene_of_option (g : option Z) : gene_assignment :=
  match g with Some g => OneGene g | None => NoGene end.

(** [str(x)] where [x] may be [None]. *)
Definition str_or_None (x : option Z) : string :=
  match x with Some z => Py.str z | None => "None" end.

(** [s.zfill(width)]: zeros on the left, after a sign if there is one. *)
Definition zfill (s : string) (width : Z) : string :=
  let fill := Py.join "" (replicate (Z.to_nat (width - Z.of_nat (String.length s))) "0") in
  match s with
  | String a s' =>
      if bool_decide (a = "+"%char ∨ a = "-"%char) then String a (fill +:+ s')
      else fill +:+ s
  | EmptyString => fill
  end.

(** talon.py 1832-1843. *)
Definition construct_names (gene transcript : option Z) (prefix : string) (places : Z)
    : string * string :=
  (prefix +:+ "G" +:+ zfill (str_or_None gene) places,
   prefix +:+ "T" +:+ zfill (str_or_None transcript) places).

(** What [identify_transcript] returns. *)
Record annotations := {
  a_gene_ID : Z;
  a_transcript_ID : option Z;
  gene_novelty : list annotation;
  transcript_novelty : list annotation;
  exon_novelty : list annotation;
  a_start_vertex : Z;
  a_end_vertex : Z;
  a_start_exon : Z;
  a_end_exon : Z;
  start_delta : option Z;
  end_delta : option Z }.

(** The variables of [identify_transcript] that its branches assign. *)
Record vars := {
  v_gene : option Z;
  v_transcript : option Z;
  v_gene_novelty : list annotation;
  v_transcript_novelty : list annotation;
  v_info : se_result;
  v_fusion : bool }.

Section Classifier.

Variable sql_group_by_gene : list t_row → list t_row.

(** talon.py 1075-1098. The candidates of [find_gene_match_on_vertex_basis]
    go to the tie-break; a list that came with the fusion flag would be
    passed on as it is. *)
Definition assign_gene (vertex_IDs : list Z) (s : strand) (chrom : string)
    (start end_ : Z) : W (gene_assignment * bool) :=
  wdo v2g <- getsW vertex_2_gene;
  let '(gene, fusion) := find_gene_match_on_vertex_basis vertex_IDs s (listed v2g) in
  match gene, fusion with
  | GeneCandidates gs, false =>
      wdo table <- getsW (λ w, tmp_t (w_store w));
      wdo '(gene', _) <- liftW (search_for_overlap_with_gene sql_group_by_gene chrom
                                  start end_ s table (Some gs));
      retW (gene_of_option gene', fusion)
  | _, _ => retW (gene, fusion)
  end.

(** [process_NIC] and [process_NNC] (talon.py 1101-1182, 1303-1386) are the
    same function up to the label they attach. A list of genes where one
    gene is expected fails in [permissive_match_with_gene_priority], at
    [gene_ID in gene_locs]. Returns
    [(gene_ID, transcript_ID, novelty, start_end_info, fusion)]. *)
Definition novel_in_gene (label : string) (chrom : string) (positions : list Z)
    (s : strand) (edge_IDs vertex_IDs : list Z)
    (gene_starts gene_ends : gmap Z (list (Z * Z))) (ri : run_info)
    : W (option Z * option Z * list annotation * se_result * bool) :=
  wdo p0 <- liftW (Py.index positions 0);
  wdo p_last <- liftW (Py.index_back positions 0);
  wdo '(gene, fusion) <- assign_gene vertex_IDs s chrom p0 p_last;
  match gene with
  | NoGene => retW (None, None, [], SeNone, fusion)
  | GeneCandidates _ => liftW (inl TypeError)
  | OneGene g =>
      wdo '(edge_IDs', vertex_IDs', info) <-
        in_store (process_ends chrom positions s edge_IDs vertex_IDs (Some g)
                               gene_starts gene_ends ri);
      wdo novel <- in_store (create_transcript s chrom p0 p_last g edge_IDs' vertex_IDs');
      let tid := transcript_ID novel in
      retW (Some g, Some tid, [(tid, idprefix ri, "TALON", label, "TRUE")],
            SeInfo info, false)
  end.

Definition process_NIC := novel_in_gene "NIC_transcript".

Definition process_NNC := novel_in_gene "NNC_transcript".

(** talon.py 1389-1457. The gene is looked for on the opposite strand; the
    tie-break is asked with the strand of the read; the 5' end is matched
    against the known ends of the gene and the 3' end against its known
    starts. Returns
    [(gene_ID, transcript_ID, gene_novelty, transcript_novelty, start_end_info)]. *)
Definition process_spliced_antisense (chrom : string) (positions : list Z)
    (s : strand) (edge_IDs vertex_IDs : list Z)
    (gene_starts gene_ends : gmap Z (list (Z * Z))) (ri : run_info)
    : W (option Z * option Z * list annotation * list annotation * se_result) :=
  let anti_strand := opposite s in
  wdo v2g <- getsW vertex_2_gene;
  let '(found, fusion) :=
    find_gene_match_on_vertex_basis vertex_IDs anti_strand (listed v2g) in
  wdo anti_gene <-
    match found, fusion with
    | GeneCandidates gs, false =>
        wdo p0 <- liftW (Py.index positions 0);
        wdo p_last <- liftW (Py.index_back positions 0);
        wdo table <- getsW (λ w, tmp_t (w_store w));
        wdo '(gene', _) <- liftW (search_for_overlap_with_gene sql_group_by_gene chrom
                                    p0 p_last s table (Some gs));
        retW (gene_of_option gene')
    | _, _ => retW found
    end;
  match anti_gene with
  | NoGene => retW (None, None, [], [], SeEmpty)
  | GeneCandidates _ => liftW (inl TypeError)
  | OneGene anti_gene_ID =>
      wdo '(edge_IDs', vertex_IDs', info) <-
        in_store (process_ends chrom positions s edge_IDs vertex_IDs (Some anti_gene_ID)
                               gene_ends gene_starts ri);
      wdo p0 <- liftW (Py.index positions 0);
      wdo p_last <- liftW (Py.index_back positions 0);
      wdo gene <- create_gene chrom p0 p_last s;
      wdo novel <- in_store (create_transcript s chrom p0 p_last gene edge_IDs' vertex_IDs');
      let tid := transcript_ID novel in
      retW (Some gene, Some tid,
            [(gene, idprefix ri, "TALON", "antisense_gene", "TRUE");
             (gene, idprefix ri, "TALON", "gene_antisense_to_IDs", Py.str anti_gene_ID)],
            [(tid, idprefix ri, "TALON", "antisense_transcript", "TRUE")],
            SeInfo info)
  end.

(** talon.py 1460-1549. Returns
    [(gene_ID, transcript_ID, gene_novelty, transcript_novelty, start_end_info)]. *)
Definition process_remaining_mult_cases (chrom : string) (positions : list Z)
    (s : strand) (edge_IDs vertex_IDs : list Z)
    (gene_starts gene_ends : gmap Z (list (Z * Z))) (opts : options) (fusion : bool)
    : W (Z * Z * list annotation * list annotation * start_end_info) :=
  let ri := o_run opts in
  wdo '(found, match_strand) <-
    (if negb (create_novel_spliced_genes opts) || negb fusion then
       wdo p0 <- liftW (Py.index positions 0);
       wdo p_last <- liftW (Py.index_back positions 0);
       wdo table <- getsW (λ w, tmp_t (w_store w));
       liftW (search_for_overlap_with_gene sql_group_by_gene chrom p0 p_last s table None)
     else retW (None, None));
  wdo '(edge_IDs', vertex_IDs', info) <-
    in_store (process_ends chrom positions s edge_IDs vertex_IDs found
                           gene_starts gene_ends ri);
  wdo p0 <- liftW (Py.index positions 0);
  wdo p_last <- liftW (Py.index_back positions 0);
  match found with
  | None =>
      let '(t_nov, g_nov) :=
        if fusion then ("fusion_transcript", "fusion_novel")
        else ("intergenic_transcript", "intergenic_novel") in
      wdo gene <- create_gene chrom p0 p_last s;
      wdo novel <- in_store (create_transcript s chrom p0 p_last gene edge_IDs' vertex_IDs');
      let tid := transcript_ID novel in
      retW (gene, tid, [(gene, idprefix ri, "TALON", g_nov, "TRUE")],
            [(tid, idprefix ri, "TALON", t_nov, "TRUE")], info)
  | Some anti_gene_ID =>
      if decide (match_strand ≠ Some s) then
        wdo gene <- create_gene chrom p0 p_last s;
        wdo novel <- in_store (create_transcript s chrom p0 p_last gene edge_IDs' vertex_IDs');
        let tid := transcript_ID novel in
        retW (gene, tid,
              [(gene, idprefix ri, "TALON", "antisense_gene", "TRUE");
               (gene, idprefix ri, "TALON", "gene_antisense_to_IDs", Py.str anti_gene_ID)],
              [(tid, idprefix ri, "TALON", "antisense_transcript", "TRUE")], info)
      else
        wdo novel <- in_store (create_transcript s chrom p0 p_last anti_gene_ID
                                                 edge_IDs' vertex_IDs');
        let tid := transcript_ID novel in
        retW (anti_gene_ID, tid, [],
              [(tid, idprefix ri, "TALON", "genomic_transcript", "TRUE")], info)
  end.

(** The annotation rows for the exons found novel. *)
Definition novel_exons (ri : run_info) (exons e_novelty : list Z) : list annotation :=
  if Py.sum e_novelty >? 0 then
    omap (λ '(exon, is_novel),
            if is_novel =? 0 then None
            else Some (exon, idprefix ri, "TALON", "exon_status", "NOVEL"))
         (zip exons e_novelty)
  else [].

(** [start_end_info[key]]: [None] cannot be subscripted and the empty dict
    has no key. *)
Definition subscript_info (info : se_result) : result start_end_info :=
  match info with
  | SeInfo i => inr i
  | SeEmpty => inl KeyError
  | SeNone => inl TypeError
  end.

(** talon.py 1628-1714: the search for a full or incomplete splice match and
    for a transcript novel in catalog. *)
Definition look_for_FSM_ISM_NIC (chrom : string) (positions : list Z) (s : strand)
    (edge_IDs vertex_IDs : list Z) (all_SJs_known splice_vertices_known : bool)
    (gene_starts gene_ends : gmap Z (list (Z * Z))) (ri : run_info) (v0 : vars)
    : W vars :=
  if all_SJs_known then
    wdo dict <- getsW (λ w, transcript_dict (w_store w));
    wdo v <-
      match search_for_ISM edge_IDs dict with
      | Some all_matches =>
          wdo '(gene, tid, t_nov, info) <-
            in_store (process_FSM chrom positions s edge_IDs vertex_IDs all_matches
                                  gene_starts gene_ends ri);
          match gene with
          | None =>
              wdo '(gene, tid, t_nov, info) <-
                in_store (process_ISM sql_group_by_gene chrom positions s edge_IDs
                                      vertex_IDs all_matches gene_starts gene_ends ri);
              retW {| v_gene := gene; v_transcript := tid;
                      v_gene_novelty := v_gene_novelty v0;
                      v_transcript_novelty := t_nov; v_info := info;
                      v_fusion := v_fusion v0 |}
          | Some _ =>
              retW {| v_gene := gene; v_transcript := tid;
                      v_gene_novelty := v_gene_novelty v0;
                      v_transcript_novelty := t_nov; v_info := info;
                      v_fusion := v_fusion v0 |}
          end
      | None => retW v0
      end;
    match v_gene v with
    | None =>
        wdo '(gene, tid, t_nov, info, fusion) <-
          process_NIC chrom positions s edge_IDs vertex_IDs gene_starts gene_ends ri;
        retW {| v_gene := gene; v_transcript := tid;
                v_gene_novelty := v_gene_novelty v;
                v_transcript_novelty := t_nov; v_info := info; v_fusion := fusion |}
    | Some _ => retW v
    end
  else if splice_vertices_known && bool_decide (v_gene v0 = None) then
    wdo '(gene, tid, t_nov, info, fusion) <-
      process_NIC chrom positions s edge_IDs vertex_IDs gene_starts gene_ends ri;
    retW {| v_gene := gene; v_transcript := tid;
            v_gene_novelty := v_gene_novelty v0;
            v_transcript_novelty := t_nov; v_info := info; v_fusion := fusion |}
  else retW v0.

(** talon.py 1716-1760: the spliced antisense case, or else the transcript
    novel and not in catalog. *)
Definition look_for_antisense_NNC (chrom : string) (positions : list Z) (s : strand)
    (edge_IDs vertex_IDs : list Z) (splice_vertices_known : bool)
    (all_exons_novel : Py.flag)
    (gene_starts gene_ends : gmap Z (list (Z * Z))) (ri : run_info) (v : vars)
    : W vars :=
  if splice_vertices_known && bool_decide (v_gene v = None) && negb (v_fusion v) then
    wdo '(gene, tid, g_nov, t_nov, info) <-
      process_spliced_antisense chrom positions s edge_IDs vertex_IDs
                                gene_starts gene_ends ri;
    retW {| v_gene := gene; v_transcript := tid; v_gene_novelty := g_nov;
            v_transcript_novelty := t_nov; v_info := info; v_fusion := v_fusion v |}
  else if negb splice_vertices_known && negb (v_fusion v)
          && negb (Py.truthy all_exons_novel) then
    wdo '(gene, tid, t_nov, info, fusion) <-
      process_NNC chrom positions s edge_IDs vertex_IDs gene_starts gene_ends ri;
    retW {| v_gene := gene; v_transcript := tid;
            v_gene_novelty := v_gene_novelty v;
            v_transcript_novelty := t_nov; v_info := info; v_fusion := fusion |}
  else retW v.

(** talon.py 1565-1829. *)
Definition identify_transcript (chrom : string) (positions : list Z) (s : strand)
    (gene_starts gene_ends : gmap Z (list (Z * Z))) (opts : options) : W annotations :=
  let ri := o_run opts in
  wdo '(vertex_IDs, v_novelty) <- in_store (match_splice_vertices chrom positions s ri);
  wdo '(edge_IDs, e_novelty) <- in_store (match_all_splice_edges vertex_IDs s);
  let all_SJs_known := check_all_SJs_known e_novelty in
  let all_exons_novel := check_all_exons_novel e_novelty in
  let splice_vertices_known := bool_decide (Py.sum v_novelty = 0) in
  wdo v1 <- look_for_FSM_ISM_NIC chrom positions s edge_IDs vertex_IDs all_SJs_known
              splice_vertices_known gene_starts gene_ends ri
              {| v_gene := None; v_transcript := None; v_gene_novelty := [];
                 v_transcript_novelty := []; v_info := SeNone; v_fusion := false |};
  wdo v2 <- look_for_antisense_NNC chrom positions s edge_IDs vertex_IDs
              splice_vertices_known all_exons_novel gene_starts gene_ends ri v1;
  wdo '(gene, tid, g_nov, t_nov, info) <-
    match v_gene v2 with
    | None =>
        wdo '(gene, tid, g_nov, t_nov, info) <-
          process_remaining_mult_cases chrom positions s edge_IDs vertex_IDs
                                       gene_starts gene_ends opts (v_fusion v2);
        retW (gene, Some tid, g_nov, t_nov, SeInfo info)
    | Some gene =>
        retW (gene, v_transcript v2, v_gene_novelty v2, v_transcript_novelty v2,
              v_info v2)
    end;
  wdo info <- liftW (subscript_info info);
  let e_novelty := [se_start_novelty info] ++ e_novelty ++ [se_end_novelty info] in
  wdo _ <- (λ w, inr ((), {| w_store := w_store w; w_gene_counter := w_gene_counter w;
                              tmp_gene := tmp_gene w;
                              vertex_2_gene :=
                                update_vertex_2_gene gene (se_vertex_IDs info) s
                                                     (vertex_2_gene w);
                              tmp_monoexon := tmp_monoexon w |}));
  let '(talon_gene_name, talon_transcript_name) :=
    construct_names (Some gene) tid (idprefix ri) (n_places opts) in
  let g_nov :=
    if 0 <? Py.len g_nov
    then g_nov ++ [(gene, idprefix ri, "TALON", "gene_status", "NOVEL");
                   (gene, idprefix ri, "TALON", "gene_name", talon_gene_name);
                   (gene, idprefix ri, "TALON", "gene_id", talon_gene_name)]
    else g_nov in
  wdo t_nov <-
    (if 0 <? Py.len t_nov
     then match tid with
          | Some t =>
              retW (t_nov ++ [(t, idprefix ri, "TALON", "transcript_status", "NOVEL");
                              (t, idprefix ri, "TALON", "transcript_name",
                               talon_transcript_name);
                              (t, idprefix ri, "TALON", "transcript_id",
                               talon_transcript_name)])
          | None => liftW (inl TypeError)
          end
     else retW t_nov);
  retW {| a_gene_ID := gene; a_transcript_ID := tid;
          gene_novelty := g_nov; transcript_novelty := t_nov;
          exon_novelty := novel_exons ri (Py.evens (se_edge_IDs info)) (Py.evens e_novelty);
          a_start_vertex := se_start_vertex info; a_end_vertex := se_end_vertex info;
          a_start_exon := se_start_exon info; a_end_exon := se_end_exon info;
          start_delta := se_diff_5p info; end_delta := se_diff_3p info |}.

End Classifier.

(** Nothing the store holds of vertices and edges is lost or changed. *)
Definition store_grows (st st' : store) : Prop :=
  vertices_kept (location_dict st) (location_dict st')
  ∧ edge_dict st ⊆ edge_dict st'.

(** The dict holds a transcript of [n] exons whose edge set contains the
    edges: a full splice match for a read with these interior edges. *)
Definition has_FSM_for (edge_IDs : list Z) (n : Z) (dict : list (gset Z * transcript))
    : Prop :=
  ∃ key T, (key, T) ∈ dict ∧ frozenset edge_IDs ⊆ key ∧ n_exons T = n.

(** What a step leaves alone of a worker, beside the store. *)
Definition same_genes (w w' : worker) : Prop :=
  w_gene_counter w' = w_gene_counter w ∧ tmp_gene w' = tmp_gene w.

(** A worker over the two isoforms, with no novel gene yet. *)
Definition chr1_worker : worker :=
  {| w_store := two_isoforms; w_gene_counter := 1; tmp_gene := [];
     vertex_2_gene := {[ 1 := {[ (1, Plus) ]}; 2 := {[ (1, Plus) ]}; 3 := {[ (1, Plus) ]};
                         4 := {[ (1, Plus) ]}; 5 := {[ (1, Plus) ]} ]};
     tmp_monoexon := [] |}.

Definition plain_options : options :=
  {| o_run := cutoffs_50; create_novel_spliced_genes := false; n_places := 9 |}.

(** ** Single-exon reads (talon.py 199-243, 2183-2404) *)

(** The loop of [match_monoexon_vertices] over the indices that are left.
    [vertex_match] is the variable of that name: only the first and the last
    index assign it before it is tested, so that an index in between tests
    the value the previous index left. *)
Fixpoint monoexon_vertices_loop (chrom : string) (positions : list Z) (s : strand)
    (ri : run_info) (indices : list nat) (vertex_match : option Z)
    (diff_5p diff_3p : option Z) : M (list Z * list Z * option Z * option Z) :=
  match indices with
  | [] => ret ([], [], diff_5p, diff_3p)
  | curr_index :: rest =>
      do position <- lift (Py.index positions curr_index);
      do '(vertex_match, diff_5p, diff_3p) <-
        (if decide (curr_index = 0%nat) then
           do sj_pos <- lift (Py.index positions (curr_index + 1));
           do locations <- gets location_dict;
           let '(m, d) :=
             permissive_vertex_search chrom position s sj_pos Start locations ri in
           ret (m, d, diff_3p)
         else if decide (curr_index = (length positions - 1)%nat) then
           do sj_pos <- lift (Py.index positions (curr_index - 1));
           do locations <- gets location_dict;
           let '(m, d) :=
             permissive_vertex_search chrom position s sj_pos End locations ri in
           ret (m, diff_5p, d)
         else ret (vertex_match, diff_5p, diff_3p));
      do '(vertex_match, nov) <-
        match vertex_match with
        | None => do v <- create_vertex chrom position ri; ret (location_ID v, 1)
        | Some m => ret (m, 0)
        end;
      do '(vertex_matches, novelty, diff_5p, diff_3p) <-
        monoexon_vertices_loop chrom positions s ri rest (Some vertex_match)
                               diff_5p diff_3p;
      ret (vertex_match :: vertex_matches, nov :: novelty, diff_5p, diff_3p)
  end.

(** Returns [(vertex_matches, novelty, diff_5p, diff_3p)]. *)
Definition match_monoexon_vertices (chrom : string) (positions : list Z) (s : strand)
    (ri : run_info) : M (list Z * list Z * option Z * option Z) :=
  monoexon_vertices_loop chrom positions s ri (seq 0 (length positions)) None None None.

(** The [WHERE] clause of the query on the single-exon table. *)
Definition mono_where (chrom : string) (s : strand) (start end_ : Z) (r : mono_row)
    : bool :=
  bool_decide (m_chromosome r = chrom) && bool_decide (m_strand r = s)
  && ((m_min_pos r <=? start) && (m_max_pos r >=? end_)
      || (m_min_pos r >=? start) && (m_max_pos r <=? end_)
      || (m_min_pos r >=? start) && (m_min_pos r <=? end_)
      || (m_max_pos r >=? start) && (m_max_pos r <=? end_)).

(** The tie-break among the overlapping single-exon transcripts, carrying
    [(best_overlap, best_match)]. *)
Fixpoint best_overlap_loop (matches : list mono_row) (start end_ : Z)
    (best_overlap : Z) (best_match : option mono_row) : option mono_row :=
  match matches with
  | [] => best_match
  | m :: rest =>
      let '(overlap, _) := get_overlap (start, end_) (m_start m, m_end m) in
      if overlap >=? best_overlap
      then best_overlap_loop rest start end_ overlap (Some m)
      else best_overlap_loop rest start end_ best_overlap best_match
  end.

Section Monoexon.

Variable sql_group_by_gene : list t_row → list t_row.

(** The second branch of [identify_monoexon_transcript]: no single-exon
    transcript overlaps the read.  The overlap search is called with
    [positions[0]] and [positions[1]].  An annotation holds the transcript ID
    as a number: the run in which [process_ISM] names a gene and no transcript
    is given as an error here; that function names both or neither. *)
Definition identify_novel_monoexon (chrom : string) (positions : list Z) (s : strand)
    (start end_ : Z) (gene_starts gene_ends : gmap Z (list (Z * Z))) (opts : options)
    : W annotations :=
  let ri := o_run opts in
  wdo '(vertex_IDs, v_novelty, diff_5p, diff_3p) <-
    in_store (match_monoexon_vertices chrom positions s ri);
  wdo '(edge_IDs, e_novelty) <- in_store (match_all_transcript_edges vertex_IDs s);
  wdo e_novelty_0 <- liftW (Py.index e_novelty 0);
  wdo '(gene, tid, t_nov) <-
    (if e_novelty_0 =? 0 then
       wdo dict <- getsW (λ w, transcript_dict (w_store w));
       match search_for_ISM edge_IDs dict with
       | Some all_matches =>
           wdo '(gene, tid, t_nov, _) <-
             in_store (process_ISM sql_group_by_gene chrom positions s edge_IDs
                                   vertex_IDs all_matches gene_starts gene_ends ri);
           retW (gene, tid, t_nov)
       | None => retW (None, None, [])
       end
     else retW (None, None, []));
  wdo '(gene, tid, g_nov, t_nov) <-
    match gene with
    | Some g => retW (g, tid, [], t_nov)
    | None =>
        wdo p0 <- liftW (Py.index positions 0);
        wdo p1 <- liftW (Py.index positions 1);
        wdo table <- getsW (λ w, tmp_t (w_store w));
        wdo '(found, match_strand) <-
          liftW (search_for_overlap_with_gene sql_group_by_gene chrom p0 p1 s table None);
        wdo p_last <- liftW (Py.index_back positions 0);
        match found with
        | None =>
            wdo gene <- create_gene chrom p0 p_last s;
            wdo novel <- in_store (create_transcript s chrom p0 p_last gene edge_IDs
                                                     vertex_IDs);
            let tid := transcript_ID novel in
            retW (gene, Some tid,
                  [(gene, idprefix ri, "TALON", "intergenic_novel", "TRUE")],
                  t_nov ++ [(tid, idprefix ri, "TALON", "intergenic_transcript", "TRUE")])
        | Some anti_gene_ID =>
            if decide (match_strand ≠ Some s) then
              wdo gene <- create_gene chrom p0 p_last s;
              wdo novel <- in_store (create_transcript s chrom p0 p_last gene edge_IDs
                                                       vertex_IDs);
              let tid := transcript_ID novel in
              retW (gene, Some tid,
                    [(gene, idprefix ri, "TALON", "antisense_gene", "TRUE");
                     (gene, idprefix ri, "TALON", "gene_antisense_to_IDs",
                      Py.str anti_gene_ID)],
                    t_nov ++ [(tid, idprefix ri, "TALON", "antisense_transcript", "TRUE")])
            else
              wdo novel <- in_store (create_transcript s chrom p0 p_last anti_gene_ID
                                                       edge_IDs vertex_IDs);
              let tid := transcript_ID novel in
              retW (anti_gene_ID, Some tid, [],
                    t_nov ++ [(tid, idprefix ri, "TALON", "genomic_transcript", "TRUE")])
        end
    end;
  wdo _ <- (λ w, inr ((), {| w_store := w_store w; w_gene_counter := w_gene_counter w;
                              tmp_gene := tmp_gene w;
                              vertex_2_gene :=
                                update_vertex_2_gene gene vertex_IDs s (vertex_2_gene w);
                              tmp_monoexon := tmp_monoexon w |}));
  let '(talon_gene_name, talon_transcript_name) :=
    construct_names (Some gene) tid (idprefix ri) (n_places opts) in
  let g_nov :=
    if 0 <? Py.len g_nov
    then g_nov ++ [(gene, idprefix ri, "TALON", "gene_status", "NOVEL");
                   (gene, idprefix ri, "TALON", "gene_name", talon_gene_name);
                   (gene, idprefix ri, "TALON", "gene_id", talon_gene_name)]
    else g_nov in
  wdo t <- liftW (match tid with Some t => inr t | None => inl TypeError end);
  let t_nov :=
    t_nov ++ [(t, idprefix ri, "TALON", "transcript_status", "NOVEL");
              (t, idprefix ri, "TALON", "transcript_name", talon_transcript_name);
              (t, idprefix ri, "TALON", "transcript_id", talon_transcript_name)] in
  wdo edge_0 <- liftW (Py.index edge_IDs 0);
  let e_nov :=
    if e_novelty_0 =? 1
    then [(edge_0, idprefix ri, "TALON", "exon_status", "NOVEL")] else [] in
  wdo vertex_0 <- liftW (Py.index vertex_IDs 0);
  wdo vertex_last <- liftW (Py.index_back vertex_IDs 0);
  wdo _ <- (λ w, inr ((), {| w_store := w_store w; w_gene_counter := w_gene_counter w;
                              tmp_gene := tmp_gene w;
                              vertex_2_gene := vertex_2_gene w;
                              tmp_monoexon :=
                                tmp_monoexon w
                                ++ [{| m_gene_ID := gene; m_transcript_ID := t;
                                       m_chromosome := chrom; m_start := start;
                                       m_end := end_; m_strand := s;
                                       m_start_vertex := vertex_0;
                                       m_end_vertex := vertex_last;
                                       m_exon_ID := edge_0;
                                       m_min_pos := Z.min start end_;
                                       m_max_pos := Z.max start end_ |}] |}));
  wdo edge_last <- liftW (Py.index_back edge_IDs 0);
  retW {| a_gene_ID := gene; a_transcript_ID := Some t;
          gene_novelty := g_nov; transcript_novelty := t_nov; exon_novelty := e_nov;
          a_start_vertex := vertex_0; a_end_vertex := vertex_last;
          a_start_exon := edge_0; a_end_exon := edge_last;
          start_delta := diff_5p; end_delta := diff_3p |}.

(** talon.py 2183-2404. *)
Definition identify_monoexon_transcript (chrom : string) (positions : list Z)
    (s : strand) (gene_starts gene_ends : gmap Z (list (Z * Z))) (opts : options)
    : W annotations :=
  wdo start <- liftW (Py.index positions 0);
  wdo end_ <- liftW (Py.index_back positions 0);
  wdo table <- getsW tmp_monoexon;
  let matches :=
    filter (λ r, mono_where chrom s (Z.min start end_) (Z.max start end_) r = true)
           table in
  if 0 <? Py.len matches then
    match best_overlap_loop matches start end_ 0 None with
    | None => liftW (inl TypeError)
    | Some best_match =>
        retW {| a_gene_ID := m_gene_ID best_match;
                a_transcript_ID := Some (m_transcript_ID best_match);
                gene_novelty := []; transcript_novelty := []; exon_novelty := [];
                a_start_vertex := m_start_vertex best_match;
                a_end_vertex := m_end_vertex best_match;
                a_start_exon := m_exon_ID best_match;
                a_end_exon := m_exon_ID best_match;
                start_delta := Some (compute_delta (m_start best_match) start s);
                end_delta := Some (compute_delta (m_end best_match) end_ s) |}
    end
  else identify_novel_monoexon chrom positions s start end_ gene_starts gene_ends opts.

End Monoexon.

(** The two outcomes of a branch: no gene and nothing changed, or a gene, a
    transcript and a stored full splice match for the read. *)
Definition branch_outcome (edge_IDs vertex_IDs : list Z) (w w' : worker)
    (g t : option Z) (info : se_result) (none : se_result) : Prop :=
  (g = None ∧ t = None ∧ info = none ∧ w' = w)
  ∨ ∃ gene tid i,
      g = Some gene ∧ t = Some tid ∧ info = SeInfo i
      ∧ se_vertex_IDs i = [se_start_vertex i] ++ vertex_IDs ++ [se_end_vertex i]
      ∧ has_FSM_for edge_IDs ((Py.len edge_IDs + 3) `div` 2)
                    (transcript_dict (w_store w')).

(** The classifier has not settled on a gene yet, or it has, and then with
    the two ends around the interior vertices and with a stored full splice
    match for the read. *)
Definition settled (edge_IDs vertex_IDs : list Z) (n : Z) (v : vars) (w : worker)
    : Prop :=
  v_gene v = None
  ∨ (has_FSM_for edge_IDs n (transcript_dict (w_store w))
     ∧ ∃ i, v_info v = SeInfo i
            ∧ se_vertex_IDs i = [se_start_vertex i] ++ vertex_IDs ++ [se_end_vertex i]).

(** Process 0 has taken the lock, read the value 7 and stored 8; process 1
    has called [increment] and waits for the lock. *)
Definition one_inside_one_waiting : Shared.state :=
  {| Shared.val := c_int (7 + 1); Shared.lock := Some 0%nat;
     Shared.procs :=
       Shared.set_proc 0 Shared.Read
         (Shared.set_proc 0 (Shared.Store (c_int 7))
            (Shared.set_proc 0 Shared.Fetch
               (Shared.set_proc 1 Shared.Acquire
                  (Shared.set_proc 0 Shared.Acquire (λ _, Shared.Idle)))));
     Shared.returned := [] |}.


(** The overlap that [identify_monoexon_transcript] computes for a row. *)
Definition overlap_with (start end_ : Z) (m : mono_row) : Z :=
  (get_overlap (start, end_) (m_start m, m_end m)).1.

(** The annotation of a read that matched the single-exon transcript [m]. *)
Definition known_monoexon (m : mono_row) (start end_ : Z) (s : strand) : annotations :=
  {| a_gene_ID := m_gene_ID m; a_transcript_ID := Some (m_transcript_ID m);
     gene_novelty := []; transcript_novelty := []; exon_novelty := [];
     a_start_vertex := m_start_vertex m; a_end_vertex := m_end_vertex m;
     a_start_exon := m_exon_ID m; a_end_exon := m_exon_ID m;
     start_delta := Some (compute_delta (m_start m) start s);
     end_delta := Some (compute_delta (m_end m) end_ s) |}.

(** The rows the query of [identify_monoexon_transcript] returns. *)
Definition overlapping_monoexons (chrom : string) (s : strand) (start end_ : Z)
    (table : list mono_row) : list mono_row :=
  filter (λ r, mono_where chrom s (Z.min start end_) (Z.max start end_) r = true) table.

(** Two single-exon transcripts of the plus strand of chr1, the second one
    inside the first. *)
Definition plus_monoexons : worker :=
  {| w_store := two_isoforms; w_gene_counter := 8; tmp_gene := [];
     vertex_2_gene := ∅;
     tmp_monoexon :=
       [ {| m_gene_ID := 7; m_transcript_ID := 70; m_chromosome := "chr1";
            m_start := 100; m_end := 500; m_strand := Plus; m_start_vertex := 11;
            m_end_vertex := 12; m_exon_ID := 21; m_min_pos := 100; m_max_pos := 500 |};
         {| m_gene_ID := 8; m_transcript_ID := 80; m_chromosome := "chr1";
            m_start := 440; m_end := 450; m_strand := Plus; m_start_vertex := 13;
            m_end_vertex := 14; m_exon_ID := 22; m_min_pos := 440; m_max_pos := 450 |} ] |}.

(** The same two transcripts on the minus strand. *)
Definition minus_monoexons : worker :=
  {| w_store := two_isoforms; w_gene_counter := 8; tmp_gene := [];
     vertex_2_gene := ∅;
     tmp_monoexon :=
       [ {| m_gene_ID := 7; m_transcript_ID := 70; m_chromosome := "chr1";
            m_start := 500; m_end := 100; m_strand := Minus; m_start_vertex := 11;
            m_end_vertex := 12; m_exon_ID := 21; m_min_pos := 100; m_max_pos := 500 |};
         {| m_gene_ID := 8; m_transcript_ID := 80; m_chromosome := "chr1";
            m_start := 450; m_end := 440; m_strand := Minus; m_start_vertex := 13;
            m_end_vertex := 14; m_exon_ID := 22; m_min_pos := 440; m_max_pos := 450 |} ] |}.


(** The count the abundance dictionary holds for a transcript of a dataset. *)
Definition stored_count (abundance : list (string * list (string * Z)))
    (dataset tid : string) : option Z :=
  alist_lookup dataset abundance ≫= alist_lookup tid.

(** How many of the reads have the key [(dataset, transcript_ID)]. *)
Definition occurrences (keys : list (string * string)) (key : string * string) : Z :=
  Z.of_nat (length (filter (λ k, k = key) keys)).

(** The keys of the dictionary and of each of its values are distinct. *)
Definition distinct_keys (abundance : list (string * list (string * Z))) : Prop :=
  NoDup abundance.*1 ∧ Forall (λ p, NoDup p.2.*1) abundance.

(** Three observed reads: two of transcript 7 in dataset d1, one in d2. *)
Definition observed_line (obs_ID tid dataset : string) : string :=
  tsv [obs_ID; "1"; tid; "read"; dataset; "1"; "2"; "1"; "1"; "None"; "None"; "100";
       "None"; "None"; "None"; "None"; "None"].

Definition three_reads : list string :=
  [observed_line "1" "7" "d1"; observed_line "2" "7" "d2"; observed_line "3" "7" "d1"].

(** * Properties *)


(** C10. The interior vertices [a; b] of a two-exon read give one interior
    edge, the intron, hence an edge-novelty list [x] of length one, with
    [x = 0] exactly when that intron was already known. On any list of length
    one, [check_all_exons_novel] returns the integer 0, which is falsy, so the
    NNC guard reduces to "some splice vertex is new and no fusion was flagged";
    and [check_all_SJs_known] and [check_all_exons_known] both test that
    single entry against 0. *)
Theorem two_exon_read_novelty_checks :
  (∀ (x : Z) (splice_vertices_known fusion : bool),
     check_all_exons_novel [x] = Py.Int 0
     ∧ Py.truthy (check_all_exons_novel [x]) = false
     ∧ NNC_guard splice_vertices_known fusion [x]
       = negb splice_vertices_known && negb fusion
     ∧ check_all_SJs_known [x] = (x =? 0)
     ∧ check_all_exons_known [x] = (x =? 0))
  ∧ (∀ (a b : Z) (s : strand) (st : store),
       ∃ e x st',
         match_all_splice_edges [a; b] s st = inr (([e], [x]), st')
         ∧ (x = 0 ↔ is_Some (search_for_edge a b Intron (edge_dict st)))).
Proof.
  split.
  - intros x skv fusion. unfold NNC_guard. simpl. by rewrite andb_true_r.
  - intros a b s st.
    unfold match_all_splice_edges, match_edges_from, match_or_create_edge, bind, gets, ret.
    destruct (search_for_edge a b Intron (edge_dict st)) eqn:E; simpl.
    + eexists _, _, _. split; [reflexivity|]. split; eauto.
    + eexists _, _, _. split; [reflexivity|]. split; [done|]. intros [? ?]; done.
Qed.



Lemma collect_gene_matches_genes vertex_IDs s (v2g : gmap Z (list (Z * strand))) :
  (collect_gene_matches vertex_IDs s v2g).1 = vertex_IDs ≫= λ v, genes_at v s v2g.
Proof.
  induction vertex_IDs as [|v l IH]; [done|].
  simpl. destruct (collect_gene_matches l s v2g) as [gm ngm] eqn:E. simpl in IH.
  unfold genes_at at 1. destruct (v2g !! v); simpl; by rewrite IH.
Qed.

Lemma collect_gene_matches_max vertex_IDs s (v2g : gmap Z (list (Z * strand))) :
  (max_list (collect_gene_matches vertex_IDs s v2g).2 ≤ 1)%nat
  ↔ ∀ v, v ∈ vertex_IDs → (length (genes_at v s v2g) ≤ 1)%nat.
Proof.
  induction vertex_IDs as [|v l IH].
  - simpl. split; [|lia]. intros _ v Hv. by apply elem_of_nil in Hv.
  - simpl. destruct (collect_gene_matches l s v2g) as [gm ngm] eqn:E. simpl in IH.
    assert (Hlen : length (genes_at v s v2g)
                   = length (strand_matches s (default [] (v2g !! v)))).
    { unfold genes_at. by rewrite length_fmap. }
    destruct (v2g !! v) as [ms|] eqn:Ev; simpl in *.
    + split.
      * intros Hmax w Hw. apply elem_of_cons in Hw as [->|Hw].
        -- rewrite Hlen. lia.
        -- apply IH; [lia|done].
      * intros Hall. assert (max_list ngm ≤ 1)%nat.
        { apply IH. intros w Hw. apply Hall. by right. }
        specialize (Hall v ltac:(left)). rewrite Hlen in Hall. lia.
    + rewrite IH. split.
      * intros Hall w Hw. apply elem_of_cons in Hw as [->|Hw]; [|by apply Hall].
        rewrite Hlen. simpl. lia.
      * intros Hall w Hw. apply Hall. by right.
Qed.

Lemma gene_tally_keys gm : (gene_tally gm).*1 = elements (list_to_set gm : gset Z).
Proof.
  unfold gene_tally. rewrite <- list_fmap_compose.
  induction (elements _) as [|x l IH]; [done|]. simpl. by f_equal.
Qed.

Lemma gene_tally_length gm : length (gene_tally gm) = size (list_to_set gm : gset Z).
Proof. unfold gene_tally. by rewrite length_fmap. Qed.

(** C1, as amended. When the same-strand matches of the query's vertices
    name more than one gene, [find_gene_match_on_vertex_basis] looks at how
    many genes use each vertex, not at how many vertices a gene owns: if
    every vertex of the query is used by at most one gene it returns no gene
    and flags a fusion candidate, and if some vertex is used by two or more
    genes it returns the set of candidate genes with the fusion flag off. *)
Theorem find_gene_match_fusion_rule (vertex_IDs : list Z) (s : strand)
    (vertex_2_gene : gmap Z (list (Z * strand))) :
  (1 < size (genes_hit vertex_IDs s vertex_2_gene))%nat →
  ((∀ v, v ∈ vertex_IDs → (length (genes_at v s vertex_2_gene) ≤ 1)%nat) →
   find_gene_match_on_vertex_basis vertex_IDs s vertex_2_gene = (NoGene, true))
  ∧ ((∃ v, v ∈ vertex_IDs ∧ (2 ≤ length (genes_at v s vertex_2_gene))%nat) →
     find_gene_match_on_vertex_basis vertex_IDs s vertex_2_gene
     = (GeneCandidates (elements (genes_hit vertex_IDs s vertex_2_gene)), false)).
Proof.
  intros Hsize. unfold find_gene_match_on_vertex_basis.
  pose proof (collect_gene_matches_genes vertex_IDs s vertex_2_gene) as Hg.
  pose proof (collect_gene_matches_max vertex_IDs s vertex_2_gene) as Hm.
  destruct (collect_gene_matches vertex_IDs s vertex_2_gene) as [gm ngm].
  simpl in Hg, Hm. unfold genes_hit in *. rewrite <- Hg in *.
  assert (Hne : length gm ≠ 0%nat).
  { destruct gm; [|done]. rewrite list_to_set_nil, size_empty in Hsize. lia. }
  rewrite gene_tally_length, gene_tally_keys.
  split.
  - intros Hall. apply (proj2 Hm) in Hall.
    rewrite decide_False by done. by rewrite decide_True.
  - intros (v & Hv & Hlen).
    rewrite decide_False by done.
    rewrite decide_False.
    + by rewrite decide_True.
    + intros [Hmax _]. pose proof (proj1 Hm Hmax v Hv). lia.
Qed.

Lemma find_gene_match_fusion_rule_witness :
  find_gene_match_on_vertex_basis [1; 2; 3] Plus fusion_example_index = (NoGene, true).
Proof.
  apply (find_gene_match_fusion_rule [1; 2; 3] Plus fusion_example_index).
  - vm_compute. lia.
  - intros v Hv. 
    repeat (apply elem_of_cons in Hv as [->|Hv]; [vm_compute; lia|]).
    by apply elem_of_nil in Hv.
Defined.

Lemma fusion_despite_gene_with_two_vertices :
  size (genes_hit [1; 2; 3] Plus fusion_example_index) = 2%nat
  ∧ vertices_shared 10 [1; 2; 3] Plus fusion_example_index = 2%nat
  ∧ find_gene_match_on_vertex_basis [1; 2; 3] Plus fusion_example_index = (NoGene, true)
  ∧ size (genes_hit [1] Plus shared_vertex_index) = 2%nat
  ∧ (∀ g, (vertices_shared g [1%Z] Plus shared_vertex_index ≤ 1)%nat)
  ∧ find_gene_match_on_vertex_basis [1] Plus shared_vertex_index
    = (GeneCandidates [10; 20], false).
Proof.
  repeat split; try (vm_compute; reflexivity).
  intros g. unfold vertices_shared. pose proof (length_filter (λ v, g ∈ genes_at v Plus shared_vertex_index) [1]). simpl in *. lia.
Qed.



Section Scan.

Context (chrom : string) (position : Z) (s : strand) (dir w_start w_end : Z)
        (locations : gmap string (gmap Z vertex)).

Hypothesis dir_unit : dir = 1 ∨ dir = -1.

Lemma try_candidate_Some p r :
  try_candidate chrom position p s w_start w_end locations = Some r ↔
  in_window w_start w_end p
  ∧ ∃ vtx, search_for_vertex_at_pos chrom p locations = Some vtx
           ∧ r = (location_ID vtx, compute_delta p position s).
Proof.
  unfold try_candidate, in_window. case_bool_decide as Hw.
  - destruct (search_for_vertex_at_pos chrom p locations) as [vtx|].
    + split.
      * intros [= <-]. split; [lia|]. eauto.
      * intros (_ & vtx' & [= <-] & ->). done.
    + split; [done|]. intros (_ & vtx' & ? & _). done.
  - split; [done|]. intros (? & _). lia.
Qed.

Lemma try_candidate_None p :
  try_candidate chrom position p s w_start w_end locations = None ↔
  (in_window w_start w_end p → search_for_vertex_at_pos chrom p locations = None).
Proof.
  unfold try_candidate, in_window. case_bool_decide as Hw.
  - destruct (search_for_vertex_at_pos chrom p locations) as [vtx|].
    + split; [done|]. intros H. discriminate H. lia.
    + split; done.
  - split; [|done]. intros _ ?. lia.
Qed.

(** What the scan of the offsets [a, a+1, ..., a+n-1] yields when nothing
    nearer than [a] is a candidate. *)
Lemma scan_offsets_seqZ (n : nat) : ∀ a,
  1 ≤ a →
  (scan_offsets (seqZ a (Z.of_nat n)) chrom position s dir w_start w_end locations = None
   ∧ ∀ p, in_window w_start w_end p → a ≤ Z.abs (p - position) < a + Z.of_nat n →
          search_for_vertex_at_pos chrom p locations = None)
  ∨ ∃ k curr vtx,
      a ≤ k < a + Z.of_nat n
      ∧ scan_offsets (seqZ a (Z.of_nat n)) chrom position s dir w_start w_end locations
        = Some (location_ID vtx, compute_delta curr position s)
      ∧ Z.abs (curr - position) = k
      ∧ in_window w_start w_end curr
      ∧ search_for_vertex_at_pos chrom curr locations = Some vtx
      ∧ (∀ p, in_window w_start w_end p → a ≤ Z.abs (p - position) < k →
              search_for_vertex_at_pos chrom p locations = None)
      ∧ (curr = position + k * dir
         ∨ (in_window w_start w_end (position + k * dir) →
            search_for_vertex_at_pos chrom (position + k * dir) locations = None)).
Proof.
  assert (Hmul : ∀ a, a * dir = a ∨ a * dir = - a).
  { intros a. destruct dir_unit as [Hd|Hd]; rewrite Hd; lia. }
  induction n as [|n IH]; intros a Ha.
  - left. simpl. split; [done|]. intros. lia.
  - rewrite seqZ_cons by lia. simpl scan_offsets.
    replace (Z.pred (Z.of_nat (S n))) with (Z.of_nat n) by lia.
    pose proof (Hmul a) as Hma.
    destruct (try_candidate chrom position (position + a * dir) s w_start w_end locations)
      as [r|] eqn:E1.
    { apply try_candidate_Some in E1 as (Hw & vtx & Hv & ->).
      right. exists a, (position + a * dir), vtx.
      unfold in_window in Hw |- *. repeat split; try done; try lia. }
    pose proof (proj1 (try_candidate_None _) E1) as E1'. clear E1. rename E1' into E1.
    destruct (try_candidate chrom position (position - a * dir) s w_start w_end locations)
      as [r|] eqn:E2.
    { apply try_candidate_Some in E2 as (Hw & vtx & Hv & ->).
      right. exists a, (position - a * dir), vtx.
      unfold in_window in Hw |- *. repeat split; try done; try lia.
      right. exact E1. }
    pose proof (proj1 (try_candidate_None _) E2) as E2'. clear E2. rename E2' into E2.
    assert (Hat : ∀ p, in_window w_start w_end p → Z.abs (p - position) = a →
                       search_for_vertex_at_pos chrom p locations = None).
    { intros p Hw Hp.
      assert (p = position + a * dir ∨ p = position - a * dir) as [->| ->] by lia; auto. }
    destruct (IH (Z.succ a) ltac:(lia)) as [[Hnone Hall]|(k & curr & vtx & Hk & Hs & Hd & Hw & Hv & Hnear & Hprio)].
    + left. split; [done|]. intros p Hw Hp.
      destruct (decide (Z.abs (p - position) = a)); [by apply Hat|].
      apply Hall; [done|lia].
    + right. exists k, curr, vtx.
      split; [lia|]. do 4 (split; [done|]). split; [|done].
      intros p Hw' Hp.
      destruct (decide (Z.abs (p - position) = a)); [by apply Hat|].
      apply Hnear; [done|lia].
Qed.

End Scan.

Lemma search_window_dir position s sj_pos pt max_dist :
  (search_window position s sj_pos pt max_dist).1.1 = 1
  ∨ (search_window position s sj_pos pt max_dist).1.1 = -1.
Proof. destruct s, pt; simpl; auto. Qed.

Lemma compute_delta_abs a b s : Z.abs (compute_delta a b s) = Z.abs (a - b).
Proof. unfold compute_delta. destruct s; case_match; lia. Qed.

(** With every known position of the gene farther than the running minimum,
    the loop leaves its three variables as they were. *)
Lemma closest_gene_loc_far keys locs position s w_start w_end m bd cv :
  (∀ loc, loc ∈ keys → m ≤ Z.abs (loc - position)) →
  closest_gene_loc keys locs position s w_start w_end m bd cv = (m, bd, cv).
Proof.
  induction keys as [|k keys IH]; intros Hfar; [done|].
  simpl. case_bool_decide.
  - apply IH. intros loc Hloc. apply Hfar. by right.
  - rewrite compute_delta_abs.
    destruct (Z.ltb_spec (Z.abs (k - position)) m) as [Hlt|_].
    + specialize (Hfar k ltac:(left)). lia.
    + apply IH. intros loc Hloc. apply Hfar. by right.
Qed.

Lemma permissive_vertex_search_cases chrom position s sj_pos pt
    (locations : gmap string (gmap Z vertex)) ri :
  search_for_vertex_at_pos chrom position locations = None →
  let max_dist := max_dist_of pt ri in
  let w := search_window position s sj_pos pt max_dist in
  (permissive_vertex_search chrom position s sj_pos pt locations ri = (None, None)
   ∧ ∀ p, in_window w.1.2 w.2 p → scanned position max_dist p →
          search_for_vertex_at_pos chrom p locations = None)
  ∨ ∃ curr vtx,
      permissive_vertex_search chrom position s sj_pos pt locations ri
      = (Some (location_ID vtx), Some (compute_delta curr position s))
      ∧ in_window w.1.2 w.2 curr
      ∧ scanned position max_dist curr
      ∧ search_for_vertex_at_pos chrom curr locations = Some vtx
      ∧ (∀ p, in_window w.1.2 w.2 p → scanned position max_dist p →
              is_Some (search_for_vertex_at_pos chrom p locations) →
              Z.abs (curr - position) ≤ Z.abs (p - position))
      ∧ (curr = position + Z.abs (curr - position) * w.1.1
         ∨ (in_window w.1.2 w.2 (position + Z.abs (curr - position) * w.1.1) →
            search_for_vertex_at_pos chrom
              (position + Z.abs (curr - position) * w.1.1) locations = None)).
Proof.
  intros Hexact max_dist w. unfold permissive_vertex_search. rewrite Hexact.
  fold max_dist. fold w. destruct w as [[dir w_start] w_end] eqn:Ew. simpl.
  assert (Hdir : dir = 1 ∨ dir = -1).
  { pose proof (search_window_dir position s sj_pos pt max_dist) as H.
    fold w in H. subst w. by rewrite Ew in H. }
  unfold range.
  destruct (decide (max_dist - 1 < 0)) as [Hneg|Hpos].
  { left. unfold seqZ. replace (Z.to_nat (max_dist - 1)) with 0%nat by lia. simpl.
    split; [done|]. unfold scanned. intros. lia. }
  replace (max_dist - 1) with (Z.of_nat (Z.to_nat (max_dist - 1))) by lia.
  destruct (scan_offsets_seqZ chrom position s dir w_start w_end locations Hdir
              (Z.to_nat (max_dist - 1)) 1 ltac:(lia))
    as [[Hnone Hall]|(k & curr & vtx & Hk & Hs & Hd & Hw & Hv & Hnear & Hprio)].
  - left. rewrite Hnone. split; [done|]. intros p Hw Hp. apply Hall; [done|].
    unfold scanned in Hp. lia.
  - right. exists curr, vtx. rewrite Hs. split; [done|]. split; [done|].
    split; [unfold scanned; lia|]. split; [done|]. split.
    + intros p Hw' Hp [v' Hv'].
      destruct (Z_le_gt_dec (Z.abs (curr - position)) (Z.abs (p - position))); [done|].
      rewrite Hnear in Hv'; [done|done|]. unfold scanned in Hp. lia.
    + by rewrite Hd.
Qed.

Lemma process_5p_creates_vertex chrom position p1 rest v0 vrest s gene
    (gene_starts : gmap Z (list (Z * Z))) ri st :
  search_for_vertex_at_pos chrom position (location_dict st) = None →
  (∀ p, is_Some (search_for_vertex_at_pos chrom p (location_dict st)) →
        cutoff_5p ri ≤ Z.abs (p - position)) →
  (∀ g locs loc, gene = Some g → gene_starts !! g = Some locs → loc ∈ locs.*1 →
                 cutoff_5p ri < Z.abs (loc - position)) →
  let new_ID := Counter.increment (vertex_counter st) in
  ∃ start_exon start_novelty st',
    process_5p chrom (position :: p1 :: rest) s (v0 :: vrest) gene gene_starts ri st
    = inr ((new_ID, start_exon, start_novelty, 0, None), st')
    ∧ search_for_vertex_at_pos chrom position (location_dict st')
      = Some {| location_ID := new_ID; genome_build := build ri;
                v_chromosome := chrom; v_position := position |}.
Proof.
  intros Hexact Hfar Hgene new_ID.
  assert (Hperm : permissive_vertex_search chrom position s p1 Start (location_dict st) ri
                  = (None, None)).
  { destruct (permissive_vertex_search_cases chrom position s p1 Start (location_dict st) ri
                Hexact) as [[H _]|(curr & vtx & _ & _ & Hsc & Hv & _)]; [done|].
    specialize (Hfar curr ltac:(eauto)). unfold scanned in Hsc. simpl in Hsc. lia. }
  assert (Hprio : permissive_match_with_gene_priority chrom position s p1 Start gene
                    gene_starts (location_dict st) ri = (None, None, 0)).
  { unfold permissive_match_with_gene_priority. rewrite Hexact, Hperm.
    destruct (gene ≫= λ g, gene_starts !! g) as [locs|] eqn:El; [|done].
    destruct gene as [g|]; [|done]. simpl in El.
    destruct (search_window position s p1 Start (max_dist_of Start ri)) as [[d ws] we].
    rewrite closest_gene_loc_far.
    - simpl. destruct (Z.leb_spec (cutoff_5p ri + 1) (cutoff_5p ri)); [lia|done].
    - intros loc Hloc. specialize (Hgene g locs loc eq_refl El Hloc). simpl. lia. }
  unfold process_5p, bind, lift, gets, ret. simpl. rewrite Hprio. simpl.
  unfold match_or_create_edge, bind, gets, ret. simpl.
  destruct (search_for_edge _ _ _ _) as [e|]; simpl.
  - eexists _, _, _. split; [reflexivity|]. simpl.
    unfold search_for_vertex_at_pos. rewrite lookup_insert_eq. simpl.
    destruct (location_dict st !! chrom); by rewrite ?lookup_insert_eq, ?lookup_singleton_eq.
  - eexists _, _, _. split; [reflexivity|]. simpl.
    unfold search_for_vertex_at_pos. rewrite lookup_insert_eq. simpl.
    destruct (location_dict st !! chrom); by rewrite ?lookup_insert_eq, ?lookup_singleton_eq.
Qed.

Lemma process_3p_creates_vertex chrom position p_before front v_last vfront s gene
    (gene_ends : gmap Z (list (Z * Z))) ri st :
  search_for_vertex_at_pos chrom position (location_dict st) = None →
  (∀ p, is_Some (search_for_vertex_at_pos chrom p (location_dict st)) →
        cutoff_3p ri ≤ Z.abs (p - position)) →
  (∀ g locs loc, gene = Some g → gene_ends !! g = Some locs → loc ∈ locs.*1 →
                 cutoff_3p ri < Z.abs (loc - position)) →
  let new_ID := Counter.increment (vertex_counter st) in
  ∃ end_exon end_novelty st',
    process_3p chrom (front ++ [p_before; position]) s (vfront ++ [v_last]) gene
               gene_ends ri st
    = inr ((new_ID, end_exon, end_novelty, 0, None), st')
    ∧ search_for_vertex_at_pos chrom position (location_dict st')
      = Some {| location_ID := new_ID; genome_build := build ri;
                v_chromosome := chrom; v_position := position |}.
Proof.
  intros Hexact Hfar Hgene new_ID.
  assert (Hperm : permissive_vertex_search chrom position s p_before End (location_dict st) ri
                  = (None, None)).
  { destruct (permissive_vertex_search_cases chrom position s p_before End
                (location_dict st) ri Hexact)
      as [[H _]|(curr & vtx & _ & _ & Hsc & Hv & _)]; [done|].
    specialize (Hfar curr ltac:(eauto)). unfold scanned in Hsc. simpl in Hsc. lia. }
  assert (Hprio : permissive_match_with_gene_priority chrom position s p_before End gene
                    gene_ends (location_dict st) ri = (None, None, 0)).
  { unfold permissive_match_with_gene_priority. rewrite Hexact, Hperm.
    destruct (gene ≫= λ g, gene_ends !! g) as [locs|] eqn:El; [|done].
    destruct gene as [g|]; [|done]. simpl in El.
    destruct (search_window position s p_before End (max_dist_of End ri)) as [[d ws] we].
    rewrite closest_gene_loc_far.
    - simpl. destruct (Z.leb_spec (cutoff_3p ri + 1) (cutoff_3p ri)); [lia|done].
    - intros loc Hloc. specialize (Hgene g locs loc eq_refl El Hloc). simpl. lia. }
  unfold process_3p, bind, lift, gets, ret, Py.index_back, Py.index.
  rewrite !reverse_app. simpl. rewrite Hprio. simpl.
  unfold match_or_create_edge, bind, gets, ret. simpl.
  destruct (search_for_edge _ _ _ _) as [e|]; simpl.
  - eexists _, _, _. split; [reflexivity|]. simpl.
    unfold search_for_vertex_at_pos. rewrite lookup_insert_eq. simpl.
    destruct (location_dict st !! chrom); by rewrite ?lookup_insert_eq, ?lookup_singleton_eq.
  - eexists _, _, _. split; [reflexivity|]. simpl.
    unfold search_for_vertex_at_pos. rewrite lookup_insert_eq. simpl.
    destruct (location_dict st !! chrom); by rewrite ?lookup_insert_eq, ?lookup_singleton_eq.
Qed.

(** C4, as amended. For an end position with no vertex at it,
    [permissive_vertex_search] scans the offsets 1 to cutoff - 1 (not the
    cutoff itself), at each offset the priority direction first, and accepts
    only positions strictly inside the window between position -/+ cutoff and
    the adjacent splice junction. It returns either nothing, and then no
    scanned position of the window holds a vertex, or a vertex with its
    signed distance that is nearest among the scanned positions of the
    window, the priority side winning at equal distance. When every known
    vertex is at least the cutoff away nothing is matched, and the caller,
    [process_5p] for a start and [process_3p] for an end, then creates a new
    vertex at the position. *)
Theorem permissive_vertex_search_nearest_within_cutoff chrom position s sj_pos pt
    (locations : gmap string (gmap Z vertex)) ri :
  search_for_vertex_at_pos chrom position locations = None →
  let max_dist := max_dist_of pt ri in
  let w := search_window position s sj_pos pt max_dist in
  ((permissive_vertex_search chrom position s sj_pos pt locations ri = (None, None)
    ∧ ∀ p, in_window w.1.2 w.2 p → scanned position max_dist p →
           search_for_vertex_at_pos chrom p locations = None)
   ∨ ∃ curr vtx,
       permissive_vertex_search chrom position s sj_pos pt locations ri
       = (Some (location_ID vtx), Some (compute_delta curr position s))
       ∧ in_window w.1.2 w.2 curr
       ∧ scanned position max_dist curr
       ∧ search_for_vertex_at_pos chrom curr locations = Some vtx
       ∧ (∀ p, in_window w.1.2 w.2 p → scanned position max_dist p →
               is_Some (search_for_vertex_at_pos chrom p locations) →
               Z.abs (curr - position) ≤ Z.abs (p - position))
       ∧ (curr = position + Z.abs (curr - position) * w.1.1
          ∨ (in_window w.1.2 w.2 (position + Z.abs (curr - position) * w.1.1) →
             search_for_vertex_at_pos chrom
               (position + Z.abs (curr - position) * w.1.1) locations = None)))
  ∧ ((∀ p, is_Some (search_for_vertex_at_pos chrom p locations) →
           max_dist ≤ Z.abs (p - position)) →
     permissive_vertex_search chrom position s sj_pos pt locations ri = (None, None)
     ∧ ∀ st rest v0 vrest gene (gene_starts : gmap Z (list (Z * Z))),
         pt = Start → location_dict st = locations →
         (∀ g locs loc, gene = Some g → gene_starts !! g = Some locs → loc ∈ locs.*1 →
                        cutoff_5p ri < Z.abs (loc - position)) →
         ∃ start_exon start_novelty st',
           process_5p chrom (position :: sj_pos :: rest) s (v0 :: vrest)
                      gene gene_starts ri st
           = inr ((Counter.increment (vertex_counter st), start_exon, start_novelty,
                   0, None), st')
           ∧ search_for_vertex_at_pos chrom position (location_dict st')
             = Some {| location_ID := Counter.increment (vertex_counter st);
                       genome_build := build ri;
                       v_chromosome := chrom; v_position := position |})
  ∧ ((∀ p, is_Some (search_for_vertex_at_pos chrom p locations) →
           max_dist ≤ Z.abs (p - position)) →
     ∀ st front vfront v_last gene (gene_ends : gmap Z (list (Z * Z))),
       pt = End → location_dict st = locations →
       (∀ g locs loc, gene = Some g → gene_ends !! g = Some locs → loc ∈ locs.*1 →
                      cutoff_3p ri < Z.abs (loc - position)) →
       ∃ end_exon end_novelty st',
         process_3p chrom (front ++ [sj_pos; position]) s (vfront ++ [v_last])
                    gene gene_ends ri st
         = inr ((Counter.increment (vertex_counter st), end_exon, end_novelty,
                 0, None), st')
         ∧ search_for_vertex_at_pos chrom position (location_dict st')
           = Some {| location_ID := Counter.increment (vertex_counter st);
                     genome_build := build ri;
                     v_chromosome := chrom; v_position := position |}).
Proof.
  intros Hexact max_dist w. split; [|split].
  - apply permissive_vertex_search_cases; done.
  - intros Hfar. split.
    + destruct (permissive_vertex_search_cases chrom position s sj_pos pt locations ri
                  Hexact) as [[H _]|(curr & vtx & _ & _ & Hsc & Hv & _)]; [done|].
      specialize (Hfar curr ltac:(eauto)). unfold scanned in Hsc.
      fold max_dist in Hsc. lia.
    + intros st rest v0 vrest gene gene_starts -> <- Hgene.
      apply process_5p_creates_vertex; done.
  - intros Hfar st front vfront v_last gene gene_ends -> <- Hgene.
    apply process_3p_creates_vertex; done.
Qed.

Lemma permissive_vertex_search_nearest_within_cutoff_witness :
  permissive_vertex_search "chr1" 100 Plus 1000 Start (one_vertex 7 160) cutoffs_50
  = (None, None)
  ∧ ∃ end_exon end_novelty st',
      process_3p "chr1" [10; 50; 100] Plus [3] None ∅ cutoffs_50 (one_vertex_store 7 160)
      = inr ((8, end_exon, end_novelty, 0, None), st')
      ∧ search_for_vertex_at_pos "chr1" 100 (location_dict st')
        = Some {| location_ID := 8; genome_build := "hg38"; v_chromosome := "chr1";
                  v_position := 100 |}.
Proof.
  assert (Hfar : ∀ p, is_Some (search_for_vertex_at_pos "chr1" p (one_vertex 7 160)) →
                      50 ≤ Z.abs (p - 100)).
  { intros p [v Hv]. unfold search_for_vertex_at_pos, one_vertex in Hv.
    rewrite lookup_singleton_eq in Hv. simpl in Hv.
    apply lookup_singleton_Some in Hv as [<- _]. lia. }
  split.
  - apply (permissive_vertex_search_nearest_within_cutoff
             "chr1" 100 Plus 1000 Start (one_vertex 7 160) cutoffs_50);
      [vm_compute; reflexivity|exact Hfar].
  - destruct (permissive_vertex_search_nearest_within_cutoff
                "chr1" 100 Plus 50 End (one_vertex 7 160) cutoffs_50)
      as (_ & _ & Hcreate); [vm_compute; reflexivity|].
    apply (Hcreate Hfar (one_vertex_store 7 160) [10] [] 3 None ∅ eq_refl eq_refl).
    intros g locs loc Hg. discriminate Hg.
Defined.

Lemma vertex_at_cutoff_distance_not_matched :
  is_Some (search_for_vertex_at_pos "chr1" 150 (one_vertex 7 150))
  ∧ Z.abs (150 - 100) = cutoff_5p cutoffs_50
  ∧ in_window (100 - cutoff_5p cutoffs_50) 1000 150
  ∧ permissive_vertex_search "chr1" 100 Plus 1000 Start (one_vertex 7 150) cutoffs_50
    = (None, None).
Proof.
  split; [vm_compute; eauto|]. split; [done|]. split; [unfold in_window; simpl; lia|].
  vm_compute. reflexivity.
Qed.



Lemma best_match_loop_keep l min_end max_end md bm :
  (∀ x, x ∈ l → md ≤ end_distance x min_end max_end) →
  best_match_loop l min_end max_end md bm = bm.
Proof.
  revert md bm. induction l as [|x l IH]; intros md bm Hall; [done|].
  simpl. destruct (Z.ltb_spec (end_distance x min_end max_end) md) as [Hlt|_].
  - specialize (Hall x ltac:(left)). lia.
  - apply IH. intros y Hy. apply Hall. by right.
Qed.

Lemma best_match_loop_first_min l1 best l2 min_end max_end md bm :
  end_distance best min_end max_end < md →
  (∀ x, x ∈ l1 → end_distance best min_end max_end < end_distance x min_end max_end) →
  (∀ x, x ∈ l2 → end_distance best min_end max_end ≤ end_distance x min_end max_end) →
  best_match_loop (l1 ++ best :: l2) min_end max_end md bm = Some best.
Proof.
  revert md bm. induction l1 as [|x l1 IH]; intros md bm Hlt H1 H2; simpl.
  - destruct (Z.ltb_spec (end_distance best min_end max_end) md); [|lia].
    by apply best_match_loop_keep.
  - assert (Hx := H1 x ltac:(left)).
    assert (H1' : ∀ y, y ∈ l1 →
              end_distance best min_end max_end < end_distance y min_end max_end).
    { intros y Hy. apply H1. by right. }
    destruct (Z.ltb_spec (end_distance x min_end max_end) md); apply IH; done || lia.
Qed.

Lemma filter_idem {A} (P : A → Prop) `{∀ x, Decision (P x)} (l : list A) :
  filter P (filter P l) = filter P l.
Proof.
  induction l as [|x l IH]; [done|].
  rewrite filter_cons. destruct (decide (P x)); [|done].
  rewrite filter_cons. rewrite decide_True by done. by rewrite IH.
Qed.

Lemma overlap_where_spec chrom min_start max_end r :
  min_start ≤ max_end → min_pos r ≤ max_pos r →
  overlap_where chrom min_start max_end r = true
  ↔ r_chromosome r = chrom ∧ spans_overlap (min_pos r) (max_pos r) min_start max_end.
Proof.
  intros Hq Hr. unfold overlap_where, spans_overlap.
  rewrite andb_true_iff, bool_decide_eq_true, !orb_true_iff, !andb_true_iff.
  rewrite !Z.leb_le, !Z.geb_le. split; intros [Hc Ho]; (split; [done|]); lia.
Qed.

Lemma first_per_gene_from_sub seen rows r :
  r ∈ first_per_gene_from seen rows → r ∈ rows.
Proof.
  revert seen. induction rows as [|x rows IH]; intros seen; simpl; [done|].
  case_bool_decide.
  - intros Hr. right. by eapply IH.
  - intros Hr. apply elem_of_cons in Hr as [->|Hr]; [by left|]. right. by eapply IH.
Qed.

Lemma first_per_gene_sub rows r : r ∈ first_per_gene rows → r ∈ rows.
Proof. apply first_per_gene_from_sub. Qed.

Lemma first_nearest_exists (l : list t_row) min_end max_end : ∀ md,
  Exists (λ x, end_distance x min_end max_end < md) l →
  ∃ l1 best l2,
    l = l1 ++ best :: l2
    ∧ end_distance best min_end max_end < md
    ∧ (∀ x, x ∈ l1 → end_distance best min_end max_end < end_distance x min_end max_end)
    ∧ (∀ x, x ∈ l2 → end_distance best min_end max_end ≤ end_distance x min_end max_end).
Proof.
  induction l as [|x l IH]; intros md Hex; [by apply Exists_nil in Hex|].
  destruct (decide (Exists (λ y, end_distance y min_end max_end
                                 < Z.min md (end_distance x min_end max_end)) l))
    as [Hy|Hn].
  - destruct (IH _ Hy) as (l1 & best & l2 & -> & Hlt & H1 & H2).
    exists (x :: l1), best, l2. split; [done|]. split; [lia|]. split; [|done].
    intros y Hy'. apply elem_of_cons in Hy' as [->|Hy']; [lia|by apply H1].
  - exists [], x, l. split; [done|].
    assert (Hall : ∀ y, y ∈ l → Z.min md (end_distance x min_end max_end)
                                 ≤ end_distance y min_end max_end).
    { intros y Hyl. destruct (Z.le_gt_cases (Z.min md (end_distance x min_end max_end))
                                (end_distance y min_end max_end)) as [|Hlt]; [done|].
      exfalso. apply Hn. apply Exists_exists. eauto. }
    assert (Hx : end_distance x min_end max_end < md).
    { apply Exists_cons in Hex as [Hx|Hl]; [done|].
      apply Exists_exists in Hl as (z & Hz & Hzlt). specialize (Hall z Hz). lia. }
    split; [done|]. split; [by intros ? ?%elem_of_nil|].
    intros y Hyl. specialize (Hall y Hyl). lia.
Qed.

Lemma first_per_gene_from_covers seen rows r :
  r ∈ rows →
  r_gene_ID r ∈ seen
  ∨ ∃ r', r' ∈ first_per_gene_from seen rows ∧ r_gene_ID r' = r_gene_ID r.
Proof.
  revert seen. induction rows as [|x rows IH]; intros seen Hr; [by apply elem_of_nil in Hr|].
  simpl. apply elem_of_cons in Hr as [->|Hr].
  - case_bool_decide; [by left|]. right. exists x. split; [left|done].
  - case_bool_decide.
    + apply IH. done.
    + destruct (IH (r_gene_ID x :: seen) Hr) as [Hs|(r' & Hr' & Hg)].
      * apply elem_of_cons in Hs as [Hs|Hs]; [|by left].
        right. exists x. split; [left|done].
      * right. exists r'. split; [by right|done].
Qed.

Lemma first_per_gene_covers rows r :
  r ∈ rows → ∃ r', r' ∈ first_per_gene rows ∧ r_gene_ID r' = r_gene_ID r.
Proof.
  intros Hr. destruct (first_per_gene_from_covers [] rows r Hr) as [Hs|H]; [|done].
  by apply elem_of_nil in Hs.
Qed.

Lemma first_per_gene_from_genes seen rows :
  NoDup (r_gene_ID <$> first_per_gene_from seen rows)
  ∧ ∀ r, r ∈ first_per_gene_from seen rows → r_gene_ID r ∉ seen.
Proof.
  revert seen. induction rows as [|x rows IH]; intros seen; simpl.
  - split; [constructor|]. intros r Hr. by apply elem_of_nil in Hr.
  - case_bool_decide as Hx; [apply IH|].
    destruct (IH (r_gene_ID x :: seen)) as [Hnd Hseen]. split.
    + rewrite fmap_cons. constructor; [|done].
      intros (r & Hg & Hr)%list_elem_of_fmap. apply (Hseen r Hr). rewrite <- Hg. left.
    + intros r [->|Hr]%elem_of_cons; [done|].
      intros Hs. apply (Hseen r Hr). by right.
Qed.

Lemma first_per_gene_NoDup rows : NoDup (r_gene_ID <$> first_per_gene rows).
Proof. apply first_per_gene_from_genes. Qed.

Section OverlapFacts.

Variable sql_group_by_gene : list t_row → list t_row.

(** What [GROUP BY gene_ID] does, whatever the engine: a row reported is a
    row of the input, every gene of the input is reported, and by one row. *)
Hypothesis group_rows_from_input :
  ∀ rows r, r ∈ sql_group_by_gene rows → r ∈ rows.

Hypothesis group_reports_every_gene :
  ∀ rows r, r ∈ rows →
            ∃ r', r' ∈ sql_group_by_gene rows ∧ r_gene_ID r' = r_gene_ID r.

Hypothesis group_reports_a_gene_once :
  ∀ rows, NoDup (r_gene_ID <$> sql_group_by_gene rows).

(** The rows kept are not all dropped by the choice of the strand. *)
Lemma strand_pool_nonempty (matches : list t_row) s :
  matches ≠ [] →
  (if decide (filter (λ x, r_strand x = s) matches = [])
   then filter (λ x, r_strand x = opposite s) matches
   else filter (λ x, r_strand x = s) matches) ≠ [].
Proof.
  intros Hne. destruct (decide (filter (λ x, r_strand x = s) matches = [])) as [He|Hs];
    [|done].
  destruct matches as [|x rest]; [done|].
  assert (Hx : r_strand x ≠ s).
  { intros Hx. rewrite filter_cons_True in He by done. done. }
  rewrite filter_cons_True; [done|]. destruct (r_strand x), s; done.
Qed.

(** C6, as amended. Without a candidate list,
    [search_for_overlap_with_gene] considers one row of the transcript table
    for each gene that has a row on the read's chromosome whose span meets
    the read interval, bounds included: a row with such a span, of the
    engine's choice, and no other row. With a candidate list it considers
    every row of the candidate genes, whether or not it meets the read or
    lies on its chromosome. With nothing to consider it returns no gene.
    Otherwise it keeps the same-strand rows, or the opposite-strand rows when
    there is no same-strand row, which leaves it at least one row, and
    returns the gene and strand of the first row that minimises
    |max_pos - read end| + |min_pos - read start|; it fails with [TypeError]
    only if that sum reaches [sys.maxsize] for every row kept. *)
Theorem search_for_overlap_with_gene_choice chrom start end_ s table gene_IDs :
  let min_start := Z.min start end_ in
  let max_end := Z.max start end_ in
  let matches := overlap_query sql_group_by_gene chrom min_start max_end table gene_IDs in
  let same := filter (λ x, r_strand x = s) matches in
  let pool := if decide (same = []) then filter (λ x, r_strand x = opposite s) matches
              else same in
  let result :=
    search_for_overlap_with_gene sql_group_by_gene chrom start end_ s table gene_IDs in
  (gene_IDs = None →
   (∀ r, r ∈ matches →
         r ∈ table ∧ r_chromosome r = chrom
         ∧ (min_pos r ≤ max_pos r →
            spans_overlap (min_pos r) (max_pos r) min_start max_end))
   ∧ (∀ r, r ∈ table → r_chromosome r = chrom → min_pos r ≤ max_pos r →
           spans_overlap (min_pos r) (max_pos r) min_start max_end →
           ∃ r', r' ∈ matches ∧ r_gene_ID r' = r_gene_ID r)
   ∧ NoDup (r_gene_ID <$> matches))
  ∧ (∀ gs, gene_IDs = Some gs → matches = filter (λ r, r_gene_ID r ∈ gs) table)
  ∧ (matches = [] → result = inr (None, None))
  ∧ (matches ≠ [] →
     pool ≠ []
     ∧ ((∃ l1 best l2,
           pool = l1 ++ best :: l2
           ∧ end_distance best min_start max_end < sys_maxsize
           ∧ (∀ x, x ∈ l1 → end_distance best min_start max_end
                            < end_distance x min_start max_end)
           ∧ (∀ x, x ∈ l2 → end_distance best min_start max_end
                            ≤ end_distance x min_start max_end)
           ∧ result = inr (Some (r_gene_ID best), Some (r_strand best)))
        ∨ ((∀ x, x ∈ pool → sys_maxsize ≤ end_distance x min_start max_end)
           ∧ result = inl TypeError)))
  ∧ (matches ≠ [] →
     ∀ l1 best l2,
       pool = l1 ++ best :: l2 →
       end_distance best min_start max_end < sys_maxsize →
       (∀ x, x ∈ l1 → end_distance best min_start max_end
                      < end_distance x min_start max_end) →
       (∀ x, x ∈ l2 → end_distance best min_start max_end
                      ≤ end_distance x min_start max_end) →
       result = inr (Some (r_gene_ID best), Some (r_strand best))).
Proof.
  intros min_start max_end matches same pool result.
  assert (Hle : min_start ≤ max_end) by (subst min_start max_end; lia).
  assert (Hkept : matches ≠ [] →
            result = match get_best_match pool min_start max_end with
                     | inr best_match =>
                         inr (Some (r_gene_ID best_match), Some (r_strand best_match))
                     | inl e => inl e
                     end).
  { intros Hne. subst result. unfold search_for_overlap_with_gene.
    fold min_start max_end matches.
    rewrite decide_False by (destruct matches; done).
    fold same.
    assert (Hk : (if bool_decide (s = Plus ∧ (0 < length same)%nat
                                  ∨ s = Minus ∧ length same = 0%nat)
                  then filter (λ x, r_strand x = Plus) matches
                  else filter (λ x, r_strand x = Minus) matches) = pool).
    { subst pool. destruct (decide (same = [])) as [He|Hs].
      - rewrite He. destruct s; case_bool_decide as Hc; simpl in Hc; try done.
        + destruct Hc as [[_ ?]|[? _]]; [lia|done].
        + exfalso. apply Hc. by right.
      - assert (0 < length same)%nat by (destruct same; [done|simpl; lia]).
        destruct s; case_bool_decide as Hc; try done.
        + exfalso. apply Hc. by left.
        + destruct Hc as [[? _]|[_ ?]]; [done|lia]. }
    by rewrite Hk. }
  split_and!.
  - intros ->. subst matches. unfold overlap_query. split_and!.
    + intros r Hr. apply group_rows_from_input in Hr.
      apply list_elem_of_filter in Hr as [Hw Hr]. split; [done|].
      destruct (decide (min_pos r ≤ max_pos r)) as [Hr_le|Hgt].
      * apply overlap_where_spec in Hw as [? ?]; done.
      * unfold overlap_where in Hw. apply andb_true_iff in Hw as [Hc _].
        apply bool_decide_eq_true in Hc. split; [done|]. intros; lia.
    + intros r Hr Hc Hwf Ho. apply group_reports_every_gene.
      apply list_elem_of_filter. split; [|done]. by apply overlap_where_spec.
    + apply group_reports_a_gene_once.
  - intros gs ->. subst matches. unfold overlap_query.
    destruct gs as [|g gs]; [done|]. apply filter_idem.
  - intros Hnil. subst result. unfold search_for_overlap_with_gene.
    fold min_start max_end matches. rewrite Hnil. done.
  - intros Hne. split; [by apply strand_pool_nonempty|].
    rewrite (Hkept Hne). unfold get_best_match.
    destruct (decide (Exists (λ x, end_distance x min_start max_end < sys_maxsize) pool))
      as [Hex|Hn].
    + left. destruct (first_nearest_exists _ _ _ _ Hex) as (l1 & b & l2 & Hp & Hlt & H1 & H2).
      exists l1, b, l2. split_and!; try done.
      by rewrite Hp, (best_match_loop_first_min l1 b l2).
    + right.
      assert (Hall : ∀ x, x ∈ pool → sys_maxsize ≤ end_distance x min_start max_end).
      { intros x Hx.
        destruct (Z.le_gt_cases sys_maxsize (end_distance x min_start max_end)); [done|].
        exfalso. apply Hn. apply Exists_exists. eauto. }
      split; [done|]. by rewrite best_match_loop_keep.
  - intros Hne l1 best l2 Hpool Hmax H1 H2.
    rewrite (Hkept Hne), Hpool. unfold get_best_match.
    by rewrite (best_match_loop_first_min l1 best l2).
Qed.

End OverlapFacts.

(** The first row ends where the read starts: it is considered, and the
    second row, nearer to the ends of the read, is returned. *)
Lemma search_for_overlap_with_gene_choice_witness :
  (∃ r', r' ∈ overlap_query first_per_gene "chr1" 2000 2500
                 [row_1000_2000; row_1500_2600] None
         ∧ r_gene_ID r' = 1)
  ∧ search_for_overlap_with_gene first_per_gene "chr1" 2000 2500 Plus
      [row_1000_2000; row_1500_2600] None
    = inr (Some 2, Some Plus).
Proof.
  destruct (search_for_overlap_with_gene_choice first_per_gene first_per_gene_sub
              first_per_gene_covers first_per_gene_NoDup
              "chr1" 2000 2500 Plus [row_1000_2000; row_1500_2600] None)
    as (Hnone & _ & _ & _ & H).
  split.
  - destruct (Hnone eq_refl) as (_ & Hcons & _).
    apply (Hcons row_1000_2000); [left|done|simpl; lia|].
    unfold spans_overlap. simpl. lia.
  - apply (H ltac:(vm_compute; done) [row_1000_2000] row_1500_2600 []).
    + vm_compute. reflexivity.
    + vm_compute. reflexivity.
    + intros x Hx. apply list_elem_of_singleton in Hx as ->. vm_compute. reflexivity.
    + intros x Hx. by apply elem_of_nil in Hx.
Defined.

Lemma candidate_gene_without_overlap_is_returned :
  ¬ spans_overlap (min_pos row_1000_2000) (max_pos row_1000_2000) 5000 6000
  ∧ search_for_overlap_with_gene first_per_gene "chr1" 5000 6000 Plus
      [row_1000_2000] (Some [1; 2])
    = inr (Some 1, Some Plus).
Proof.
  split; [unfold spans_overlap; simpl; lia|]. vm_compute. reflexivity.
Qed.



Lemma quiet_ret {A} (a : A) : quiet (retT a).
Proof. intros c. simpl. done. Qed.

Lemma quiet_raise {A} e : (∀ msg, e ≠ RuntimeError msg) → quiet (@raiseT A e).
Proof.
  intros He c. simpl. split; [done|]. split; [done|]. intros msg [= ->]. by eapply He.
Qed.

Lemma quiet_bind {A B} (m : T A) (k : A → T B) :
  quiet m → (∀ a, quiet (k a)) → quiet (bindT m k).
Proof.
  intros Hm Hk c. unfold bindT. specialize (Hm c).
  destruct (m c) as [[e|a] c1]; simpl in *.
  - destruct Hm as (? & _ & Hr). repeat split; try done.
    intros msg [= ->]. by eapply Hr.
  - destruct Hm as (Hc & Hl & _). specialize (Hk a c1).
    rewrite <- Hc, <- (Hl a eq_refl). done.
Qed.

Lemma quiet_set_working w : quiet (set_working w).
Proof. intros c. simpl. done. Qed.

Section CommitterFacts.

Variable executemany : insert_kind → string → list row → database → result database.

Lemma quiet_try_executemany kind table batch :
  quiet (try_executemany executemany kind table batch).
Proof.
  intros c. unfold try_executemany.
  destruct (executemany kind table batch (working c)); simpl; done.
Qed.

Lemma quiet_insert_batches kind table bs :
  quiet (insert_batches executemany kind table bs).
Proof.
  induction bs as [|b bs IH]; simpl.
  - apply quiet_ret.
  - apply quiet_bind; [apply quiet_try_executemany|done].
Qed.

Lemma quiet_add_transcript_batches bs : quiet (add_transcript_batches executemany bs).
Proof.
  induction bs as [|b bs IH]; simpl.
  - apply quiet_ret.
  - destruct (mapM _ b).
    + apply quiet_bind; [apply quiet_try_executemany|done].
    + by apply quiet_raise.
Qed.

Lemma quiet_add_observed_batches bs abundance :
  quiet (add_observed_batches executemany bs abundance).
Proof.
  revert abundance. induction bs as [|b bs IH]; intros abundance; simpl.
  - apply quiet_ret.
  - destruct (mapM _ b).
    + apply quiet_bind; [apply quiet_try_executemany|done].
    + by apply quiet_raise.
Qed.

Lemma quiet_set_counter category value : quiet (set_counter category value).
Proof. intros c. simpl. done. Qed.

Lemma quiet_update_counter cv : quiet (update_counter cv).
Proof.
  unfold update_counter.
  repeat (apply quiet_bind; [apply quiet_set_counter|intros _]).
  apply quiet_set_counter.
Qed.

Lemma quiet_load_logs batch_size files datasets cv :
  quiet (load_logs executemany batch_size files datasets cv).
Proof.
  unfold load_logs.
  apply quiet_bind; [apply quiet_insert_batches|intros _].
  apply quiet_bind; [apply quiet_add_transcript_batches|intros _].
  apply quiet_bind; [apply quiet_insert_batches|intros _].
  apply quiet_bind; [apply quiet_insert_batches|intros _].
  apply quiet_bind; [apply quiet_insert_batches|intros _].
  apply quiet_bind; [apply quiet_try_executemany|intros _].
  apply quiet_bind.
  { apply quiet_bind; [apply quiet_add_observed_batches|].
    intros a. apply quiet_insert_batches. }
  intros _.
  apply quiet_bind; [apply quiet_update_counter|intros _].
  apply quiet_bind; [apply quiet_insert_batches|intros _].
  apply quiet_bind; [apply quiet_insert_batches|intros _].
  apply quiet_insert_batches.
Qed.

(** With a batch size of 0 [batch_add_observed] reads no line, counts
    nothing and hands [batch_add_abundance] no entry. *)
Lemma batch_add_observed_size_0 lines c :
  add_observed_batches executemany (batches 0 lines) [] c = (inr [], c)
  ∧ batch_add_observed executemany lines 0 c = (inr (), c).
Proof.
  unfold batch_add_observed, batches. destruct (length lines); done.
Qed.

End CommitterFacts.

Lemma integrity_loop_spec rows_ : ∀ fail c,
  match integrity_loop rows_ fail c with
  | (inr f, c') =>
      committed c' = committed c ∧ working c' = working c
      ∧ logged c' = logged c
                    ++ (Message ∘ mismatch_message <$> failing_among (working c) rows_)
      ∧ f = fail || bool_decide (failing_among (working c) rows_ ≠ [])
      ∧ (f = false → ∀ cat n, (cat, n) ∈ rows_ → parity (working c) cat n)
  | (inl e, c') =>
      committed c' = committed c ∧ working c' = working c
      ∧ (∀ msg, e ≠ RuntimeError msg)
      ∧ ¬ ∀ cat n, (cat, n) ∈ rows_ → is_Some (tables (working c) !! table_of cat)
  end.
Proof.
  induction rows_ as [|[cat n] rows_ IH]; intros fail c.
  - simpl. rewrite app_nil_r, orb_false_r. repeat split; try done.
    intros _ cat n H. by apply elem_of_nil in H.
  - simpl. unfold bindT at 1. simpl.
    destruct (tables (working c) !! table_of cat) as [entries|] eqn:Et.
    + destruct (decide (Py.len entries ≠ n)) as [Hne|Heq].
      * unfold bindT, logging_error. simpl.
        set (c1 := {| committed := committed c; working := working c;
                      logged := logged c ++ [Message (mismatch_message (table_of cat))] |}).
        specialize (IH true c1).
        destruct (integrity_loop rows_ true c1) as [[e|f] c'].
        -- destruct IH as (? & ? & ? & Hex). split_and!; try done.
           intros Hall. apply Hex. intros cat' n' Hin. apply (Hall cat' n'). by right.
        -- destruct IH as (Hc & Hw & Hl & Hf & Hp). simpl in *.
           split; [done|]. split; [done|]. split.
           { rewrite Hl. by rewrite <- app_assoc. }
           split. { rewrite Hf. by rewrite orb_true_r. }
           intros ->. done.
      * specialize (IH fail c).
        destruct (integrity_loop rows_ fail c) as [[e|f] c'].
        -- destruct IH as (? & ? & ? & Hex). split_and!; try done.
           intros Hall. apply Hex. intros cat' n' Hin. apply (Hall cat' n'). by right.
        -- destruct IH as (Hc & Hw & Hl & Hf & Hp).
           repeat split; try done.
           intros Hff cat' n' Hin. apply elem_of_cons in Hin as [[= -> ->]|Hin].
           ++ exists entries. split; [done|]. by apply dec_stable.
           ++ by apply Hp.
    + simpl. split_and!; try done. intros Hall.
      destruct (Hall cat n ltac:(left)) as [x Hx]. congruence.
Qed.

Lemma check_database_integrity_spec c :
  match check_database_integrity c with
  | (inr _, c') =>
      c' = c ∧ failing_tables (working c) = []
      ∧ ∀ cat n, (cat, n) ∈ counters (working c) → parity (working c) cat n
  | (inl e, c') =>
      committed c' = committed c ∧ working c' = working c
      ∧ (∀ msg, e = RuntimeError msg →
           e = RuntimeError discrepancy_message
           ∧ failing_tables (working c) ≠ []
           ∧ logged c' = logged c
                         ++ (Message ∘ mismatch_message <$> failing_tables (working c))
                         ++ [Message discrepancy_message])
      ∧ ((∀ cat n, (cat, n) ∈ counters (working c) →
                   is_Some (tables (working c) !! table_of cat)) →
         e = RuntimeError discrepancy_message)
  end.
Proof.
  unfold check_database_integrity, bindT at 1. simpl. unfold bindT at 1.
  pose proof (integrity_loop_spec (counters (working c)) false c) as H.
  destruct (integrity_loop (counters (working c)) false c) as [[e|f] c1].
  - destruct H as (? & ? & Hr & Hex). split; [done|]. split; [done|]. split.
    + intros msg ->. by destruct (Hr msg).
    + intros Hall. by destruct Hex.
  - destruct H as (Hc & Hw & Hl & Hf & Hp). simpl in Hf. destruct f.
    + simpl. unfold bindT, logging_error, raiseT. simpl.
      split; [done|]. split; [done|]. split; [|done]. intros msg _.
      symmetry in Hf. apply bool_decide_eq_true in Hf. split; [done|]. split; [done|].
      rewrite Hl. by rewrite <- app_assoc.
    + simpl. symmetry in Hf. apply bool_decide_eq_false in Hf.
      apply dec_stable in Hf. split_and!; [|done|by apply Hp].
      destruct c, c1. simpl in *. subst.
      f_equal. unfold failing_tables in *. simpl in *.
      rewrite Hf. simpl. by rewrite app_nil_r.
Qed.

Lemma contract_check_commit db c :
  committed c = db → logged c = [] →
  committer_contract db ((check_database_integrity ;; commit) c).
Proof.
  intros Hc Hl. unfold bindT. pose proof (check_database_integrity_spec c) as H.
  destruct (check_database_integrity c) as [[e|[]] c1].
  - destruct H as (Hc1 & Hw1 & Hr & _). unfold committer_contract. simpl.
    split; [intros; congruence|]. split; [done|].
    split; [intros; eexists; split; [done|congruence]|].
    intros msg [= ->]. destruct (Hr msg eq_refl) as (_ & ? & Hlog).
    rewrite Hw1. split; [done|]. by rewrite Hlog, Hl.
  - destruct H as (-> & _ & Hp). unfold committer_contract, commit. simpl.
    split; [done|]. split; [done|]. split; [|done].
    intros (cat & n & Hin & Hnp). exfalso. apply Hnp. by apply Hp.
Qed.

Lemma contract_bind {A} db (m : T A) (k : A → T ()) :
  quiet m →
  (∀ a c1, committed c1 = db → logged c1 = [] → committer_contract db (k a c1)) →
  ∀ c, committed c = db → logged c = [] → committer_contract db (bindT m k c).
Proof.
  intros Hm Hk c Hc Hl. unfold bindT. specialize (Hm c).
  destruct (m c) as [[e|a] c1]; simpl in Hm.
  - destruct Hm as (Hc1 & _ & Hr). unfold committer_contract. simpl.
    split; [intros; congruence|]. split; [done|].
    split; [intros; eexists; split; [done|congruence]|].
    intros msg [= ->]. by destruct (Hr msg).
  - destruct Hm as (Hc1 & Hl1 & _). apply Hk; [congruence|].
    rewrite (Hl1 a eq_refl). done.
Qed.

(** A counter row that disagrees with its table is among the failing ones. *)
Lemma failing_tables_elem w cat n entries :
  (cat, n) ∈ counters w → tables w !! table_of cat = Some entries →
  Py.len entries ≠ n → table_of cat ∈ failing_tables w.
Proof.
  intros Hin Ht Hne. unfold failing_tables, failing_among.
  apply list_elem_of_omap. exists (cat, n). split; [done|]. simpl.
  rewrite Ht. by rewrite decide_True.
Qed.

Section CommitterContract.

Variable executemany : insert_kind → string → list row → database → result database.

(** C7. [update_database] commits only as its last step. Whenever it ends
    with an error the persistent store is the one from before the run, and
    when it commits, every row of the counters table agrees with the row
    count of its table. An error while the logs are loaded ends the run with
    that error. Once they are loaded, with the table of every counter row
    there, the run commits when no row disagrees with its table; when a row
    does, the run ends with the [RuntimeError] of the integrity check, the
    store is left as before, and the log holds one message for each failing
    table, naming it, in the order of the counter rows, then the final
    message, and nothing else. *)
Theorem update_database_commits_only_on_parity db batch_size files datasets cv :
  let loaded := load_logs executemany batch_size files datasets cv
                  {| committed := db; working := db; logged := [] |} in
  let rc := update_database executemany db batch_size files datasets cv in
  (rc.1 ≠ inr () → committed rc.2 = db)
  ∧ (rc.1 = inr () →
     committed rc.2 = working rc.2
     ∧ ∀ cat n, (cat, n) ∈ counters (committed rc.2) → parity (committed rc.2) cat n)
  ∧ ((∃ cat n, (cat, n) ∈ counters (working rc.2) ∧ ¬ parity (working rc.2) cat n) →
     ∃ e, rc.1 = inl e ∧ committed rc.2 = db)
  ∧ (∀ msg, rc.1 = inl (RuntimeError msg) →
       failing_tables (working rc.2) ≠ []
       ∧ logged rc.2 = (Message ∘ mismatch_message <$> failing_tables (working rc.2))
                       ++ [Message discrepancy_message])
  ∧ (∀ e, loaded.1 = inl e → rc = (inl e, loaded.2))
  ∧ (loaded.1 = inr () →
     working rc.2 = working loaded.2
     ∧ ((∀ cat n, (cat, n) ∈ counters (working loaded.2) →
                  is_Some (tables (working loaded.2) !! table_of cat)) →
        (failing_tables (working loaded.2) = [] →
         rc = (inr (), {| committed := working loaded.2; working := working loaded.2;
                          logged := [] |}))
        ∧ (failing_tables (working loaded.2) ≠ [] →
           rc.1 = inl (RuntimeError discrepancy_message)
           ∧ committed rc.2 = db
           ∧ logged rc.2
             = (Message ∘ mismatch_message <$> failing_tables (working loaded.2))
               ++ [Message discrepancy_message])
        ∧ (∀ cat n entries,
             (cat, n) ∈ counters (working loaded.2) →
             tables (working loaded.2) !! table_of cat = Some entries →
             Py.len entries ≠ n →
             rc.1 = inl (RuntimeError discrepancy_message)
             ∧ committed rc.2 = db
             ∧ Message (mismatch_message (table_of cat)) ∈ logged rc.2))).
Proof.
  intros loaded rc.
  assert (Hcontract : committer_contract db rc).
  { subst rc. unfold update_database, update_database_steps.
    apply contract_bind; [apply quiet_load_logs| |done|done].
    intros _ c1 Hc1 Hl1. by apply contract_check_commit. }
  destruct Hcontract as (H1 & H2 & H3 & H4). do 4 (split; [done|]).
  pose proof (quiet_load_logs executemany batch_size files datasets cv
                {| committed := db; working := db; logged := [] |}) as Hq.
  fold loaded in Hq. simpl in Hq. destruct Hq as (Hcl & Hll & _).
  assert (Hrc : rc = bindT (load_logs executemany batch_size files datasets cv)
                       (λ _, check_database_integrity ;; commit)
                       {| committed := db; working := db; logged := [] |}) by done.
  unfold bindT at 1 in Hrc. fold loaded in Hrc.
  destruct loaded as [[e|[]] c1] eqn:El; simpl in *.
  { split; [by intros e' [= <-]|done]. }
  split; [done|]. intros _. specialize (Hll () eq_refl).
  unfold bindT in Hrc. pose proof (check_database_integrity_spec c1) as Hspec.
  destruct (check_database_integrity c1) as [[e|[]] c2].
  - destruct Hspec as (Hc2 & Hw2 & Hr & Hall). rewrite Hrc. simpl.
    split; [done|]. intros Hex. specialize (Hall Hex). subst e.
    destruct (Hr _ eq_refl) as (_ & Hne & Hlog). rewrite Hll in Hlog. simpl in Hlog.
    split_and!; [done|intros _; split_and!; [done|congruence|done]|].
    intros cat n entries Hin Ht Hlen. split_and!; [done|congruence|].
    rewrite Hlog. apply elem_of_app. left.
    apply list_elem_of_fmap. exists (table_of cat). split; [done|].
    by eapply failing_tables_elem.
  - destruct Hspec as (-> & Hnil & Hp). rewrite Hrc. unfold commit. simpl.
    split; [done|]. intros Hex. split_and!; [|done|].
    + intros _. by rewrite Hll.
    + intros cat n entries Hin Ht Hlen. exfalso.
      pose proof (failing_tables_elem _ _ _ _ Hin Ht Hlen) as Hel.
      rewrite Hnil in Hel. by apply elem_of_nil in Hel.
Qed.

End CommitterContract.

Example update_database_commits :
  let rc := update_database append_rows empty_store 10000 one_gene_files [] (counted 1) in
  rc.1 = inr ()
  ∧ tables (committed rc.2) !! "genes" = Some [[Some "1"; Some "+"]]
  ∧ counters (committed rc.2) !! 0%nat = Some ("genes", 1).
Proof. vm_compute. done. Qed.

Example update_database_discards :
  let rc := update_database append_rows empty_store 10000 one_gene_files [] (counted 2) in
  rc.1 = inl (RuntimeError discrepancy_message)
  ∧ committed rc.2 = empty_store
  ∧ logged rc.2 = [Message (mismatch_message "genes"); Message discrepancy_message].
Proof. vm_compute. done. Qed.

Lemma update_database_commits_only_on_parity_witness :
  let rc := update_database append_rows empty_store 10000 one_gene_files [] (counted 2) in
  rc.1 = inl (RuntimeError discrepancy_message)
  ∧ committed rc.2 = empty_store
  ∧ Message (mismatch_message (table_of "genes")) ∈ logged rc.2.
Proof.
  destruct (update_database_commits_only_on_parity append_rows empty_store 10000
              one_gene_files [] (counted 2)) as (_ & _ & _ & _ & _ & H).
  destruct (H ltac:(vm_compute; reflexivity)) as (_ & Hloaded).
  destruct Hloaded as (_ & _ & Hrow).
  { intros cat n Hin. vm_compute in Hin.
    repeat (apply elem_of_cons in Hin as [[= -> ->]|Hin]; [vm_compute; eauto|]).
    by apply elem_of_nil in Hin. }
  apply (Hrow "genes" 2 [[Some "1"; Some "+"]]).
  - vm_compute. left.
  - vm_compute. reflexivity.
  - vm_compute. discriminate.
Defined.



Lemma listener_loop_stop wait_until a rest files :
  stops wait_until a →
  listener_loop wait_until (a :: rest) files = (Closed, files).
Proof.
  destruct a as [now [f v]]. unfold stops. simpl. intros [Hlate| ->].
  - by rewrite bool_decide_eq_true_2.
  - by rewrite orb_true_r.
Qed.

Lemma listener_loop_same_stop wait_until pre a b rest rest' : ∀ files,
  stops wait_until a → stops wait_until b →
  listener_loop wait_until (pre ++ a :: rest) files
  = listener_loop wait_until (pre ++ b :: rest') files.
Proof.
  induction pre as [|[now [f v]] pre IH]; intros files Ha Hb.
  - simpl app. by rewrite !listener_loop_stop.
  - simpl. destruct (bool_decide (now > wait_until) || String.eqb v "complete"); [done|].
    destruct f as [fname|]; [|done].
    destruct (write_line fname v files); [done|]. by apply IH.
Qed.

Lemma listener_loop_not_blocked wait_until pre a rest : ∀ files,
  stops wait_until a →
  (listener_loop wait_until (pre ++ a :: rest) files).1 ≠ Blocked.
Proof.
  induction pre as [|[now [f v]] pre IH]; intros files Ha.
  - simpl app. by rewrite listener_loop_stop.
  - simpl. destruct (bool_decide (now > wait_until) || String.eqb v "complete"); [done|].
    destruct f as [fname|]; [|done].
    destruct (write_line fname v files); [done|]. by apply IH.
Qed.

(** C8, as amended. When the clock has passed the listener's deadline at
    the receipt of a message, the listener does what it does on the
    "complete" sentinel: it drops the message, closes the files and returns,
    with the files as they would be had the sentinel arrived at that point.
    Nothing is raised, and [main] goes on to [update_database] on those
    files exactly as after a normal completion. *)
Theorem timeout_ends_the_listener_like_the_sentinel
    (executemany : insert_kind → string → list row → database → result database)
    paths QC_header start pre now msg rest now' db datasets cv :
  now > start + 3600 * 72 →
  let timed_out := pre ++ (now, msg) :: rest in
  let completed := pre ++ [(now', (None, "complete"))] in
  listener paths QC_header 72 start timed_out = listener paths QC_header 72 start completed
  ∧ main_after_launch executemany paths QC_header start timed_out db datasets cv
    = main_after_launch executemany paths QC_header start completed db datasets cv
  ∧ ∃ files,
      (listener paths QC_header 72 start timed_out).2 = files
      ∧ main_after_launch executemany paths QC_header start timed_out db datasets cv
        = Done (update_database executemany db 10000 (read_outfiles paths files)
                                datasets cv).
Proof.
  intros Hlate timed_out completed.
  assert (Ha : stops (start + 3600 * 72) (now, msg)) by (by left).
  assert (Hb : stops (start + 3600 * 72) (now', (None, "complete") : message))
    by (by right).
  assert (Heq : listener paths QC_header 72 start timed_out
                = listener paths QC_header 72 start completed).
  { unfold listener. destruct (write_line _ _ _); [done|].
    by apply listener_loop_same_stop. }
  split; [done|]. split.
  - unfold main_after_launch. by rewrite Heq.
  - eexists. split; [reflexivity|]. unfold main_after_launch.
    assert (Hnb : (listener paths QC_header 72 start timed_out).1 ≠ Blocked).
    { unfold listener. destruct (write_line _ _ _); [done|].
      by apply listener_loop_not_blocked. }
    destruct (listener paths QC_header 72 start timed_out) as [[] files]; done.
Qed.

Lemma timeout_ends_the_listener_like_the_sentinel_witness :
  listener tmp_paths "header" 72 0 late_arrivals
  = listener tmp_paths "header" 72 0
      [(10, (Some (p_genes tmp_paths), tsv ["1"; "+"])); (0, (None, "complete"))].
Proof.
  apply (timeout_ends_the_listener_like_the_sentinel append_rows tmp_paths "header" 0
           [(10, (Some (p_genes tmp_paths), tsv ["1"; "+"]))]
           (3600 * 72 + 1) (Some (p_v2g tmp_paths), tsv ["5"; "1"])
           [(3600 * 72 + 2, (None, "complete"))] 0 empty_store [] (counted 1)).
  lia.
Defined.

Lemma run_commits_after_listener_timeout :
  ∃ c, main_after_launch append_rows tmp_paths "header" 0 late_arrivals
                         empty_store [] (counted 1)
       = Done (inr (), c)
       ∧ tables (committed c) !! "genes" = Some [[Some "1"; Some "+"]]
       ∧ tables (committed c) !! "vertex" = Some []
       ∧ committed c ≠ empty_store.
Proof.
  eexists. split; [vm_compute; reflexivity|]. split; [vm_compute; reflexivity|].
  split; [vm_compute; reflexivity|]. intros H.
  assert (Hg : tables empty_store !! "genes" = Some []) by (vm_compute; reflexivity).
  rewrite <- H in Hg. vm_compute in Hg. done.
Qed.



Lemma c_int_succ x : c_int (c_int x + 1) = c_int (x + 1).
Proof.
  unfold c_int.
  replace ((x + 2 ^ 31) `mod` 2 ^ 32 - 2 ^ 31 + 1 + 2 ^ 31)
    with ((x + 2 ^ 31) `mod` 2 ^ 32 + 1) by lia.
  rewrite Z.add_mod_idemp_l by done. f_equal. f_equal. lia.
Qed.

Lemma c_int_inj_near a b : c_int a = c_int b → Z.abs (a - b) < 2 ^ 32 → a = b.
Proof.
  unfold c_int. intros H Hd.
  assert (Hm : (a + 2 ^ 31) `mod` 2 ^ 32 = (b + 2 ^ 31) `mod` 2 ^ 32) by lia.
  pose proof (Z.div_mod (a + 2 ^ 31) (2 ^ 32) ltac:(done)) as Ha.
  pose proof (Z.div_mod (b + 2 ^ 31) (2 ^ 32) ltac:(done)) as Hb.
  rewrite Hm in Ha.
  assert ((a + 2 ^ 31) `div` 2 ^ 32 = (b + 2 ^ 31) `div` 2 ^ 32) by lia.
  lia.
Qed.

Lemma c_int_idem x : c_int (c_int x) = c_int x.
Proof.
  unfold c_int.
  replace ((x + 2 ^ 31) `mod` 2 ^ 32 - 2 ^ 31 + 2 ^ 31)
    with ((x + 2 ^ 31) `mod` 2 ^ 32) by lia.
  by rewrite Z.mod_mod.
Qed.

Lemma pos_iter_increment p x :
  Pos.iter Counter.increment (c_int x) p = c_int (x + Z.pos p).
Proof.
  induction p as [|p IH] using Pos.peano_ind.
  - simpl. unfold Counter.increment. apply c_int_succ.
  - rewrite Pos.iter_succ, IH. unfold Counter.increment. rewrite c_int_succ.
    f_equal. lia.
Qed.

Lemma nth_call_value_eq initval n :
  0 ≤ n → Shared.nth_call_value initval n = c_int (initval + n).
Proof.
  intros Hn. unfold Shared.nth_call_value. destruct n as [|p|p]; [|apply pos_iter_increment|lia].
  simpl. rewrite Z.add_0_r. done.
Qed.

Module SharedFacts.
Import Shared SharedInv.

Lemma set_proc_eq t p procs : set_proc t p procs t = p.
Proof. unfold set_proc. by rewrite decide_True. Qed.

Lemma set_proc_ne t t' p procs : t' ≠ t → set_proc t p procs t' = procs t'.
Proof. intros. unfold set_proc. by rewrite decide_False. Qed.

Lemma invariant_init initval : invariant initval (init initval).
Proof.
  unfold invariant. simpl. split; [done|]. rewrite Z.add_0_r.
  split; [done|]. intros t. by left.
Qed.

Lemma holder_is_inside initval s t :
  invariant initval s → ¬ outside (procs s t) → lock s = Some t.
Proof.
  intros [_ Hinv] Hin. destruct (lock s) as [t0|].
  - destruct Hinv as [Hothers _]. destruct (decide (t = t0)) as [->|Hne]; [done|].
    by destruct Hin; apply Hothers.
  - destruct Hinv as [_ Hall]. by destruct Hin.
Qed.

Lemma invariant_step initval s s' :
  invariant initval s → step s s' → invariant initval s'.
Proof.
  intros Hinv Hstep. destruct Hstep as [s t Hp|s t Hp Hl|s t Hp|s t tmp Hp|s t Hp|s t ret Hp].
  - (* call *)
    destruct Hinv as [Hret Hinv]. split; [done|]. simpl.
    destruct (lock s) as [t0|].
    + destruct Hinv as [Hothers Hin]. 
      assert (t ≠ t0) by (intros ->; by rewrite Hp in Hin).
      split.
      * intros t' Hne. destruct (decide (t' = t)) as [->|].
        -- rewrite set_proc_eq. by right.
        -- rewrite set_proc_ne by done. by apply Hothers.
      * by rewrite set_proc_ne.
    + destruct Hinv as [Hv Hall]. split; [done|]. intros t'.
      destruct (decide (t' = t)) as [->|].
      * rewrite set_proc_eq. by right.
      * rewrite set_proc_ne by done. apply Hall.
  - (* acquire *)
    destruct Hinv as [Hret Hinv]. split; [done|]. simpl.
    rewrite Hl in Hinv. destruct Hinv as [Hv Hall]. split.
    + intros t' Hne. rewrite set_proc_ne by done. apply Hall.
    + by rewrite set_proc_eq.
  - (* fetch *)
    assert (Hlock : lock s = Some t).
    { apply (holder_is_inside initval); [done|]. rewrite Hp. by intros [|]. }
    destruct Hinv as [Hret Hinv]. split; [done|]. simpl. rewrite Hlock in *.
    destruct Hinv as [Hothers Hin]. rewrite Hp in Hin. split.
    + intros t' Hne. rewrite set_proc_ne by done. by apply Hothers.
    + by rewrite set_proc_eq.
  - (* store *)
    assert (Hlock : lock s = Some t).
    { apply (holder_is_inside initval); [done|]. rewrite Hp. by intros [|]. }
    destruct Hinv as [Hret Hinv]. split; [done|]. simpl. rewrite Hlock in *.
    destruct Hinv as [Hothers Hin]. rewrite Hp in Hin. destruct Hin as [-> Hv]. split.
    + intros t' Hne. rewrite set_proc_ne by done. by apply Hothers.
    + rewrite set_proc_eq. rewrite c_int_succ. f_equal.
  - (* read *)
    assert (Hlock : lock s = Some t).
    { apply (holder_is_inside initval); [done|]. rewrite Hp. by intros [|]. }
    destruct Hinv as [Hret Hinv]. split; [done|]. simpl. rewrite Hlock in *.
    destruct Hinv as [Hothers Hin]. rewrite Hp in Hin. split.
    + intros t' Hne. rewrite set_proc_ne by done. by apply Hothers.
    + by rewrite set_proc_eq.
  - (* release *)
    assert (Hlock : lock s = Some t).
    { apply (holder_is_inside initval); [done|]. rewrite Hp. by intros [|]. }
    destruct Hinv as [Hret Hinv]. rewrite Hlock in Hinv.
    destruct Hinv as [Hothers Hin]. rewrite Hp in Hin. destruct Hin as [-> Hv].
    unfold invariant. simpl. rewrite length_app. simpl.
    split.
    + rewrite fmap_app, Hret. simpl.
      replace (length (returned s) + 1)%nat with (S (length (returned s))) by lia.
      rewrite seq_S, fmap_app. simpl. do 3 f_equal. lia.
    + split.
      * rewrite Hv. f_equal. lia.
      * intros t'. destruct (decide (t' = t)) as [->|].
        -- rewrite set_proc_eq. by left.
        -- rewrite set_proc_ne by done. by apply Hothers.
Qed.

Lemma invariant_reachable initval s : reachable initval s → invariant initval s.
Proof.
  unfold reachable. intros H.
  eapply (rtc_ind_r (λ s, invariant initval s)); [apply invariant_init| |exact H].
  intros y z _ Hs IH. by eapply invariant_step.
Qed.

End SharedFacts.

Lemma sequential_call s (t : nat) :
  Shared.lock s = None → (∀ t', Shared.procs s t' = Shared.Idle) →
  ∃ s', rtc Shared.step s s'
        ∧ Shared.val s' = c_int (Shared.val s + 1)
        ∧ Shared.lock s' = None
        ∧ (∀ t', Shared.procs s' t' = Shared.Idle)
        ∧ Shared.returned s' = Shared.returned s ++ [(t, c_int (Shared.val s + 1))].
Proof.
  intros Hl Hidle.
  eexists. split.
  { eapply rtc_l; [apply (Shared.step_call s t); apply Hidle|].
    eapply rtc_l; [eapply (Shared.step_acquire _ t);
                   [simpl; apply SharedFacts.set_proc_eq|exact Hl]|].
    eapply rtc_l; [eapply (Shared.step_load _ t); simpl; apply SharedFacts.set_proc_eq|].
    eapply rtc_l; [eapply (Shared.step_store _ t); simpl; apply SharedFacts.set_proc_eq|].
    eapply rtc_l; [eapply (Shared.step_read _ t); simpl; apply SharedFacts.set_proc_eq|].
    eapply rtc_l; [eapply (Shared.step_release _ t); simpl; apply SharedFacts.set_proc_eq|].
    apply rtc_refl. }
  simpl. repeat split; try done.
  intros t'. unfold Shared.set_proc. repeat case_decide; done || apply Hidle.
Qed.

(** A run in which process 0 makes [n] calls one after the other. *)
Lemma sequential_run initval (n : nat) :
  ∃ s, Shared.reachable initval s
       ∧ Shared.val s = c_int (initval + Z.of_nat n)
       ∧ Shared.lock s = None
       ∧ (∀ t, Shared.procs s t = Shared.Idle)
       ∧ Shared.returned s
         = (λ k, (0%nat, c_int (initval + Z.of_nat k))) <$> seq 1 n.
Proof.
  induction n as [|n (s & Hr & Hv & Hl & Hi & Hret)].
  - exists (Shared.init initval). split; [apply rtc_refl|]. simpl.
    rewrite Z.add_0_r. done.
  - destruct (sequential_call s 0%nat Hl Hi) as (s' & Hsteps & Hv' & Hl' & Hi' & Hret').
    exists s'. split; [unfold Shared.reachable in *; by etrans|].
    assert (Hnext : c_int (Shared.val s + 1) = c_int (initval + Z.of_nat (S n))).
    { rewrite Hv, c_int_succ. f_equal. lia. }
    split; [by rewrite Hv'|]. split; [done|]. split; [done|].
    rewrite Hret', Hret, seq_S, fmap_app. simpl. by rewrite Hnext.
Qed.

(** C9, as amended. In every interleaving of processes calling
    [Counter.increment] on one counter, at most one process is inside the
    locked section, and the calls return, in the order they complete, the
    values a sequential run returns: the stored value is a 32-bit C integer,
    so the n-th call returns [c_int (initval + n)]. The returned values are
    pairwise distinct as long as at most 2^32 calls have completed. *)
Theorem increments_return_distinct_values initval s :
  Shared.reachable initval s →
  (Shared.returned s).*2
  = (λ k, Shared.nth_call_value initval (Z.of_nat k))
      <$> seq 1 (length (Shared.returned s))
  ∧ (∀ t t', ¬ SharedInv.outside (Shared.procs s t) →
             ¬ SharedInv.outside (Shared.procs s t') → t = t')
  ∧ (Z.of_nat (length (Shared.returned s)) ≤ 2 ^ 32 → NoDup (Shared.returned s).*2).
Proof.
  intros Hr. pose proof (SharedFacts.invariant_reachable initval s Hr) as Hinv.
  assert (Hvals : (Shared.returned s).*2
                  = (λ k, c_int (initval + Z.of_nat k))
                      <$> seq 1 (length (Shared.returned s))) by apply Hinv.
  split; [|split].
  - rewrite Hvals. apply list_fmap_ext. intros i k _.
    rewrite nth_call_value_eq; [done|lia].
  - intros t t' Ht Ht'.
    pose proof (SharedFacts.holder_is_inside initval s t Hinv Ht).
    pose proof (SharedFacts.holder_is_inside initval s t' Hinv Ht'). congruence.
  - intros Hlen. rewrite Hvals. apply NoDup_fmap_2_strong; [|apply NoDup_seq].
    intros i j Hi Hj Heq. apply elem_of_seq in Hi, Hj.
    apply c_int_inj_near in Heq; lia.
Qed.

Lemma increments_return_distinct_values_witness :
  ∃ s, Shared.reachable 5 s
       ∧ (Shared.returned s).*2 = [6; 7]
       ∧ NoDup (Shared.returned s).*2.
Proof.
  destruct (sequential_run 5 2) as (s & Hr & _ & _ & _ & Hret).
  exists s. split; [done|]. split; [by rewrite Hret|].
  apply (increments_return_distinct_values 5 s Hr). rewrite Hret. simpl. lia.
Defined.

Lemma counter_wraps_after_2_32_calls :
  ∃ s, Shared.reachable 0 s
       ∧ (Shared.returned s).*2 !! 0%nat = Some 1
       ∧ (Shared.returned s).*2 !! Z.to_nat (2 ^ 32) = Some 1
       ∧ 0%nat ≠ Z.to_nat (2 ^ 32).
Proof.
  destruct (sequential_run 0 (S (Z.to_nat (2 ^ 32)))) as (s & Hr & _ & _ & _ & Hret).
  exists s. split; [done|].
  assert (Hlook : ∀ i, (i < S (Z.to_nat (2 ^ 32)))%nat →
            (Shared.returned s).*2 !! i = Some (c_int (Z.of_nat (S i)))).
  { intros i Hi. rewrite Hret, <- list_fmap_compose, list_lookup_fmap.
    rewrite lookup_seq_lt by done. reflexivity. }
  split; [|split].
  - rewrite Hlook by lia. reflexivity.
  - assert (Heq : Z.of_nat (S (Z.to_nat (2 ^ 32))) = 2 ^ 32 + 1) by lia.
    rewrite Hlook by lia. rewrite Heq. reflexivity.
  - lia.
Qed.



Lemma keeps_transcripts_refl st : keeps_transcripts st st.
Proof. done. Qed.

Lemma keeps_transcripts_trans st1 st2 st3 :
  keeps_transcripts st1 st2 → keeps_transcripts st2 st3 → keeps_transcripts st1 st3.
Proof. unfold keeps_transcripts. intros (? & ? & ?) (? & ? & ?). split_and!; congruence. Qed.

Lemma match_or_create_edge_total a b et s st :
  ∃ r st', match_or_create_edge a b et s st = inr (r, st') ∧ keeps_transcripts st st'.
Proof.
  unfold match_or_create_edge, bind, gets, ret, create_edge.
  destruct (search_for_edge a b et (edge_dict st)); simpl; eexists _, _; (split; [reflexivity|done]).
Qed.

Lemma index_back_0 {A} (l : list A) x : last l = Some x → Py.index_back l 0 = inr x.
Proof.
  intros H. unfold Py.index_back, Py.index.
  rewrite <- head_lookup, head_reverse, H. done.
Qed.

Lemma index_back_total {A} (l : list A) (i : nat) :
  (i < length l)%nat → ∃ x, Py.index_back l i = inr x.
Proof.
  intros H. unfold Py.index_back, Py.index.
  destruct (reverse l !! i) eqn:E; [eauto|].
  apply lookup_ge_None in E. rewrite length_reverse in E. lia.
Qed.

Lemma index_total {A} (l : list A) (i : nat) :
  (i < length l)%nat → ∃ x, Py.index l i = inr x.
Proof.
  intros H. unfold Py.index. destruct (l !! i) eqn:E; [eauto|].
  apply lookup_ge_None in E. lia.
Qed.

Lemma process_5p_total chrom positions s vertex_IDs gene
    (gene_starts : gmap Z (list (Z * Z))) ri st :
  (2 ≤ length positions)%nat → vertex_IDs ≠ [] →
  ∃ r st', process_5p chrom positions s vertex_IDs gene gene_starts ri st = inr (r, st')
           ∧ keeps_transcripts st st'.
Proof.
  intros Hp Hv.
  destruct positions as [|p0 [|p1 rest]]; simpl in Hp; try lia.
  destruct vertex_IDs as [|v0 vrest]; [done|].
  unfold process_5p, bind, lift, gets, ret. simpl.
  destruct (permissive_match_with_gene_priority _ _ _ _ _ _ _ _ _) as [[found d] k].
  destruct found as [v|]; simpl.
  - destruct (match_or_create_edge_total v v0 Exon s st) as ([e nov] & st' & -> & Hk).
    eauto.
  - set (st1 := {| location_dict := _ |}).
    destruct (match_or_create_edge_total (Counter.increment (vertex_counter st)) v0 Exon s st1)
      as ([e nov] & st' & -> & Hk).
    eexists _, _. split; [done|]. eapply keeps_transcripts_trans; [|done]. done.
Qed.

Lemma process_3p_total chrom positions s vertex_IDs gene
    (gene_ends : gmap Z (list (Z * Z))) ri st :
  (2 ≤ length positions)%nat → vertex_IDs ≠ [] →
  ∃ r st', process_3p chrom positions s vertex_IDs gene gene_ends ri st = inr (r, st')
           ∧ keeps_transcripts st st'.
Proof.
  intros Hp Hv.
  destruct (index_back_total positions 0 ltac:(lia)) as [pl Hpl].
  destruct (index_back_total positions 1 ltac:(lia)) as [pb Hpb].
  destruct (index_back_total vertex_IDs 0) as [vl Hvl].
  { destruct vertex_IDs; [done|simpl; lia]. }
  unfold process_3p, bind, lift, gets, ret. rewrite Hpl, Hpb. simpl.
  destruct (permissive_match_with_gene_priority _ _ _ _ _ _ _ _ _) as [[found d] k].
  destruct found as [v|]; simpl; rewrite Hvl.
  - destruct (match_or_create_edge_total vl v Exon s st) as ([e nov] & st' & -> & Hk).
    eauto.
  - set (st1 := {| location_dict := _ |}).
    destruct (match_or_create_edge_total vl (Counter.increment (vertex_counter st)) Exon s st1)
      as ([e nov] & st' & -> & Hk).
    eexists _, _. split; [done|]. eapply keeps_transcripts_trans; [|done]. done.
Qed.

Lemma last_index_back {A} (l : list A) x : Py.index_back l 0 = inr x → last l = Some x.
Proof.
  unfold Py.index_back, Py.index. rewrite <- head_lookup, head_reverse.
  destruct (last l); [by intros [= ->]|done].
Qed.

(** What [process_FSM] does with the first match that has the exon count of
    the read. *)
Lemma process_FSM_first_match chrom positions s edge_IDs vertex_IDs ms
    (gene_starts gene_ends : gmap Z (list (Z * Z))) ri st T cands :
  (2 ≤ length positions)%nat → vertex_IDs ≠ [] →
  FSM_candidates positions ms = T :: cands →
  ∃ p0 p_last i st',
    positions !! 0%nat = Some p0 ∧ last positions = Some p_last
    ∧ process_FSM chrom positions s edge_IDs vertex_IDs ms gene_starts gene_ends ri st
      = inr ((Some (gene_ID T), Some (transcript_ID T), [], SeInfo i), st')
    ∧ keeps_transcripts st st'
    ∧ se_edge_IDs i = [se_start_exon i] ++ edge_IDs ++ [se_end_exon i]
    ∧ se_vertex_IDs i = [se_start_vertex i] ++ vertex_IDs ++ [se_end_vertex i]
    ∧ (Z.abs (compute_delta (start_pos T) p0 s) ≤ cutoff_5p ri →
       se_start_vertex i = start_vertex T ∧ se_start_exon i = start_exon T
       ∧ se_diff_5p i = Some (compute_delta (start_pos T) p0 s)
       ∧ se_start_novelty i = 0)
    ∧ (cutoff_5p ri < Z.abs (compute_delta (start_pos T) p0 s) →
       ∃ known st5,
         process_5p chrom positions s vertex_IDs (Some (gene_ID T)) gene_starts ri st
         = inr ((se_start_vertex i, se_start_exon i, se_start_novelty i, known,
                 se_diff_5p i), st5))
    ∧ (Z.abs (compute_delta (end_pos T) p_last s) ≤ cutoff_3p ri →
       se_end_vertex i = end_vertex T ∧ se_end_exon i = end_exon T
       ∧ se_diff_3p i = Some (compute_delta (end_pos T) p_last s)
       ∧ se_end_novelty i = 0)
    ∧ (cutoff_3p ri < Z.abs (compute_delta (end_pos T) p_last s) →
       ∃ known st5,
         process_3p chrom positions s vertex_IDs (Some (gene_ID T)) gene_ends ri st5
         = inr ((se_end_vertex i, se_end_exon i, se_end_novelty i, known,
                 se_diff_3p i), st')
         ∧ (Z.abs (compute_delta (start_pos T) p0 s) ≤ cutoff_5p ri → st5 = st))
    ∧ (Z.abs (compute_delta (start_pos T) p0 s) ≤ cutoff_5p ri →
       Z.abs (compute_delta (end_pos T) p_last s) ≤ cutoff_3p ri → st' = st).
Proof.
  intros Hp Hv Hc.
  destruct (index_total positions 0 ltac:(lia)) as [p0 Hp0].
  destruct (index_back_total positions 0 ltac:(lia)) as [pl Hpl].
  exists p0, pl.
  assert (Hp0' : positions !! 0%nat = Some p0).
  { unfold Py.index in Hp0. destruct (positions !! 0%nat); by inversion Hp0. }
  pose proof (last_index_back _ _ Hpl) as Hpl'.
  unfold process_FSM. unfold FSM_candidates in Hc. rewrite Hc.
  unfold bind at 1, lift at 1. rewrite Hp0.
  unfold bind at 1, lift at 1. rewrite Hpl.
  set (d5 := compute_delta (start_pos T) p0 s).
  set (d3 := compute_delta (end_pos T) pl s).
  destruct (Z.leb_spec (Z.abs d5) (cutoff_5p ri)) as [H5|H5];
    destruct (Z.leb_spec (Z.abs d3) (cutoff_3p ri)) as [H3|H3].
  - unfold bind, ret. simpl. eexists _, st. split_and!; try done; intros; lia.
  - destruct (process_3p_total chrom positions s vertex_IDs (Some (gene_ID T)) gene_ends
                ri st Hp Hv) as ([[[[ev ee] en] ek] ed] & st' & He & Hk).
    unfold bind at 1, ret at 1. unfold bind at 1. unfold bind at 1. rewrite He.
    unfold ret. simpl. eexists _, st'. split_and!; try done; try (intros; lia).
    intros _. exists ek, st. done.
  - destruct (process_5p_total chrom positions s vertex_IDs (Some (gene_ID T)) gene_starts
                ri st Hp Hv) as ([[[[sv se] sn] sk] sd] & st5 & Hs & Hk).
    unfold bind at 1. unfold bind at 1. rewrite Hs.
    unfold bind, ret. simpl. eexists _, st5. split_and!; try done; try (intros; lia).
    intros _. exists sk, st5. done.
  - destruct (process_5p_total chrom positions s vertex_IDs (Some (gene_ID T)) gene_starts
                ri st Hp Hv) as ([[[[sv se] sn] sk] sd] & st5 & Hs & Hk5).
    destruct (process_3p_total chrom positions s vertex_IDs (Some (gene_ID T)) gene_ends
                ri st5 Hp Hv) as ([[[[ev ee] en] ek] ed] & st' & He & Hk3).
    unfold bind at 1. unfold bind at 1. rewrite Hs.
    unfold ret at 1. unfold bind at 1. unfold bind at 1. rewrite He.
    unfold ret. simpl. eexists _, st'. split_and!; try done; try (intros; lia).
    + by eapply keeps_transcripts_trans.
    + intros _. exists sk, st5. done.
    + intros _. exists ek, st5. split; [done|]. intros; lia.
Qed.

Lemma search_for_ISM_elem edge_IDs dict ms T :
  search_for_ISM edge_IDs dict = Some ms →
  T ∈ ms ↔ ∃ key, (key, T) ∈ dict ∧ frozenset edge_IDs ⊆ key.
Proof.
  unfold search_for_ISM. case_decide; [|done]. intros [= <-].
  rewrite list_elem_of_fmap. split.
  - intros ([key T'] & -> & Hin). apply list_elem_of_filter in Hin as [Hsub Hin]. eauto.
  - intros (key & Hin & Hsub). exists (key, T). split; [done|].
    apply list_elem_of_filter. done.
Qed.

Lemma search_for_ISM_found edge_IDs dict key T :
  (key, T) ∈ dict → frozenset edge_IDs ⊆ key →
  ∃ ms, search_for_ISM edge_IDs dict = Some ms ∧ T ∈ ms.
Proof.
  intros Hin Hsub. unfold search_for_ISM.
  assert (HT : T ∈ (filter (λ kv, frozenset edge_IDs ⊆ kv.1) dict).*2).
  { apply list_elem_of_fmap. exists (key, T). split; [done|].
    by apply list_elem_of_filter. }
  rewrite decide_True; [eauto|].
  destruct ((filter _ dict).*2); [by apply elem_of_nil in HT|simpl; lia].
Qed.

Lemma FSM_candidates_head positions ms T0 :
  T0 ∈ ms → n_exons T0 = Py.len positions `div` 2 →
  ∃ T cands, FSM_candidates positions ms = T :: cands
             ∧ T ∈ ms ∧ n_exons T = Py.len positions `div` 2.
Proof.
  intros Hin Hn.
  assert (HT : T0 ∈ FSM_candidates positions ms) by (by apply list_elem_of_filter).
  destruct (FSM_candidates positions ms) as [|T cands] eqn:E; [by apply elem_of_nil in HT|].
  exists T, cands. split; [done|].
  assert (HT' : T ∈ FSM_candidates positions ms) by (rewrite E; left).
  apply list_elem_of_filter in HT' as [? ?]. done.
Qed.

Lemma compute_delta_signed orig_pos new_pos s :
  compute_delta orig_pos new_pos s
  = match s with Plus => new_pos - orig_pos | Minus => orig_pos - new_pos end.
Proof. unfold compute_delta. destruct s; case_match; lia. Qed.

Lemma first_split_unique {A} (P : A → Prop) (pre pre0 : list A) x x0 post post0 :
  pre ++ x :: post = pre0 ++ x0 :: post0 →
  (∀ y, y ∈ pre → ¬ P y) → P x → (∀ y, y ∈ pre0 → ¬ P y) → P x0 → x = x0.
Proof.
  revert pre0. induction pre as [|y pre IH]; intros [|y0 pre0]; simpl.
  - by intros [= -> _].
  - intros [= <- _] _ Hx Hpre0 _. destruct (Hpre0 x); [left|done].
  - intros [= -> _] Hpre _ _ Hx0. destruct (Hpre x0); [left|done].
  - intros [= _ Heq] Hpre Hx Hpre0 Hx0. eapply IH; [done| |done| |done].
    + intros z Hz. apply Hpre. by right.
    + intros z Hz. apply Hpre0. by right.
Qed.

(** The first match with the read's exon count is the first transcript of
    the dict, in its order, that contains the read's edges and has that
    count. *)
Lemma FSM_first_in_dict edge_IDs (positions : list Z)
    (dict : list (gset Z * transcript)) T cands :
  filter (λ x, n_exons x = Py.len positions `div` 2)
         (filter (λ kv, frozenset edge_IDs ⊆ kv.1) dict).*2 = T :: cands →
  ∃ key pre post,
    dict = pre ++ (key, T) :: post
    ∧ frozenset edge_IDs ⊆ key
    ∧ n_exons T = Py.len positions `div` 2
    ∧ ∀ kv, kv ∈ pre →
        ¬ (frozenset edge_IDs ⊆ kv.1 ∧ n_exons kv.2 = Py.len positions `div` 2).
Proof.
  induction dict as [|[k t] dict IH]; [done|].
  rewrite filter_cons. destruct (decide (frozenset edge_IDs ⊆ (k, t).1)) as [Hk|Hk].
  - rewrite fmap_cons, filter_cons. cbn [snd].
    destruct (decide (n_exons t = Py.len positions `div` 2)) as [Hn|Hn].
    + intros [= -> <-]. exists k, [], dict. split_and!; try done.
      intros kv Hkv. by apply elem_of_nil in Hkv.
    + intros Hrest. destruct (IH Hrest) as (key & pre & post & -> & Hsub & HnT & Hpre).
      exists key, ((k, t) :: pre), post. split_and!; try done.
      intros kv [->|Hkv]%elem_of_cons; [simpl; tauto|by apply Hpre].
  - intros Hrest. destruct (IH Hrest) as (key & pre & post & -> & Hsub & HnT & Hpre).
    exists key, ((k, t) :: pre), post. split_and!; try done.
    intros kv [->|Hkv]%elem_of_cons; [simpl; tauto|by apply Hpre].
Qed.

Lemma search_for_ISM_filter edge_IDs dict ms :
  search_for_ISM edge_IDs dict = Some ms →
  ms = (filter (λ kv, frozenset edge_IDs ⊆ kv.1) dict).*2.
Proof. unfold search_for_ISM. case_decide; [|done]. by intros [= <-]. Qed.

(** C2, as amended. For a multi-exon read whose interior edges lie in the
    edge set of a stored transcript with the read's exon count,
    [search_for_ISM] finds matches and [process_FSM] returns, with an empty
    novelty list, the gene and transcript ID of the first transcript of the
    dict, in its order, that contains those edges and has that exon count:
    the given transcript when no other qualifies. At each end, when the
    read's position is at most the cutoff away from the terminus of the
    returned transcript, its vertex and terminal exon are inherited and the
    signed distance along the strand is reported; only when it is farther is
    the end recomputed, by [process_5p] or [process_3p]. With both ends
    within the cutoffs the store is left as it was. *)
Theorem process_FSM_reuses_existing_transcript chrom positions s edge_IDs vertex_IDs
    (gene_starts gene_ends : gmap Z (list (Z * Z))) ri st key0 T0 :
  (2 ≤ length positions)%nat → vertex_IDs ≠ [] →
  (key0, T0) ∈ transcript_dict st →
  frozenset edge_IDs ⊆ key0 →
  n_exons T0 = Py.len positions `div` 2 →
  ∃ ms key T pre post p0 p_last i st',
    search_for_ISM edge_IDs (transcript_dict st) = Some ms
    ∧ transcript_dict st = pre ++ (key, T) :: post
    ∧ frozenset edge_IDs ⊆ key
    ∧ n_exons T = Py.len positions `div` 2
    ∧ (∀ kv, kv ∈ pre →
         ¬ (frozenset edge_IDs ⊆ kv.1 ∧ n_exons kv.2 = Py.len positions `div` 2))
    ∧ ((∀ key2 T2, (key2, T2) ∈ transcript_dict st → frozenset edge_IDs ⊆ key2 →
                   n_exons T2 = Py.len positions `div` 2 → T2 = T0) → T = T0)
    ∧ positions !! 0%nat = Some p0 ∧ last positions = Some p_last
    ∧ process_FSM chrom positions s edge_IDs vertex_IDs ms gene_starts gene_ends ri st
      = inr ((Some (gene_ID T), Some (transcript_ID T), [], SeInfo i), st')
    ∧ (Z.abs (start_pos T - p0) ≤ cutoff_5p ri →
       se_start_vertex i = start_vertex T ∧ se_start_exon i = start_exon T
       ∧ se_diff_5p i
         = Some (match s with Plus => p0 - start_pos T | Minus => start_pos T - p0 end)
       ∧ se_start_novelty i = 0)
    ∧ (cutoff_5p ri < Z.abs (start_pos T - p0) →
       ∃ known st5,
         process_5p chrom positions s vertex_IDs (Some (gene_ID T)) gene_starts ri st
         = inr ((se_start_vertex i, se_start_exon i, se_start_novelty i, known,
                 se_diff_5p i), st5))
    ∧ (Z.abs (end_pos T - p_last) ≤ cutoff_3p ri →
       se_end_vertex i = end_vertex T ∧ se_end_exon i = end_exon T
       ∧ se_diff_3p i
         = Some (match s with Plus => p_last - end_pos T | Minus => end_pos T - p_last end)
       ∧ se_end_novelty i = 0)
    ∧ (cutoff_3p ri < Z.abs (end_pos T - p_last) →
       ∃ known st5,
         process_3p chrom positions s vertex_IDs (Some (gene_ID T)) gene_ends ri st5
         = inr ((se_end_vertex i, se_end_exon i, se_end_novelty i, known,
                 se_diff_3p i), st')
         ∧ (Z.abs (start_pos T - p0) ≤ cutoff_5p ri → st5 = st))
    ∧ (Z.abs (start_pos T - p0) ≤ cutoff_5p ri →
       Z.abs (end_pos T - p_last) ≤ cutoff_3p ri → st' = st).
Proof.
  intros Hp Hv Hin Hsub Hn.
  destruct (search_for_ISM_found edge_IDs (transcript_dict st) key0 T0 Hin Hsub)
    as (ms & Hms & HT0).
  destruct (FSM_candidates_head positions ms T0 HT0 Hn) as (T & cands & Hc & HT & HnT).
  destruct (process_FSM_first_match chrom positions s edge_IDs vertex_IDs ms gene_starts
              gene_ends ri st T cands Hp Hv Hc)
    as (p0 & pl & i & st' & Hp0 & Hpl & Hrun & _ & _ & _ & H5a & H5b & H3a & H3b & Hst).
  rewrite !compute_delta_abs in H5a, H5b, H3a, H3b, Hst.
  rewrite !compute_delta_signed in H5a, H3a.
  pose proof Hc as Hfirst. unfold FSM_candidates in Hfirst.
  rewrite (search_for_ISM_filter _ _ _ Hms) in Hfirst.
  apply FSM_first_in_dict in Hfirst as (key & pre & post & Hdict & HsubT & _ & Hpre).
  exists ms, key, T, pre, post, p0, pl, i, st'. split_and!; try done.
  - intros Huniq. eapply (Huniq key); [|done|done].
    rewrite Hdict. apply elem_of_app. right. left.
  - intros Hfar. destruct (H3b Hfar) as (known & st5 & Hrun3 & Hsame).
    exists known, st5. split; [done|]. intros Hnear. apply Hsame.
    by rewrite compute_delta_abs.
  - intros Hnear5 Hnear3. apply Hst; by rewrite ?compute_delta_abs.
Qed.

Lemma process_FSM_reuses_existing_transcript_witness :
  ∃ i st',
    process_FSM "chr1" [110; 200; 300; 390] Plus [102] [2; 3]
                [isoform_from_100; isoform_from_10] ∅ ∅ cutoffs_50 two_isoforms
    = inr ((Some 1, Some 1001, [], SeInfo i), st')
    ∧ se_start_vertex i = 1 ∧ se_end_vertex i = 4
    ∧ se_diff_5p i = Some 10 ∧ se_diff_3p i = Some (-10).
Proof.
  destruct (process_FSM_reuses_existing_transcript
              "chr1" [110; 200; 300; 390] Plus [102] [2; 3] ∅ ∅ cutoffs_50 two_isoforms
              (frozenset [101; 102; 103]) isoform_from_100)
    as (ms & key & T & pre & post & p0 & pl & i & st' & Hms & Hdict & _ & _ & Hpre & _
        & Hp0 & Hpl & Hrun & H5 & _ & H3 & _).
  - simpl. lia.
  - done.
  - simpl. left.
  - unfold frozenset. intros x. rewrite !elem_of_list_to_set, !elem_of_cons. tauto.
  - reflexivity.
  - assert (ms = [isoform_from_100; isoform_from_10]) as ->.
    { vm_compute in Hms. by injection Hms as <-. }
    assert (T = isoform_from_100) as ->.
    { destruct pre as [|kv pre].
      - simpl in Hdict. by injection Hdict as _ <- _.
      - exfalso. simpl in Hdict. injection Hdict as <- _. apply (Hpre _ ltac:(left)).
        split; [|reflexivity]. simpl. unfold frozenset. intros x.
        rewrite !elem_of_list_to_set, !elem_of_cons. tauto. }
    injection Hp0 as <-. injection Hpl as <-.
    exists i, st'. split; [exact Hrun|].
    destruct H5 as (-> & _ & -> & _); [vm_compute; discriminate|].
    destruct H3 as (-> & _ & -> & _); [vm_compute; discriminate|]. done.
Defined.

(** The read has exactly the ends of the second stored transcript, which
    contains its interior edge and has its exon count; the first one is
    returned. *)
Lemma process_FSM_returns_the_first_of_two_matches :
  (frozenset [104; 102; 103], isoform_from_10) ∈ transcript_dict two_isoforms
  ∧ frozenset [102] ⊆ frozenset [104; 102; 103]
  ∧ n_exons isoform_from_10 = Py.len [10; 200; 300; 400] `div` 2
  ∧ start_pos isoform_from_10 = 10 ∧ end_pos isoform_from_10 = 400
  ∧ transcript_ID isoform_from_10 = 1002
  ∧ search_for_ISM [102] (transcript_dict two_isoforms)
    = Some [isoform_from_100; isoform_from_10]
  ∧ ∃ i st',
      process_FSM "chr1" [10; 200; 300; 400] Plus [102] [2; 3]
                  [isoform_from_100; isoform_from_10] ∅ ∅ cutoffs_50 two_isoforms
      = inr ((Some 1, Some 1001, [], SeInfo i), st').
Proof.
  split; [simpl; right; left|].
  split; [unfold frozenset; intros x; rewrite !elem_of_list_to_set, !elem_of_cons; tauto|].
  split; [reflexivity|]. split; [reflexivity|]. split; [reflexivity|].
  split; [reflexivity|].
  split; [vm_compute; reflexivity|].
  - set (out := process_FSM "chr1" [10; 200; 300; 400] Plus [102] [2; 3]
                  [isoform_from_100; isoform_from_10] ∅ ∅ cutoffs_50 two_isoforms).
    assert (Hout : match out with
                   | inr ((g, t, nov, SeInfo i), _) => Some (g, t, nov)
                   | _ => None
                   end = Some (Some 1, Some 1001, []))
      by (vm_compute; reflexivity).
    destruct out as [e|[[[[g t] nov] [| |i]] st']]; try discriminate.
    injection Hout as -> -> ->. by exists i, st'.
Qed.

Lemma search_for_ISM_frozenset e1 e2 dict :
  frozenset e1 = frozenset e2 → search_for_ISM e1 dict = search_for_ISM e2 dict.
Proof. unfold search_for_ISM. by intros ->. Qed.

Lemma alist_lookup_insert_eq {K V} `{EqDecision K} (k : K) (v : V) l :
  alist_lookup k (alist_insert k v l) = Some v.
Proof.
  induction l as [|[k' v'] l IH]; simpl.
  - by rewrite decide_True.
  - destruct (decide (k' = k)) as [->|Hne]; simpl.
    + by rewrite decide_True.
    + by rewrite decide_False.
Qed.

Lemma alist_insert_elem {K V} `{EqDecision K} (k : K) (v : V) l :
  (k, v) ∈ alist_insert k v l.
Proof.
  induction l as [|[k' v'] l IH]; simpl.
  - left.
  - destruct (decide (k' = k)); [left|by right].
Qed.

Lemma create_transcript_stores s chrom sp ep gene edge_IDs vertex_IDs st :
  edge_IDs ≠ [] → vertex_IDs ≠ [] →
  ∃ t st',
    create_transcript s chrom sp ep gene edge_IDs vertex_IDs st = inr (t, st')
    ∧ transcript_ID t = Counter.increment (transcript_counter st)
    ∧ gene_ID t = gene
    ∧ transcript_counter st' = Counter.increment (transcript_counter st)
    ∧ transcript_dict st' = alist_insert (frozenset edge_IDs) t (transcript_dict st).
Proof.
  intros He Hv.
  destruct (index_total edge_IDs 0) as [e0 He0]; [destruct edge_IDs; [done|simpl; lia]|].
  destruct (index_back_total edge_IDs 0) as [el Hel]; [destruct edge_IDs; [done|simpl; lia]|].
  destruct (index_total vertex_IDs 0) as [v0 Hv0]; [destruct vertex_IDs; [done|simpl; lia]|].
  destruct (index_back_total vertex_IDs 0) as [vl Hvl]; [destruct vertex_IDs; [done|simpl; lia]|].
  unfold create_transcript, bind, lift. rewrite He0, Hel, Hv0, Hvl. simpl.
  eexists _, _. split; [reflexivity|]. done.
Qed.

(** C3, as amended. Two reads with the same set of interior edge IDs and
    the same exon count, classified against the same transcript dict, get
    the same transcript ID from [process_FSM] whenever a stored transcript
    contains those edges and has that exon count: the ID of the first such
    transcript in the order of the dict, and no transcript is minted. A given
    stored transcript is the one returned when it is that first one, so also
    when no other transcript qualifies; when another one comes before it, the
    read gets the ID of that other one. A transcript minted by
    [create_transcript] is stored under the frozenset of its edge IDs, and
    [search_for_ISM] finds it for every edge list whose set is contained in
    it, in any order. *)
Theorem transcripts_are_matched_by_interior_edges chrom positions1 positions2 s
    edges1 edges2 vertices1 vertices2
    (gene_starts gene_ends : gmap Z (list (Z * Z))) ri st st2 key0 T0 :
  (2 ≤ length positions1)%nat → length positions2 = length positions1 →
  vertices1 ≠ [] → vertices2 ≠ [] →
  frozenset edges1 = frozenset edges2 →
  transcript_dict st2 = transcript_dict st →
  (key0, T0) ∈ transcript_dict st →
  frozenset edges1 ⊆ key0 →
  n_exons T0 = Py.len positions1 `div` 2 →
  (∃ ms T cands i1 i2 st1' st2',
     search_for_ISM edges1 (transcript_dict st) = Some ms
     ∧ search_for_ISM edges2 (transcript_dict st2) = Some ms
     ∧ FSM_candidates positions1 ms = T :: cands
     ∧ process_FSM chrom positions1 s edges1 vertices1 ms gene_starts gene_ends ri st
       = inr ((Some (gene_ID T), Some (transcript_ID T), [], SeInfo i1), st1')
     ∧ process_FSM chrom positions2 s edges2 vertices2 ms gene_starts gene_ends ri st2
       = inr ((Some (gene_ID T), Some (transcript_ID T), [], SeInfo i2), st2')
     ∧ keeps_transcripts st st1' ∧ keeps_transcripts st2 st2'
     ∧ (∃ key pre post,
          transcript_dict st = pre ++ (key, T) :: post
          ∧ frozenset edges1 ⊆ key
          ∧ n_exons T = Py.len positions1 `div` 2
          ∧ ∀ kv, kv ∈ pre →
              ¬ (frozenset edges1 ⊆ kv.1
                 ∧ n_exons kv.2 = Py.len positions1 `div` 2))
     ∧ (∀ pre0 post0,
          transcript_dict st = pre0 ++ (key0, T0) :: post0 →
          (∀ kv, kv ∈ pre0 →
             ¬ (frozenset edges1 ⊆ kv.1
                ∧ n_exons kv.2 = Py.len positions1 `div` 2)) →
          T = T0)
     ∧ ((∀ key T', (key, T') ∈ transcript_dict st → frozenset edges1 ⊆ key →
                   n_exons T' = Py.len positions1 `div` 2 → T' = T0) → T = T0))
  ∧ (∀ s' chrom' sp ep gene edge_IDs vertex_IDs,
       edge_IDs ≠ [] → vertex_IDs ≠ [] →
       ∃ t st',
         create_transcript s' chrom' sp ep gene edge_IDs vertex_IDs st = inr (t, st')
         ∧ transcript_ID t = Counter.increment (transcript_counter st)
         ∧ search_for_transcript (frozenset edge_IDs) (transcript_dict st')
           = (Some gene, Some t)
         ∧ ∀ query, frozenset query ⊆ frozenset edge_IDs →
             ∃ ms, search_for_ISM query (transcript_dict st') = Some ms ∧ t ∈ ms).
Proof.
  intros Hp Hlen Hv1 Hv2 Hset Hdict Hin Hsub Hn. split.
  - destruct (search_for_ISM_found edges1 (transcript_dict st) key0 T0 Hin Hsub)
      as (ms & Hms & HT0).
    destruct (FSM_candidates_head positions1 ms T0 HT0 Hn) as (T & cands & Hc & HT & HnT).
    assert (Hc2 : FSM_candidates positions2 ms = T :: cands).
    { unfold FSM_candidates, Py.len in *. by rewrite Hlen. }
    destruct (process_FSM_first_match chrom positions1 s edges1 vertices1 ms gene_starts
                gene_ends ri st T cands Hp Hv1 Hc)
      as (? & ? & i1 & st1' & _ & _ & Hrun1 & Hk1 & _).
    destruct (process_FSM_first_match chrom positions2 s edges2 vertices2 ms gene_starts
                gene_ends ri st2 T cands ltac:(lia) Hv2 Hc2)
      as (? & ? & i2 & st2' & _ & _ & Hrun2 & Hk2 & _).
    pose proof Hc as Hfirst. unfold FSM_candidates in Hfirst.
    rewrite (search_for_ISM_filter _ _ _ Hms) in Hfirst.
    apply FSM_first_in_dict in Hfirst as (key & pre & post & Hsplit & HsubT & _ & Hpre).
    exists ms, T, cands, i1, i2, st1', st2'. split_and!; try done.
    + rewrite Hdict. by rewrite <- (search_for_ISM_frozenset edges1 edges2).
    + by exists key, pre, post.
    + intros pre0 post0 Hsplit0 Hpre0.
      assert (Heq : (key, T) = (key0, T0)); [|by injection Heq].
      eapply (first_split_unique
                (λ kv, frozenset edges1 ⊆ kv.1
                       ∧ n_exons kv.2 = Py.len positions1 `div` 2) pre pre0);
        [by rewrite <- Hsplit, <- Hsplit0|done|done|done|done].
    + intros Huniq.
      pose proof (proj1 (search_for_ISM_elem _ _ _ T Hms) HT) as (key' & HinT & HsubT').
      by eapply Huniq.
  - intros s' chrom' sp ep gene edge_IDs vertex_IDs He Hv.
    destruct (create_transcript_stores s' chrom' sp ep gene edge_IDs vertex_IDs st He Hv)
      as (t & st' & Hrun & Hid & Hg & _ & Hd).
    exists t, st'. split_and!; try done.
    + unfold search_for_transcript. rewrite Hd, alist_lookup_insert_eq. by rewrite Hg.
    + intros query Hq. eapply search_for_ISM_found; [|done].
      rewrite Hd. apply alist_insert_elem.
Qed.

Lemma transcripts_are_matched_by_interior_edges_witness :
  ∃ i1 i2 st1' st2',
    process_FSM "chr1" [110; 200; 300; 390] Plus [102] [2; 3]
                [isoform_from_100; isoform_from_10] ∅ ∅ cutoffs_50 two_isoforms
    = inr ((Some 1, Some 1001, [], SeInfo i1), st1')
    ∧ process_FSM "chr1" [120; 200; 300; 380] Plus [102; 102] [2; 3]
                  [isoform_from_100; isoform_from_10] ∅ ∅ cutoffs_50 two_isoforms
      = inr ((Some 1, Some 1001, [], SeInfo i2), st2').
Proof.
  destruct (transcripts_are_matched_by_interior_edges
              "chr1" [110; 200; 300; 390] [120; 200; 300; 380] Plus [102] [102; 102]
              [2; 3] [2; 3] ∅ ∅ cutoffs_50 two_isoforms two_isoforms
              (frozenset [101; 102; 103]) isoform_from_100)
    as [(ms & T & cands & i1 & i2 & st1' & st2' & Hms & _ & _ & Hrun1 & Hrun2 & _ & _
         & _ & Hfirst & _) _].
  - simpl. lia.
  - done.
  - done.
  - done.
  - unfold frozenset. apply set_eq. intros x. rewrite !elem_of_list_to_set.
    rewrite !elem_of_cons. tauto.
  - done.
  - simpl. left.
  - unfold frozenset. intros x. rewrite !elem_of_list_to_set, !elem_of_cons. tauto.
  - reflexivity.
  - assert (ms = [isoform_from_100; isoform_from_10]) as ->.
    { vm_compute in Hms. by injection Hms as <-. }
    assert (T = isoform_from_100) as ->.
    { apply (Hfirst [] [(frozenset [104; 102; 103], isoform_from_10)]); [done|].
      intros kv Hkv. by apply elem_of_nil in Hkv. }
    by exists i1, i2, st1', st2'.
Defined.

Lemma read_of_stored_edge_set_gets_other_transcript :
  ∃ i st',
    search_for_ISM [102] (transcript_dict two_isoforms)
    = Some [isoform_from_100; isoform_from_10]
    ∧ process_FSM "chr1" [10; 200; 300; 400] Plus [102] [2; 3]
                  [isoform_from_100; isoform_from_10] ∅ ∅ cutoffs_50 two_isoforms
      = inr ((Some 1, Some 1001, [], SeInfo i), st')
    ∧ search_for_transcript (frozenset (se_edge_IDs i)) (transcript_dict two_isoforms)
      = (Some 1, Some isoform_from_10)
    ∧ transcript_ID isoform_from_10 = 1002.
Proof.
  set (out := process_FSM "chr1" [10; 200; 300; 400] Plus [102] [2; 3]
                [isoform_from_100; isoform_from_10] ∅ ∅ cutoffs_50 two_isoforms).
  assert (Hout : match out with
                 | inr ((g, t, nov, SeInfo i), _) => Some (g, t, nov, se_edge_IDs i)
                 | _ => None
                 end = Some (Some 1, Some 1001, [], [104; 102; 103]))
    by (vm_compute; reflexivity).
  destruct out as [e|[[[[g t] nov] [| |i]] st']]; try discriminate.
  injection Hout as -> -> -> Hedges.
  exists i, st'. split; [vm_compute; reflexivity|]. split; [done|].
  rewrite Hedges. split; [vm_compute; reflexivity|done].
Qed.



Lemma interior_wrap {A} (a b : A) l : Py.interior ([a] ++ l ++ [b]) = l.
Proof. unfold Py.interior. simpl. apply removelast_last. Qed.

(** The loop over the matches for a multi-exon read. *)
Lemma characterize_ISMs_multi ms : ∀ n edge_IDs gene ISM prefix suffix,
  n ≠ 1 →
  (∀ m, m ∈ ms → is_Some (jn_path m)) →
  ∃ gene',
    characterize_ISMs ms n edge_IDs gene ISM prefix suffix
    = inr (IsmDone (ISM ++ ids_of ms)
                   (prefix ++ ids_of (filter (path_is_prefix (Py.interior edge_IDs)) ms))
                   (suffix ++ ids_of (filter (path_is_suffix (Py.interior edge_IDs)) ms))
                   gene')
    ∧ (gene' = gene ∨ ∃ m, m ∈ ms ∧ gene' = gene_ID m).
Proof.
  induction ms as [|m ms IH]; intros n edge_IDs gene ISM prefix suffix Hn Hpaths.
  - exists gene. simpl. rewrite !app_nil_r. split; [done|by left].
  - simpl. destruct (Z.eqb_spec n 1) as [|_]; [done|].
    destruct (Hpaths m ltac:(left)) as [p Hp]. rewrite Hp.
    assert (Hrest : ∀ m', m' ∈ ms → is_Some (jn_path m')).
    { intros m' Hm'. apply Hpaths. by right. }
    rewrite !filter_cons.
    fold (edge_path (Py.interior edge_IDs)).
    destruct (Py.startswith p (edge_path (Py.interior edge_IDs))) eqn:Epre;
      destruct (Py.endswith p (edge_path (Py.interior edge_IDs))) eqn:Esuf.
    + rewrite decide_True by (exists p; done). rewrite decide_True by (exists p; done).
      destruct (IH n edge_IDs (gene_ID m) (ISM ++ [Py.str (transcript_ID m)])
                   (prefix ++ [Py.str (transcript_ID m)])
                   (suffix ++ [Py.str (transcript_ID m)]) Hn Hrest) as (g' & -> & Hg).
      exists g'. unfold ids_of. simpl. rewrite <- !app_assoc. split; [done|].
      right. destruct Hg as [->|(m' & ? & ->)]; [exists m; split; [left|done]|].
      exists m'. split; [by right|done].
    + rewrite decide_True by (exists p; done).
      rewrite decide_False by (intros (p' & Hp' & H); congruence).
      destruct (IH n edge_IDs gene (ISM ++ [Py.str (transcript_ID m)])
                   (prefix ++ [Py.str (transcript_ID m)]) suffix Hn Hrest)
        as (g' & -> & Hg).
      exists g'. unfold ids_of. simpl. rewrite <- !app_assoc. split; [done|].
      destruct Hg as [->|(m' & ? & ->)]; [by left|]. right. exists m'. split; [by right|done].
    + rewrite decide_False by (intros (p' & Hp' & H); congruence).
      rewrite decide_True by (exists p; done).
      destruct (IH n edge_IDs (gene_ID m) (ISM ++ [Py.str (transcript_ID m)])
                   prefix (suffix ++ [Py.str (transcript_ID m)]) Hn Hrest)
        as (g' & -> & Hg).
      exists g'. unfold ids_of. simpl. rewrite <- !app_assoc. split; [done|].
      right. destruct Hg as [->|(m' & ? & ->)]; [exists m; split; [left|done]|].
      exists m'. split; [by right|done].
    + rewrite decide_False by (intros (p' & Hp' & H); congruence).
      rewrite decide_False by (intros (p' & Hp' & H); congruence).
      destruct (IH n edge_IDs gene (ISM ++ [Py.str (transcript_ID m)])
                   prefix suffix Hn Hrest) as (g' & -> & Hg).
      exists g'. unfold ids_of. simpl. rewrite <- !app_assoc. split; [done|].
      destruct Hg as [->|(m' & ? & ->)]; [by left|]. right. exists m'. split; [by right|done].
Qed.

Lemma short_list_elems {A} (l : list A) a b :
  (length l ≤ 1)%nat → a ∈ l → b ∈ l → a = b.
Proof.
  destruct l as [|x [|y l]]; simpl; intros Hl Ha Hb; try lia.
  - by apply elem_of_nil in Ha.
  - apply list_elem_of_singleton in Ha, Hb. congruence.
Qed.

Lemma filter_all {A} (P : A → Prop) `{∀ x, Decision (P x)} (l : list A) :
  (∀ x, x ∈ l → P x) → filter P l = l.
Proof.
  induction l as [|x l IH]; intros Hall; [done|].
  rewrite filter_cons, decide_True by (apply Hall; left).
  f_equal. apply IH. intros y Hy. apply Hall. by right.
Qed.

Section ISMFacts.

Variable sql_group_by_gene : list t_row → list t_row.

Lemma choose_ISM_gene_spec chrom positions s all_matches st gene kept st1 :
  choose_ISM_gene sql_group_by_gene chrom positions s all_matches st
  = inr ((Some gene, kept), st1) →
  st1 = st ∧ kept = filter (λ m, gene_ID m = gene) all_matches.
Proof.
  unfold choose_ISM_gene.
  set (gene_matches := elements (list_to_set (gene_ID <$> all_matches) : gset Z)).
  destruct (Z.ltb_spec 1 (Py.len gene_matches)) as [Hmany|Hone].
  - unfold bind, lift, gets, ret.
    destruct (Py.index positions 0) as [e|p0]; [done|].
    destruct (Py.index_back positions 0) as [e|pl]; [done|].
    destruct (search_for_overlap_with_gene _ _ _ _ _ _ _) as [e|[g ms]]; [done|].
    intros [= -> <- <-]. split; [done|].
    apply list_filter_iff. intros m. split; [by intros [= ->]|by intros ->].
  - unfold bind, lift, ret. destruct (Py.index all_matches 0) as [e|m0] eqn:E0; [done|].
    intros [= <- <- <-]. split; [done|]. symmetry. apply filter_all.
    intros m Hm.
    assert (Hm0 : m0 ∈ all_matches).
    { unfold Py.index in E0. destruct (all_matches !! 0%nat) eqn:El; [|done].
      injection E0 as ->. by eapply list_elem_of_lookup_2. }
    apply (short_list_elems gene_matches).
    + unfold Py.len in Hone. lia.
    + apply elem_of_elements, elem_of_list_to_set, list_elem_of_fmap. eauto.
    + apply elem_of_elements, elem_of_list_to_set, list_elem_of_fmap. eauto.
Qed.

End ISMFacts.

Section ISMLabels.

Variable sql_group_by_gene : list t_row → list t_row.

(** C5, as amended. A multi-exon read classified as ISM is given to one
    gene, and the matches kept are the superset matches of that gene (all of
    them when they come from a single gene). The new transcript records
    ISM_transcript=TRUE and ISM_to_IDs listing the kept matches; for every
    kept match whose junction path starts with the read's comma-joined
    interior edge path it also records ISM-prefix_transcript=TRUE and that
    match's ID in ISM-prefix_to_IDs, and likewise ISM-suffix for every kept
    match whose junction path ends with it. *)
Theorem process_ISM_labels chrom positions s edge_IDs vertex_IDs all_matches
    (gene_starts gene_ends : gmap Z (list (Z * Z))) ri st gene kept st1 :
  1 < Py.len positions `div` 2 →
  vertex_IDs ≠ [] →
  choose_ISM_gene sql_group_by_gene chrom positions s all_matches st
  = inr ((Some gene, kept), st1) →
  (∀ m, m ∈ kept → is_Some (jn_path m)) →
  let tid := Counter.increment (transcript_counter st) in
  let novelty :=
    ISM_novelty tid ri (ids_of kept)
                (ids_of (filter (path_is_prefix edge_IDs) kept))
                (ids_of (filter (path_is_suffix edge_IDs) kept)) in
  kept = filter (λ m, gene_ID m = gene) all_matches
  ∧ (∃ gene' info st',
       process_ISM sql_group_by_gene chrom positions s edge_IDs vertex_IDs all_matches
                   gene_starts gene_ends ri st
       = inr ((Some gene', Some tid, novelty, SeInfo info), st'))
  ∧ (tid, idprefix ri, "TALON", "ISM_transcript", "TRUE") ∈ novelty
  ∧ (tid, idprefix ri, "TALON", "ISM_to_IDs", Py.join "," (ids_of kept)) ∈ novelty
  ∧ (∀ m, m ∈ kept → path_is_prefix edge_IDs m →
          (tid, idprefix ri, "TALON", "ISM-prefix_transcript", "TRUE") ∈ novelty
          ∧ ∃ ids, (tid, idprefix ri, "TALON", "ISM-prefix_to_IDs", Py.join "," ids)
                   ∈ novelty
                   ∧ Py.str (transcript_ID m) ∈ ids)
  ∧ (∀ m, m ∈ kept → path_is_suffix edge_IDs m →
          (tid, idprefix ri, "TALON", "ISM-suffix_transcript", "TRUE") ∈ novelty
          ∧ ∃ ids, (tid, idprefix ri, "TALON", "ISM-suffix_to_IDs", Py.join "," ids)
                   ∈ novelty
                   ∧ Py.str (transcript_ID m) ∈ ids).
Proof.
  intros Hn Hv Hchoose Hpaths tid novelty.
  destruct (choose_ISM_gene_spec _ _ _ _ _ _ _ _ _ Hchoose) as [-> Hkept].
  assert (Hlen : (4 ≤ length positions)%nat).
  { unfold Py.len in Hn. 
    destruct (le_lt_dec 4 (length positions)); [done|].
    assert (Z.of_nat (length positions) `div` 2 < 2); [|lia].
    apply Z.div_lt_upper_bound; lia. }
  split; [done|]. split.
  - destruct (process_5p_total chrom positions s vertex_IDs (Some gene) gene_starts ri st
                ltac:(lia) Hv) as ([[[[sv se] sn] sk] sd] & st5 & H5 & Hk5).
    destruct (process_3p_total chrom positions s vertex_IDs (Some gene) gene_ends ri st5
                ltac:(lia) Hv) as ([[[[ev ee] en] ek] ed] & st3 & H3 & Hk3).
    destruct (characterize_ISMs_multi kept (Py.len positions `div` 2)
                ([se] ++ edge_IDs ++ [ee]) gene [] [] [] ltac:(lia) Hpaths)
      as (gene' & Hloop & _).
    rewrite interior_wrap in Hloop. simpl app in Hloop.
    destruct (index_total positions 0 ltac:(lia)) as [p0 Hp0].
    destruct (index_back_total positions 0 ltac:(lia)) as [pl Hpl].
    destruct (create_transcript_stores s chrom p0 pl gene' ([se] ++ edge_IDs ++ [ee])
                ([sv] ++ vertex_IDs ++ [ev]) st3 ltac:(done) ltac:(done))
      as (t & st' & Hc & Ht & _).
    exists gene'. eexists. exists st'.
    unfold process_ISM. unfold bind at 1. rewrite Hchoose.
    destruct (Z.ltb_spec 1 (Py.len positions `div` 2)) as [_|]; [|lia].
    unfold bind at 1. unfold bind at 1. rewrite H5.
    unfold bind at 1. rewrite H3. unfold ret at 1.
    unfold bind at 1, lift at 1. simpl app. rewrite Hloop.
    unfold bind at 1, lift at 1. rewrite Hp0.
    unfold bind at 1, lift at 1. rewrite Hpl.
    unfold bind at 1. rewrite Hc. unfold ret.
    rewrite Ht. destruct Hk3 as (_ & -> & _). destruct Hk5 as (_ & -> & _).
    reflexivity.
  - unfold novelty, ISM_novelty. split; [apply elem_of_cons; by left|].
    split; [apply elem_of_cons; right; apply elem_of_cons; by left|].
    split.
    + intros m Hm Hpre.
      assert (Hin : Py.str (transcript_ID m)
                    ∈ ids_of (filter (path_is_prefix edge_IDs) kept)).
      { apply list_elem_of_fmap. exists m. split; [done|]. by apply list_elem_of_filter. }
      rewrite decide_True by (intros Hnil; rewrite Hnil in Hin; by apply elem_of_nil in Hin).
      split.
      * do 2 (apply elem_of_cons; right). apply elem_of_app. left.
        apply elem_of_cons. by left.
      * eexists. split; [|exact Hin].
        do 2 (apply elem_of_cons; right). apply elem_of_app. left.
        apply elem_of_cons. right. apply elem_of_cons. by left.
    + intros m Hm Hsuf.
      assert (Hin : Py.str (transcript_ID m)
                    ∈ ids_of (filter (path_is_suffix edge_IDs) kept)).
      { apply list_elem_of_fmap. exists m. split; [done|]. by apply list_elem_of_filter. }
      rewrite (decide_True (P := ids_of (filter (path_is_suffix edge_IDs) kept) ≠ []))
        by (intros Hnil; rewrite Hnil in Hin; by apply elem_of_nil in Hin).
      split.
      * do 2 (apply elem_of_cons; right). apply elem_of_app. right.
        apply elem_of_cons. by left.
      * eexists. split; [|exact Hin].
        do 2 (apply elem_of_cons; right). apply elem_of_app. right.
        apply elem_of_cons. right. apply elem_of_cons. by left.
Qed.

End ISMLabels.

Lemma process_ISM_labels_witness :
  ∃ gene' info st',
    process_ISM first_per_gene "chr1" [100; 200; 300; 400] Plus [102] [2; 3]
                [gene1_transcript; gene2_transcript] ∅ ∅ cutoffs_50 two_genes
    = inr ((Some gene', Some 21,
            ISM_novelty 21 cutoffs_50 ["10"] ["10"] [], SeInfo info), st').
Proof.
  destruct (process_ISM_labels first_per_gene "chr1" [100; 200; 300; 400] Plus [102] [2; 3]
              [gene1_transcript; gene2_transcript] ∅ ∅ cutoffs_50 two_genes
              1 [gene1_transcript] two_genes) as (_ & H & _).
  - vm_compute. reflexivity.
  - done.
  - vm_compute. reflexivity.
  - intros m Hm. apply list_elem_of_singleton in Hm as ->. simpl. eauto.
  - exact H.
Defined.

Lemma ISM_to_IDs_omits_matches_of_other_genes :
  search_for_ISM [102] (transcript_dict two_genes)
  = Some [gene1_transcript; gene2_transcript]
  ∧ path_is_prefix [102] gene2_transcript
  ∧ ∃ info st',
      process_ISM first_per_gene "chr1" [100; 200; 300; 400] Plus [102] [2; 3]
                  [gene1_transcript; gene2_transcript] ∅ ∅ cutoffs_50 two_genes
      = inr ((Some 1, Some 21,
              [(21, "TALON", "TALON", "ISM_transcript", "TRUE");
               (21, "TALON", "TALON", "ISM_to_IDs", "10");
               (21, "TALON", "TALON", "ISM-prefix_transcript", "TRUE");
               (21, "TALON", "TALON", "ISM-prefix_to_IDs", "10")],
              SeInfo info), st').
Proof.
  split; [vm_compute; reflexivity|]. split; [exists "102,103,106"; done|].
  set (out := process_ISM first_per_gene "chr1" [100; 200; 300; 400] Plus [102] [2; 3]
                [gene1_transcript; gene2_transcript] ∅ ∅ cutoffs_50 two_genes).
  assert (Hout : match out with
                 | inr ((g, t, nov, SeInfo i), _) => Some (g, t, nov)
                 | _ => None
                 end
                 = Some (Some 1, Some 21,
                         [(21, "TALON", "TALON", "ISM_transcript", "TRUE");
                          (21, "TALON", "TALON", "ISM_to_IDs", "10");
                          (21, "TALON", "TALON", "ISM-prefix_transcript", "TRUE");
                          (21, "TALON", "TALON", "ISM-prefix_to_IDs", "10")]))
    by (vm_compute; reflexivity).
  destruct out as [e|[[[[g t] nov] [| |i]] st']]; try discriminate.
  injection Hout as -> -> ->. by exists i, st'.
Qed.


(** * Further properties *)


(** ** Signed distances and overlaps *)

(** X1. [compute_delta] is the displacement from [orig_pos] to [new_pos]
    read along the strand: [new_pos - orig_pos] on the plus strand and
    [orig_pos - new_pos] on the minus strand. Swapping the two positions, or
    the strand, changes its sign. *)
Theorem compute_delta_is_strand_displacement (orig_pos new_pos : Z) (s : strand) :
  compute_delta orig_pos new_pos Plus = new_pos - orig_pos
  ∧ compute_delta orig_pos new_pos Minus = orig_pos - new_pos
  ∧ compute_delta new_pos orig_pos s = - compute_delta orig_pos new_pos s
  ∧ compute_delta orig_pos new_pos (opposite s) = - compute_delta orig_pos new_pos s.
Proof.
  unfold compute_delta.
  destruct s; simpl;
    destruct (Z.ltb_spec new_pos orig_pos), (Z.ltb_spec orig_pos new_pos); lia.
Qed.

(** X2. The overlap reported by [get_overlap] is never negative and counts
    the positions the two inclusive intervals share: they are the [overlap]
    consecutive positions from the larger of the two starts. It does not
    depend on the order of the two intervals, and it is 0 as soon as one
    interval is given with its start after its end. The percentage is
    undefined exactly when the reference interval is a single position. *)
Theorem get_overlap_counts_shared_positions (a b : Z * Z) :
  let overlap := (get_overlap a b).1 in
  0 ≤ overlap
  ∧ (∀ p, a.1 ≤ p ≤ a.2 ∧ b.1 ≤ p ≤ b.2
          ↔ Z.max a.1 b.1 ≤ p < Z.max a.1 b.1 + overlap)
  ∧ (get_overlap b a).1 = overlap
  ∧ (a.2 < a.1 ∨ b.2 < b.1 → overlap = 0)
  ∧ ((get_overlap a b).2 = None ↔ b.1 = b.2).
Proof.
  destruct a as [a0 a1], b as [b0 b1]. unfold get_overlap. simpl.
  split; [lia|]. split; [intros p; lia|]. split; [lia|]. split; [lia|].
  case_decide; split; intros; try done; lia.
Qed.

(** ** The novelty checks on lists of flags *)

Lemma sum_flags_zero (l : list Z) :
  Forall (λ x, x = 0 ∨ x = 1) l → (Py.sum l >? 0) = false ↔ Forall (λ x, x = 0) l.
Proof.
  intros Hl. assert (H0 : 0 ≤ Py.sum l).
  { induction Hl as [|x l [-> | ->] _ IH]; simpl; lia. }
  induction Hl as [|x l Hx Hl IH]; simpl.
  - split; [constructor|]. intros _. by apply Z.gtb_ltb.
  - simpl in H0. assert (0 ≤ Py.sum l).
    { clear -Hl. induction Hl as [|y l [-> | ->] _ IH]; simpl; lia. }
    rewrite Forall_cons, <- IH by done.
    destruct (Z.gtb_spec (x + Py.sum l) 0), (Z.gtb_spec (Py.sum l) 0);
      destruct Hx as [-> | ->]; split; try done; try lia; intros [? ?]; lia || done.
Qed.

Lemma sum_flags_all (l : list Z) :
  Forall (λ x, x = 0 ∨ x = 1) l → Py.sum l = Py.len l ↔ Forall (λ x, x = 1) l.
Proof.
  unfold Py.len. intros Hl.
  assert (Hle : ∀ l, Forall (λ x, x = 0 ∨ x = 1) l → Py.sum l ≤ Z.of_nat (length l)).
  { clear. intros l Hl. induction Hl as [|x l [-> | ->] _ IH]; simpl; lia. }
  induction Hl as [|x l Hx Hl IH]; simpl.
  - split; [constructor|done].
  - rewrite Forall_cons, <- IH. specialize (Hle l Hl).
    destruct Hx as [-> | ->]; split; try lia; intros [? ?]; lia.
Qed.

Lemma evens_Forall {A} (P : A → Prop) (l : list A) :
  Forall P l → Forall P (Py.evens l) ∧ Forall P (Py.odds l).
Proof.
  unfold Py.odds. revert l.
  assert (H : ∀ n (l : list A), (length l ≤ n)%nat → Forall P l →
                Forall P (Py.evens l) ∧ Forall P (Py.evens (tail l))).
  { induction n as [|n IH]; intros l Hn Hl.
    - destruct l; [simpl; done|simpl in Hn; lia].
    - destruct l as [|x [|y l]]; simpl; [done|split; [done|constructor]|].
      inversion Hl as [|?? Hx Hl']; subst. inversion Hl' as [|?? Hy Hl'']; subst.
      destruct (IH l) as [He Ho]; [simpl in Hn; lia|done|].
      destruct (IH (y :: l)) as [He' _]; [simpl in *; lia|done|].
      split; [by constructor|done]. }
  intros l. apply (H (length l)). done.
Qed.

(** X3. On a novelty list of flags 0 and 1 that does not consist of a single
    entry, the three checks read the entries by position: the splice
    junctions are all known exactly when every entry at an even index is 0,
    the exons are all known exactly when every entry at an odd index is 0,
    and the exons are all novel exactly when every entry at an odd index is
    1. On the empty list all three hold. *)
Theorem novelty_checks_read_flags_by_position (novelty : list Z) :
  length novelty ≠ 1%nat →
  Forall (λ x, x = 0 ∨ x = 1) novelty →
  (check_all_SJs_known novelty = true ↔ Forall (λ x, x = 0) (Py.evens novelty))
  ∧ (check_all_exons_known novelty = true ↔ Forall (λ x, x = 0) (Py.odds novelty))
  ∧ (Py.truthy (check_all_exons_novel novelty) = true
     ↔ Forall (λ x, x = 1) (Py.odds novelty)).
Proof.
  intros Hlen Hflags. destruct (evens_Forall _ novelty Hflags) as [He Ho].
  pose proof (sum_flags_zero _ He) as HE. pose proof (sum_flags_zero _ Ho) as HO.
  pose proof (sum_flags_all _ Ho) as HA.
  assert (Hs : check_all_SJs_known novelty
               = if Py.sum (Py.evens novelty) >? 0 then false else true).
  { destruct novelty as [|? [|? ?]]; done. }
  assert (Hk : check_all_exons_known novelty
               = if Py.sum (Py.odds novelty) >? 0 then false else true).
  { destruct novelty as [|? [|? ?]]; done. }
  assert (Hn : check_all_exons_novel novelty
               = if negb (Py.sum (Py.odds novelty) =? Py.len (Py.odds novelty))
                 then Py.Bool false else Py.Bool true).
  { destruct novelty as [|? [|? ?]]; done. }
  rewrite Hs, Hk, Hn, <- HE, <- HO, <- HA. split_and!.
  - destruct (Py.sum (Py.evens novelty) >? 0); split; done.
  - destruct (Py.sum (Py.odds novelty) >? 0); split; done.
  - destruct (Z.eqb_spec (Py.sum (Py.odds novelty)) (Py.len (Py.odds novelty)));
      simpl; split; done.
Qed.

Lemma novelty_checks_read_flags_by_position_witness :
  (check_all_SJs_known [0; 1; 0] = true ↔ Forall (λ x, x = 0) (Py.evens [0; 1; 0]))
  ∧ (check_all_exons_known [0; 1; 0] = true ↔ Forall (λ x, x = 0) (Py.odds [0; 1; 0]))
  ∧ (Py.truthy (check_all_exons_novel [0; 1; 0]) = true
     ↔ Forall (λ x, x = 1) (Py.odds [0; 1; 0])).
Proof.
  apply (novelty_checks_read_flags_by_position [0; 1; 0]).
  - simpl. lia.
  - repeat constructor; lia.
Defined.



(** ** Vertices and edges: what is created is found again *)

Lemma bind_inr {A B} (m : M A) (k : A → M B) st a st' :
  m st = inr (a, st') → bind m k st = k a st'.
Proof. unfold bind. by intros ->. Qed.

Lemma bind_inl {A B} (m : M A) (k : A → M B) st e :
  m st = inl e → bind m k st = inl e.
Proof. unfold bind. by intros ->. Qed.

(** X4. [create_vertex] draws the next value of the vertex counter, and the
    new vertex is what [search_for_vertex_at_pos] returns for its chromosome
    and position from then on, in place of any vertex stored there before.
    The vertices at all other positions, the edges and the transcripts are
    untouched. *)
Theorem create_vertex_then_search chrom position ri st :
  ∃ v st',
    create_vertex chrom position ri st = inr (v, st')
    ∧ v = {| location_ID := Counter.increment (vertex_counter st);
             genome_build := build ri; v_chromosome := chrom; v_position := position |}
    ∧ vertex_counter st' = location_ID v
    ∧ search_for_vertex_at_pos chrom position (location_dict st') = Some v
    ∧ (∀ c p, (c, p) ≠ (chrom, position) →
         search_for_vertex_at_pos c p (location_dict st')
         = search_for_vertex_at_pos c p (location_dict st))
    ∧ edge_dict st' = edge_dict st
    ∧ edge_counter st' = edge_counter st
    ∧ keeps_transcripts st st'.
Proof.
  eexists _, _. split; [reflexivity|]. simpl. split; [done|]. split; [done|].
  unfold search_for_vertex_at_pos. split.
  { rewrite lookup_insert_eq. simpl.
    destruct (location_dict st !! chrom); by rewrite ?lookup_insert_eq, ?lookup_singleton_eq. }
  split; [|done].
  intros c p Hne. destruct (decide (c = chrom)) as [->|Hc].
  - rewrite lookup_insert_eq. simpl.
    assert (p ≠ position) by congruence.
    destruct (location_dict st !! chrom); simpl.
    + by rewrite lookup_insert_ne.
    + by rewrite lookup_singleton_ne.
  - by rewrite lookup_insert_ne.
Qed.

Lemma match_or_create_edge_cases v1 v2 et s st :
  (∃ e, search_for_edge v1 v2 et (edge_dict st) = Some e
        ∧ match_or_create_edge v1 v2 et s st = inr ((edge_ID e, 0), st))
  ∨ (search_for_edge v1 v2 et (edge_dict st) = None
     ∧ ∃ st', match_or_create_edge v1 v2 et s st
              = inr ((Counter.increment (edge_counter st), 1), st')
       ∧ edge_dict st'
         = <[(v1, v2, et) := {| edge_ID := Counter.increment (edge_counter st);
                                v1 := v1; v2 := v2; e_type := et; e_strand := s |}]>
             (edge_dict st)
       ∧ location_dict st' = location_dict st
       ∧ vertex_counter st' = vertex_counter st
       ∧ keeps_transcripts st st').
Proof.
  unfold match_or_create_edge, bind, gets, ret, create_edge.
  destruct (search_for_edge v1 v2 et (edge_dict st)) as [e|] eqn:E; simpl.
  - left. eauto.
  - right. split; [done|]. eexists. split; [reflexivity|]. done.
Qed.

Lemma match_or_create_edge_known v1 v2 et s st e :
  edge_dict st !! (v1, v2, et) = Some e →
  match_or_create_edge v1 v2 et s st = inr ((edge_ID e, 0), st).
Proof.
  intros H. unfold match_or_create_edge, bind, gets, ret, search_for_edge. by rewrite H.
Qed.

(** X5. [match_or_create_edge] always returns an edge ID with novelty 0 or
    1. The novelty is 0 exactly when an edge is stored under
    [(vertex_1, vertex_2, edge_type)], and then nothing changes; otherwise
    the edge gets the next value of the edge counter. Asked again, for either
    strand, it returns the same ID with novelty 0 and changes nothing: edges
    are looked up without their strand. *)
Theorem match_or_create_edge_is_idempotent v1 v2 et s st :
  ∃ id nov st',
    match_or_create_edge v1 v2 et s st = inr ((id, nov), st')
    ∧ (nov = 0 ∨ nov = 1)
    ∧ (nov = 0 ↔ is_Some (search_for_edge v1 v2 et (edge_dict st)))
    ∧ (nov = 0 → st' = st)
    ∧ (nov = 1 → id = Counter.increment (edge_counter st))
    ∧ ∀ s', match_or_create_edge v1 v2 et s' st' = inr ((id, 0), st').
Proof.
  destruct (match_or_create_edge_cases v1 v2 et s st)
    as [(e & He & Hrun)|(Hnone & st' & Hrun & Hdict & _)].
  - exists (edge_ID e), 0, st. split; [done|]. split; [by left|].
    split; [by rewrite He|]. split; [done|]. split; [done|].
    intros s'. by apply match_or_create_edge_known.
  - eexists _, 1, st'. split; [done|]. split; [by right|].
    split; [rewrite Hnone; split; [done|by intros [? ?]]|].
    split; [done|]. split; [done|].
    intros s'.
    assert (Hin : edge_dict st' !! (v1, v2, et)
                  = Some {| edge_ID := Counter.increment (edge_counter st);
                            v1 := v1; v2 := v2; e_type := et; e_strand := s |}).
    { rewrite Hdict. by rewrite lookup_insert_eq. }
    exact (match_or_create_edge_known v1 v2 et s' st' _ Hin).
Qed.

Lemma match_edges_from_rerun vertices s : ∀ et st,
  ∃ ids nov st',
    match_edges_from vertices et s st = inr ((ids, nov), st')
    ∧ edge_dict st ⊆ edge_dict st'
    ∧ location_dict st' = location_dict st
    ∧ vertex_counter st' = vertex_counter st
    ∧ keeps_transcripts st st'
    ∧ length ids = pred (length vertices)
    ∧ length nov = length ids
    ∧ Forall (λ x, x = 0 ∨ x = 1) nov
    ∧ ∀ st2 s', edge_dict st' ⊆ edge_dict st2 →
        match_edges_from vertices et s' st2
        = inr ((ids, replicate (length ids) 0), st2).
Proof.
  induction vertices as [|a vs IH]; intros et st.
  { exists [], [], st. simpl. unfold ret. split_and!; try done. }
  destruct vs as [|b vs].
  { exists [], [], st. simpl. unfold ret. split_and!; try done. }
  destruct (match_or_create_edge_cases a b et s st)
    as [(e & He & Hrun)|(Hnone & st1 & Hrun & Hdict & Hloc & Hvc & Hkeep)].
  - destruct (IH (flip_edge_type et) st)
      as (ids & nov & st' & Hrest & Hsub & Hl & Hv & Hk & Hlen & Hlen' & Hflags & Hre).
    exists (edge_ID e :: ids), (0 :: nov), st'.
    split. { cbn [match_edges_from]. rewrite (bind_inr _ _ _ _ _ Hrun). cbn beta iota.
             rewrite (bind_inr _ _ _ _ _ Hrest). done. }
    split_and!; try done.
    + simpl in *. lia.
    + simpl. lia.
    + constructor; [by left|done].
    + intros st2 s' Hsub2. cbn [match_edges_from].
      assert (Hin : edge_dict st2 !! (a, b, et) = Some e).
      { eapply lookup_weaken; [|exact Hsub2]. eapply lookup_weaken; [exact He|done]. }
      rewrite (bind_inr _ _ _ _ _ (match_or_create_edge_known a b et s' st2 _ Hin)).
      cbn beta iota. rewrite (bind_inr _ _ _ _ _ (Hre st2 s' Hsub2)). done.
  - destruct (IH (flip_edge_type et) st1)
      as (ids & nov & st' & Hrest & Hsub & Hl & Hv & Hk & Hlen & Hlen' & Hflags & Hre).
    exists (Counter.increment (edge_counter st) :: ids), (1 :: nov), st'.
    split. { cbn [match_edges_from]. rewrite (bind_inr _ _ _ _ _ Hrun). cbn beta iota.
             rewrite (bind_inr _ _ _ _ _ Hrest). done. }
    assert (Hsub1 : edge_dict st ⊆ edge_dict st1).
    { rewrite Hdict. by apply insert_subseteq. }
    split_and!; try congruence.
    + by etrans.
    + by eapply keeps_transcripts_trans.
    + simpl in *. lia.
    + simpl. lia.
    + constructor; [by right|done].
    + intros st2 s' Hsub2. cbn [match_edges_from].
      assert (Hin : edge_dict st2 !! (a, b, et)
                    = Some {| edge_ID := Counter.increment (edge_counter st);
                              v1 := a; v2 := b; e_type := et; e_strand := s |}).
      { eapply lookup_weaken; [|exact Hsub2]. eapply lookup_weaken; [|exact Hsub].
        rewrite Hdict. by rewrite lookup_insert_eq. }
      rewrite (bind_inr _ _ _ _ _ (match_or_create_edge_known a b et s' st2 _ Hin)).
      cbn beta iota. rewrite (bind_inr _ _ _ _ _ (Hre st2 s' Hsub2)). done.
Qed.

(** X6. [match_all_splice_edges] returns one edge ID and one novelty flag
    for each pair of consecutive vertices, creating the edges that are
    missing and nothing else: no stored edge is lost or changed, and
    vertices and transcripts are untouched. Run again on the same vertices,
    for either strand and after any further additions to the edge dict, it
    returns the same IDs with every flag 0 and changes nothing. *)
Theorem match_all_splice_edges_rerun_is_known vertices s st :
  ∃ ids nov st',
    match_all_splice_edges vertices s st = inr ((ids, nov), st')
    ∧ edge_dict st ⊆ edge_dict st'
    ∧ location_dict st' = location_dict st
    ∧ keeps_transcripts st st'
    ∧ length ids = pred (length vertices)
    ∧ length nov = length ids
    ∧ Forall (λ x, x = 0 ∨ x = 1) nov
    ∧ ∀ st2 s', edge_dict st' ⊆ edge_dict st2 →
        match_all_splice_edges vertices s' st2
        = inr ((ids, replicate (length ids) 0), st2).
Proof.
  unfold match_all_splice_edges.
  destruct (match_edges_from_rerun vertices s Intron st)
    as (ids & nov & st' & H1 & H2 & H3 & _ & H4 & H5 & H6 & H7 & H8).
  exists ids, nov, st'. done.
Qed.



Lemma vertices_kept_refl l : vertices_kept l l.
Proof. by intros c p v. Qed.

Lemma vertices_kept_trans l1 l2 l3 :
  vertices_kept l1 l2 → vertices_kept l2 l3 → vertices_kept l1 l3.
Proof. intros H1 H2 c p v H. by apply H2, H1. Qed.

Lemma match_vertices_at_known chrom ri positions : ∀ ids st,
  Forall2 (vertex_at chrom (location_dict st)) positions ids →
  match_vertices_at chrom positions ri st
  = inr ((ids, replicate (length ids) 0), st).
Proof.
  induction positions as [|p ps IH]; intros ids st H.
  - inversion H; subst. done.
  - inversion H as [|? id ? ids' (v & Hv & Hid) Hrest]; subst.
    cbn [match_vertices_at]. unfold bind at 1, gets. cbn beta iota.
    rewrite Hv. unfold bind at 1, ret at 1. cbn beta iota.
    rewrite (bind_inr _ _ _ _ _ (IH ids' st Hrest)). done.
Qed.

Lemma match_vertices_at_rerun chrom ri positions : ∀ st,
  ∃ ids nov st',
    match_vertices_at chrom positions ri st = inr ((ids, nov), st')
    ∧ vertices_kept (location_dict st) (location_dict st')
    ∧ edge_dict st' = edge_dict st
    ∧ edge_counter st' = edge_counter st
    ∧ keeps_transcripts st st'
    ∧ length nov = length ids
    ∧ Forall (λ x, x = 0 ∨ x = 1) nov
    ∧ Forall2 (vertex_at chrom (location_dict st')) positions ids.
Proof.
  induction positions as [|p ps IH]; intros st.
  { exists [], [], st. split_and!; try done. apply vertices_kept_refl. }
  cbn [match_vertices_at]. unfold bind at 1, gets. cbn beta iota.
  destruct (search_for_vertex_at_pos chrom p (location_dict st)) as [v|] eqn:Hv.
  - unfold bind at 1, ret at 1. cbn beta iota.
    destruct (IH st) as (ids & nov & st' & Hrun & Hkept & He & Hec & Hk & Hlen & Hfl & Hall).
    rewrite (bind_inr _ _ _ _ _ Hrun). cbn beta iota.
    exists (location_ID v :: ids), (0 :: nov), st'. split; [done|].
    split_and!; try done.
    + simpl. lia.
    + constructor; [by left|done].
    + constructor; [|done]. exists v. split; [by apply Hkept|done].
  - destruct (create_vertex_then_search chrom p ri st)
      as (v & st1 & Hc & Hveq & Hvc & Hfound & Hframe & He1 & Hec1 & Hk1).
    destruct (IH st1) as (ids & nov & st' & Hrun & Hkept & He & Hec & Hk & Hlen & Hfl & Hall).
    unfold bind at 1. unfold bind at 1. rewrite Hc. unfold ret at 1. cbn beta iota.
    rewrite (bind_inr _ _ _ _ _ Hrun). cbn beta iota.
    exists (location_ID v :: ids), (1 :: nov), st'. split; [done|].
    split_and!; try congruence.
    + intros c q w Hw. apply Hkept. rewrite Hframe; [done|].
      intros [= -> ->]. congruence.
    + by eapply keeps_transcripts_trans.
    + simpl. lia.
    + constructor; [by right|done].
    + constructor; [|done]. exists v. split; [by apply Hkept|done].
Qed.

Lemma length_interior {A} (l : list A) : length (Py.interior l) = (length l - 2)%nat.
Proof.
  unfold Py.interior. destruct l as [|a l]; [done|]. simpl.
  destruct l as [|b l] using rev_ind; [done|].
  rewrite removelast_last, length_app. simpl. lia.
Qed.

(** X7. [match_splice_vertices] returns one vertex ID and one novelty flag
    for each position strictly between the two ends of the read (none for a
    read of two positions or fewer), creating a vertex where none is stored
    and nothing else: afterwards each of those positions holds the vertex
    whose ID was returned, no stored vertex is lost, and edges and
    transcripts are untouched. Run again, for either strand and after any
    further additions, it returns the same IDs with every flag 0 and changes
    nothing. *)
Theorem match_splice_vertices_rerun_is_known chrom positions s ri st :
  ∃ ids nov st',
    match_splice_vertices chrom positions s ri st = inr ((ids, nov), st')
    ∧ length ids = (length positions - 2)%nat
    ∧ length nov = length ids
    ∧ Forall (λ x, x = 0 ∨ x = 1) nov
    ∧ Forall2 (vertex_at chrom (location_dict st')) (Py.interior positions) ids
    ∧ vertices_kept (location_dict st) (location_dict st')
    ∧ edge_dict st' = edge_dict st
    ∧ keeps_transcripts st st'
    ∧ ∀ st2 s', vertices_kept (location_dict st') (location_dict st2) →
        match_splice_vertices chrom positions s' ri st2
        = inr ((ids, replicate (length ids) 0), st2).
Proof.
  unfold match_splice_vertices.
  destruct (match_vertices_at_rerun chrom ri (Py.interior positions) st)
    as (ids & nov & st' & Hrun & Hkept & He & _ & Hk & Hlen & Hfl & Hall).
  exists ids, nov, st'. split; [done|]. split_and!; try done.
  - rewrite <- (Forall2_length _ _ _ Hall). apply length_interior.
  - intros st2 s' Hkept2. apply match_vertices_at_known.
    eapply Forall2_impl; [exact Hall|].
    intros p id (v & Hv & Hid). exists v. split; [by apply Hkept2|done].
Qed.

Lemma alist_lookup_insert_ne {K V} `{EqDecision K} (k k' : K) (v : V) l :
  k' ≠ k → alist_lookup k' (alist_insert k v l) = alist_lookup k' l.
Proof.
  intros Hne. induction l as [|[k0 v0] l IH]; simpl.
  - by rewrite decide_False.
  - destruct (decide (k0 = k)) as [->|Hk0]; simpl.
    + by rewrite !decide_False.
    + destruct (decide (k0 = k')); done.
Qed.

Lemma alist_insert_keys {K V} `{EqDecision K} (k : K) (v : V) l :
  (alist_insert k v l).*1 = if decide (k ∈ l.*1) then l.*1 else l.*1 ++ [k].
Proof.
  induction l as [|[k0 v0] l IH].
  - cbn [alist_insert fmap list_fmap fst]. rewrite decide_False; [done|]. apply not_elem_of_nil.
  - cbn [alist_insert]. destruct (decide (k0 = k)) as [->|Hk0].
    + rewrite !fmap_cons. cbn [fst]. rewrite decide_True; [done|]. left.
    + rewrite !fmap_cons. cbn [fst]. rewrite IH. destruct (decide (k ∈ l.*1)) as [Hin|Hnin].
      * rewrite decide_True; [done|]. by right.
      * rewrite decide_False; [done|]. rewrite elem_of_cons. intros [-> | ?]; done.
Qed.

(** X8. With at least one edge and one vertex, [create_transcript] mints
    the next value of the transcript counter and stores the transcript
    under the set of its edge IDs: [search_for_transcript] then returns it,
    with its gene, for that set, whatever was stored under it before, and
    answers as before for every other set. The keys of the dict keep their
    order, a new key going last. The temporary table gets one more row, with
    the two ends in increasing order. Without an edge or without a vertex
    the call fails with [IndexError]. *)
Theorem create_transcript_then_search s chrom sp ep gene edge_IDs vertex_IDs st :
  (edge_IDs ≠ [] → vertex_IDs ≠ [] →
   ∃ t st',
     create_transcript s chrom sp ep gene edge_IDs vertex_IDs st = inr (t, st')
     ∧ transcript_ID t = Counter.increment (transcript_counter st)
     ∧ n_exons t = (Py.len edge_IDs + 1) `div` 2
     ∧ search_for_transcript (frozenset edge_IDs) (transcript_dict st')
       = (Some gene, Some t)
     ∧ (∀ key, key ≠ frozenset edge_IDs →
          search_for_transcript key (transcript_dict st')
          = search_for_transcript key (transcript_dict st))
     ∧ (transcript_dict st').*1
       = (if decide (frozenset edge_IDs ∈ (transcript_dict st).*1)
          then (transcript_dict st).*1
          else (transcript_dict st).*1 ++ [frozenset edge_IDs])
     ∧ tmp_t st'
       = tmp_t st ++ [{| r_gene_ID := gene; r_transcript_ID := transcript_ID t;
                         r_chromosome := chrom; r_strand := s;
                         min_pos := Z.min sp ep; max_pos := Z.max sp ep |}]
     ∧ location_dict st' = location_dict st
     ∧ edge_dict st' = edge_dict st)
  ∧ (edge_IDs = [] ∨ vertex_IDs = [] →
     create_transcript s chrom sp ep gene edge_IDs vertex_IDs st = inl IndexError).
Proof.
  split.
  - intros He Hv.
    destruct (index_total edge_IDs 0) as [e0 He0]; [destruct edge_IDs; [done|simpl; lia]|].
    destruct (index_back_total edge_IDs 0) as [el Hel]; [destruct edge_IDs; [done|simpl; lia]|].
    destruct (index_total vertex_IDs 0) as [v0 Hv0]; [destruct vertex_IDs; [done|simpl; lia]|].
    destruct (index_back_total vertex_IDs 0) as [vl Hvl]; [destruct vertex_IDs; [done|simpl; lia]|].
    unfold create_transcript, bind, lift. rewrite He0, Hel, Hv0, Hvl. simpl.
    eexists _, _. split; [reflexivity|]. simpl. split; [done|]. split; [done|].
    unfold search_for_transcript. split; [by rewrite alist_lookup_insert_eq|].
    split; [intros key Hne; by rewrite alist_lookup_insert_ne|].
    split; [apply alist_insert_keys|]. done.
  - intros [-> | ->].
    + done.
    + destruct edge_IDs as [|e0 es]; [done|].
      destruct (index_back_total (e0 :: es) 0) as [el Hel]; [simpl; lia|].
      unfold create_transcript, bind, lift. rewrite Hel. done.
Qed.

Lemma create_transcript_then_search_witness :
  ∃ t st',
    create_transcript Plus "chr1" 100 400 1 [101; 102; 105] [1; 2; 3; 6] two_isoforms
    = inr (t, st')
    ∧ transcript_ID t = 1003
    ∧ search_for_transcript (frozenset [101; 102; 105]) (transcript_dict st')
      = (Some 1, Some t).
Proof.
  destruct (create_transcript_then_search Plus "chr1" 100 400 1 [101; 102; 105]
              [1; 2; 3; 6] two_isoforms) as [H _].
  destruct (H ltac:(done) ltac:(done)) as (t & st' & Hrun & Hid & _ & Hs & _).
  exists t, st'. split; [exact Hrun|]. split; [rewrite Hid; vm_compute; reflexivity|exact Hs].
Defined.



(** ** The nearest match *)

(** X9. [get_best_match] fails with [TypeError] exactly when no match is
    closer than [sys.maxsize], in particular on the empty list. Otherwise it
    returns the match whose two ends are nearest to the read's,
    [|max_pos - max_end| + |min_pos - min_end|] being least, and among
    equally near matches the first of the list. *)
Theorem get_best_match_is_first_nearest matches min_end max_end :
  (get_best_match matches min_end max_end = inl TypeError
   ↔ ∀ m, m ∈ matches → sys_maxsize ≤ end_distance m min_end max_end)
  ∧ ∀ best, get_best_match matches min_end max_end = inr best →
      ∃ l1 l2,
        matches = l1 ++ best :: l2
        ∧ (∀ x, x ∈ l1 →
             end_distance best min_end max_end < end_distance x min_end max_end)
        ∧ (∀ x, x ∈ l2 →
             end_distance best min_end max_end ≤ end_distance x min_end max_end).
Proof.
  unfold get_best_match.
  destruct (decide (Exists (λ x, end_distance x min_end max_end < sys_maxsize) matches))
    as [Hex|Hn].
  - destruct (first_nearest_exists _ _ _ _ Hex) as (l1 & b & l2 & -> & Hlt & H1 & H2).
    rewrite (best_match_loop_first_min l1 b l2 min_end max_end sys_maxsize None Hlt H1 H2).
    split.
    + split; [done|]. intros Hall. specialize (Hall b). rewrite elem_of_app, elem_of_cons in Hall.
      specialize (Hall ltac:(auto)). lia.
    + intros best [= <-]. eauto.
  - assert (Hall : ∀ m, m ∈ matches → sys_maxsize ≤ end_distance m min_end max_end).
    { intros m Hm. destruct (Z.le_gt_cases sys_maxsize (end_distance m min_end max_end))
        as [|Hlt]; [done|]. exfalso. apply Hn, Exists_exists. eauto. }
    rewrite best_match_loop_keep by done. split; [done|]. intros best [=].
Qed.

(** ** Ends known for the gene come first *)

Lemma closest_gene_loc_spec locs position s w_start w_end keys : ∀ mad bd cv,
  (closest_gene_loc keys locs position s w_start w_end mad bd cv = (mad, bd, cv)
   ∧ ∀ k, k ∈ keys → w_start ≤ k ≤ w_end → mad ≤ Z.abs (k - position))
  ∨ ∃ k1 k k2,
      keys = k1 ++ k :: k2
      ∧ w_start ≤ k ≤ w_end
      ∧ Z.abs (k - position) < mad
      ∧ (∀ x, x ∈ k1 → w_start ≤ x ≤ w_end →
              Z.abs (k - position) < Z.abs (x - position))
      ∧ (∀ x, x ∈ k2 → w_start ≤ x ≤ w_end →
              Z.abs (k - position) ≤ Z.abs (x - position))
      ∧ closest_gene_loc keys locs position s w_start w_end mad bd cv
        = (Z.abs (k - position), Some (compute_delta k position s), alist_lookup k locs).
Proof.
  induction keys as [|x rest IH]; intros mad bd cv.
  { left. split; [done|]. by intros k ?%elem_of_nil. }
  cbn [closest_gene_loc]. case_bool_decide as Hout.
  - destruct (IH mad bd cv) as [[Hrun Hfar]|(k1 & k & k2 & -> & Hw & Hlt & H1 & H2 & Hrun)].
    + left. split; [done|]. intros k Hk Hkw.
      apply elem_of_cons in Hk as [->|Hk]; [lia|by apply Hfar].
    + right. exists (x :: k1), k, k2. split; [done|]. split; [done|]. split; [done|].
      split; [|done]. intros y Hy Hyw. apply elem_of_cons in Hy as [->|Hy]; [lia|by apply H1].
  - rewrite compute_delta_abs.
    destruct (Z.ltb_spec (Z.abs (x - position)) mad) as [Hlt|Hge].
    + destruct (IH (Z.abs (x - position)) (Some (compute_delta x position s))
                  (alist_lookup x locs))
        as [[Hrun Hfar]|(k1 & k & k2 & -> & Hw & Hlt' & H1 & H2 & Hrun)].
      * right. exists [], x, rest. split; [done|]. split; [lia|]. split; [done|].
        split; [by intros ? ?%elem_of_nil|]. split; [done|]. done.
      * right. exists (x :: k1), k, k2. split; [done|]. split; [done|]. split; [lia|].
        split; [|done]. intros y Hy Hyw.
        apply elem_of_cons in Hy as [->|Hy]; [lia|by apply H1].
    + destruct (IH mad bd cv) as [[Hrun Hfar]|(k1 & k & k2 & -> & Hw & Hlt & H1 & H2 & Hrun)].
      * left. split; [done|]. intros k Hk Hkw.
        apply elem_of_cons in Hk as [->|Hk]; [lia|by apply Hfar].
      * right. exists (x :: k1), k, k2. split; [done|]. split; [done|]. split; [done|].
        split; [|done]. intros y Hy Hyw. apply elem_of_cons in Hy as [->|Hy]; [lia|by apply H1].
Qed.

Lemma alist_lookup_key {K V} `{EqDecision K} (k : K) (l : list (K * V)) :
  k ∈ l.*1 → ∃ v, alist_lookup k l = Some v ∧ (k, v) ∈ l.
Proof.
  induction l as [|[k0 v0] l IH]; [by intros ?%elem_of_nil|].
  rewrite fmap_cons. cbn [fst alist_lookup]. intros Hin.
  destruct (decide (k0 = k)) as [->|Hne].
  - exists v0. split; [done|left].
  - apply elem_of_cons in Hin as [->|Hin]; [done|].
    destruct (IH Hin) as (v & Hv & Hel). exists v. split; [done|by right].
Qed.

(** X10. When no vertex sits at the end position itself and the gene has
    known ends on file, [permissive_match_with_gene_priority] looks at those
    first. A known end is accepted when it lies in the search window, the
    window's bounds included, at most the cutoff away, the cutoff itself
    included. If the gene has such an end, the nearest one is returned with
    its vertex, its signed distance and the flag 1, the first on file winning
    at equal distance; vertices of other genes are not looked at. If it has
    none, the result is that of [permissive_vertex_search] with the flag 0. *)
Theorem gene_priority_takes_nearest_known_end chrom position s sj_pos pt g
    (gene_locs : gmap Z (list (Z * Z))) locs
    (locations : gmap string (gmap Z vertex)) ri :
  search_for_vertex_at_pos chrom position locations = None →
  gene_locs !! g = Some locs →
  let max_dist := max_dist_of pt ri in
  let w := search_window position s sj_pos pt max_dist in
  ((∀ loc, loc ∈ locs.*1 → ¬ gene_loc_in_reach position w.1.2 w.2 max_dist loc)
   ∧ permissive_match_with_gene_priority chrom position s sj_pos pt (Some g)
       gene_locs locations ri
     = (let '(m, dist) :=
          permissive_vertex_search chrom position s sj_pos pt locations ri in
        (m, dist, 0)))
  ∨ ∃ l1 loc l2 vid,
      locs.*1 = l1 ++ loc :: l2
      ∧ gene_loc_in_reach position w.1.2 w.2 max_dist loc
      ∧ (∀ x, x ∈ l1 → w.1.2 ≤ x ≤ w.2 →
              Z.abs (loc - position) < Z.abs (x - position))
      ∧ (∀ x, x ∈ l2 → w.1.2 ≤ x ≤ w.2 →
              Z.abs (loc - position) ≤ Z.abs (x - position))
      ∧ alist_lookup loc locs = Some vid
      ∧ (loc, vid) ∈ locs
      ∧ permissive_match_with_gene_priority chrom position s sj_pos pt (Some g)
          gene_locs locations ri
        = (Some vid, Some (compute_delta loc position s), 1).
Proof.
  intros Hexact Hg max_dist w.
  unfold permissive_match_with_gene_priority. rewrite Hexact. simpl mbind. rewrite Hg.
  fold max_dist. fold w. destruct w as [[dir w_start] w_end] eqn:Ew. simpl.
  destruct (closest_gene_loc_spec locs position s w_start w_end (locs.*1)
              (max_dist + 1) None None)
    as [[Hrun Hfar]|(k1 & k & k2 & Hkeys & Hw & Hlt & H1 & H2 & Hrun)].
  - left. split.
    + intros loc Hloc [Hin Hd]. specialize (Hfar loc Hloc Hin). lia.
    + rewrite Hrun. destruct (Z.leb_spec (max_dist + 1) max_dist); [lia|done].
  - right. destruct (alist_lookup_key k locs) as (vid & Hvid & Hel).
    { rewrite Hkeys, elem_of_app, elem_of_cons. auto. }
    exists k1, k, k2, vid. split; [done|]. split; [split; [done|lia]|].
    split; [done|]. split; [done|]. split; [done|]. split; [done|].
    rewrite Hrun. destruct (Z.leb_spec (Z.abs (k - position)) max_dist); [|lia].
    by rewrite Hvid.
Qed.

Lemma gene_priority_takes_nearest_known_end_witness :
  permissive_match_with_gene_priority "chr1" 100 Plus 1000 Start (Some 1)
    start_at_150 ∅ cutoffs_50
  = (Some 7, Some (-50), 1).
Proof.
  assert (H1 : search_for_vertex_at_pos "chr1" 100 (∅ : gmap string (gmap Z vertex)) = None)
    by (vm_compute; reflexivity).
  assert (H2 : start_at_150 !! 1 = Some [(150, 7)]) by (vm_compute; reflexivity).
  destruct (gene_priority_takes_nearest_known_end "chr1" 100 Plus 1000 Start 1
              start_at_150 [(150, 7)] ∅ cutoffs_50 H1 H2)
    as [[Hnone _]|(l1 & loc & l2 & vid & _ & _ & _ & _ & _ & _ & _)].
  - exfalso. apply (Hnone 150); [left|]. vm_compute. split; [split|]; discriminate.
  - vm_compute. reflexivity.
Defined.



(** ** Genes from vertices: the remaining cases, and the order of the sets *)

Lemma find_gene_match_none vertex_IDs s (v2g : gmap Z (list (Z * strand))) :
  genes_hit vertex_IDs s v2g = ∅ →
  find_gene_match_on_vertex_basis vertex_IDs s v2g = (NoGene, false).
Proof.
  intros Hhit. unfold find_gene_match_on_vertex_basis.
  pose proof (collect_gene_matches_genes vertex_IDs s v2g) as Hg.
  destruct (collect_gene_matches vertex_IDs s v2g) as [gm ngm]. simpl in Hg.
  unfold genes_hit in Hhit. rewrite <- Hg in Hhit.
  destruct gm as [|x gm]; [done|].
  exfalso. assert (x ∈ (∅ : gset Z)); [|set_solver].
  rewrite <- Hhit. apply elem_of_list_to_set. left.
Qed.

Lemma find_gene_match_single vertex_IDs s (v2g : gmap Z (list (Z * strand))) g :
  genes_hit vertex_IDs s v2g = {[g]} →
  find_gene_match_on_vertex_basis vertex_IDs s v2g = (OneGene g, false).
Proof.
  intros Hhit. unfold find_gene_match_on_vertex_basis.
  pose proof (collect_gene_matches_genes vertex_IDs s v2g) as Hg.
  destruct (collect_gene_matches vertex_IDs s v2g) as [gm ngm]. simpl in Hg.
  unfold genes_hit in Hhit. rewrite <- Hg in Hhit.
  assert (Hne : length gm ≠ 0%nat).
  { destruct gm; [|done]. exfalso. assert (g ∈ (∅ : gset Z)); [|set_solver].
    change (∅ : gset Z) with (list_to_set (@nil Z) : gset Z). rewrite Hhit. set_solver. }
  assert (Hlen : length (gene_tally gm) = 1%nat).
  { rewrite gene_tally_length, Hhit. apply size_singleton. }
  rewrite decide_False by done.
  rewrite decide_False by (intros [_ ?]; lia).
  rewrite decide_False by lia.
  unfold gene_tally. rewrite Hhit, elements_singleton. done.
Qed.

(** X11. When no vertex of the read is used by a gene of the read's strand,
    [find_gene_match_on_vertex_basis] returns no gene and no fusion flag;
    when the vertices used by such genes all belong to one and the same
    gene, it returns that gene, however few of the vertices it uses. *)
Theorem find_gene_match_none_or_single vertex_IDs s (v2g : gmap Z (list (Z * strand))) :
  (genes_hit vertex_IDs s v2g = ∅ →
   find_gene_match_on_vertex_basis vertex_IDs s v2g = (NoGene, false))
  ∧ (∀ g, genes_hit vertex_IDs s v2g = {[g]} →
          find_gene_match_on_vertex_basis vertex_IDs s v2g = (OneGene g, false)).
Proof.
  split; [apply find_gene_match_none|]. intros g. apply find_gene_match_single.
Qed.

Lemma collect_gene_matches_same_pairs vertex_IDs s d d' :
  same_pairs d d' →
  (collect_gene_matches vertex_IDs s d).1 ≡ₚ (collect_gene_matches vertex_IDs s d').1
  ∧ (collect_gene_matches vertex_IDs s d).2 = (collect_gene_matches vertex_IDs s d').2.
Proof.
  intros Hsame. induction vertex_IDs as [|v l [IH1 IH2]]; [done|].
  simpl. destruct (collect_gene_matches l s d) as [gm ngm].
  destruct (collect_gene_matches l s d') as [gm' ngm']. simpl in IH1, IH2.
  specialize (Hsame v). destruct (d !! v) as [ms|], (d' !! v) as [ms'|]; try done.
  simpl. unfold strand_matches. split.
  - apply Permutation_app; [|done]. apply fmap_Permutation. by rewrite Hsame.
  - f_equal; [|done]. by rewrite Hsame.
Qed.

(** X12. The answer of [find_gene_match_on_vertex_basis] does not depend on
    the order in which the set of genes of a vertex is listed: the fusion
    flag and the gene are the same, and a list of candidate genes holds the
    same genes. *)
Theorem find_gene_match_ignores_listing_order vertex_IDs s
    (d d' : gmap Z (list (Z * strand))) :
  same_pairs d d' →
  (find_gene_match_on_vertex_basis vertex_IDs s d).2
  = (find_gene_match_on_vertex_basis vertex_IDs s d').2
  ∧ match (find_gene_match_on_vertex_basis vertex_IDs s d).1,
          (find_gene_match_on_vertex_basis vertex_IDs s d').1 with
    | GeneCandidates genes, GeneCandidates genes' => genes ≡ₚ genes'
    | NoGene, NoGene => True
    | OneGene g, OneGene g' => g = g'
    | _, _ => False
    end.
Proof.
  intros Hsame. unfold find_gene_match_on_vertex_basis.
  destruct (collect_gene_matches_same_pairs vertex_IDs s d d' Hsame) as [Hp Hn].
  destruct (collect_gene_matches vertex_IDs s d) as [gm ngm].
  destruct (collect_gene_matches vertex_IDs s d') as [gm' ngm']. simpl in Hp, Hn. subst ngm'.
  assert (Hkeys : (gene_tally gm).*1 ≡ₚ (gene_tally gm').*1).
  { unfold gene_tally. rewrite <- !list_fmap_compose.
    by rewrite (list_to_set_perm_L gm gm' Hp). }
  assert (Hlen : length (gene_tally gm) = length (gene_tally gm')).
  { rewrite <- (length_fmap fst (gene_tally gm)), <- (length_fmap fst (gene_tally gm')).
    by apply Permutation_length. }
  assert (Hone : length (gene_tally gm) = 1%nat →
                 max_by_count (gene_tally gm) None = max_by_count (gene_tally gm') None).
  { intros H1. rewrite H1 in Hlen.
    destruct (gene_tally gm) as [|[g n] [|? ?]] eqn:E; try done.
    destruct (gene_tally gm') as [|[g' n'] [|? ?]] eqn:E'; try done.
    simpl in Hkeys. apply Permutation_singleton_l in Hkeys. by injection Hkeys as ->. }
  rewrite <- Hlen, (Permutation_length Hp).
  destruct (decide (length gm' = 0%nat)); [done|].
  destruct (decide ((max_list ngm ≤ 1)%nat ∧ (1 < length (gene_tally gm))%nat)); [done|].
  destruct (decide (1 < length (gene_tally gm))%nat) as [Hmany|Hfew]; [done|].
  destruct (decide (length (gene_tally gm) = 1%nat)) as [H1|H1].
  - rewrite <- (Hone H1). destruct (max_by_count (gene_tally gm) None); done.
  - assert (H0 : length (gene_tally gm) = 0%nat) by lia.
    rewrite H0 in Hlen. destruct (gene_tally gm), (gene_tally gm'); done.
Qed.

Lemma find_gene_match_ignores_listing_order_witness :
  (find_gene_match_on_vertex_basis [1] Plus shared_vertex_index).2
  = (find_gene_match_on_vertex_basis [1] Plus shared_vertex_index_swapped).2
  ∧ match (find_gene_match_on_vertex_basis [1] Plus shared_vertex_index).1,
          (find_gene_match_on_vertex_basis [1] Plus shared_vertex_index_swapped).1 with
    | GeneCandidates genes, GeneCandidates genes' => genes ≡ₚ genes'
    | NoGene, NoGene => True
    | OneGene g, OneGene g' => g = g'
    | _, _ => False
    end.
Proof.
  apply find_gene_match_ignores_listing_order.
  intros v. unfold shared_vertex_index, shared_vertex_index_swapped.
  destruct (decide (v = 1)) as [->|Hne].
  - rewrite !lookup_insert_eq. apply Permutation_swap.
  - rewrite !lookup_insert_ne by done. rewrite lookup_empty. exact I.
Defined.



(** ** Registering vertices with a gene *)

Lemma update_vertex_2_gene_lookup gene s vertex_IDs : ∀ d v,
  update_vertex_2_gene gene vertex_IDs s d !! v
  = if decide (v ∈ vertex_IDs)
    then Some (default ∅ (d !! v) ∪ {[(gene, s)]})
    else d !! v.
Proof.
  unfold update_vertex_2_gene.
  induction vertex_IDs as [|a vs IH]; intros d v; [done|].
  cbn [foldl]. rewrite IH.
  set (d1 := match d !! a with
             | Some genes => <[a := genes ∪ {[(gene, s)]}]> d
             | None => <[a := ∅ ∪ {[(gene, s)]}]> d
             end).
  assert (Hd1 : ∀ w, d1 !! w = if decide (w = a)
                                then Some (default ∅ (d !! a) ∪ {[(gene, s)]})
                                else d !! w).
  { intros w. unfold d1. destruct (decide (w = a)) as [->|Hne].
    - destruct (d !! a); by rewrite lookup_insert_eq.
    - destruct (d !! a); by rewrite lookup_insert_ne. }
  rewrite Hd1. destruct (decide (v = a)) as [->|Hne].
  - rewrite (decide_True (P := a ∈ a :: vs)) by left.
    destruct (decide (a ∈ vs)); [|done]. simpl. f_equal.
    by rewrite <- (assoc_L (∪)), (idemp_L (∪)).
  - destruct (decide (v ∈ vs)) as [Hin|Hnin].
    + rewrite decide_True; [done|by right].
    + rewrite decide_False; [done|]. rewrite elem_of_cons. intros [?|?]; done.
Qed.

Lemma genes_at_listed (v : Z) (s : strand) (d : gmap Z (gset (Z * strand))) (x : Z) :
  x ∈ genes_at v s (listed d) ↔ (x, s) ∈ default ∅ (d !! v).
Proof.
  unfold genes_at, listed, strand_matches. rewrite lookup_fmap.
  rewrite list_elem_of_fmap. split.
  - intros ([y t] & -> & Hin). apply list_elem_of_filter in Hin as [Ht Hin]. simpl in *. subst.
    destruct (d !! v); simpl in *; [by apply elem_of_elements|by apply elem_of_nil in Hin].
  - intros Hin. exists (x, s). split; [done|]. apply list_elem_of_filter. split; [done|].
    destruct (d !! v); simpl in *; [by apply elem_of_elements|by apply elem_of_empty in Hin].
Qed.

Lemma genes_hit_listed (vertex_IDs : list Z) (s : strand)
    (d : gmap Z (gset (Z * strand))) (x : Z) :
  x ∈ genes_hit vertex_IDs s (listed d)
  ↔ ∃ v, v ∈ vertex_IDs ∧ (x, s) ∈ default ∅ (d !! v).
Proof.
  unfold genes_hit. rewrite elem_of_list_to_set, list_elem_of_bind.
  split; intros (v & H1 & H2); exists v.
  - split; [done|]. by apply genes_at_listed.
  - split; [by apply genes_at_listed|done].
Qed.

(** X13. [update_vertex_2_gene] adds the pair of the gene and the strand to
    the set of every vertex it is given, starting a set where the vertex had
    none; what the sets held before stays, and the other vertices are
    untouched. Doing it twice is the same as doing it once. Afterwards the
    genes that the vertices name for that strand are the ones they named
    before and this gene; so when they named none,
    [find_gene_match_on_vertex_basis] now resolves the same vertices to this
    gene. *)
Theorem update_vertex_2_gene_registers (gene : Z) (vertex_IDs : list Z) (s : strand)
    (d : gmap Z (gset (Z * strand))) :
  let d' := update_vertex_2_gene gene vertex_IDs s d in
  (∀ v, v ∈ vertex_IDs → d' !! v = Some (default ∅ (d !! v) ∪ {[(gene, s)]}))
  ∧ (∀ v, v ∉ vertex_IDs → d' !! v = d !! v)
  ∧ update_vertex_2_gene gene vertex_IDs s d' = d'
  ∧ (vertex_IDs ≠ [] →
     genes_hit vertex_IDs s (listed d') = genes_hit vertex_IDs s (listed d) ∪ {[gene]})
  ∧ (vertex_IDs ≠ [] → genes_hit vertex_IDs s (listed d) = ∅ →
     find_gene_match_on_vertex_basis vertex_IDs s (listed d') = (OneGene gene, false)).
Proof.
  intros d'.
  assert (Hhit : vertex_IDs ≠ [] →
            genes_hit vertex_IDs s (listed d')
            = genes_hit vertex_IDs s (listed d) ∪ {[gene]}).
  { intros Hne. apply set_eq. intros x.
    rewrite elem_of_union, !genes_hit_listed, elem_of_singleton. split.
    - intros (v & Hv & Hin). unfold d' in Hin.
      rewrite update_vertex_2_gene_lookup, decide_True in Hin by done. simpl in Hin.
      apply elem_of_union in Hin as [Hin|Hin]; [left; eauto|].
      apply elem_of_singleton in Hin. right. congruence.
    - intros [(v & Hv & Hin)| ->].
      + exists v. split; [done|]. unfold d'.
        rewrite update_vertex_2_gene_lookup, decide_True by done. simpl.
        apply elem_of_union. by left.
      + destruct vertex_IDs as [|v vs]; [done|]. exists v. split; [left|].
        unfold d'. rewrite update_vertex_2_gene_lookup, decide_True by left. simpl.
        apply elem_of_union. right. by apply elem_of_singleton. }
  split_and!.
  - intros v Hv. unfold d'. by rewrite update_vertex_2_gene_lookup, decide_True.
  - intros v Hv. unfold d'. by rewrite update_vertex_2_gene_lookup, decide_False.
  - apply map_eq. intros v. rewrite update_vertex_2_gene_lookup. unfold d'.
    rewrite update_vertex_2_gene_lookup. destruct (decide (v ∈ vertex_IDs)); [|done].
    simpl. f_equal. by rewrite <- (assoc_L (∪)), (idemp_L (∪)).
  - done.
  - intros Hne Hnone. apply find_gene_match_single.
    rewrite (Hhit Hne), Hnone. by rewrite (left_id_L ∅ (∪)).
Qed.



(** ** Lines of the intermediate files *)

Lemma rev_app_rev_app p : ∀ q r,
  String.rev_app (String.rev_app p q) r = String.rev_app q (p +:+ r).
Proof.
  induction p as [|a p IH]; intros q r; [done|].
  cbn [String.rev_app]. rewrite IH. done.
Qed.

Lemma string_app_empty_r (s : string) : s +:+ "" = s.
Proof.
  induction s as [|a s IH]; [done|].
  change (String a (s +:+ "") = String a s). by rewrite IH.
Qed.

Lemma string_rev_involutive (s : string) : String.rev (String.rev s) = s.
Proof.
  unfold String.rev. rewrite rev_app_rev_app. simpl. apply string_app_empty_r.
Qed.

Lemma split_on_field sep p : ∀ rest field,
  has_char sep p = false →
  Str.split_on sep (p +:+ rest) field
  = Str.split_on sep rest (String.rev_app p field).
Proof.
  induction p as [|a p IH]; intros rest field Hp; [done|].
  simpl in Hp. apply orb_false_iff in Hp as [Ha Hp].
  change (String a p +:+ rest) with (String a (p +:+ rest)).
  cbn [Str.split_on String.rev_app]. rewrite Ha. by apply IH.
Qed.

Lemma join_cons_cons (sep p q : string) rest :
  Py.join sep (p :: q :: rest) = p +:+ sep +:+ Py.join sep (q :: rest).
Proof. done. Qed.

Lemma split_on_join sep (parts : list string) :
  parts ≠ [] →
  Forall (λ p, has_char sep p = false) parts →
  Str.split_on sep (Py.join (String sep EmptyString) parts) EmptyString = parts.
Proof.
  intros Hne Hall. induction Hall as [|p rest Hp Hrest IH]; [done|].
  destruct rest as [|q rest].
  - cbn [Py.join]. rewrite <- (string_app_empty_r p) at 1.
    rewrite split_on_field by done. cbn [Str.split_on].
    change (String.rev_app p "") with (String.rev p). by rewrite string_rev_involutive.
  - rewrite join_cons_cons, split_on_field by done.
    change (String sep "" +:+ Py.join (String sep "") (q :: rest))
      with (String sep (Py.join (String sep "") (q :: rest))).
    cbn [Str.split_on]. rewrite bool_decide_true by done.
    change (String.rev_app p "") with (String.rev p). rewrite string_rev_involutive.
    f_equal. by apply IH.
Qed.

(** X14. A line made by joining fields with tabs is read back by
    [strip().split("\t")] as the same fields, provided there is at least one
    field, no field contains a tab, and the line has no white space at its
    two ends for [strip] to remove. *)
Theorem fields_of_joined_line (parts : list string) :
  parts ≠ [] →
  Forall (λ p, has_char Str.tab p = false) parts →
  Str.strip (tsv parts) = tsv parts →
  Str.fields (tsv parts) = parts.
Proof.
  intros Hne Hall Hstrip. unfold Str.fields. rewrite Hstrip.
  by apply split_on_join.
Qed.

Lemma fields_of_joined_line_witness :
  Str.fields (tsv ["17"; "1"; "None"; "+"]) = ["17"; "1"; "None"; "+"].
Proof.
  apply fields_of_joined_line.
  - done.
  - repeat constructor.
  - vm_compute. reflexivity.
Defined.

(** ** Batches *)

Lemma batches_of_spec {A} (n : nat) : ∀ fuel (lines : list A),
  (0 < n)%nat → (length lines ≤ fuel)%nat →
  concat (batches_of fuel n lines) = lines
  ∧ Forall (λ b, (0 < length b ≤ n)%nat) (batches_of fuel n lines)
  ∧ length (batches_of fuel n lines) = ((length lines + n - 1) `div` n)%nat.
Proof.
  induction fuel as [|fuel IH]; intros lines Hn Hlen.
  - destruct lines; [|simpl in Hlen; lia]. simpl. split_and!; try done.
    symmetry. apply Nat.div_small. lia.
  - cbn [batches_of]. destruct (take n lines) as [|x b] eqn:Et.
    + assert (lines = []) as ->.
      { destruct lines; [done|]. destruct n; [lia|]. simpl in Et. done. }
      simpl. split_and!; try done. symmetry. apply Nat.div_small. lia.
    + rewrite <- Et. assert (Hdrop : (length (drop n lines) ≤ fuel)%nat).
      { rewrite length_drop. destruct lines; [simpl; lia|]. simpl in Hlen. simpl. lia. }
      destruct (IH (drop n lines) Hn Hdrop) as (Hc & Hf & Hl).
      split_and!.
      * cbn [concat]. rewrite Hc. apply take_drop.
      * constructor; [|done]. rewrite Et. split; [simpl; lia|].
        rewrite <- Et, length_take. lia.
      * cbn [length]. rewrite Hl, length_drop.
        assert (Hge : (n ≤ length lines ∨ length lines < n)%nat) by lia.
        assert (Hpos : (0 < length lines)%nat).
        { destruct lines; [by destruct n|simpl; lia]. }
        destruct Hge as [Hge|Hlt].
        -- replace (length lines + n - 1)%nat
             with ((length lines - n + n - 1) + 1 * n)%nat by lia.
           rewrite Nat.div_add by lia. lia.
        -- replace (length lines - n)%nat with 0%nat by lia.
           rewrite (Nat.div_small (0 + n - 1) n) by lia.
           replace (length lines + n - 1)%nat
             with ((length lines - 1) + 1 * n)%nat by lia.
           rewrite Nat.div_add by lia. rewrite Nat.div_small by lia. done.
Qed.

Section BatchFacts.

Variable executemany : insert_kind → string → list row → database → result database.

(** X15. Reading a file in batches of [batch_size > 0] lines loses and
    repeats nothing: the batches, in order, make up the lines again, each
    batch holds between 1 and [batch_size] lines, and there are
    [ceil(lines / batch_size)] of them. With a batch size of 0 the first
    batch is empty and the loop ends at once: [batch_add_genes] then inserts
    nothing and reports no error, whatever the file holds. *)
Theorem batches_partition_the_lines (batch_size : nat) (lines : list string) :
  ((0 < batch_size)%nat →
   concat (batches batch_size lines) = lines
   ∧ Forall (λ b, (0 < length b ≤ batch_size)%nat) (batches batch_size lines)
   ∧ length (batches batch_size lines)
     = ((length lines + batch_size - 1) `div` batch_size)%nat)
  ∧ ∀ c, batch_add_genes executemany lines 0 c = (inr (), c).
Proof.
  split.
  - intros Hn. apply batches_of_spec; [done|lia].
  - intros c. unfold batch_add_genes, batches.
    destruct (length (plain_rows lines)); reflexivity.
Qed.

End BatchFacts.



(** ** The counters table *)

Lemma set_counter_run category value c :
  set_counter category value c
  = (inr (), {| committed := committed c;
                working := {| tables := tables (working c);
                              counters := (λ r, if decide (r.1 = category)
                                                then (r.1, value) else r)
                                          <$> counters (working c) |};
                logged := logged c |}).
Proof. done. Qed.

Lemma update_counter_run cv c :
  update_counter cv c
  = (inr (), {| committed := committed c;
                working := {| tables := tables (working c);
                              counters := counter_after cv <$> counters (working c) |};
                logged := logged c |}).
Proof.
  unfold update_counter, bindT. rewrite !set_counter_run. cbn [working tables counters committed logged].
  do 3 f_equal. rewrite <- !list_fmap_compose. apply list_fmap_ext.
  intros _ [cat n] _. unfold counter_after, compose. cbn [fst snd].
  repeat (case_decide; cbn [fst snd] in *; subst; try done).
Qed.

Lemma c_int_small z : is_c_int z → c_int z = z.
Proof. unfold is_c_int, c_int. intros H. rewrite Z.mod_small; lia. Qed.

Lemma fetch_count_after cv category tbls (l : list (string * Z)) :
  category ∈ counter_categories →
  category ∈ l.*1 →
  fetch_count category {| tables := tbls; counters := counter_after cv <$> l |}
  = inr (c_int (counter_after cv (category, 0)).2).
Proof.
  unfold fetch_count. cbn [counters]. intros Hsix.
  induction l as [|[cat n] l IH]; [by intros ?%elem_of_nil|].
  rewrite !fmap_cons. cbn [fst]. intros Hin.
  rewrite filter_cons. destruct (decide (cat = category)) as [->|Hne].
  - rewrite decide_True by done. cbn [snd fst counter_after].
    repeat case_decide; try done.
    exfalso. unfold counter_categories in Hsix.
    repeat (apply elem_of_cons in Hsix as [->|Hsix]; [done|]).
    by apply elem_of_nil in Hsix.
  - rewrite decide_False by done. apply IH.
    apply elem_of_cons in Hin as [->|Hin]; done.
Qed.

Lemma fetch_count_missing cv category tbls (l : list (string * Z)) :
  category ∉ l.*1 →
  fetch_count category {| tables := tbls; counters := counter_after cv <$> l |}
  = inl TypeError.
Proof.
  unfold fetch_count. cbn [counters].
  induction l as [|[cat n] l IH]; [done|].
  rewrite !fmap_cons. cbn [fst]. intros Hnin.
  apply not_elem_of_cons in Hnin as [Hne Hnin].
  rewrite filter_cons, decide_False by (cbn [counter_after fst]; congruence).
  by apply IH.
Qed.

(** X16. [update_counter] overwrites the count of each of the six
    categories that has a row in the counters table with the value of the
    matching counter, and does nothing else: a category without a row gets
    none, rows of other categories and all other tables stay as they are,
    nothing is committed. When the six rows are there, [get_counters] of the
    next run reads back exactly the values written; when one is missing,
    [get_counters] fails with [TypeError]. *)
Theorem update_counter_then_get_counters cv c :
  let r := update_counter cv c in
  r.1 = inr ()
  ∧ committed r.2 = committed c
  ∧ logged r.2 = logged c
  ∧ tables (working r.2) = tables (working c)
  ∧ counters (working r.2) = counter_after cv <$> counters (working c)
  ∧ (held_by_counters cv →
     (∀ cat, cat ∈ counter_categories → cat ∈ (counters (working c)).*1) →
     get_counters (working r.2) = inr cv)
  ∧ ((∃ cat, cat ∈ counter_categories ∧ cat ∉ (counters (working c)).*1) →
     get_counters (working r.2) = inl TypeError).
Proof.
  intros r. unfold r. rewrite update_counter_run. cbn [fst snd committed logged working tables counters].
  split_and!; try done.
  - intros (Hg & Ht & Hv & He & Ho & Hd) Hall. unfold get_counters.
    assert (Hsix : ∀ k, k ∈ counter_categories →
              fetch_count k {| tables := tables (working c);
                               counters := counter_after cv <$> counters (working c) |}
              = inr (c_int (counter_after cv (k, 0)).2)).
    { intros k Hk. apply fetch_count_after; [done|by apply Hall]. }
    rewrite !Hsix by (unfold counter_categories; repeat (first [left; done|right])).
    cbn. rewrite !c_int_small by done. by destruct cv.
  - intros (cat & Hcat & Hmiss). unfold get_counters.
    assert (Hcase : ∀ k, k ∈ counter_categories → fetch_count k {| tables := tables (working c);
                                          counters := counter_after cv <$> counters (working c) |}
                         = inl TypeError
                         ∨ ∃ z, fetch_count k {| tables := tables (working c);
                                          counters := counter_after cv <$> counters (working c) |}
                                = inr z).
    { intros k Hk. destruct (decide (k ∈ (counters (working c)).*1)).
      - right. rewrite fetch_count_after by done. eauto.
      - left. by apply fetch_count_missing. }
    pose proof (fetch_count_missing cv cat (tables (working c)) _ Hmiss) as Hm.
    unfold counter_categories in Hcat.
    destruct (Hcase "genes" ltac:(unfold counter_categories; repeat (first [left; done|right])))
      as [->|[? E0]]; [done|rewrite E0].
    destruct (Hcase "transcripts" ltac:(unfold counter_categories; repeat (first [left; done|right])))
      as [->|[? E1]]; [done|rewrite E1].
    destruct (Hcase "vertex" ltac:(unfold counter_categories; repeat (first [left; done|right])))
      as [->|[? E2]]; [done|rewrite E2].
    destruct (Hcase "edge" ltac:(unfold counter_categories; repeat (first [left; done|right])))
      as [->|[? E3]]; [done|rewrite E3].
    destruct (Hcase "observed" ltac:(unfold counter_categories; repeat (first [left; done|right])))
      as [->|[? E4]]; [done|rewrite E4].
    destruct (Hcase "dataset" ltac:(unfold counter_categories; repeat (first [left; done|right])))
      as [->|[? E5]]; [done|rewrite E5].
    exfalso. repeat (apply elem_of_cons in Hcat as [->|Hcat]; [congruence|]).
    by apply elem_of_nil in Hcat.
Qed.

Lemma update_counter_then_get_counters_witness :
  get_counters (working (update_counter (counted 3)
                           {| committed := empty_store; working := empty_store;
                              logged := [] |}).2)
  = inr (counted 3).
Proof.
  destruct (update_counter_then_get_counters (counted 3)
              {| committed := empty_store; working := empty_store; logged := [] |})
    as (_ & _ & _ & _ & _ & H & _).
  apply H.
  - vm_compute. repeat split; discriminate.
  - intros cat Hcat. vm_compute in Hcat. vm_compute.
    repeat (apply elem_of_cons in Hcat as [->|Hcat];
            [repeat (first [left; done|right])|]).
    all: try by apply elem_of_nil in Hcat.
Defined.



(** ** Running the worker monad *)

Lemma bindW_inr {A B} (m : W A) (k : A → W B) w a w' :
  m w = inr (a, w') → bindW m k w = k a w'.
Proof. unfold bindW. by intros ->. Qed.

Lemma bindW_inv {A B} (m : W A) (k : A → W B) w r :
  bindW m k w = inr r → ∃ a w1, m w = inr (a, w1) ∧ k a w1 = inr r.
Proof. unfold bindW. destruct (m w) as [e|[a w1]]; [done|]. eauto. Qed.

Lemma bind_inv {A B} (m : M A) (k : A → M B) st r :
  bind m k st = inr r → ∃ a st1, m st = inr (a, st1) ∧ k a st1 = inr r.
Proof. unfold bind. destruct (m st) as [e|[a st1]]; [done|]. eauto. Qed.

Lemma in_store_inr {A} (m : M A) w a st :
  m (w_store w) = inr (a, st) → in_store m w = inr (a, with_store w st).
Proof. unfold in_store. by intros ->. Qed.

Lemma in_store_inv {A} (m : M A) w a w' :
  in_store m w = inr (a, w') →
  ∃ st, m (w_store w) = inr (a, st) ∧ w' = with_store w st.
Proof.
  unfold in_store. destruct (m (w_store w)) as [e|[a' st]]; [done|].
  intros [= -> <-]. eauto.
Qed.

Lemma liftW_inv {A} (r : result A) w a w' :
  liftW r w = inr (a, w') → r = inr a ∧ w' = w.
Proof. unfold liftW. destruct r; [done|]. by intros [= -> ->]. Qed.

Lemma with_store_same w : with_store w (w_store w) = w.
Proof. by destruct w. Qed.

Lemma with_store_with_store w st st' :
  with_store (with_store w st) st' = with_store w st'.
Proof. done. Qed.

(** ** The store only grows *)

Lemma store_grows_refl st : store_grows st st.
Proof. split; [apply vertices_kept_refl|done]. Qed.

Lemma store_grows_trans st1 st2 st3 :
  store_grows st1 st2 → store_grows st2 st3 → store_grows st1 st3.
Proof.
  intros [H1 H2] [H3 H4]. split; [by eapply vertices_kept_trans|by etrans].
Qed.

Lemma match_or_create_edge_grows v1 v2 et s st :
  ∃ r st', match_or_create_edge v1 v2 et s st = inr (r, st')
           ∧ store_grows st st' ∧ keeps_transcripts st st'.
Proof.
  destruct (match_or_create_edge_cases v1 v2 et s st)
    as [(e & He & Hrun)|(Hnone & st' & Hrun & Hdict & Hloc & _ & Hk)].
  - eexists _, st. split; [done|]. split; [apply store_grows_refl|done].
  - eexists _, st'. split; [done|]. split; [|done]. split.
    + rewrite Hloc. apply vertices_kept_refl.
    + rewrite Hdict. by apply insert_subseteq.
Qed.

Lemma permissive_match_none_exact chrom position s sj_pos pt gene
    (gene_locs : gmap Z (list (Z * Z))) (locations : gmap string (gmap Z vertex)) ri d k :
  permissive_match_with_gene_priority chrom position s sj_pos pt gene gene_locs
    locations ri = (None, d, k) →
  search_for_vertex_at_pos chrom position locations = None.
Proof.
  unfold permissive_match_with_gene_priority.
  destruct (search_for_vertex_at_pos chrom position locations) as [m|]; [|done].
  destruct (gene ≫= _); [case_bool_decide|]; done.
Qed.

Lemma end_vertex_grows chrom position (found : option Z) ri st :
  (found = None → search_for_vertex_at_pos chrom position (location_dict st) = None) →
  ∃ v st',
    match found with
    | Some v => ret v
    | None => do v <- create_vertex chrom position ri; ret (location_ID v)
    end st = inr (v, st')
    ∧ store_grows st st' ∧ keeps_transcripts st st'.
Proof.
  intros Hnone. destruct found as [v|].
  - exists v, st. split; [done|]. split; [apply store_grows_refl|done].
  - destruct (create_vertex_then_search chrom position ri st)
      as (v & st' & Hc & _ & _ & _ & Hframe & He & _ & Hk).
    exists (location_ID v), st'. split; [by rewrite (bind_inr _ _ _ _ _ Hc)|].
    split; [|done]. split; [|by rewrite He].
    intros c p w Hw. rewrite Hframe; [done|]. intros [= -> ->].
    rewrite Hnone in Hw; done.
Qed.

Lemma process_5p_grows chrom positions s vertex_IDs gene
    (gene_starts : gmap Z (list (Z * Z))) ri st :
  (2 ≤ length positions)%nat → vertex_IDs ≠ [] →
  ∃ r st', process_5p chrom positions s vertex_IDs gene gene_starts ri st = inr (r, st')
           ∧ store_grows st st' ∧ keeps_transcripts st st'.
Proof.
  intros Hp Hv.
  destruct positions as [|p0 [|p1 rest]]; simpl in Hp; try lia.
  destruct vertex_IDs as [|v0 vrest]; [done|].
  unfold process_5p. unfold bind at 1, lift at 1. cbn [Py.index lookup list_lookup].
  unfold bind at 1, lift at 1. cbn [Py.index lookup list_lookup].
  unfold bind at 1, gets at 1. cbn beta iota.
  destruct (permissive_match_with_gene_priority _ _ _ _ _ _ _ _ _) as [[found d] k] eqn:Ep.
  destruct (end_vertex_grows chrom p0 found ri st) as (sv & st1 & Hsv & Hg1 & Hk1).
  { intros ->. by eapply permissive_match_none_exact. }
  rewrite (bind_inr _ _ _ _ _ Hsv).
  unfold bind at 1, lift at 1. cbn [Py.index lookup list_lookup].
  destruct (match_or_create_edge_grows sv v0 Exon s st1) as ([e nov] & st' & He & Hg2 & Hk2).
  rewrite (bind_inr _ _ _ _ _ He). unfold ret.
  eexists _, st'. split; [done|].
  split; [by eapply store_grows_trans|by eapply keeps_transcripts_trans].
Qed.

Lemma process_3p_grows chrom positions s vertex_IDs gene
    (gene_ends : gmap Z (list (Z * Z))) ri st :
  (2 ≤ length positions)%nat → vertex_IDs ≠ [] →
  ∃ r st', process_3p chrom positions s vertex_IDs gene gene_ends ri st = inr (r, st')
           ∧ store_grows st st' ∧ keeps_transcripts st st'.
Proof.
  intros Hp Hv.
  destruct (index_back_total positions 0 ltac:(lia)) as [pl Hpl].
  destruct (index_back_total positions 1 ltac:(lia)) as [pb Hpb].
  destruct (index_back_total vertex_IDs 0) as [vl Hvl].
  { destruct vertex_IDs; [done|simpl; lia]. }
  unfold process_3p. unfold bind at 1, lift at 1. rewrite Hpl.
  unfold bind at 1, lift at 1. rewrite Hpb.
  unfold bind at 1, gets at 1. cbn beta iota.
  destruct (permissive_match_with_gene_priority _ _ _ _ _ _ _ _ _) as [[found d] k] eqn:Ep.
  destruct (end_vertex_grows chrom pl found ri st) as (ev & st1 & Hev & Hg1 & Hk1).
  { intros ->. by eapply permissive_match_none_exact. }
  rewrite (bind_inr _ _ _ _ _ Hev).
  unfold bind at 1, lift at 1. rewrite Hvl.
  destruct (match_or_create_edge_grows vl ev Exon s st1) as ([e nov] & st' & He & Hg2 & Hk2).
  rewrite (bind_inr _ _ _ _ _ He). unfold ret.
  eexists _, st'. split; [done|].
  split; [by eapply store_grows_trans|by eapply keeps_transcripts_trans].
Qed.

Lemma process_ends_grows chrom positions s edge_IDs vertex_IDs gene
    (locs_5p locs_3p : gmap Z (list (Z * Z))) ri st :
  (2 ≤ length positions)%nat → vertex_IDs ≠ [] →
  ∃ a b i st',
    process_ends chrom positions s edge_IDs vertex_IDs gene locs_5p locs_3p ri st
    = inr (([a] ++ edge_IDs ++ [b], se_vertex_IDs i, i), st')
    ∧ se_edge_IDs i = [a] ++ edge_IDs ++ [b]
    ∧ se_vertex_IDs i = [se_start_vertex i] ++ vertex_IDs ++ [se_end_vertex i]
    ∧ store_grows st st' ∧ keeps_transcripts st st'.
Proof.
  intros Hp Hv. unfold process_ends.
  destruct (process_5p_grows chrom positions s vertex_IDs gene locs_5p ri st Hp Hv)
    as ([[[[sv se] sn] sk] sd] & st1 & H5 & Hg1 & Hk1).
  destruct (process_3p_grows chrom positions s vertex_IDs gene locs_3p ri st1 Hp Hv)
    as ([[[[ev ee] en] ek] ed] & st' & H3 & Hg2 & Hk2).
  rewrite (bind_inr _ _ _ _ _ H5). cbn beta iota.
  rewrite (bind_inr _ _ _ _ _ H3). cbn beta iota. unfold ret.
  exists se, ee,
    {| se_start_vertex := sv; se_end_vertex := ev; se_start_exon := se; se_end_exon := ee;
       se_diff_5p := sd; se_diff_3p := ed; se_start_novelty := sn; se_end_novelty := en;
       se_vertex_IDs := [sv] ++ vertex_IDs ++ [ev];
       se_edge_IDs := [se] ++ edge_IDs ++ [ee] |}, st'.
  split; [reflexivity|]. cbn [se_edge_IDs se_vertex_IDs se_start_vertex se_end_vertex].
  split; [done|]. split; [done|].
  split; [by eapply store_grows_trans|by eapply keeps_transcripts_trans].
Qed.



(** ** What each branch of the classifier leaves in the store *)

Lemma create_transcript_gives_FSM s chrom sp ep gene a b edge_IDs vertex_IDs st :
  vertex_IDs ≠ [] →
  ∃ T st',
    create_transcript s chrom sp ep gene ([a] ++ edge_IDs ++ [b]) vertex_IDs st
    = inr (T, st')
    ∧ location_dict st' = location_dict st
    ∧ edge_dict st' = edge_dict st
    ∧ gene_ID T = gene
    ∧ (frozenset ([a] ++ edge_IDs ++ [b]), T) ∈ transcript_dict st'
    ∧ has_FSM_for edge_IDs ((Py.len edge_IDs + 3) `div` 2) (transcript_dict st').
Proof.
  intros Hv. set (es := [a] ++ edge_IDs ++ [b]).
  assert (Hes : es ≠ []) by done.
  destruct (index_total es 0) as [e0 He0]; [simpl; lia|].
  destruct (index_back_total es 0) as [el Hel]; [simpl; lia|].
  destruct (index_total vertex_IDs 0) as [v0 Hv0]; [destruct vertex_IDs; [done|simpl; lia]|].
  destruct (index_back_total vertex_IDs 0) as [vl Hvl]; [destruct vertex_IDs; [done|simpl; lia]|].
  unfold create_transcript, bind, lift. rewrite He0, Hel, Hv0, Hvl. cbn beta iota.
  eexists _, _. split; [reflexivity|]. cbn [location_dict edge_dict set_transcripts gene_ID transcript_dict].
  split; [done|]. split; [done|]. split; [done|].
  split; [apply alist_insert_elem|].
  eexists _, _. split; [apply alist_insert_elem|]. split.
  - unfold frozenset, es. intros x. rewrite !elem_of_list_to_set, !elem_of_app. tauto.
  - cbn [n_exons]. unfold es, Py.len. rewrite !length_app. cbn [length].
    f_equal. lia.
Qed.

Lemma process_FSM_grows chrom positions s edge_IDs vertex_IDs ms
    (gene_starts gene_ends : gmap Z (list (Z * Z))) ri st :
  (2 ≤ length positions)%nat → vertex_IDs ≠ [] →
  ∃ g t info st',
    process_FSM chrom positions s edge_IDs vertex_IDs ms gene_starts gene_ends ri st
    = inr ((g, t, [], info), st')
    ∧ store_grows st st' ∧ keeps_transcripts st st'
    ∧ ((FSM_candidates positions ms = [] ∧ g = None ∧ t = None ∧ info = SeNone ∧ st' = st)
       ∨ ∃ T cands i,
           FSM_candidates positions ms = T :: cands
           ∧ g = Some (gene_ID T) ∧ t = Some (transcript_ID T) ∧ info = SeInfo i
           ∧ se_vertex_IDs i = [se_start_vertex i] ++ vertex_IDs ++ [se_end_vertex i]).
Proof.
  intros Hp Hv. unfold process_FSM.
  fold (FSM_candidates positions ms).
  destruct (FSM_candidates positions ms) as [|T cands] eqn:Ec.
  { exists None, None, SeNone, st. split; [done|].
    split; [apply store_grows_refl|]. split; [done|]. by left. }
  destruct (index_total positions 0 ltac:(lia)) as [p0 Hp0].
  destruct (index_back_total positions 0 ltac:(lia)) as [pl Hpl].
  unfold bind at 1, lift at 1. rewrite Hp0.
  unfold bind at 1, lift at 1. rewrite Hpl.
  set (d5 := compute_delta (start_pos T) p0 s).
  set (d3 := compute_delta (end_pos T) pl s).
  assert (H5 : ∃ r st1,
    (if Z.abs d5 <=? cutoff_5p ri
     then ret (start_vertex T, start_exon T, 0, Some d5)
     else do '(v, e, nov, _, d) <-
            process_5p chrom positions s vertex_IDs (Some (gene_ID T)) gene_starts ri;
          ret (v, e, nov, d)) st = inr (r, st1)
    ∧ store_grows st st1 ∧ keeps_transcripts st st1).
  { destruct (Z.abs d5 <=? cutoff_5p ri).
    - eexists _, st. split; [done|]. split; [apply store_grows_refl|done].
    - destruct (process_5p_grows chrom positions s vertex_IDs (Some (gene_ID T))
                  gene_starts ri st Hp Hv) as ([[[[sv se] sn] sk] sd] & st1 & H5 & Hg & Hk).
      rewrite (bind_inr _ _ _ _ _ H5). eexists _, st1. done. }
  destruct H5 as ([[[sv se] sn] sd] & st1 & H5 & Hg1 & Hk1).
  assert (H3 : ∃ r st',
    (if Z.abs d3 <=? cutoff_3p ri
     then ret (end_vertex T, end_exon T, 0, Some d3)
     else do '(v, e, nov, _, d) <-
            process_3p chrom positions s vertex_IDs (Some (gene_ID T)) gene_ends ri;
          ret (v, e, nov, d)) st1 = inr (r, st')
    ∧ store_grows st1 st' ∧ keeps_transcripts st1 st').
  { destruct (Z.abs d3 <=? cutoff_3p ri).
    - eexists _, st1. split; [done|]. split; [apply store_grows_refl|done].
    - destruct (process_3p_grows chrom positions s vertex_IDs (Some (gene_ID T))
                  gene_ends ri st1 Hp Hv) as ([[[[ev ee] en] ek] ed] & st' & H3 & Hg & Hk).
      rewrite (bind_inr _ _ _ _ _ H3). eexists _, st'. done. }
  destruct H3 as ([[[ev ee] en] ed] & st' & H3 & Hg2 & Hk2).
  rewrite (bind_inr _ _ _ _ _ H5). cbn beta iota.
  rewrite (bind_inr _ _ _ _ _ H3). cbn beta iota. unfold ret.
  eexists _, _, _, st'. split; [reflexivity|].
  split; [by eapply store_grows_trans|]. split; [by eapply keeps_transcripts_trans|].
  right. eexists T, cands, _. done.
Qed.

Lemma characterize_ISMs_multi_done ms : ∀ n edge_IDs gene ISM prefix suffix looped,
  n ≠ 1 →
  characterize_ISMs ms n edge_IDs gene ISM prefix suffix = inr looped →
  ∃ ISM' prefix' suffix' gene', looped = IsmDone ISM' prefix' suffix' gene'.
Proof.
  induction ms as [|m ms IH]; intros n edge_IDs gene ISM prefix suffix looped Hn.
  - simpl. intros [= <-]. eauto.
  - simpl. destruct (Z.eqb_spec n 1) as [|_]; [done|].
    destruct (jn_path m) as [p|]; [|done].
    destruct (Py.endswith p _); apply IH; done.
Qed.

Section BranchFacts.

Variable sql_group_by_gene : list t_row → list t_row.

Lemma choose_ISM_gene_state chrom positions s all_matches st r st1 :
  choose_ISM_gene sql_group_by_gene chrom positions s all_matches st = inr (r, st1) →
  st1 = st.
Proof.
  unfold choose_ISM_gene. case_match.
  - unfold bind, lift, gets, ret.
    destruct (Py.index positions 0) as [e|p0]; [done|].
    destruct (Py.index_back positions 0) as [e|pl]; [done|].
    destruct (search_for_overlap_with_gene _ _ _ _ _ _ _) as [e|[g ms]]; [done|].
    by intros [= <- <-].
  - unfold bind, lift, ret. destruct (Py.index all_matches 0) as [e|m0]; [done|].
    by intros [= <- <-].
Qed.

Lemma process_ISM_grows chrom positions s edge_IDs vertex_IDs ms
    (gene_starts gene_ends : gmap Z (list (Z * Z))) ri st g t nov info st' :
  (4 ≤ length positions)%nat → vertex_IDs ≠ [] →
  process_ISM sql_group_by_gene chrom positions s edge_IDs vertex_IDs ms
              gene_starts gene_ends ri st
  = inr ((g, t, nov, info), st') →
  store_grows st st'
  ∧ ((g = None ∧ t = None ∧ nov = [] ∧ info = SeNone ∧ st' = st)
     ∨ ∃ gene tid i,
         g = Some gene ∧ t = Some tid ∧ info = SeInfo i
         ∧ se_vertex_IDs i = [se_start_vertex i] ++ vertex_IDs ++ [se_end_vertex i]
         ∧ has_FSM_for edge_IDs ((Py.len edge_IDs + 3) `div` 2) (transcript_dict st')).
Proof.
  intros Hp Hv Hrun. unfold process_ISM in Hrun.
  apply bind_inv in Hrun as ([chosen kept] & st0 & Hchoose & Hrun).
  apply choose_ISM_gene_state in Hchoose as ->.
  destruct chosen as [gene|].
  2:{ unfold ret in Hrun. injection Hrun as <- <- <- <- <-.
      split; [apply store_grows_refl|]. by left. }
  assert (Hn : 1 < Py.len positions `div` 2).
  { unfold Py.len. assert (2 ≤ Z.of_nat (length positions) `div` 2); [|lia].
    apply Z.div_le_lower_bound; lia. }
  apply bind_inv in Hrun as ([[E' V'] inf] & st2 & Hblock & Hrun).
  replace (1 <? Py.len positions `div` 2) with true in Hblock
    by (symmetry; apply Z.ltb_lt; lia).
  destruct (process_5p_grows chrom positions s vertex_IDs (Some gene) gene_starts ri st
              ltac:(lia) Hv) as ([[[[sv se] sn] sk] sd] & st1 & H5 & Hg1 & Hk1).
  destruct (process_3p_grows chrom positions s vertex_IDs (Some gene) gene_ends ri st1
              ltac:(lia) Hv) as ([[[[ev ee] en] ek] ed] & st2' & H3 & Hg2 & Hk2).
  rewrite (bind_inr _ _ _ _ _ H5) in Hblock. cbn beta iota in Hblock.
  rewrite (bind_inr _ _ _ _ _ H3) in Hblock. cbn beta iota in Hblock.
  unfold ret in Hblock. injection Hblock as <- <- <- <-.
  apply bind_inv in Hrun as (looped & st3 & Hloop & Hrun).
  unfold lift in Hloop.
  destruct (characterize_ISMs kept _ _ gene [] [] []) as [e|l] eqn:El; [done|].
  injection Hloop as <- <-.
  apply characterize_ISMs_multi_done in El as (I & P & S & gene' & ->); [|lia].
  apply bind_inv in Hrun as (p0 & st3 & Hp0 & Hrun).
  apply bind_inv in Hrun as (pl & st4 & Hpl & Hrun).
  unfold lift in Hp0, Hpl.
  destruct (Py.index positions 0); [done|]. injection Hp0 as -> <-.
  destruct (Py.index_back positions 0); [done|]. injection Hpl as -> <-.
  apply bind_inv in Hrun as (T & st5 & Hcreate & Hrun).
  destruct (create_transcript_gives_FSM s chrom p0 pl gene' se ee edge_IDs
              ([sv] ++ vertex_IDs ++ [ev]) st2' ltac:(done))
    as (T' & st5' & Hc & Hloc & Hed & _ & _ & Hfsm).
  cbn [app] in Hc, Hcreate. rewrite Hc in Hcreate. injection Hcreate as <- <-.
  unfold ret in Hrun. injection Hrun as <- <- <- <- <-.
  split.
  - eapply store_grows_trans; [by eapply store_grows_trans|].
    split; [rewrite Hloc; apply vertices_kept_refl|by rewrite Hed].
  - right. eexists _, _, _. done.
Qed.

End BranchFacts.



(** ** The branches, run inside the worker *)

Section WorkerFacts.

Variable sql_group_by_gene : list t_row → list t_row.

Lemma assign_gene_state vertex_IDs s chrom a b w r w' :
  assign_gene sql_group_by_gene vertex_IDs s chrom a b w = inr (r, w') → w' = w.
Proof.
  unfold assign_gene, bindW, getsW, retW, liftW.
  destruct (find_gene_match_on_vertex_basis _ _ _) as [gene fusion].
  destruct gene, fusion; try (by intros [= <- <-]).
  destruct (search_for_overlap_with_gene _ _ _ _ _ _ _) as [e|[g' ms]]; [done|].
  by intros [= <- <-].
Qed.

Lemma novel_in_gene_run label chrom positions s edge_IDs vertex_IDs
    (gene_starts gene_ends : gmap Z (list (Z * Z))) ri w g t nov info fusion w' :
  (4 ≤ length positions)%nat → vertex_IDs ≠ [] →
  novel_in_gene sql_group_by_gene label chrom positions s edge_IDs vertex_IDs
                gene_starts gene_ends ri w
  = inr ((g, t, nov, info, fusion), w') →
  store_grows (w_store w) (w_store w')
  ∧ same_genes w w'
  ∧ vertex_2_gene w' = vertex_2_gene w
  ∧ branch_outcome edge_IDs vertex_IDs w w' g t info SeNone
  ∧ (g = None → nov = []).
Proof.
  intros Hp Hv Hrun. unfold novel_in_gene in Hrun.
  apply bindW_inv in Hrun as (p0 & w0 & Hp0 & Hrun). apply liftW_inv in Hp0 as [Hp0 ->].
  apply bindW_inv in Hrun as (pl & w0 & Hpl & Hrun). apply liftW_inv in Hpl as [Hpl ->].
  apply bindW_inv in Hrun as ([gene fus] & w0 & Hassign & Hrun).
  apply assign_gene_state in Hassign as ->.
  destruct gene as [|gene|gs].
  - unfold retW in Hrun. injection Hrun as <- <- <- <- <- <-.
    split; [apply store_grows_refl|]. split; [done|]. split; [done|]. split; [by left|done].
  - destruct (process_ends_grows chrom positions s edge_IDs vertex_IDs (Some gene)
                gene_starts gene_ends ri (w_store w) ltac:(lia) Hv)
      as (a & b & i & st1 & Hends & _ & Hvs & Hg & _).
    rewrite (bindW_inr _ _ _ _ _ (in_store_inr _ _ _ _ Hends)) in Hrun.
    cbn beta iota in Hrun.
    destruct (create_transcript_gives_FSM s chrom p0 pl gene a b edge_IDs (se_vertex_IDs i)
                st1) as (T & st' & Hc & Hloc & Hed & _ & _ & Hfsm).
    { rewrite Hvs. done. }
    rewrite (bindW_inr _ _ _ _ _ (in_store_inr _ (with_store w st1) _ _ Hc)) in Hrun.
    unfold retW in Hrun. injection Hrun as <- <- <- <- <- <-.
    split.
    + cbn [w_store with_store]. eapply store_grows_trans; [done|].
      split; [rewrite Hloc; apply vertices_kept_refl|by rewrite Hed].
    + split; [done|]. split; [done|]. split; [|done]. right. eexists _, _, _. done.
  - unfold liftW in Hrun. done.
Qed.

Lemma create_gene_run chrom a b s w :
  ∃ gene w', create_gene chrom a b s w = inr (gene, w') ∧ w_store w' = w_store w
             ∧ vertex_2_gene w' = vertex_2_gene w.
Proof. eexists _, _. split; [reflexivity|done]. Qed.

Lemma antisense_run chrom positions s edge_IDs vertex_IDs
    (gene_starts gene_ends : gmap Z (list (Z * Z))) ri w g t g_nov t_nov info w' :
  (4 ≤ length positions)%nat → vertex_IDs ≠ [] →
  process_spliced_antisense sql_group_by_gene chrom positions s edge_IDs vertex_IDs
                            gene_starts gene_ends ri w
  = inr ((g, t, g_nov, t_nov, info), w') →
  store_grows (w_store w) (w_store w')
  ∧ vertex_2_gene w' = vertex_2_gene w
  ∧ branch_outcome edge_IDs vertex_IDs w w' g t info SeEmpty
  ∧ (g = None → g_nov = [] ∧ t_nov = []).
Proof.
  intros Hp Hv Hrun. unfold process_spliced_antisense in Hrun.
  apply bindW_inv in Hrun as (v2g & w0 & Hv2g & Hrun).
  unfold getsW in Hv2g. injection Hv2g as <- <-.
  destruct (find_gene_match_on_vertex_basis _ _ _) as [found fusion].
  apply bindW_inv in Hrun as (anti & w0 & Hanti & Hrun).
  assert (w0 = w) as ->.
  { destruct found, fusion; try (by injection Hanti as <- <-).
    unfold bindW, liftW, getsW, retW in Hanti.
    destruct (Py.index positions 0); [done|]. destruct (Py.index_back positions 0); [done|].
    destruct (search_for_overlap_with_gene _ _ _ _ _ _ _) as [e|[g' ms]]; [done|].
    by injection Hanti as <- <-. }
  clear Hanti. destruct anti as [|anti|gs].
  - unfold retW in Hrun. injection Hrun as <- <- <- <- <- <-.
    split; [apply store_grows_refl|]. split; [done|]. split; [by left|done].
  - destruct (process_ends_grows chrom positions s edge_IDs vertex_IDs (Some anti)
                gene_ends gene_starts ri (w_store w) ltac:(lia) Hv)
      as (a & b & i & st1 & Hends & _ & Hvs & Hg & _).
    rewrite (bindW_inr _ _ _ _ _ (in_store_inr _ _ _ _ Hends)) in Hrun.
    cbn beta iota in Hrun.
    apply bindW_inv in Hrun as (p0 & w0 & Hp0 & Hrun). apply liftW_inv in Hp0 as [Hp0 ->].
    apply bindW_inv in Hrun as (pl & w0 & Hpl & Hrun). apply liftW_inv in Hpl as [Hpl ->].
    destruct (create_gene_run chrom p0 pl s (with_store w st1)) as (gene & w2 & Hgene & Hst & Hv2g).
    rewrite (bindW_inr _ _ _ _ _ Hgene) in Hrun.
    destruct (create_transcript_gives_FSM s chrom p0 pl gene a b edge_IDs (se_vertex_IDs i)
                (w_store w2)) as (T & st' & Hc & Hloc & Hed & _ & _ & Hfsm).
    { rewrite Hvs. done. }
    rewrite (bindW_inr _ _ _ _ _ (in_store_inr _ _ _ _ Hc)) in Hrun.
    unfold retW in Hrun. injection Hrun as <- <- <- <- <- <-.
    split.
    + cbn [w_store with_store]. rewrite Hst in Hloc, Hed. cbn [w_store with_store] in Hloc, Hed.
      eapply store_grows_trans; [done|].
      split; [rewrite Hloc; apply vertices_kept_refl|by rewrite Hed].
    + split; [cbn [vertex_2_gene with_store]; by rewrite Hv2g|].
      split; [|done]. right. eexists _, _, _. done.
  - unfold liftW in Hrun. done.
Qed.

Lemma remaining_run chrom positions s edge_IDs vertex_IDs
    (gene_starts gene_ends : gmap Z (list (Z * Z))) opts fusion w g t g_nov t_nov i w' :
  (4 ≤ length positions)%nat → vertex_IDs ≠ [] →
  process_remaining_mult_cases sql_group_by_gene chrom positions s edge_IDs vertex_IDs
                               gene_starts gene_ends opts fusion w
  = inr ((g, t, g_nov, t_nov, i), w') →
  store_grows (w_store w) (w_store w')
  ∧ vertex_2_gene w' = vertex_2_gene w
  ∧ se_vertex_IDs i = [se_start_vertex i] ++ vertex_IDs ++ [se_end_vertex i]
  ∧ has_FSM_for edge_IDs ((Py.len edge_IDs + 3) `div` 2) (transcript_dict (w_store w')).
Proof.
  intros Hp Hv Hrun. unfold process_remaining_mult_cases in Hrun.
  apply bindW_inv in Hrun as ([found ms] & w0 & Hfound & Hrun).
  assert (w0 = w) as ->.
  { destruct (negb _ || negb _); [|by injection Hfound as <- <-].
    unfold bindW, liftW, getsW in Hfound.
    destruct (Py.index positions 0); [done|]. destruct (Py.index_back positions 0); [done|].
    destruct (search_for_overlap_with_gene _ _ _ _ _ _ _) as [e|[g' ms']]; [done|].
    by injection Hfound as <- <-. }
  clear Hfound.
  destruct (process_ends_grows chrom positions s edge_IDs vertex_IDs found
              gene_starts gene_ends (o_run opts) (w_store w) ltac:(lia) Hv)
    as (a & b & i0 & st1 & Hends & _ & Hvs & Hg & _).
  rewrite (bindW_inr _ _ _ _ _ (in_store_inr _ _ _ _ Hends)) in Hrun.
  cbn beta iota in Hrun.
  apply bindW_inv in Hrun as (p0 & w0 & Hp0 & Hrun). apply liftW_inv in Hp0 as [Hp0 ->].
  apply bindW_inv in Hrun as (pl & w0 & Hpl & Hrun). apply liftW_inv in Hpl as [Hpl ->].
  assert (Hcreate : ∀ gene (w2 : worker), w_store w2 = st1 →
            ∃ T st', in_store (create_transcript s chrom p0 pl gene ([a] ++ edge_IDs ++ [b])
                                                 (se_vertex_IDs i0)) w2
                     = inr (T, with_store w2 st')
                     ∧ store_grows (w_store w) st'
                     ∧ has_FSM_for edge_IDs ((Py.len edge_IDs + 3) `div` 2)
                                   (transcript_dict st')).
  { intros gene w2 Hw2.
    destruct (create_transcript_gives_FSM s chrom p0 pl gene a b edge_IDs (se_vertex_IDs i0)
                (w_store w2)) as (T & st' & Hc & Hloc & Hed & _ & _ & Hfsm).
    { rewrite Hvs. done. }
    exists T, st'. split; [by apply in_store_inr|]. split; [|done].
    rewrite Hw2 in Hloc, Hed. eapply store_grows_trans; [done|].
    split; [rewrite Hloc; apply vertices_kept_refl|by rewrite Hed]. }
  destruct found as [anti|].
  - destruct (decide (ms ≠ Some s)).
    + destruct (create_gene_run chrom p0 pl s (with_store w st1)) as (gene & w2 & Hgene & Hst & Hv2g).
      rewrite (bindW_inr _ _ _ _ _ Hgene) in Hrun.
      destruct (Hcreate gene w2 Hst) as (T & st' & Hc & Hg' & Hfsm).
      rewrite (bindW_inr _ _ _ _ _ Hc) in Hrun.
      unfold retW in Hrun. injection Hrun as <- <- <- <- <- <-. done.
    + destruct (Hcreate anti (with_store w st1) eq_refl) as (T & st' & Hc & Hg' & Hfsm).
      rewrite (bindW_inr _ _ _ _ _ Hc) in Hrun.
      unfold retW in Hrun. injection Hrun as <- <- <- <- <- <-. done.
  - destruct fusion.
    all: destruct (create_gene_run chrom p0 pl s (with_store w st1))
           as (gene & w2 & Hgene & Hst & Hv2g);
      rewrite (bindW_inr _ _ _ _ _ Hgene) in Hrun;
      destruct (Hcreate gene w2 Hst) as (T & st' & Hc & Hg' & Hfsm);
      rewrite (bindW_inr _ _ _ _ _ Hc) in Hrun;
      unfold retW in Hrun; injection Hrun as <- <- <- <- <- <-; done.
Qed.

End WorkerFacts.



(** ** The classifier as a whole *)

Section ClassifierFacts.

Variable sql_group_by_gene : list t_row → list t_row.

Lemma look_for_FSM_ISM_NIC_run chrom positions s edge_IDs vertex_IDs known_SJs known_vs
    (gene_starts gene_ends : gmap Z (list (Z * Z))) ri v0 w v1 w1 :
  (4 ≤ length positions)%nat → vertex_IDs ≠ [] →
  (Py.len edge_IDs + 3) `div` 2 = Py.len positions `div` 2 →
  look_for_FSM_ISM_NIC sql_group_by_gene chrom positions s edge_IDs vertex_IDs
                       known_SJs known_vs gene_starts gene_ends ri v0 w
  = inr (v1, w1) →
  v_gene v0 = None →
  store_grows (w_store w) (w_store w1)
  ∧ vertex_2_gene w1 = vertex_2_gene w
  ∧ settled edge_IDs vertex_IDs (Py.len positions `div` 2) v1 w1.
Proof.
  intros Hp Hv Hlen Hrun Hv0. unfold look_for_FSM_ISM_NIC in Hrun. unfold settled.
  assert (HNIC : ∀ (v : vars) w2 w3 r,
            process_NIC sql_group_by_gene chrom positions s edge_IDs vertex_IDs
                        gene_starts gene_ends ri w2 = inr (r, w3) →
            store_grows (w_store w2) (w_store w3)
            ∧ vertex_2_gene w3 = vertex_2_gene w2
            ∧ (r.1.1.1.1 = None
               ∨ (has_FSM_for edge_IDs (Py.len positions `div` 2)
                              (transcript_dict (w_store w3))
                  ∧ ∃ i, r.1.2 = SeInfo i
                         ∧ se_vertex_IDs i
                           = [se_start_vertex i] ++ vertex_IDs ++ [se_end_vertex i]))).
  { intros v w2 w3 [[[[g t] nov] info] fusion] HN.
    apply novel_in_gene_run in HN as (Hg & _ & Hv2g & Hout & _); [|done..].
    split; [done|]. split; [done|].
    destruct Hout as [(-> & _)|(gene & tid & i & -> & _ & -> & Hshape & Hfsm)].
    - by left.
    - right. rewrite <- Hlen. eauto. }
  destruct known_SJs.
  - apply bindW_inv in Hrun as (dict & w0 & Hdict & Hrun).
    unfold getsW in Hdict. injection Hdict as <- <-.
    apply bindW_inv in Hrun as (v & w2 & Hsearch & Hrun).
    assert (Hv2 : store_grows (w_store w) (w_store w2)
                  ∧ vertex_2_gene w2 = vertex_2_gene w
                  ∧ (v_gene v = None
                     ∨ (has_FSM_for edge_IDs (Py.len positions `div` 2)
                                    (transcript_dict (w_store w2))
                        ∧ ∃ i, v_info v = SeInfo i
                               ∧ se_vertex_IDs i
                                 = [se_start_vertex i] ++ vertex_IDs ++ [se_end_vertex i]))).
    { destruct (search_for_ISM edge_IDs (transcript_dict (w_store w))) as [ms|] eqn:Ems.
      - destruct (process_FSM_grows chrom positions s edge_IDs vertex_IDs ms gene_starts
                    gene_ends ri (w_store w) ltac:(lia) Hv)
          as (g & t & info & st' & HF & Hg & Hk & Hcase).
        rewrite (bindW_inr _ _ _ _ _ (in_store_inr _ _ _ _ HF)) in Hsearch.
        cbn beta iota in Hsearch.
        destruct Hcase as [(_ & -> & -> & -> & ->)
                          |(T & cands & i & Hc & -> & -> & -> & Hshape)].
        + apply bindW_inv in Hsearch as ([[[g t] nov] info] & w3 & HI & Hsearch).
          apply in_store_inv in HI as (st3 & HI & ->).
          cbn [w_store with_store] in HI.
          apply process_ISM_grows in HI as (Hg3 & Hout); [|done..].
          unfold retW in Hsearch. injection Hsearch as <- <-.
          cbn [v_gene v_info w_store with_store vertex_2_gene].
          split; [done|]. split; [done|].
          destruct Hout as [(-> & _)|(gene & tid & i & -> & _ & -> & Hshape & Hfsm)].
          * by left.
          * right. rewrite <- Hlen. eauto.
        + unfold retW in Hsearch. injection Hsearch as <- <-.
          cbn [v_gene v_info w_store with_store vertex_2_gene].
          split; [done|]. split; [done|]. right. split; [|eauto].
          assert (HT : T ∈ FSM_candidates positions ms) by (rewrite Hc; left).
          apply list_elem_of_filter in HT as [Hn HT].
          apply (search_for_ISM_elem _ _ _ _ Ems) in HT as (key & Hin & Hsub).
          exists key, T. destruct Hk as (Hk & _). rewrite Hk. done.
      - unfold retW in Hsearch. injection Hsearch as <- <-.
        split; [apply store_grows_refl|]. split; [done|by left]. }
    destruct Hv2 as (Hg2 & Hv2g & Hinv).
    destruct (v_gene v) eqn:Eg.
    + unfold retW in Hrun. injection Hrun as <- <-. split; [done|]. split; [done|].
      rewrite Eg. destruct Hinv as [?|?]; [congruence|by right].
    + apply bindW_inv in Hrun as ([[[[g t] nov] info] fusion] & w3 & HN & Hrun).
      apply (HNIC v) in HN as (Hg3 & Hv3 & Hout).
      unfold retW in Hrun. injection Hrun as <- <-. cbn [v_gene v_info].
      split; [by eapply store_grows_trans|]. split; [congruence|done].
  - destruct (known_vs && bool_decide (v_gene v0 = None)).
    + apply bindW_inv in Hrun as ([[[[g t] nov] info] fusion] & w3 & HN & Hrun).
      apply (HNIC v0) in HN as (Hg3 & Hv3 & Hout).
      unfold retW in Hrun. injection Hrun as <- <-. cbn [v_gene v_info]. done.
    + unfold retW in Hrun. injection Hrun as <- <-.
      split; [apply store_grows_refl|]. split; [done|by left].
Qed.

Lemma look_for_antisense_NNC_run chrom positions s edge_IDs vertex_IDs known_vs novel
    (gene_starts gene_ends : gmap Z (list (Z * Z))) ri v w v2 w2 :
  (4 ≤ length positions)%nat → vertex_IDs ≠ [] →
  (Py.len edge_IDs + 3) `div` 2 = Py.len positions `div` 2 →
  look_for_antisense_NNC sql_group_by_gene chrom positions s edge_IDs vertex_IDs
                         known_vs novel gene_starts gene_ends ri v w
  = inr (v2, w2) →
  settled edge_IDs vertex_IDs (Py.len positions `div` 2) v w →
  store_grows (w_store w) (w_store w2)
  ∧ vertex_2_gene w2 = vertex_2_gene w
  ∧ settled edge_IDs vertex_IDs (Py.len positions `div` 2) v2 w2.
Proof.
  intros Hp Hv Hlen Hrun Hinv. unfold look_for_antisense_NNC in Hrun. unfold settled.
  destruct (known_vs && bool_decide (v_gene v = None) && negb (v_fusion v)).
  - apply bindW_inv in Hrun as ([[[[g t] g_nov] t_nov] info] & w3 & HA & Hrun).
    apply antisense_run in HA as (Hg & Hv2g & Hout & _); [|done..].
    unfold retW in Hrun. injection Hrun as <- <-. cbn [v_gene v_info].
    split; [done|]. split; [done|].
    destruct Hout as [(-> & _)|(gene & tid & i & -> & _ & -> & Hshape & Hfsm)].
    + by left.
    + right. rewrite <- Hlen. eauto.
  - destruct (negb known_vs && negb (v_fusion v) && negb (Py.truthy novel)).
    + apply bindW_inv in Hrun as ([[[[g t] nov] info] fusion] & w3 & HN & Hrun).
      apply novel_in_gene_run in HN as (Hg & _ & Hv2g & Hout & _); [|done..].
      unfold retW in Hrun. injection Hrun as <- <-. cbn [v_gene v_info].
      split; [done|]. split; [done|].
      destruct Hout as [(-> & _)|(gene & tid & i & -> & _ & -> & Hshape & Hfsm)].
      * by left.
      * right. rewrite <- Hlen. eauto.
    + unfold retW in Hrun. injection Hrun as <- <-.
      split; [apply store_grows_refl|done].
Qed.

End ClassifierFacts.



Lemma sum_replicate_0 (k : nat) : Py.sum (replicate k 0) = 0.
Proof. induction k as [|k IH]; [done|]. simpl. by rewrite IH. Qed.

Lemma check_all_SJs_known_zeros (k : nat) : check_all_SJs_known (replicate k 0) = true.
Proof.
  assert (Hz : Forall (λ x, x = 0) (Py.evens (replicate k 0))).
  { apply evens_Forall. by apply Forall_replicate. }
  assert (Hs : (Py.sum (Py.evens (replicate k 0)) >? 0) = false).
  { apply sum_flags_zero; [|done]. eapply Forall_impl; [exact Hz|]. intros x ->. by left. }
  destruct k as [|[|k]]; [done|done|].
  change (check_all_SJs_known (replicate (S (S k)) 0))
    with (if Py.sum (Py.evens (replicate (S (S k)) 0)) >? 0 then false else true).
  by rewrite Hs.
Qed.

Section Reclassify.

Variable sql_group_by_gene : list t_row → list t_row.

(** What the first classification of a read leaves behind. *)
Lemma identify_transcript_first_run chrom positions s
    (gene_starts gene_ends : gmap Z (list (Z * Z))) opts w a w' :
  (4 ≤ length positions)%nat →
  identify_transcript sql_group_by_gene chrom positions s gene_starts gene_ends opts w
  = inr (a, w') →
  ∃ vertex_IDs edge_IDs,
    Forall2 (vertex_at chrom (location_dict (w_store w'))) (Py.interior positions)
            vertex_IDs
    ∧ vertex_IDs ≠ []
    ∧ (∀ st2 s', edge_dict (w_store w') ⊆ edge_dict st2 →
         match_edges_from vertex_IDs Intron s' st2
         = inr ((edge_IDs, replicate (length edge_IDs) 0), st2))
    ∧ has_FSM_for edge_IDs (Py.len positions `div` 2) (transcript_dict (w_store w'))
    ∧ vertex_2_gene w'
      = update_vertex_2_gene (a_gene_ID a)
          ([a_start_vertex a] ++ vertex_IDs ++ [a_end_vertex a]) s (vertex_2_gene w).
Proof.
  intros Hp Hrun. unfold identify_transcript, match_splice_vertices,
    match_all_splice_edges in Hrun.
  destruct (match_vertices_at_rerun chrom (o_run opts) (Py.interior positions) (w_store w))
    as (vids & vnov & st0 & Hv & Hkept & _ & _ & _ & _ & _ & Hall).
  destruct (match_edges_from_rerun vids s Intron st0)
    as (eids & enov & st1 & He & Hsub & Hloc & _ & _ & Hlen & _ & _ & Hre).
  rewrite (bindW_inr _ _ _ _ _ (in_store_inr _ _ _ _ Hv)) in Hrun. cbn beta iota in Hrun.
  rewrite (bindW_inr _ _ _ _ _ (in_store_inr _ (with_store w st0) _ _ He)) in Hrun.
  cbn beta iota in Hrun. rewrite with_store_with_store in Hrun.
  assert (Hvl : length vids = (length positions - 2)%nat).
  { rewrite <- (Forall2_length _ _ _ Hall). apply length_interior. }
  assert (Hvne : vids ≠ []) by (destruct vids; [simpl in Hvl; lia|done]).
  assert (Hn : (Py.len eids + 3) `div` 2 = Py.len positions `div` 2).
  { unfold Py.len. f_equal. lia. }
  apply bindW_inv in Hrun as (v1 & w1 & H1 & Hrun).
  apply look_for_FSM_ISM_NIC_run in H1 as (Hg1 & Hv1 & Hinv1); [|done..].
  apply bindW_inv in Hrun as (v2 & w2 & H2 & Hrun).
  apply look_for_antisense_NNC_run in H2 as (Hg2 & Hv2 & Hinv2); [|done..].
  apply bindW_inv in Hrun as ([[[[gene tid] g_nov] t_nov] info] & w3 & Hfin & Hrun).
  assert (H3 : store_grows (w_store w2) (w_store w3)
               ∧ vertex_2_gene w3 = vertex_2_gene w2
               ∧ has_FSM_for eids (Py.len positions `div` 2)
                             (transcript_dict (w_store w3))
               ∧ ∃ i, info = SeInfo i
                      ∧ se_vertex_IDs i = [se_start_vertex i] ++ vids ++ [se_end_vertex i]).
  { destruct (v_gene v2) as [g|] eqn:Eg.
    - unfold retW in Hfin. injection Hfin as <- <- <- <- <- <-.
      split; [apply store_grows_refl|]. split; [done|].
      destruct Hinv2 as [?|[? ?]]; [congruence|done].
    - apply bindW_inv in Hfin as ([[[[g t] gn] tn] i] & w4 & HR & Hfin).
      apply remaining_run in HR as (Hg3 & Hv3 & Hshape & Hfsm); [|done..].
      unfold retW in Hfin. injection Hfin as <- <- <- <- <- <-.
      split; [done|]. split; [done|]. rewrite <- Hn. split; [done|]. eauto. }
  destruct H3 as (Hg3 & Hv3 & Hfsm & i & -> & Hshape).
  apply bindW_inv in Hrun as (i' & w4 & Hsubs & Hrun).
  apply liftW_inv in Hsubs as [Hsubs ->]. cbn [subscript_info] in Hsubs.
  injection Hsubs as <-.
  apply bindW_inv in Hrun as ([] & w5 & Hupd & Hrun). injection Hupd as <-.
  destruct (construct_names _ _ _ _) as [n1 n2].
  apply bindW_inv in Hrun as (t_nov' & w6 & Ht & Hrun).
  assert (Hw6 : w6 = {| w_store := w_store w3; w_gene_counter := w_gene_counter w3;
                        tmp_gene := tmp_gene w3;
                        vertex_2_gene := update_vertex_2_gene gene (se_vertex_IDs i) s
                                           (vertex_2_gene w3);
                        tmp_monoexon := tmp_monoexon w3 |}).
  { destruct (0 <? Py.len t_nov); [destruct tid|]; unfold retW, liftW in Ht; try done.
    all: by injection Ht as <- <-. }
  unfold retW in Hrun. injection Hrun as <- <-. subst w6.
  cbn [w_store vertex_2_gene a_gene_ID a_start_vertex a_end_vertex].
  assert (Hgrow : store_grows st1 (w_store w3)).
  { cbn [w_store with_store] in Hg1.
    eapply store_grows_trans; [exact Hg1|]. by eapply store_grows_trans. }
  exists vids, eids. split_and!.
  - eapply Forall2_impl; [exact Hall|]. intros p id (vx & Hvx & Hid).
    exists vx. split; [|done]. apply Hgrow. by rewrite Hloc.
  - done.
  - intros st2 s' Hsub2. apply Hre. etrans; [|exact Hsub2]. apply Hgrow.
  - done.
  - rewrite Hshape, Hv3, Hv2, Hv1. done.
Qed.

Lemma look_for_FSM_found chrom positions s edge_IDs vertex_IDs known_vs
    (gene_starts gene_ends : gmap Z (list (Z * Z))) ri v0 w :
  (2 ≤ length positions)%nat → vertex_IDs ≠ [] →
  has_FSM_for edge_IDs (Py.len positions `div` 2) (transcript_dict (w_store w)) →
  ∃ key T i st',
    (key, T) ∈ transcript_dict (w_store w)
    ∧ n_exons T = Py.len positions `div` 2
    ∧ keeps_transcripts (w_store w) st'
    ∧ look_for_FSM_ISM_NIC sql_group_by_gene chrom positions s edge_IDs vertex_IDs
        true known_vs gene_starts gene_ends ri v0 w
      = inr ({| v_gene := Some (gene_ID T); v_transcript := Some (transcript_ID T);
                v_gene_novelty := v_gene_novelty v0; v_transcript_novelty := [];
                v_info := SeInfo i; v_fusion := v_fusion v0 |},
             with_store w st').
Proof.
  intros Hp Hv (key0 & T0 & Hin0 & Hsub0 & Hn0).
  destruct (search_for_ISM_found edge_IDs (transcript_dict (w_store w)) key0 T0 Hin0 Hsub0)
    as (ms & Hms & HT0).
  destruct (FSM_candidates_head positions ms T0 HT0 Hn0) as (T & cands & Hc & HT & HnT).
  destruct (process_FSM_grows chrom positions s edge_IDs vertex_IDs ms gene_starts
              gene_ends ri (w_store w) Hp Hv)
    as (g & t & info & st' & HF & Hg & Hk & Hcase).
  destruct Hcase as [(Hnil & _)|(T' & cands' & i & Hc' & -> & -> & -> & _)];
    [congruence|].
  rewrite Hc in Hc'. injection Hc' as <- <-.
  apply (search_for_ISM_elem _ _ _ _ Hms) in HT as (key & Hin & _).
  exists key, T, i, st'. split; [done|]. split; [done|]. split; [done|].
  unfold look_for_FSM_ISM_NIC.
  unfold bindW at 1, getsW at 1. cbn beta iota.
  unfold bindW at 1. rewrite Hms.
  rewrite (bindW_inr _ _ _ _ _ (in_store_inr _ _ _ _ HF)). done.
Qed.

(** X17. Once [identify_transcript] has classified a read of two exons or
    more, classifying the same read again finds a full splice match: it
    returns the gene and the ID of a transcript already stored, with as many
    exons as the read, reports no gene or transcript novelty, and creates no
    transcript and no gene. *)
Theorem reclassified_read_is_a_full_splice_match chrom positions s
    (gene_starts gene_ends : gmap Z (list (Z * Z))) opts w a w' :
  (4 ≤ length positions)%nat →
  identify_transcript sql_group_by_gene chrom positions s gene_starts gene_ends opts w
  = inr (a, w') →
  ∃ a' w'' key T,
    identify_transcript sql_group_by_gene chrom positions s gene_starts gene_ends opts w'
    = inr (a', w'')
    ∧ (key, T) ∈ transcript_dict (w_store w')
    ∧ n_exons T = Py.len positions `div` 2
    ∧ a_gene_ID a' = gene_ID T
    ∧ a_transcript_ID a' = Some (transcript_ID T)
    ∧ gene_novelty a' = []
    ∧ transcript_novelty a' = []
    ∧ keeps_transcripts (w_store w') (w_store w'')
    ∧ same_genes w' w''.
Proof.
  intros Hp Hrun.
  destruct (identify_transcript_first_run _ _ _ _ _ _ _ _ _ Hp Hrun)
    as (vids & eids & Hall & Hvne & Hre & (key0 & T0 & Hin0 & Hsub0 & Hn0) & _).
  clear Hrun a w. rename w' into w.
  unfold identify_transcript, match_splice_vertices, match_all_splice_edges.
  pose proof (match_vertices_at_known chrom (o_run opts) _ _ _ Hall) as Hv.
  rewrite (bindW_inr _ _ _ _ _ (in_store_inr _ _ _ _ Hv)). cbn beta iota.
  rewrite with_store_same.
  rewrite (bindW_inr _ _ _ _ _ (in_store_inr _ _ _ _ (Hre (w_store w) s ltac:(done)))).
  cbn beta iota. rewrite with_store_same.
  rewrite check_all_SJs_known_zeros, sum_replicate_0, bool_decide_true by done.
  assert (Hfsm : has_FSM_for eids (Py.len positions `div` 2) (transcript_dict (w_store w)))
    by (exists key0, T0; done).
  destruct (look_for_FSM_found chrom positions s eids vids true gene_starts gene_ends
              (o_run opts)
              {| v_gene := None; v_transcript := None; v_gene_novelty := [];
                 v_transcript_novelty := []; v_info := SeNone; v_fusion := false |}
              w ltac:(lia) Hvne Hfsm)
    as (key & T & i & st' & Hin & HnT & Hk & Hlook).
  rewrite (bindW_inr _ _ _ _ _ Hlook).
  unfold look_for_antisense_NNC, bindW, retW, liftW.
  cbn -[construct_names update_vertex_2_gene Py.evens novel_exons].
  destruct (construct_names _ _ _ _) as [n1 n2].
  eexists _, _, key, T. split; [reflexivity|].
  cbn [a_gene_ID a_transcript_ID gene_novelty transcript_novelty w_store with_store].
  split; [done|]. split; [done|]. split; [done|]. split; [done|].
  split; [done|]. split; [done|]. split; [done|]. done.
Qed.

End Reclassify.

Lemma reclassified_read_is_a_full_splice_match_witness :
  ∃ a w' a' w'',
    identify_transcript first_per_gene "chr1" [100; 250; 300; 400] Plus ∅ ∅
                        plain_options chr1_worker = inr (a, w')
    ∧ transcript_novelty a ≠ []
    ∧ identify_transcript first_per_gene "chr1" [100; 250; 300; 400] Plus ∅ ∅
                          plain_options w' = inr (a', w'')
    ∧ a_transcript_ID a' = a_transcript_ID a
    ∧ transcript_novelty a' = [].
Proof.
  destruct (identify_transcript first_per_gene "chr1" [100; 250; 300; 400] Plus ∅ ∅
              plain_options chr1_worker) as [e|[a w']] eqn:E.
  { vm_compute in E. discriminate. }
  destruct (reclassified_read_is_a_full_splice_match first_per_gene "chr1"
              [100; 250; 300; 400] Plus ∅ ∅ plain_options chr1_worker a w'
              ltac:(simpl; lia) E)
    as (a' & w'' & key & T & Hrun & Hin & _ & _ & Htid & _ & Hnov & _).
  exists a, w', a', w''. split; [done|].
  vm_compute in E. injection E as <- <-.
  split; [done|]. split; [exact Hrun|]. split; [|exact Hnov].
  vm_compute in Hrun. injection Hrun as <- <-. reflexivity.
Defined.



(** ** One process at a time inside [increment] *)

(** X18. In every state that any interleaving of calls to [increment] can
    reach, a process is between its first read of the value and its return
    only while it holds the lock, so at most one process is; and whenever
    the lock is free the stored value is the initial value plus the number
    of calls completed so far, as a C [int]: no update is lost. *)
Theorem increment_is_mutually_exclusive initval (s : Shared.state) :
  Shared.reachable initval s →
  (∀ t, ¬ SharedInv.outside (Shared.procs s t) → Shared.lock s = Some t)
  ∧ (∀ t t', ¬ SharedInv.outside (Shared.procs s t) →
             ¬ SharedInv.outside (Shared.procs s t') → t = t')
  ∧ (Shared.lock s = None →
     Shared.val s = c_int (initval + Z.of_nat (length (Shared.returned s)))).
Proof.
  intros Hr. pose proof (SharedFacts.invariant_reachable initval s Hr) as Hinv.
  split_and!.
  - intros t. by apply (SharedFacts.holder_is_inside initval).
  - intros t t' Ht Ht'.
    pose proof (SharedFacts.holder_is_inside initval s t Hinv Ht) as H1.
    pose proof (SharedFacts.holder_is_inside initval s t' Hinv Ht') as H2.
    congruence.
  - intros Hfree. destruct Hinv as [_ Hinv]. rewrite Hfree in Hinv. by destruct Hinv.
Qed.

Lemma increment_is_mutually_exclusive_witness :
  Shared.reachable 7 one_inside_one_waiting
  ∧ Shared.procs one_inside_one_waiting 0%nat = Shared.Read
  ∧ Shared.procs one_inside_one_waiting 1%nat = Shared.Acquire
  ∧ Shared.lock one_inside_one_waiting = Some 0%nat
  ∧ ∀ t, ¬ SharedInv.outside (Shared.procs one_inside_one_waiting t) → t = 0%nat.
Proof.
  assert (Hreach : Shared.reachable 7 one_inside_one_waiting).
  { unfold Shared.reachable, one_inside_one_waiting, Shared.init.
    eapply rtc_l; [apply (Shared.step_call _ 0); reflexivity|]. simpl.
    eapply rtc_l; [apply (Shared.step_call _ 1); reflexivity|]. simpl.
    eapply rtc_l; [apply (Shared.step_acquire _ 0); reflexivity|]. simpl.
    eapply rtc_l; [apply (Shared.step_load _ 0); reflexivity|]. simpl.
    eapply rtc_l; [apply (Shared.step_store _ 0 (c_int 7)); reflexivity|]. simpl.
    apply rtc_refl. }
  destruct (increment_is_mutually_exclusive 7 one_inside_one_waiting Hreach)
    as (Hlock & Hone & _).
  assert (Hin : ¬ SharedInv.outside (Shared.procs one_inside_one_waiting 0%nat)).
  { intros [H|H]; discriminate H. }
  split; [done|]. split; [reflexivity|]. split; [reflexivity|].
  split; [by apply Hlock|]. intros t Ht. by apply (Hone t 0%nat).
Defined.



(** ** What the listener writes *)

Lemma not_stops_test wait_until now (f : option string) (v : string) :
  ¬ stops wait_until (now, (f, v)) →
  bool_decide (now > wait_until) || String.eqb v "complete" = false.
Proof.
  unfold stops. cbn [fst snd]. intros Hn. apply orb_false_iff. split.
  - apply bool_decide_eq_false_2. tauto.
  - apply String.eqb_neq. tauto.
Qed.

Lemma listener_loop_writes wait_until pre : ∀ files,
  Forall (writable wait_until files) pre →
  ∀ rest,
  ∃ files',
    listener_loop wait_until (pre ++ rest) files = listener_loop wait_until rest files'
    ∧ ∀ f, files' !! f = (λ lines, lines ++ written_to f pre) <$> files !! f.
Proof.
  induction pre as [|[now [fn v]] pre IH]; intros files Hall rest.
  - exists files. split; [done|]. intros f. unfold written_to. simpl.
    destruct (files !! f); simpl; by rewrite ?app_nil_r.
  - inversion Hall as [|?? [Hgo (f0 & Hf0 & [lines Hlines])] Hrest]; subst.
    cbn [fst snd] in Hf0. subst fn.
    cbn [app listener_loop]. rewrite (not_stops_test _ _ (Some f0) v Hgo).
    unfold write_line. rewrite Hlines.
    set (files1 := <[f0 := lines ++ Str.split_on newline v ""]> files).
    destruct (IH files1) with (rest := rest) as (files' & Hrun & Hcontent).
    { eapply Forall_impl; [exact Hrest|]. intros a [Ha (f & Hf & Hopen)].
      split; [done|]. exists f. split; [done|]. unfold files1.
      destruct (decide (f = f0)) as [->|Hne]; [by rewrite lookup_insert_eq|].
      by rewrite lookup_insert_ne. }
    exists files'. split; [done|]. intros f. rewrite Hcontent. unfold files1.
    unfold written_to. cbn [mbind list_bind fst snd]. fold (written_to f pre).
    destruct (decide (f0 = f)) as [->|Hne].
    + rewrite lookup_insert_eq, Hlines. simpl. by rewrite app_assoc.
    + rewrite lookup_insert_ne by done. destruct (files !! f); done.
Qed.

(** X19. The listener writes the messages it receives in time, each to the
    file it names, in the order of their arrival, after the header of the
    QC file; at the first message that is the sentinel or arrives after the
    deadline it closes the files and returns, and nothing that arrives later
    is written. Each file then holds the lines of the messages addressed to
    it before that point and nothing else. *)
Theorem listener_writes_in_arrival_order paths QC_header timeout start pre stop rest :
  let wait_until := start + 3600 * timeout in
  let opened := foldl (λ files fpath, <[fpath := []]> files) ∅ (path_values paths) in
  Forall (writable wait_until opened) pre →
  stops wait_until stop →
  ∃ files,
    listener paths QC_header timeout start (pre ++ stop :: rest) = (Closed, files)
    ∧ ∀ f, files !! f
           = (λ _, (if decide (f = p_qc paths)
                    then Str.split_on newline QC_header EmptyString else [])
                   ++ written_to f pre) <$> opened !! f.
Proof.
  intros wait_until opened Hpre Hstop. unfold listener. fold opened.
  assert (Hopen : ∀ f, is_Some (opened !! f) → opened !! f = Some []).
  { unfold opened. generalize (path_values paths). intros l.
    assert (H : ∀ (m : gmap string (list string)),
              (∀ f, is_Some (m !! f) → m !! f = Some []) →
              ∀ f, is_Some (foldl (λ files fpath, <[fpath := []]> files) m l !! f) →
                   foldl (λ files fpath, <[fpath := []]> files) m l !! f = Some []).
    { induction l as [|p l IH]; intros m Hm f; [by apply Hm|].
      simpl. apply IH. intros f' Hf'. destruct (decide (p = f')) as [->|Hne].
      - by rewrite lookup_insert_eq.
      - rewrite lookup_insert_ne in Hf' |- * by done. by apply Hm. }
    apply H. intros f [x Hx]. by rewrite lookup_empty in Hx. }
  assert (Hqc : opened !! p_qc paths = Some []).
  { apply Hopen. unfold opened, path_values. cbn [foldl].
    do 10 (apply lookup_insert_is_Some'; right).
    apply lookup_insert_is_Some'. by left. }
  unfold write_line. rewrite Hqc. rewrite app_nil_l. fold wait_until.
  set (files0 := <[p_qc paths := Str.split_on newline QC_header ""]> opened).
  destruct (listener_loop_writes wait_until pre files0) with (rest := stop :: rest)
    as (files' & Hrun & Hcontent).
  { eapply Forall_impl; [exact Hpre|]. intros a [Ha (f & Hf & Hop)].
    split; [done|]. exists f. split; [done|]. unfold files0.
    destruct (decide (f = p_qc paths)) as [->|Hne]; [by rewrite lookup_insert_eq|].
    by rewrite lookup_insert_ne. }
  exists files'. split.
  - rewrite Hrun. by apply listener_loop_stop.
  - intros f. rewrite Hcontent. unfold files0.
    destruct (decide (f = p_qc paths)) as [->|Hne].
    + rewrite lookup_insert_eq, Hqc. done.
    + rewrite lookup_insert_ne by done. destruct (opened !! f) eqn:E; [|done].
      rewrite (Hopen f) in E by (by rewrite E). injection E as <-. done.
Qed.

Lemma listener_writes_in_arrival_order_witness :
  ∃ files,
    listener tmp_paths "# header" 72 0
             [(10, (Some (p_genes tmp_paths), tsv ["1"; "+"]));
              (20, (None, "complete"));
              (30, (Some (p_genes tmp_paths), tsv ["2"; "-"]))]
    = (Closed, files)
    ∧ files !! p_genes tmp_paths = Some [tsv ["1"; "+"]].
Proof.
  destruct (listener_writes_in_arrival_order tmp_paths "# header" 72 0
              [(10, (Some (p_genes tmp_paths), tsv ["1"; "+"]))]
              (20, (None, "complete"))
              [(30, (Some (p_genes tmp_paths), tsv ["2"; "-"]))])
    as (files & Hrun & Hcontent).
  - constructor; [|constructor]. split.
    + unfold stops. cbn [fst snd]. intros [H|H]; [lia|discriminate].
    + exists (p_genes tmp_paths). split; [done|]. vm_compute. eauto.
  - right. reflexivity.
  - exists files. split; [exact Hrun|]. rewrite Hcontent. vm_compute. reflexivity.
Defined.



(** ** The gene a read is assigned *)

Lemma max_by_count_in tally : ∀ best g,
  max_by_count tally best = Some g →
  g ∈ tally.*1 ∨ ∃ n, best = Some (g, n).
Proof.
  induction tally as [|[g0 n0] tally IH]; intros best g.
  - simpl. destruct best as [[g' n']|]; [|done]. intros [= <-]. right. eauto.
  - simpl. intros H.
    assert (Hcase : max_by_count tally (Some (g0, n0)) = Some g
                    ∨ max_by_count tally best = Some g).
    { destruct best as [[g' n']|]; [destruct (n' <? n0)%nat|]; auto. }
    destruct Hcase as [Hc|Hc]; apply IH in Hc as [Hin|[n Hn]].
    + left. by right.
    + injection Hn as <- <-. left. left.
    + left. by right.
    + right. eauto.
Qed.

Lemma find_gene_match_shape vertex_IDs s (d : gmap Z (list (Z * strand))) gene fusion :
  find_gene_match_on_vertex_basis vertex_IDs s d = (gene, fusion) →
  match gene with
  | NoGene => True
  | OneGene g => g ∈ genes_hit vertex_IDs s d ∧ fusion = false
  | GeneCandidates gs =>
      gs = elements (genes_hit vertex_IDs s d) ∧ gs ≠ [] ∧ fusion = false
  end.
Proof.
  unfold find_gene_match_on_vertex_basis.
  pose proof (collect_gene_matches_genes vertex_IDs s d) as Hg.
  destruct (collect_gene_matches vertex_IDs s d) as [gm ngm]. simpl in Hg.
  unfold genes_hit. rewrite <- Hg.
  repeat case_decide.
  - by intros [= <- <-].
  - by intros [= <- <-].
  - intros [= <- <-]. rewrite gene_tally_keys. split; [done|]. split; [|done].
    intros Hnil.
    assert (Hz : size (list_to_set gm : gset Z) = 0%nat).
    { unfold size, set_size. simpl. by rewrite Hnil. }
    rewrite gene_tally_length in *. lia.
  - destruct (max_by_count (gene_tally gm) None) as [g|] eqn:Em; intros [= <- <-]; [|done].
    apply max_by_count_in in Em as [Hin|[n Hn]]; [|done].
    rewrite gene_tally_keys in Hin. split; [|done]. by apply elem_of_elements in Hin.
Qed.

Lemma best_match_loop_in l min_end max_end : ∀ md bm m,
  best_match_loop l min_end max_end md bm = Some m → m ∈ l ∨ bm = Some m.
Proof.
  induction l as [|x l IH]; intros md bm m; [by right|].
  simpl. destruct (end_distance x min_end max_end <? md); intros H; apply IH in H.
  - destruct H as [H|[= <-]]; left; [by right|left].
  - destruct H as [H|H]; [left; by right|by right].
Qed.

Section TieBreak.

Variable sql_group_by_gene : list t_row → list t_row.

Lemma overlap_search_among_candidates chrom a b s table g0 gs g ms :
  search_for_overlap_with_gene sql_group_by_gene chrom a b s table (Some (g0 :: gs))
  = inr (Some g, ms) →
  g ∈ g0 :: gs ∧ ∃ r, r ∈ table ∧ r_gene_ID r = g.
Proof.
  unfold search_for_overlap_with_gene, overlap_query.
  set (matches := filter (λ r, r_gene_ID r ∈ g0 :: gs)
                         (filter (λ r, r_gene_ID r ∈ g0 :: gs) table)).
  case_decide; [done|].
  set (kept := if bool_decide _ then filter (λ x, r_strand x = Plus) matches
               else filter (λ x, r_strand x = Minus) matches).
  unfold get_best_match.
  destruct (best_match_loop kept _ _ sys_maxsize None) as [best|] eqn:Eb; [|done].
  intros [= <- <-]. apply best_match_loop_in in Eb as [Hin|?]; [|done].
  assert (Hm : best ∈ matches).
  { unfold kept in Hin. case_bool_decide; by apply list_elem_of_filter in Hin as [_ ?]. }
  unfold matches in Hm. apply list_elem_of_filter in Hm as [Hc Hm].
  apply list_elem_of_filter in Hm as [_ Hm]. split; [done|]. eauto.
Qed.

(** X20. [assign_gene] leaves the worker as it is and never hands back a
    list of genes. A gene it returns is one that a vertex of the read is
    registered with on the strand of the read, and comes with the fusion
    flag off; when the candidates of the vertex search went to the
    tie-break, the gene is moreover that of a row of the temporary
    transcript table. With the fusion flag on, no gene is returned. *)
Theorem assign_gene_returns_a_registered_gene vertex_IDs s chrom start end_ w
    gene fusion w' :
  assign_gene sql_group_by_gene vertex_IDs s chrom start end_ w
  = inr ((gene, fusion), w') →
  w' = w
  ∧ match gene with
    | NoGene => True
    | OneGene g =>
        g ∈ genes_hit vertex_IDs s (listed (vertex_2_gene w)) ∧ fusion = false
    | GeneCandidates _ => False
    end
  ∧ (fusion = true → gene = NoGene).
Proof.
  intros Hrun. split; [by eapply assign_gene_state|].
  unfold assign_gene, bindW, getsW, retW, liftW in Hrun.
  destruct (find_gene_match_on_vertex_basis vertex_IDs s (listed (vertex_2_gene w)))
    as [found fus] eqn:Ef.
  pose proof (find_gene_match_shape _ _ _ _ _ Ef) as Hshape.
  destruct found as [|g|gs].
  - destruct fus; injection Hrun as <- <- <-; done.
  - destruct Hshape as [Hin ->]. injection Hrun as <- <- <-. done.
  - destruct Hshape as (Hgs & Hne & ->).
    destruct gs as [|g0 gs]; [done|].
    destruct (search_for_overlap_with_gene _ _ _ _ _ _ _) as [e|[g' ms]] eqn:Es; [done|].
    injection Hrun as <- <- <-. split; [|done].
    destruct g' as [g|]; [|done]. cbn [gene_of_option].
    apply overlap_search_among_candidates in Es as [Hin _].
    rewrite Hgs in Hin. split; [|done]. by apply elem_of_elements in Hin.
Qed.

End TieBreak.

Lemma assign_gene_returns_a_registered_gene_witness :
  assign_gene first_per_gene [2; 3] Plus "chr1" 100 400 chr1_worker
  = inr ((OneGene 1, false), chr1_worker)
  ∧ 1 ∈ genes_hit [2; 3] Plus (listed (vertex_2_gene chr1_worker)).
Proof.
  assert (E : assign_gene first_per_gene [2; 3] Plus "chr1" 100 400 chr1_worker
              = inr ((OneGene 1, false), chr1_worker)) by (vm_compute; reflexivity).
  split; [exact E|].
  destruct (assign_gene_returns_a_registered_gene first_per_gene _ _ _ _ _ _ _ _ _ E)
    as (_ & [H _] & _).
  exact H.
Defined.



Section Registration.

Variable sql_group_by_gene : list t_row → list t_row.

(** X21. When [identify_transcript] has classified a read of two exons or
    more, every vertex of the transcript, the two end vertices it reports
    and the vertices at the splice junction positions of the read, is
    registered in [vertex_2_gene] with the gene it reports and the strand of
    the read. What was registered before is still there, and vertices that
    are not of this transcript have the sets they had. *)
Theorem identify_transcript_registers_its_vertices chrom positions s
    (gene_starts gene_ends : gmap Z (list (Z * Z))) opts w a w' :
  (4 ≤ length positions)%nat →
  identify_transcript sql_group_by_gene chrom positions s gene_starts gene_ends opts w
  = inr (a, w') →
  ∃ vertex_IDs,
    Forall2 (vertex_at chrom (location_dict (w_store w'))) (Py.interior positions)
            vertex_IDs
    ∧ (∀ v, v ∈ [a_start_vertex a] ++ vertex_IDs ++ [a_end_vertex a] →
         ∃ genes, vertex_2_gene w' !! v = Some genes ∧ (a_gene_ID a, s) ∈ genes)
    ∧ (∀ v genes, vertex_2_gene w !! v = Some genes →
         ∃ genes', vertex_2_gene w' !! v = Some genes' ∧ genes ⊆ genes')
    ∧ (∀ v, v ∉ [a_start_vertex a] ++ vertex_IDs ++ [a_end_vertex a] →
         vertex_2_gene w' !! v = vertex_2_gene w !! v).
Proof.
  intros Hp Hrun.
  destruct (identify_transcript_first_run _ _ _ _ _ _ _ _ _ _ Hp Hrun)
    as (vids & eids & Hall & _ & _ & _ & Hv2g).
  exists vids. split; [done|]. rewrite Hv2g. split_and!.
  - intros v Hv. rewrite update_vertex_2_gene_lookup, decide_True by done.
    eexists. split; [done|]. apply elem_of_union. right. by apply elem_of_singleton.
  - intros v genes Hgenes. rewrite update_vertex_2_gene_lookup.
    case_decide; [|eauto]. eexists. split; [done|]. rewrite Hgenes. simpl.
    apply union_subseteq_l.
  - intros v Hv. by rewrite update_vertex_2_gene_lookup, decide_False.
Qed.

End Registration.

Lemma identify_transcript_registers_its_vertices_witness :
  ∃ a w',
    identify_transcript first_per_gene "chr1" [100; 250; 300; 400] Plus ∅ ∅
                        plain_options chr1_worker = inr (a, w')
    ∧ ∃ genes, vertex_2_gene w' !! a_start_vertex a = Some genes
               ∧ (a_gene_ID a, Plus) ∈ genes.
Proof.
  destruct (identify_transcript first_per_gene "chr1" [100; 250; 300; 400] Plus ∅ ∅
              plain_options chr1_worker) as [e|[a w']] eqn:E.
  { vm_compute in E. discriminate. }
  destruct (identify_transcript_registers_its_vertices first_per_gene "chr1"
              [100; 250; 300; 400] Plus ∅ ∅ plain_options chr1_worker a w'
              ltac:(simpl; lia) E) as (vids & _ & Hreg & _).
  exists a, w'. split; [done|]. apply Hreg. left.
Defined.


Lemma overlap_with_nonneg start end_ m : 0 ≤ overlap_with start end_ m.
Proof. unfold overlap_with, get_overlap. simpl. lia. Qed.

Lemma overlap_with_reversed start end_ m : end_ < start → overlap_with start end_ m = 0.
Proof. unfold overlap_with, get_overlap. simpl. lia. Qed.

Lemma best_overlap_loop_spec matches start end_ best_overlap best_match :
  (∀ b, best_match = Some b → overlap_with start end_ b = best_overlap) →
  (∃ pre b post,
      matches = pre ++ b :: post
      ∧ best_overlap_loop matches start end_ best_overlap best_match = Some b
      ∧ best_overlap ≤ overlap_with start end_ b
      ∧ (∀ m, m ∈ pre → overlap_with start end_ m ≤ overlap_with start end_ b)
      ∧ (∀ m, m ∈ post → overlap_with start end_ m < overlap_with start end_ b))
  ∨ (best_overlap_loop matches start end_ best_overlap best_match = best_match
     ∧ ∀ m, m ∈ matches → overlap_with start end_ m < best_overlap).
Proof.
  revert best_overlap best_match.
  induction matches as [|m rest IH]; intros best_overlap best_match Hbest.
  { right. split; [done|]. intros m Hm. by apply elem_of_nil in Hm. }
  cbn [best_overlap_loop].
  destruct (get_overlap (start, end_) (m_start m, m_end m)) as [overlap perc] eqn:Eo.
  assert (Ho : overlap_with start end_ m = overlap) by (unfold overlap_with; by rewrite Eo).
  destruct (overlap >=? best_overlap) eqn:Ege.
  - apply Z.geb_le in Ege.
    destruct (IH overlap (Some m)) as [(pre & b & post & -> & Hrun & Hle & Hpre & Hpost)
                                      |[Hrun Hall]].
    { by intros b [= <-]. }
    + left. exists (m :: pre), b, post. split_and!; [done|done|lia| |done].
      intros m' [->|Hm']%elem_of_cons; [lia|by apply Hpre].
    + left. exists [], m, rest. split_and!; [done|done|lia| |].
      * intros m' Hm'. by apply elem_of_nil in Hm'.
      * intros m' Hm'. rewrite Ho. by apply Hall.
  - assert (overlap < best_overlap) by (rewrite Z.geb_leb in Ege; apply Z.leb_gt in Ege; lia).
    destruct (IH best_overlap best_match Hbest)
      as [(pre & b & post & -> & Hrun & Hle & Hpre & Hpost)|[Hrun Hall]].
    + left. exists (m :: pre), b, post. split_and!; [done|done|done| |done].
      intros m' [->|Hm']%elem_of_cons; [lia|by apply Hpre].
    + right. split; [done|]. intros m' [->|Hm']%elem_of_cons; [lia|by apply Hall].
Qed.

(** The tie-break on a list of matches that is not empty: the last row of
    the largest overlap. *)
Lemma best_overlap_loop_last_max matches start end_ :
  matches ≠ [] →
  ∃ pre b post,
    matches = pre ++ b :: post
    ∧ best_overlap_loop matches start end_ 0 None = Some b
    ∧ (∀ m, m ∈ pre → overlap_with start end_ m ≤ overlap_with start end_ b)
    ∧ (∀ m, m ∈ post → overlap_with start end_ m < overlap_with start end_ b).
Proof.
  intros Hne.
  destruct (best_overlap_loop_spec matches start end_ 0 None)
    as [(pre & b & post & -> & Hrun & _ & Hpre & Hpost)|[_ Hall]]; [done| |].
  - by exists pre, b, post.
  - destruct matches as [|m rest]; [done|].
    specialize (Hall m ltac:(left)). pose proof (overlap_with_nonneg start end_ m). lia.
Qed.

Section MonoexonFacts.

Variable sql_group_by_gene : list t_row → list t_row.

Lemma identify_monoexon_known chrom positions s
    (gene_starts gene_ends : gmap Z (list (Z * Z))) opts w start end_ b :
  Py.index positions 0 = inr start →
  Py.index_back positions 0 = inr end_ →
  overlapping_monoexons chrom s start end_ (tmp_monoexon w) ≠ [] →
  best_overlap_loop (overlapping_monoexons chrom s start end_ (tmp_monoexon w))
                    start end_ 0 None = Some b →
  identify_monoexon_transcript sql_group_by_gene chrom positions s gene_starts gene_ends
                               opts w
  = inr (known_monoexon b start end_ s, w).
Proof.
  intros Hs He Hne Hbest. unfold identify_monoexon_transcript.
  rewrite (bindW_inr _ _ w start w) by (by rewrite Hs).
  rewrite (bindW_inr _ _ w end_ w) by (by rewrite He).
  rewrite (bindW_inr _ _ w (tmp_monoexon w) w) by done.
  fold (overlapping_monoexons chrom s start end_ (tmp_monoexon w)).
  destruct (overlapping_monoexons chrom s start end_ (tmp_monoexon w)) as [|m rest] eqn:Em;
    [done|].
  replace (0 <? Py.len (m :: rest)) with true
    by (symmetry; apply Z.ltb_lt; unfold Py.len; simpl; lia).
  by rewrite Hbest.
Qed.

(** X22. When single-exon transcripts of the table overlap the read,
    [identify_monoexon_transcript] reports one of them and changes nothing:
    the row of the largest overlap with the read, and among rows of that
    overlap the one the query lists last. *)
Theorem monoexon_match_is_last_of_largest_overlap chrom positions s
    (gene_starts gene_ends : gmap Z (list (Z * Z))) opts w start end_ :
  Py.index positions 0 = inr start →
  Py.index_back positions 0 = inr end_ →
  overlapping_monoexons chrom s start end_ (tmp_monoexon w) ≠ [] →
  ∃ pre b post,
    overlapping_monoexons chrom s start end_ (tmp_monoexon w) = pre ++ b :: post
    ∧ identify_monoexon_transcript sql_group_by_gene chrom positions s
                                   gene_starts gene_ends opts w
      = inr (known_monoexon b start end_ s, w)
    ∧ (∀ m, m ∈ pre → overlap_with start end_ m ≤ overlap_with start end_ b)
    ∧ (∀ m, m ∈ post → overlap_with start end_ m < overlap_with start end_ b).
Proof.
  intros Hs He Hne.
  destruct (best_overlap_loop_last_max _ start end_ Hne)
    as (pre & b & post & Hsplit & Hbest & Hpre & Hpost).
  exists pre, b, post. split_and!; [done| |done|done].
  by apply identify_monoexon_known.
Qed.

(** X23. A read whose first position lies after its last one (a read of
    the minus strand) has overlap 0 with every row, so that the match is the
    last row the query returns, whatever the extent of the rows. *)
Theorem monoexon_match_of_reversed_read_is_last_row chrom positions s
    (gene_starts gene_ends : gmap Z (list (Z * Z))) opts w start end_ rows b :
  Py.index positions 0 = inr start →
  Py.index_back positions 0 = inr end_ →
  end_ < start →
  overlapping_monoexons chrom s start end_ (tmp_monoexon w) = rows ++ [b] →
  identify_monoexon_transcript sql_group_by_gene chrom positions s gene_starts gene_ends
                               opts w
  = inr (known_monoexon b start end_ s, w).
Proof.
  intros Hs He Hrev Hrows.
  assert (Hne : overlapping_monoexons chrom s start end_ (tmp_monoexon w) ≠ []).
  { rewrite Hrows. by destruct rows. }
  apply identify_monoexon_known; [done|done|done|].
  destruct (best_overlap_loop_last_max _ start end_ Hne)
    as (pre & b' & post & Hsplit & Hbest & _ & Hpost).
  rewrite Hbest. f_equal.
  destruct post as [|m post].
  - rewrite Hrows in Hsplit. by apply app_inj_tail in Hsplit as [_ ->].
  - specialize (Hpost m ltac:(left)).
    rewrite !overlap_with_reversed in Hpost by done. lia.
Qed.

Lemma mono_where_own_interval chrom s start end_ r :
  m_chromosome r = chrom → m_strand r = s →
  m_min_pos r = Z.min start end_ → m_max_pos r = Z.max start end_ →
  mono_where chrom s (Z.min start end_) (Z.max start end_) r = true.
Proof.
  intros Hc Hs Hmin Hmax. unfold mono_where.
  rewrite !bool_decide_eq_true_2 by done. rewrite Hmin, Hmax. simpl.
  replace (Z.min start end_ <=? Z.min start end_) with true
    by (symmetry; apply Z.leb_le; lia).
  replace (Z.max start end_ >=? Z.max start end_) with true
    by (symmetry; rewrite Z.geb_leb; apply Z.leb_le; lia).
  done.
Qed.

(** A successful run of the second branch leaves the single-exon table with
    one more row, the read's own. *)
Lemma identify_novel_monoexon_row chrom positions s start end_
    (gene_starts gene_ends : gmap Z (list (Z * Z))) opts w a w' :
  identify_novel_monoexon sql_group_by_gene chrom positions s start end_
                          gene_starts gene_ends opts w = inr (a, w') →
  ∃ t, a_transcript_ID a = Some t
       ∧ tmp_monoexon w'
         = tmp_monoexon w
           ++ [{| m_gene_ID := a_gene_ID a; m_transcript_ID := t; m_chromosome := chrom;
                  m_start := start; m_end := end_; m_strand := s;
                  m_start_vertex := a_start_vertex a; m_end_vertex := a_end_vertex a;
                  m_exon_ID := a_start_exon a;
                  m_min_pos := Z.min start end_; m_max_pos := Z.max start end_ |}].
Proof.
  intros Hrun. unfold identify_novel_monoexon in Hrun.
  apply bindW_inv in Hrun as ([[[vertex_IDs v_nov] d5] d3] & w1 & H1 & Hrun).
  apply in_store_inv in H1 as (st1 & _ & ->).
  apply bindW_inv in Hrun as ([edge_IDs e_nov] & w2 & H2 & Hrun).
  apply in_store_inv in H2 as (st2 & _ & ->).
  apply bindW_inv in Hrun as (e0 & w3 & H3 & Hrun).
  apply liftW_inv in H3 as [_ ->].
  apply bindW_inv in Hrun as ([[gene tid] t_nov] & w4 & H4 & Hrun).
  assert (Hm4 : tmp_monoexon w4 = tmp_monoexon w).
  { destruct (e0 =? 0); [|by injection H4 as <- <- <- <-].
    apply bindW_inv in H4 as (dict & wx & Hg & H4). injection Hg as <- <-.
    destruct (search_for_ISM edge_IDs _); [|by injection H4 as <- <- <- <-].
    apply bindW_inv in H4 as ([[[g0 t0] n0] i0] & wy & Hp & H4).
    apply in_store_inv in Hp as (st3 & _ & ->). by injection H4 as <- <- <- <-. }
  apply bindW_inv in Hrun as ([[[gene' tid'] g_nov] t_nov'] & w5 & H5 & Hrun).
  assert (Hm5 : tmp_monoexon w5 = tmp_monoexon w).
  { destruct gene as [g|]; [by injection H5 as <- <- <- <- <-|].
    apply bindW_inv in H5 as (p0 & wa & Ha & H5). apply liftW_inv in Ha as [_ ->].
    apply bindW_inv in H5 as (p1 & wa & Ha & H5). apply liftW_inv in Ha as [_ ->].
    apply bindW_inv in H5 as (table & wa & Ha & H5). injection Ha as <- <-.
    apply bindW_inv in H5 as ([found ms] & wa & Ha & H5). apply liftW_inv in Ha as [_ ->].
    apply bindW_inv in H5 as (p_last & wa & Ha & H5). apply liftW_inv in Ha as [_ ->].
    destruct found as [anti|]; [destruct (decide (ms ≠ Some s))|].
    - apply bindW_inv in H5 as (g & wa & Ha & H5). injection Ha as <- <-.
      apply bindW_inv in H5 as (novel & wb & Hb & H5).
      apply in_store_inv in Hb as (st3 & _ & ->). by injection H5 as <- <- <- <- <-.
    - apply bindW_inv in H5 as (novel & wb & Hb & H5).
      apply in_store_inv in Hb as (st3 & _ & ->). by injection H5 as <- <- <- <- <-.
    - apply bindW_inv in H5 as (g & wa & Ha & H5). injection Ha as <- <-.
      apply bindW_inv in H5 as (novel & wb & Hb & H5).
      apply in_store_inv in Hb as (st3 & _ & ->). by injection H5 as <- <- <- <- <-. }
  apply bindW_inv in Hrun as ([] & w6 & H6 & Hrun). injection H6 as <-.
  destruct (construct_names (Some gene') tid' (idprefix (o_run opts)) (n_places opts))
    as [gene_name transcript_name].
  apply bindW_inv in Hrun as (t & w7 & H7 & Hrun). apply liftW_inv in H7 as [Ht ->].
  apply bindW_inv in Hrun as (edge_0 & w8 & H8 & Hrun). apply liftW_inv in H8 as [_ ->].
  apply bindW_inv in Hrun as (vertex_0 & w9 & H9 & Hrun). apply liftW_inv in H9 as [_ ->].
  apply bindW_inv in Hrun as (vertex_last & w10 & H10 & Hrun).
  apply liftW_inv in H10 as [_ ->].
  apply bindW_inv in Hrun as ([] & w11 & H11 & Hrun). injection H11 as <-.
  apply bindW_inv in Hrun as (edge_last & w12 & H12 & Hrun).
  apply liftW_inv in H12 as [_ ->].
  injection Hrun as <- <-. exists t. split; [done|]. simpl. by rewrite Hm5.
Qed.

(** X24. A single-exon read that [identify_monoexon_transcript] has
    classified is a known transcript from then on: classified again, the same
    positions get the same gene, transcript, end vertices and exon, with no
    novelty rows and no change of the state. *)
Theorem monoexon_read_is_known_the_second_time chrom positions s
    (gene_starts gene_ends : gmap Z (list (Z * Z))) opts w a w' :
  identify_monoexon_transcript sql_group_by_gene chrom positions s gene_starts gene_ends
                               opts w = inr (a, w') →
  ∃ a',
    identify_monoexon_transcript sql_group_by_gene chrom positions s gene_starts gene_ends
                                 opts w' = inr (a', w')
    ∧ a_gene_ID a' = a_gene_ID a ∧ a_transcript_ID a' = a_transcript_ID a
    ∧ a_start_vertex a' = a_start_vertex a ∧ a_end_vertex a' = a_end_vertex a
    ∧ a_start_exon a' = a_start_exon a
    ∧ gene_novelty a' = [] ∧ transcript_novelty a' = [] ∧ exon_novelty a' = [].
Proof.
  intros Hrun. pose proof Hrun as Hfirst. unfold identify_monoexon_transcript in Hrun.
  apply bindW_inv in Hrun as (start & w1 & Hs & Hrun). apply liftW_inv in Hs as [Hs ->].
  apply bindW_inv in Hrun as (end_ & w1 & He & Hrun). apply liftW_inv in He as [He ->].
  apply bindW_inv in Hrun as (table & w1 & Ht & Hrun). injection Ht as <- <-.
  fold (overlapping_monoexons chrom s start end_ (tmp_monoexon w)) in Hrun.
  destruct (overlapping_monoexons chrom s start end_ (tmp_monoexon w)) as [|m rest] eqn:Em.
  - simpl in Hrun.
    apply identify_novel_monoexon_row in Hrun as (t & Ha & Hrow).
    set (row := {| m_gene_ID := a_gene_ID a; m_transcript_ID := t;
                   m_chromosome := chrom; m_start := start; m_end := end_;
                   m_strand := s; m_start_vertex := a_start_vertex a;
                   m_end_vertex := a_end_vertex a; m_exon_ID := a_start_exon a;
                   m_min_pos := Z.min start end_; m_max_pos := Z.max start end_ |}) in *.
    assert (Hrows : overlapping_monoexons chrom s start end_ (tmp_monoexon w') = [row]).
    { unfold overlapping_monoexons in *. rewrite Hrow, filter_app, Em. simpl.
      rewrite filter_cons_True; [done|]. by apply mono_where_own_interval. }
    exists (known_monoexon row start end_ s). split_and!; try done.
    apply identify_monoexon_known; [done|done|by rewrite Hrows|]. rewrite Hrows.
    cbn [best_overlap_loop].
    destruct (get_overlap (start, end_) (m_start row, m_end row)) as [overlap perc] eqn:Eo.
    pose proof (overlap_with_nonneg start end_ row) as Hnn.
    unfold overlap_with in Hnn. rewrite Eo in Hnn. simpl in Hnn.
    replace (overlap >=? 0) with true by (symmetry; rewrite Z.geb_leb; apply Z.leb_le; lia).
    done.
  - replace (0 <? Py.len (m :: rest)) with true in Hrun
      by (symmetry; apply Z.ltb_lt; unfold Py.len; simpl; lia).
    destruct (best_overlap_loop (m :: rest) start end_ 0 None) as [b|] eqn:Eb; [|done].
    injection Hrun as <- <-. eexists. split; [exact Hfirst|]. done.
Qed.

End MonoexonFacts.

Lemma monoexon_match_is_last_of_largest_overlap_witness :
  ∃ pre b post,
    overlapping_monoexons "chr1" Plus 120 480 (tmp_monoexon plus_monoexons)
    = pre ++ b :: post
    ∧ identify_monoexon_transcript first_per_gene "chr1" [120; 480] Plus ∅ ∅
                                   plain_options plus_monoexons
      = inr (known_monoexon b 120 480 Plus, plus_monoexons)
    ∧ (∀ m, m ∈ pre → overlap_with 120 480 m ≤ overlap_with 120 480 b)
    ∧ (∀ m, m ∈ post → overlap_with 120 480 m < overlap_with 120 480 b).
Proof.
  apply (monoexon_match_is_last_of_largest_overlap first_per_gene "chr1" [120; 480] Plus ∅ ∅
           plain_options plus_monoexons 120 480);
    [reflexivity|reflexivity|by vm_compute].
Defined.

Lemma monoexon_match_of_reversed_read_is_last_row_witness :
  identify_monoexon_transcript first_per_gene "chr1" [480; 120] Minus ∅ ∅
                               plain_options minus_monoexons
  = inr ({| a_gene_ID := 8; a_transcript_ID := Some 80;
            gene_novelty := []; transcript_novelty := []; exon_novelty := [];
            a_start_vertex := 13; a_end_vertex := 14;
            a_start_exon := 22; a_end_exon := 22;
            start_delta := Some (-30); end_delta := Some 320 |}, minus_monoexons).
Proof.
  assert (Hrows : overlapping_monoexons "chr1" Minus 480 120 (tmp_monoexon minus_monoexons)
                  = [ {| m_gene_ID := 7; m_transcript_ID := 70; m_chromosome := "chr1";
                         m_start := 500; m_end := 100; m_strand := Minus;
                         m_start_vertex := 11; m_end_vertex := 12; m_exon_ID := 21;
                         m_min_pos := 100; m_max_pos := 500 |} ]
                    ++ [ {| m_gene_ID := 8; m_transcript_ID := 80; m_chromosome := "chr1";
                            m_start := 450; m_end := 440; m_strand := Minus;
                            m_start_vertex := 13; m_end_vertex := 14; m_exon_ID := 22;
                            m_min_pos := 440; m_max_pos := 450 |} ])
    by (by vm_compute).
  exact (monoexon_match_of_reversed_read_is_last_row first_per_gene "chr1" [480; 120] Minus ∅ ∅
           plain_options minus_monoexons 480 120 _ _ eq_refl eq_refl eq_refl Hrows).
Defined.

Lemma monoexon_read_is_known_the_second_time_witness :
  ∃ a w' a',
    identify_monoexon_transcript first_per_gene "chr1" [1000; 2000] Plus ∅ ∅
                                 plain_options chr1_worker = inr (a, w')
    ∧ identify_monoexon_transcript first_per_gene "chr1" [1000; 2000] Plus ∅ ∅
                                   plain_options w' = inr (a', w')
    ∧ a_gene_ID a' = a_gene_ID a ∧ a_transcript_ID a' = a_transcript_ID a
    ∧ transcript_novelty a ≠ [] ∧ transcript_novelty a' = [].
Proof.
  destruct (identify_monoexon_transcript first_per_gene "chr1" [1000; 2000] Plus ∅ ∅
              plain_options chr1_worker) as [e|[a w']] eqn:E.
  { vm_compute in E. discriminate. }
  destruct (monoexon_read_is_known_the_second_time first_per_gene "chr1" [1000; 2000]
              Plus ∅ ∅ plain_options chr1_worker a w' E)
    as (a' & Hrun & Hg & Ht & _ & _ & _ & _ & Hn & _).
  exists a, w', a'. split_and!; try done.
  vm_compute in E. injection E as <- _. done.
Defined.


Lemma stored_count_read abundance key d t :
  stored_count (count_read abundance key) d t
  = if decide ((d, t) = key) then Some (default 0 (stored_count abundance d t) + 1)
    else stored_count abundance d t.
Proof.
  destruct key as [kd kt]. unfold stored_count, count_read. cbn [fst snd].
  destruct (decide (d = kd)) as [->|Hd].
  - rewrite alist_lookup_insert_eq. cbn [mbind option_bind].
    destruct (decide (t = kt)) as [->|Ht].
    + rewrite decide_True by done. rewrite alist_lookup_insert_eq.
      by destruct (alist_lookup kd abundance).
    + rewrite decide_False by congruence. rewrite alist_lookup_insert_ne by done.
      by destruct (alist_lookup kd abundance).
  - rewrite decide_False by congruence. by rewrite alist_lookup_insert_ne.
Qed.

Lemma occurrences_nonneg keys key : 0 ≤ occurrences keys key.
Proof. unfold occurrences. lia. Qed.

Lemma occurrences_cons k keys key :
  occurrences (k :: keys) key
  = (if decide (key = k) then 1 else 0) + occurrences keys key.
Proof.
  unfold occurrences. destruct (decide (key = k)) as [->|Hne].
  - rewrite filter_cons_True by done. simpl. lia.
  - rewrite filter_cons_False by congruence. lia.
Qed.

Lemma occurrences_pos keys key : 0 < occurrences keys key ↔ key ∈ keys.
Proof.
  unfold occurrences. split.
  - intros Hpos. destruct (filter (λ k, k = key) keys) as [|k l] eqn:E; [simpl in Hpos; lia|].
    assert (Hk : k ∈ filter (λ k, k = key) keys) by (rewrite E; left).
    apply list_elem_of_filter in Hk as [-> Hk]. done.
  - intros Hin.
    assert (Hk : key ∈ filter (λ k, k = key) keys) by (by apply list_elem_of_filter).
    destruct (filter (λ k, k = key) keys); [by apply elem_of_nil in Hk|]. simpl. lia.
Qed.

Lemma stored_count_foldl keys : ∀ abundance d t,
  stored_count (foldl count_read abundance keys) d t
  = if decide (occurrences keys (d, t) = 0) then stored_count abundance d t
    else Some (default 0 (stored_count abundance d t) + occurrences keys (d, t)).
Proof.
  induction keys as [|k keys IH]; intros abundance d t.
  { by rewrite decide_True. }
  cbn [foldl]. rewrite IH, stored_count_read, occurrences_cons.
  pose proof (occurrences_nonneg keys (d, t)).
  destruct (decide ((d, t) = k)) as [<-|Hne].
  - rewrite (decide_False (P := _ + _ = 0)) by lia.
    destruct (decide (occurrences keys (d, t) = 0)) as [->|_]; simpl; f_equal; lia.
  - destruct (decide (occurrences keys (d, t) = 0)) as [E|E].
    + rewrite decide_True by lia. done.
    + rewrite decide_False by lia. done.
Qed.

Lemma alist_insert_Forall {K V} `{EqDecision K} (P : K * V → Prop) k v l :
  Forall P l → P (k, v) → Forall P (alist_insert k v l).
Proof.
  intros Hl Hkv. induction Hl as [|[k' v'] l Hx Hl IH]; simpl.
  - by constructor.
  - destruct (decide (k' = k)); constructor; done.
Qed.

Lemma alist_insert_NoDup {K V} `{EqDecision K} (k : K) (v : V) l :
  NoDup l.*1 → NoDup (alist_insert k v l).*1.
Proof.
  intros Hl. rewrite alist_insert_keys. destruct (decide (k ∈ l.*1)); [done|].
  apply NoDup_app. split_and!; [done| |apply NoDup_singleton].
  intros x Hx ->%list_elem_of_singleton. done.
Qed.

Lemma alist_lookup_elem {K V} `{EqDecision K} (k : K) (v : V) l :
  alist_lookup k l = Some v → (k, v) ∈ l.
Proof.
  induction l as [|[k' v'] l IH]; [done|]. simpl.
  destruct (decide (k' = k)) as [->|Hne].
  - intros [= ->]. left.
  - intros Hl. right. by apply IH.
Qed.

Lemma alist_lookup_NoDup {K V} `{EqDecision K} (k : K) (v : V) l :
  NoDup l.*1 → (k, v) ∈ l → alist_lookup k l = Some v.
Proof.
  induction l as [|[k' v'] l IH]; [by intros _ ?%elem_of_nil|].
  rewrite fmap_cons. cbn [fst alist_lookup]. intros [Hnin Hl]%NoDup_cons Hin.
  apply elem_of_cons in Hin as [[= <- <-]|Hin].
  - by rewrite decide_True.
  - rewrite decide_False; [by apply IH|]. intros ->. apply Hnin.
    apply list_elem_of_fmap. by exists (k, v).
Qed.

Lemma distinct_keys_read abundance key :
  distinct_keys abundance → distinct_keys (count_read abundance key).
Proof.
  intros [Hk Hv]. unfold count_read. split.
  - by apply alist_insert_NoDup.
  - apply alist_insert_Forall; [done|]. cbn [snd]. apply alist_insert_NoDup.
    destruct (alist_lookup key.1 abundance) as [per|] eqn:E; simpl; [|constructor].
    apply alist_lookup_elem in E. rewrite Forall_forall in Hv. exact (Hv _ E).
Qed.

Lemma distinct_keys_foldl keys : ∀ abundance,
  distinct_keys abundance → distinct_keys (foldl count_read abundance keys).
Proof.
  induction keys as [|k keys IH]; intros abundance Hd; [done|].
  cbn [foldl]. by apply IH, distinct_keys_read.
Qed.

Lemma elem_of_abundance_tuples abundance r :
  distinct_keys abundance →
  r ∈ abundance_tuples abundance
  ↔ ∃ d t n, stored_count abundance d t = Some n
             ∧ r = [Some t; Some d; Some (Py.str n)].
Proof.
  intros [Hk Hv]. unfold abundance_tuples, stored_count. rewrite list_elem_of_bind. split.
  - intros ([d per] & Hr & Hd). apply list_elem_of_bind in Hr as ([t n] & Hr & Ht).
    apply list_elem_of_singleton in Hr as ->. exists d, t, n. split; [|done].
    rewrite (alist_lookup_NoDup d per) by done. simpl.
    apply alist_lookup_NoDup; [|done]. rewrite Forall_forall in Hv. exact (Hv _ Hd).
  - intros (d & t & n & Hs & ->).
    destruct (alist_lookup d abundance) as [per|] eqn:Ed; [|done]. simpl in Hs.
    exists (d, per). split; [|by apply alist_lookup_elem].
    apply list_elem_of_bind. exists (t, n). split; [by apply list_elem_of_singleton|].
    by apply alist_lookup_elem.
Qed.

Lemma NoDup_abundance_tuples abundance :
  distinct_keys abundance → NoDup (abundance_tuples abundance).
Proof.
  intros [Hk Hv]. unfold abundance_tuples. apply NoDup_bind.
  - intros [d1 per1] [d2 per2] r H1 H2 Hr1 Hr2.
    apply list_elem_of_bind in Hr1 as ([t1 n1] & Hr1 & _).
    apply list_elem_of_bind in Hr2 as ([t2 n2] & Hr2 & _).
    apply list_elem_of_singleton in Hr1 as ->.
    apply list_elem_of_singleton in Hr2 as [= _ <- _].
    f_equal. apply (alist_lookup_NoDup d1 per1) in H1; [|done].
    apply (alist_lookup_NoDup d1 per2) in H2; [|done]. congruence.
  - intros [d per] Hd. rewrite Forall_forall in Hv. specialize (Hv _ Hd). cbn [snd] in Hv.
    apply NoDup_bind.
    + intros [t1 n1] [t2 n2] r H1 H2 Hr1 Hr2.
      apply list_elem_of_singleton in Hr1 as ->.
      apply list_elem_of_singleton in Hr2 as [= <- _].
      f_equal. apply (alist_lookup_NoDup t1 n1) in H1; [|done].
      apply (alist_lookup_NoDup t1 n2) in H2; [|done]. congruence.
    + intros [t n] _. apply NoDup_singleton.
    + by apply NoDup_fmap_1 with fst.
  - by apply NoDup_fmap_1 with fst.
Qed.

(** The tuples made from the dictionary that counted [keys]. *)
Lemma abundance_tuples_of_keys keys :
  NoDup (abundance_tuples (foldl count_read [] keys))
  ∧ ∀ r, r ∈ abundance_tuples (foldl count_read [] keys)
         ↔ ∃ d t, (d, t) ∈ keys
                  ∧ r = [Some t; Some d; Some (Py.str (occurrences keys (d, t)))].
Proof.
  assert (Hd : distinct_keys (foldl count_read [] keys)).
  { apply distinct_keys_foldl. split; constructor. }
  split; [by apply NoDup_abundance_tuples|].
  intros r. rewrite elem_of_abundance_tuples by done. split.
  - intros (d & t & n & Hs & ->). rewrite stored_count_foldl in Hs.
    pose proof (occurrences_nonneg keys (d, t)).
    destruct (decide (occurrences keys (d, t) = 0)); [done|].
    injection Hs as <-. exists d, t. split; [apply occurrences_pos; lia|].
    by rewrite Z.add_0_l.
  - intros (d & t & Hin & ->). exists d, t, (occurrences keys (d, t)). split; [|done].
    rewrite stored_count_foldl. apply occurrences_pos in Hin.
    rewrite decide_False by lia. by rewrite Z.add_0_l.
Qed.

Section AbundanceFacts.

Variable executemany : insert_kind → string → list row → database → result database.

Lemma add_observed_batches_keys bs : ∀ abundance c abundance' c',
  add_observed_batches executemany bs abundance c = (inr abundance', c') →
  ∃ keys,
    Forall2 (λ line key, ∃ r, observed_row line = inr (r, key)) (concat bs) keys
    ∧ abundance' = foldl count_read abundance keys.
Proof.
  induction bs as [|b bs IH]; intros abundance c abundance' c' Hrun.
  { injection Hrun as <- <-. exists []. split; [constructor|done]. }
  cbn [add_observed_batches] in Hrun.
  destruct (mapM _ b) as [parsed|] eqn:Ep; [|done].
  unfold bindT in Hrun.
  destruct (try_executemany executemany Insert "observed" parsed.*1 c) as [[e|[]] c1];
    [done|].
  apply IH in Hrun as (keys & Hkeys & ->).
  exists (parsed.*2 ++ keys). split; [|by rewrite foldl_app].
  cbn [concat]. apply Forall2_app; [|done].
  apply mapM_Some in Ep. clear -Ep.
  induction Ep as [|line [r key] b parsed Hx Hl IH]; [constructor|].
  rewrite fmap_cons. constructor; [|done].
  destruct (observed_row line) as [e|rk]; [done|]. injection Hx as ->. by exists r.
Qed.

(** X25. When [batch_add_observed] has read the observed file without an
    error, the abundance tuples it hands to [batch_add_abundance] hold one
    tuple for each pair of dataset and transcript that occurs in the file,
    with the number of lines of that pair as the count, and nothing else. *)
Theorem abundance_counts_the_observed_lines (batch_size : nat) (lines : list string)
    c abundance c' :
  (0 < batch_size)%nat →
  add_observed_batches executemany (batches batch_size lines) [] c
  = (inr abundance, c') →
  ∃ keys,
    Forall2 (λ line key, ∃ r, observed_row line = inr (r, key)) lines keys
    ∧ NoDup (abundance_tuples abundance)
    ∧ ∀ r, r ∈ abundance_tuples abundance
           ↔ ∃ dataset tid,
               (dataset, tid) ∈ keys
               ∧ r = [Some tid; Some dataset;
                      Some (Py.str (occurrences keys (dataset, tid)))].
Proof.
  intros Hn Hrun. apply add_observed_batches_keys in Hrun as (keys & Hkeys & ->).
  unfold batches in Hkeys.
  destruct (batches_of_spec batch_size (length lines) lines Hn) as (Hcat & _); [done|].
  rewrite Hcat in Hkeys. exists keys. split; [done|]. apply abundance_tuples_of_keys.
Qed.

End AbundanceFacts.

Lemma abundance_counts_the_observed_lines_witness :
  ∃ abundance c',
    add_observed_batches append_rows (batches 2 three_reads) []
      {| committed := empty_store; working := empty_store; logged := [] |}
    = (inr abundance, c')
    ∧ abundance_tuples abundance
      = [[Some "7"; Some "d1"; Some "2"]; [Some "7"; Some "d2"; Some "1"]]
    ∧ ∃ keys,
        Forall2 (λ line key, ∃ r, observed_row line = inr (r, key)) three_reads keys
        ∧ NoDup (abundance_tuples abundance).
Proof.
  destruct (add_observed_batches append_rows (batches 2 three_reads) []
              {| committed := empty_store; working := empty_store; logged := [] |})
    as [[e|abundance] c'] eqn:E.
  { vm_compute in E. discriminate. }
  destruct (abundance_counts_the_observed_lines append_rows 2 three_reads _ abundance c'
              ltac:(lia) E) as (keys & Hkeys & Hnd & _).
  exists abundance, c'. split_and!; [done| |by exists keys].
  vm_compute in E. by injection E as <- _.
Defined.



Lemma zeros_S (k : nat) :
  Py.join "" (replicate (S k) "0") = String "0" (Py.join "" (replicate k "0")).
Proof. destruct k; reflexivity. Qed.

Lemma pretty_N_char_nonzero (x : N) :
  (x ≠ 0)%N →
  pretty_N_char x ≠ "0"%char ∧ pretty_N_char x ≠ "+"%char ∧ pretty_N_char x ≠ "-"%char.
Proof. intros Hx. unfold pretty_N_char. repeat case_match; done. Qed.

Lemma pretty_N_char_no_sign (x : N) :
  pretty_N_char x ≠ "+"%char ∧ pretty_N_char x ≠ "-"%char.
Proof. unfold pretty_N_char. repeat case_match; done. Qed.

(** The decimal digits of a positive number do not start with a zero. *)
Lemma pretty_N_go_head (x : N) : ∀ s,
  (0 < x)%N →
  ∃ a rest, pretty_N_go x s = String a rest
            ∧ a ≠ "0"%char ∧ a ≠ "+"%char ∧ a ≠ "-"%char.
Proof.
  induction (N.lt_wf_0 x) as [x _ IH]. intros s Hx.
  rewrite pretty_N_go_step by done.
  destruct (decide (x `div` 10 = 0)%N) as [E|E].
  - rewrite E, pretty_N_go_0. eexists _, _. split; [done|].
    apply pretty_N_char_nonzero. apply N.div_small_iff in E; [|done].
    rewrite N.mod_small by done. intros ->. by apply N.lt_irrefl in Hx.
  - apply IH; [apply N.div_lt; [done|by compute]|by apply N.neq_0_lt_0].
Qed.

Lemma str_nonneg_head (z : Z) :
  0 ≤ z →
  (z = 0 ∧ Py.str z = "0")
  ∨ ∃ a rest, Py.str z = String a rest ∧ a ≠ "0"%char ∧ a ≠ "+"%char ∧ a ≠ "-"%char.
Proof.
  intros Hz. destruct z as [|p|p]; [by left| |lia]. right.
  unfold Py.str, pretty, pretty_Z, pretty, pretty_positive, pretty, pretty_N.
  rewrite decide_False by done. by apply pretty_N_go_head.
Qed.

Lemma zfill_nonneg (z width : Z) :
  0 ≤ z →
  zfill (Py.str z) width
  = Py.join "" (replicate (Z.to_nat (width - Z.of_nat (String.length (Py.str z)))) "0")
    +:+ Py.str z.
Proof.
  intros Hz. unfold zfill.
  destruct (str_nonneg_head z Hz) as [[_ ->]|(a & rest & -> & _ & Hp & Hm)]; [done|].
  rewrite bool_decide_eq_false_2; [done|]. by intros [?|?].
Qed.

Lemma zeros_cancel (sa sb : string) : ∀ ka kb : nat,
  Py.join "" (replicate ka "0") +:+ sa = Py.join "" (replicate kb "0") +:+ sb →
  (ka ≤ kb)%nat →
  sa = Py.join "" (replicate (kb - ka) "0") +:+ sb.
Proof.
  induction ka as [|ka IH]; intros kb Heq Hle.
  - by rewrite Nat.sub_0_r.
  - destruct kb as [|kb]; [lia|]. rewrite !zeros_S in Heq. injection Heq as Heq.
    rewrite Nat.sub_succ. apply IH; [done|lia].
Qed.

Lemma zeros_then_digits (a b : Z) (d : nat) :
  0 ≤ a → 0 ≤ b →
  Py.str a = Py.join "" (replicate d "0") +:+ Py.str b → a = b.
Proof.
  intros Ha Hb Heq. destruct d as [|d].
  { apply (inj (pretty (A := Z))). exact Heq. }
  rewrite zeros_S in Heq.
  destruct (str_nonneg_head a Ha) as [[_ Ea]|(c & rest & Ea & Hc & _)];
    rewrite Ea in Heq.
  - injection Heq as Heq.
    destruct (str_nonneg_head b Hb) as [[_ Eb]|(c & rest & Eb & _)];
      rewrite Eb in Heq; by destruct (Py.join "" (replicate d "0")).
  - by injection Heq as -> _.
Qed.

Lemma zfill_str_inj (a b width : Z) :
  0 ≤ a → 0 ≤ b → zfill (Py.str a) width = zfill (Py.str b) width → a = b.
Proof.
  intros Ha Hb. rewrite !zfill_nonneg by done.
  set (ka := Z.to_nat (width - Z.of_nat (String.length (Py.str a)))).
  set (kb := Z.to_nat (width - Z.of_nat (String.length (Py.str b)))).
  intros Heq. destruct (decide (ka ≤ kb)%nat) as [Hle|Hgt].
  - apply zeros_cancel in Heq; [|done]. by apply zeros_then_digits in Heq.
  - symmetry in Heq. apply zeros_cancel in Heq; [|lia].
    symmetry. by apply zeros_then_digits in Heq.
Qed.

Lemma length_zeros (k : nat) :
  String.length (Py.join "" (replicate k "0")) = k.
Proof. induction k as [|k IH]; [done|]. rewrite zeros_S. simpl. by rewrite IH. Qed.

Lemma string_length_app (s1 s2 : string) :
  String.length (s1 +:+ s2) = (String.length s1 + String.length s2)%nat.
Proof. induction s1 as [|a s1 IH]; [done|]. simpl. by rewrite IH. Qed.

Lemma length_zfill_nonneg (z width : Z) :
  0 ≤ z →
  Z.of_nat (String.length (zfill (Py.str z) width))
  = Z.max width (Z.of_nat (String.length (Py.str z))).
Proof.
  intros Hz. rewrite zfill_nonneg, string_length_app, length_zeros by done. lia.
Qed.

(** X26. The names that [construct_names] makes for IDs that are not
    negative: two genes have the same name only if they have the same ID, and
    so for transcripts; no gene name is a transcript name; and the number in
    a name is written on [n_places] characters, or on as many as its digits
    need when these are more. *)
Theorem construct_names_are_distinct (g1 g2 t1 t2 : Z) (prefix : string) (places : Z) :
  0 ≤ g1 → 0 ≤ g2 → 0 ≤ t1 → 0 ≤ t2 →
  let names1 := construct_names (Some g1) (Some t1) prefix places in
  let names2 := construct_names (Some g2) (Some t2) prefix places in
  (names1.1 = names2.1 → g1 = g2)
  ∧ (names1.2 = names2.2 → t1 = t2)
  ∧ names1.1 ≠ names2.2
  ∧ Z.of_nat (String.length names1.1)
    = Z.of_nat (String.length prefix) + 1
      + Z.max places (Z.of_nat (String.length (Py.str g1))).
Proof.
  intros Hg1 Hg2 Ht1 Ht2. unfold construct_names. cbn [fst snd str_or_None].
  split_and!.
  - intros Heq. apply (inj (String.app prefix)) in Heq. injection Heq as Heq.
    by apply zfill_str_inj in Heq.
  - intros Heq. apply (inj (String.app prefix)) in Heq. injection Heq as Heq.
    by apply zfill_str_inj in Heq.
  - intros Heq. apply (inj (String.app prefix)) in Heq. discriminate.
  - rewrite string_length_app.
    change (String.length ("G" +:+ zfill (Py.str g1) places))
      with (S (String.length (zfill (Py.str g1) places))).
    pose proof (length_zfill_nonneg g1 places Hg1). lia.
Qed.

Lemma construct_names_are_distinct_witness :
  construct_names (Some 7) (Some 12) "TALON" 9 = ("TALONG000000007", "TALONT000000012")
  ∧ (construct_names (Some 7) (Some 12) "TALON" 9).1
    ≠ (construct_names (Some 70) (Some 12) "TALON" 9).1.
Proof.
  split; [reflexivity|]. intros Heq.
  destruct (construct_names_are_distinct 7 70 12 12 "TALON" 9
              ltac:(lia) ltac:(lia) ltac:(lia) ltac:(lia)) as (Hg & _).
  specialize (Hg Heq). lia.
Defined.

